(* ===== verification/_CoqProject ===== *)
-Q . S2P
Prelude.v
RustStr.v
RustStrFacts.v
Float64.v
Float64Facts.v
Regexes.v
IpAddr.v
Laya.v
LayaFacts.v
Drain.v
DrainFacts.v
External.v
Arrow.v
Storage.v
StorageFacts.v
Merkle.v
MerkleFacts.v
Batcher.v
BatcherFacts.v
Tamper.v
TamperFacts.v
Queue.v
QueueFacts.v
Ocsf.v
ExtractCommon.v
PfSense.v
Fortigate.v
Cef.v
PaloAlto.v
Suricata.v
CiscoAsa.v
Classifier.v
Lru.v
Parser.v
Socket.v
Onboarder.v
Pipeline.v
ExtractFacts.v
TokenFacts.v
LruFacts.v
ParserFacts.v
FieldFacts.v
SocketFacts.v
Listener.v
ListenerFacts.v
OnboarderFacts.v
PipelineFacts.v
Threads.v
ThreadsFacts.v
GroundTruth.v
GroundTruthFacts.v
Evaluator.v
Benchmark.v
EvaluatorFacts.v
BenchmarkFacts.v
Duel.v
DuelFacts.v
Ingest.v
IngestFacts.v
ParserExport.v
ParserExportFacts.v
Cli.v
CliFacts.v
ServeState.v
Serve.v
ServeFacts.v
Router.v
RouterFacts.v
Live.v
LiveFacts.v
Scorecard.v
ScorecardFacts.v
Report.v
Evaluate.v
ReportFacts.v
Console.v
ConsoleFacts.v
Generator.v
GeneratorFacts.v
GeneratorConsole.v
