(* ===== verification/Prelude.v ===== *)
(** * ULPF: a verification of the log-processing planes

    ULPF turns raw lines of perimeter devices into OCSF events and keeps the raw
    lines in tamper-evident blocks.  This library translates its Rust crates
    into Rocq functions and proves what makes them correct.  Paths below are
    relative to [crates/].

    ** The program

    - Ingest ([ulpf-core/src/ingest]).  Listeners read datagrams and connections,
      cut them into lines and send batches over a channel; a bounded queue
      stands between producers and one consumer.
    - Parsing ([ulpf-core/src/parser], [ulpf-core/src/schema]).  A classifier
      picks a format, an extractor per vendor makes an OCSF event, a signature
      cache remembers the format of similar lines, and a line that no extractor
      takes becomes an event without fields.
    - Integrity ([ulpf-integrity/src]).  An accumulator collects raw lines,
      writes them as a block file with columns, builds a Merkle tree over them
      and appends its root to a ledger; an audit compares a block with its
      ledger entry; clients check inclusion and consistency proofs.
    - Learning ([ulpf-ai/src]).  A tiered pipeline asks the cache, then promoted
      routes, then a template miner; exemplars of unknown lines go to a worker
      that classifies them and synthesizes parsers, which a registry serves.
    - Measurement ([ulpf-ai/src/evaluator.rs], [duel.rs]).  An audit grades an
      engine against ground truth derived from the lines or read from sidecar
      files, worker threads measure throughput and latency, and a duel compares
      the miner with and without its additions.
    - Commands ([ulpf-cli/src]).  [ingest] joins listeners, queue, parser, miner
      and accumulator; [verify], [tamper], [inspect] and [onboard] work on what it
      leaves; a server answers over the same archive; [benchmark], [evaluate] and
      [scorecard] run the measurements and write reports.
    - Generator ([ulpf-generator/src]).  Workers replay data sets over UDP or TCP
      at a given rate.

    ** Files

    Shared by all parts:
    - [Prelude]: results, sequencing of code that may panic or fail, wrapping
      integers with the rewrite base [wrap] and [wrap_simpl], [bool_hyps],
      lemmas on lists.
    - [RustStr], [RustStrFacts]: the operations of [core::str] on UTF-8 bytes.
    - [Float64], [Float64Facts]: binary64 numbers.  [IpAddr]: [IpAddr::from_str].
    - [External], [Arrow], [Regexes]: crates that are not part of the repository
      (sha2, hex; arrow, parquet; regex), each a type class whose operations are
      the functions called and whose laws are the documented behaviour relied
      on.  Further classes stand beside their users: [LedgerJson] in [Batcher],
      [ChronoLib], [RegexLib], [JsonLib] in [ExtractCommon], [UnicodeLib] in
      [Fortigate], [AhoCorasick] in [Classifier], [UnicodeText] in [Onboarder],
      [LibM] in [Laya], [SidecarJson] and [UuidLib] in [Evaluator],
      [DefaultHasher] in [Benchmark], [DebugText] in [Duel], [EventJson] in
      [Ingest], [DefinitionJson] in [ParserExport], [RegexExpand] in [Cli],
      [FileBytes] and [LedgerValue] in [Serve], [UpperText] in [Scorecard].  The [Demo] modules
      give concrete instances.

    Integrity:
    - [Merkle] ([merkle.rs]): [Hash], [TreeNode], [from_leaf_hashes],
      [inclusion_proof], [consistency_proof] and the verifiers.
      [MerkleFacts] has the tree head of RFC 6962 as an inductive relation.
    - [Storage], [StorageFacts] ([storage.rs]): records, record batches with
      current and legacy columns, block files on a file system with faults.
    - [Batcher], [BatcherFacts] ([batcher.rs]): [push], [check_timeout], [flush],
      the ledger file, the restart.  The abstract machine is the list of
      batches flushed; [represents] relates it to the accumulator and its disk.
    - [Tamper], [TamperFacts] ([tamper.rs]): [verify_records],
      [verify_block_file], [verify_block_with_ledger], the report and its text.

    Ingest:
    - [Queue], [QueueFacts] ([queue.rs]): [push] as a program counter per
      producer, with the mutex, the condition variable, [pop_batch] and [close];
      an [Action] is what one thread does between two points where another can
      act, and a run is any sequence of actions.
    - [Socket], [SocketFacts] ([socket.rs]): the loops of the UDP and TCP
      listeners over the events of the runtime.
    - [Listener], [ListenerFacts] ([socket.rs]): the system calls that set a
      socket up, the accept loop with the tasks of its connections as a
      transition system, inline parsing and the worker pool.

    Parsing:
    - [Ocsf] ([schema/ocsf.rs]), [ExtractCommon] ([extractors/mod.rs]), [PfSense],
      [Fortigate], [Cef], [PaloAlto], [Suricata], [CiscoAsa]: the events and one
      [*_parse] per extractor.
    - [Classifier], [Lru], [Parser] ([classifier.rs], [lru_cache.rs],
      [parser/mod.rs]).
    - [ExtractFacts], [TokenFacts], [FieldFacts], [LruFacts], [ParserFacts].

    Learning:
    - [Drain], [DrainFacts] ([drain.rs]); [Laya], [LayaFacts] ([laya.rs]);
      [Onboarder], [OnboarderFacts] ([onboarder.rs]); [Pipeline],
      [PipelineFacts] ([pipeline.rs]).
    - [Threads], [ThreadsFacts] ([pipeline.rs]): the same pipeline under many
      threads.  A call of [process] and the triage worker are program counters;
      a step is one atomic, one critical section or one operation of cache or
      channel, and a run is any sequence of steps.
    - [ParserExport], [ParserExportFacts] ([onboarder.rs]): the JSON, YAML and
      Rust forms of a parser definition, and loading them into the registry.

    Measurement:
    - [GroundTruth], [GroundTruthFacts] ([evaluator.rs]): what a line says about
      itself: tags, verdicts, addresses, ports and protocols.
    - [Evaluator], [EvaluatorFacts]: the audit as a fold over the corpus, for any
      engine given as a parser and a clustering with states of their own.
    - [Benchmark], [BenchmarkFacts]: latency sampling, the worker threads as a
      schedule of turns, the two engines and the evaluation modes.
    - [Duel], [DuelFacts] ([duel.rs]): fixtures, rounds and scores.
    - [Report] ([evaluator.rs], [duel.rs]): the dashboard and the two markdown
      reports, as lists of lines.

    Commands:
    - [Ingest], [IngestFacts] ([main.rs], [run_ingest]): the whole of ingest as
      a transition system over the queue of [Queue], the accumulator of [Batcher]
      and the miner of [Drain]; an [IngestAction] is a step of one task.
    - [Cli], [CliFacts] ([main.rs]): the other commands as functions of the
      disk, with how the process ends.
    - [ServeState], [Serve], [ServeFacts] ([serve/]): the state of the server and
      one function per route, on a disk with faults.
    - [Router], [RouterFacts] ([serve/mod.rs]): the table of routes, a request as
      an endpoint with its arguments, [serve_requests] and the start of the
      server.
    - [Live], [LiveFacts]: ingest and server over the same directory, as a
      transition system of both; [flush_via] is a flush whose two writes have
      requests between them.
    - [Scorecard], [ScorecardFacts] ([scorecard.rs]): the box that is printed.
    - [Evaluate], [ReportFacts] ([main.rs]): [evaluate], [scorecard] and
      [benchmark] in a small monad of what is printed, what is written and how
      the process ends.
    - [Console], [ConsoleFacts] ([main.rs]): the start of [ingest], its live
      statistics and its last line, and what [benchmark] and [inspect] print.

    Generator:
    - [Generator], [GeneratorFacts] ([ulpf-generator/src]): data sets, the rate
      controller, the workers as folds over the rounds of their loops, counters
      and reporter.  [GeneratorConsole]: what it prints.

    ** Conventions

    A Rust function that can panic returns an [option], with [None] for the
    panic; a fallible one returns a [Result].  What a call draws from outside
    (clocks, UUIDs, faults of the disk) is an argument.  Integers are [Z] within
    the range of their type with wrap-around written out where the code can
    reach it; counts that the sources bound by memory are [nat].  A [HashMap] is
    a [gmap], and where its order of iteration can be seen the order is an
    argument; a [BTreeMap] is a list in the order of its keys.

    ** What is proved

    - Merkle trees: the tree built is that of RFC 6962 ([from_leaf_hashes_rfc6962]);
      proofs are found for every index and size and accepted
      ([inclusion_proof_complete], [consistency_proof_complete]); accepted proofs
      are honest and a root binds the logs, barring a collision among the
      strings that were hashed ([inclusion_proof_sound],
      [consistency_proof_sound], [merkle_root_binding]).
    - Storage, accumulator and audit: a block comes back from its file
      ([block_file_roundtrip]) or is refused for a stated reason
      ([block_write_refusal]); fault-free runs keep every accepted line once and
      in order ([batcher_lossless]) and a ledger that describes the blocks
      ([ledger_describes_blocks]), as long as no block can get more than the 128
      vendors that a column of it can name ([few_vendors], [bounded]; a batch
      with more is lost, [vendor_flood_drops_batch]), a condition of every
      claim below on whole runs of ingest; with faults the invariant remains
      ([batcher_invariant], [ledger_append_only]); the audit accepts every block
      written and what it accepts has the anchored lines
      ([flushed_blocks_verify], [verify_records_sound], [verify_records_verdict]).
    - Queue and listeners: bounded, first in first out and lossless in every
      interleaving, where what was acknowledged is read off the results of the
      calls ([queue_safety], [queue_accounting]); producers are parked
      only while the queue is full ([parked_only_while_full]); batches carry
      every line ([udp_batches_lossless], [tcp_connection_lossless]), also with
      any number of connections at once ([acceptor_lossless]).
    - Parsing: every event is well-formed and carries its line and digest
      ([parsed_event_ok]); lossless parsing is total on ASCII
      ([lossless_total_on_ascii]); tokenizers end and invert quoting and escaping
      ([kv_tokens_terminates], [csv_quoted_roundtrip], [cef_header_roundtrip]);
      the cache keeps its shape ([cache_invariant]).
    - Learning: templates cover their lines ([templates_cover_lines]) and never
      mix verdicts ([verdicts_never_mix]); onboarded parsers extract valid
      addresses from their samples, which are trimmed first
      ([onboarded_parser_sound], [padded_sample_refused]); the registry is
      bounded and evicts the least recently used ([registry_bounded],
      [register_evicts_least_used]); the decisions of the engine are calibrated
      and within its tables ([laya_decisions_sound]).  The pipeline gives each
      line one event, never that of a learned parser if the line is native, and
      keeps its books: call by call ([pipeline_lossless],
      [native_never_hijacked], [pipeline_books]) and in every interleaving of
      any number of threads with the worker, where every call returns after at
      most fifteen steps of its own ([concurrent_calls_return],
      [concurrent_books]); the steps of a call, undisturbed, are [process]
      ([process_is_its_steps]).
    - Ingest as a whole, which composes the parts: in every interleaving of the
      tasks nothing is lost, duplicated or reordered ([ingest_lossless]), and a
      shutdown that runs through leaves in the archive exactly the lines that the
      queue accepted, and nothing after it ([shutdown_lossless]): the lines that
      the consumer would skip are never accepted, since producers push valid,
      trimmed, non-empty text ([proper], [lines_inv]).  Requests to a server over the same directory
      do not disturb it, not even between the writes of a block and of its ledger
      line, and every answer lists exactly the ledger of its
      moment, all of it valid ([live_archive_valid]).  The other commands and the server are
      proved against the archive of such a run: [verify] accepts it and catches
      what [tamper] does ([tampering_is_detected]); the server lists it and its
      evidence bundles stand alone ([archive_served]); pages cover a block
      ([pages_cover_block]); whatever requests it handles, the archive stays
      valid, since drill and onboarding keep to their own files
      ([serving_keeps_archive]); [onboard] ends as it should ([onboard_exit]);
      the last line of [ingest] is true of the archive ([summary_true]).
    - Parser definitions: YAML gives back what it was given, but for quotes, for
      text of several lines and for digits of the score beyond the second
      ([yaml_roundtrip]).
    - Measurement: the books of the audit are complete for every engine
      ([audit_books]); the scan for addresses is the naive one
      ([distinct_ipv4_count_naive]); duel and evaluator compute the same grouping
      accuracy ([duel_grouping_is_evaluator]); counters are exact in every
      schedule ([worker_totals_exact]), percentiles are in order
      ([latency_percentiles_ordered]).  The command [evaluate] runs through on
      ASCII ([evaluation_runs_through]) and its file is the report, row by row
      ([evaluation_report_file]); [scorecard] ends and writes as stated
      ([scorecard_effect]).  The scorecard aligns its rows,
      groups digits and accounts for its gates ([row_aligned],
      [commas_grouping], [gates_accounted]).
    - Generator: a worker keeps to its rate and to its data set
      ([udp_rate_kept]), and what it sends over TCP is what the listener of
      [Socket] delivers ([tcp_traffic_arrives]), if its buffer can be allocated
      at all ([huge_batch_panics]).
    - What the code does against its intention is proved as well:
      [failed_flush_drops_batch], [vendor_flood_drops_batch],
      [substituted_block_passes], [padded_sample_refused], [huge_batch_panics],
      [metadata_not_covered], [inclusion_proof_index_not_bound],
      [close_loses_wakeup], [udp_timeout_starved], [full_node_never_matches],
      [class_keys_mix], [cache_changes_verdict], [nbsp_line_panics],
      [suricata_port_wraps], [eviction_is_fifo], [truncated_asa_aborts_audit],
      [zero_batch_size_starves], [inspect_panics_inside_char],
      [prove_ignores_ledger], [drill_always_claims_detection],
      [no_workers_panics], [failed_pool_keeps_running],
      [cues_outweigh_fingerprint], [gate_wraps].

    ** Fuel

    The recursions over Merkle trees halve a list and get its length as fuel;
    the verifier of consistency proofs gets the size of the tree; the key-value
    iterator gets the length of the line, of which every turn consumes a byte.
    That this is enough is part of [from_leaf_hashes_rfc6962],
    [inclusion_proof_complete], [consistency_proof_complete] and
    [kv_tokens_terminates].  All other recursion is structural.

    ** What is not modelled

    The kernel's sockets, the scheduler of the runtime and the delivery of
    signals, whose events are inputs; serde derives; the declarations of clap, the
    logger and the dispatch of [main]; the matching of URLs, the extraction of
    arguments, CORS, tar and gzip, which other crates do for the server; module
    declarations and re-exports.  A lock poisoned by a panic is left out where
    no critical section panics.  Atomics are sequentially consistent, although
    the sources use relaxed ordering: each counter is read and updated on its
    own, never to publish other memory.  Requests to the server are handled one
    after the other, which the runtime may overlap; in the benchmark a call of
    [process] runs in one piece ([Threads] has the calls step by step); a channel
    of capacity zero, which hands over only to a waiting receiver, does not occur
    in the sources and never sends here; the space that a queue reserves for its
    capacity is assumed to be there.  In [Live] the steps of producers do not fall
    between the two writes of a flush; they do not touch the disk and commute
    with them.

    Not proved: which of the generator's lines which extractor takes, beyond
    the lines that the [Demo] modules evaluate. *)

From Stdlib Require Export Lia ZArith Ascii.
From stdpp Require Export base tactics list gmap strings numbers pretty.

(** ** Machine integers *)

(** Rust's wrapping (release-build) arithmetic: values of a [w]-bit unsigned
    type are kept as [Z] in [0, 2^w). *)
Definition wrapu (w : Z) (z : Z) : Z := z mod 2 ^ w.

Definition u8_max : Z := 2 ^ 8 - 1.
Definition u16_max : Z := 2 ^ 16 - 1.
Definition u32_max : Z := 2 ^ 32 - 1.
Definition u64_max : Z := 2 ^ 64 - 1.

(** ** Results

    [Result E A] is Rust's [Result<A, E>].  A function that may panic returns
    an [option], with [None] for the panic. *)
Inductive Result (E A : Type) : Type :=
| Ok (a : A)
| Err (e : E).

Arguments Ok {E A} a.
Arguments Err {E A} e.

#[global] Instance result_ret {E} : MRet (Result E) := fun A a => Ok a.
#[global] Instance result_bind {E} : MBind (Result E) :=
  fun A B f r => match r with Ok a => f a | Err e => Err e end.
#[global] Instance result_fmap {E} : FMap (Result E) :=
  fun A B f r => match r with Ok a => Ok (f a) | Err e => Err e end.

(** [Result::ok] *)
Definition result_ok {E A} (r : Result E A) : option A :=
  match r with Ok a => Some a | Err _ => None end.

Lemma result_default {E A} (r : Result E A) d :
  (match r with Ok _ => true | Err _ => false end) = true -> r = Ok (default d (result_ok r)).
Proof. by destruct r. Qed.

(** [Option::ok_or] *)
Definition ok_or {E A} (o : option A) (e : E) : Result E A :=
  match o with Some a => Ok a | None => Err e end.

#[global] Instance result_eq_dec {E A} `{EqDecision E} `{EqDecision A} :
  EqDecision (Result E A).
Proof. solve_decision. Defined.

(** ** Sequencing

    [x <-! m ; k]: [m] may panic.  [x <-? m ; k]: [m] may panic or return an
    error, which [?] propagates. *)
Definition xbind {E A B} (m : option (Result E A)) (f : A -> option (Result E B))
  : option (Result E B) :=
  match m with
  | None => None
  | Some (Err e) => Some (Err e)
  | Some (Ok a) => f a
  end.

Declare Scope rust_scope.
Delimit Scope rust_scope with rust.

Notation "x <-! m ; k" := (match m with Some x => k | None => None end)
  (at level 100, m at level 90, right associativity) : rust_scope.
Notation "x <-? m ; k" := (xbind m (fun x => k))
  (at level 100, m at level 90, right associativity) : rust_scope.

Open Scope rust_scope.

(** ** Automation *)

(** Boolean hypotheses into propositions, conjunctions taken apart. *)
Ltac bool_hyps :=
  repeat match goal with
  | H : _ && _ = true |- _ => apply andb_true_iff in H as [? ?]
  | H : _ || _ = false |- _ => apply orb_false_iff in H as [? ?]
  | H : negb _ = true |- _ => apply negb_true_iff in H
  | H : negb _ = false |- _ => apply negb_false_iff in H
  | H : (_ <=? _)%nat = true |- _ => apply Nat.leb_le in H
  | H : (_ <? _)%nat = true |- _ => apply Nat.ltb_lt in H
  | H : (_ =? _)%nat = true |- _ => apply Nat.eqb_eq in H
  | H : (_ <=? _)%Z = true |- _ => apply Z.leb_le in H
  | H : (_ <? _)%Z = true |- _ => apply Z.ltb_lt in H
  | H : (_ =? _)%Z = true |- _ => apply Z.eqb_eq in H
  end.

(** ** Wrapping counters

    A counter that is only ever changed by wrapping additions and subtractions
    holds the true number modulo its width. *)

Lemma wrapu_add w x y : wrapu w (wrapu w x + y) = wrapu w (x + y).
Proof. unfold wrapu. by rewrite Zplus_mod_idemp_l. Qed.

Lemma wrapu_sub w x y : wrapu w (wrapu w x - y) = wrapu w (x - y).
Proof. unfold wrapu. by rewrite Zminus_mod_idemp_l. Qed.

Lemma wrapu_sub_r w x y : wrapu w (x - wrapu w y) = wrapu w (x - y).
Proof. unfold wrapu. by rewrite Zminus_mod_idemp_r. Qed.

Lemma wrapu_idem w x : wrapu w (wrapu w x) = wrapu w x.
Proof. unfold wrapu. by rewrite Zmod_mod. Qed.

Lemma wrapu_range w x : (0 <= w)%Z -> (0 <= wrapu w x <= 2 ^ w - 1)%Z.
Proof.
  intros Hw. unfold wrapu. assert (0 < 2 ^ w)%Z as Hp by (apply Z.pow_pos_nonneg; lia).
  pose proof (Z.mod_pos_bound x (2 ^ w) Hp). lia.
Qed.

Lemma wrapu_small w x : (0 <= x <= 2 ^ w - 1)%Z -> wrapu w x = x.
Proof. unfold wrapu. intros Hx. apply Z.mod_small. lia. Qed.

Create HintDb wrap discriminated.
#[export] Hint Rewrite wrapu_add wrapu_sub wrapu_sub_r wrapu_idem : wrap.

Definition u64 (z : Z) : Z := wrapu 64 z.

Ltac wrap_simpl := unfold u64; autorewrite with wrap.

(** Equal counters: wrapped at different points, equal as integers. *)
Ltac wrap_lia := wrap_simpl; rewrite ?Z.add_simpl_r; wrap_simpl; apply (f_equal (wrapu 64)); lia.

(** ** Lists *)

Lemma foldl_inv {A B} (P : A -> Prop) (f : A -> B -> A) l : (forall a b, P a -> P (f a b)) ->
  forall a, P a -> P (foldl f a l).
Proof. intros Hf. induction l as [|b l IH]; intros a Ha; simpl; auto. Qed.

Lemma filter_full {A} (p : A -> bool) l : length (List.filter p l) = length l -> Forall (fun x => p x = true) l.
Proof.
  induction l as [|x l IH]; simpl; [constructor|]. destruct (p x) eqn:E; simpl; intros Hl.
  - constructor; [done|]. apply IH. lia.
  - pose proof (List.filter_length_le p l). lia.
Qed.

Lemma concat_nil {A} (l : list (list A)) : concat l = [] <-> Forall (fun x => x = []) l.
Proof.
  induction l as [|x l IH]; simpl; [by split|].
  rewrite Forall_cons, <- IH. split; [by intros [-> ->]%app_eq_nil|by intros [-> ->]].
Qed.

Lemma elem_of_concat {A} (x : A) ls : x ∈ concat ls <-> exists l, l ∈ ls /\ x ∈ l.
Proof. setoid_rewrite list_elem_of_In. rewrite in_concat. naive_solver. Qed.

Lemma elem_of_snoc {A} (l : list A) x y : x ∈ l ++ [y] -> x ∈ l \/ x = y.
Proof. intros [Hb| ->%list_elem_of_singleton]%elem_of_app; auto. Qed.
