(* ===== verification/RustStr.v ===== *)
(** * Rust strings

    The operations of [core::str] that the sources use, on byte strings.  A
    Rust [&str] is its UTF-8 bytes: a [string] here, one [ascii] per byte.
    Byte offsets, [len] and slices are those of Rust; the operations that look
    at [char]s ([trim], [is_whitespace], ...) decode UTF-8 through [chars].  On
    the (never occurring) ill-formed byte a [char] is that byte alone, so that
    [chars] is total and loses nothing. *)

From S2P Require Export Prelude.

#[global] Arguments String.append !s1 s2 : simpl nomatch, rename.

(** ** Bytes and slices *)

Definition byte_val (a : ascii) : Z := Z.of_N (N_of_ascii a).

(** [&s[..n]] *)
Fixpoint str_take (n : nat) (s : string) : string :=
  match n, s with
  | S n', String a s' => String a (str_take n' s')
  | _, _ => ""
  end.

(** [&s[n..]] *)
Fixpoint str_drop (n : nat) (s : string) : string :=
  match n, s with
  | S n', String _ s' => str_drop n' s'
  | O, _ => s
  | _, _ => ""
  end.

(** [&s[a..b]] *)
Definition str_slice (a b : nat) (s : string) : string := str_take (b - a) (str_drop a s).

Definition is_empty (s : string) : bool := match s with "" => true | _ => false end.

(** [concat] of string pieces. *)
Definition str_concat (l : list string) : string := foldr String.append "" l.

(** [join(sep)] *)
Fixpoint str_join (sep : string) (l : list string) : string :=
  match l with
  | [] => ""
  | [x] => x
  | x :: l' => x +:+ sep +:+ str_join sep l'
  end.

(** ** Searching *)

Definition starts_with (p s : string) : bool := String.prefix p s.

Fixpoint strip_prefix (p s : string) : option string :=
  match p, s with
  | "", _ => Some s
  | String a p', String b s' => if Ascii.eqb a b then strip_prefix p' s' else None
  | _, _ => None
  end.

(** [s.find(p)]: byte offset of the first occurrence. *)
Fixpoint find (p s : string) : option nat :=
  if String.prefix p s then Some 0
  else match s with
       | "" => None
       | String _ s' => S <$> find p s'
       end.

Definition contains (p s : string) : bool :=
  match find p s with Some _ => true | None => false end.

Fixpoint find_byte (p : ascii -> bool) (s : string) : option nat :=
  match s with
  | "" => None
  | String a s' => if p a then Some 0 else S <$> find_byte p s'
  end.

Fixpoint all_bytes (p : ascii -> bool) (s : string) : bool :=
  match s with
  | "" => true
  | String a s' => p a && all_bytes p s'
  end.

Fixpoint count_byte (c : ascii) (s : string) : nat :=
  match s with
  | "" => 0
  | String a s' => (if Ascii.eqb a c then 1 else 0) + count_byte c s'
  end.

(** [s.replace(from, to)], for a pattern [from] that is not empty: leftmost,
    non-overlapping occurrences.  [skip] counts the bytes of a match still to
    be passed over. *)
Fixpoint replace_aux (from to_ : string) (skip : nat) (s : string) : string :=
  match s with
  | "" => ""
  | String a s' =>
      match skip with
      | S k => replace_aux from to_ k s'
      | O => if String.prefix from s
             then to_ +:+ replace_aux from to_ (Nat.pred (String.length from)) s'
             else String a (replace_aux from to_ 0 s')
      end
  end.

Definition replace (from to_ s : string) : string := replace_aux from to_ 0 s.

(** [s.split(c)] for an ASCII separator. *)
Fixpoint split_char (c : ascii) (s : string) : list string :=
  match s with
  | "" => [""]
  | String a s' =>
      if Ascii.eqb a c then "" :: split_char c s'
      else match split_char c s' with
           | h :: t => String a h :: t
           | [] => [String a ""]
           end
  end.

(** ** Characters *)

(** Length in bytes of the UTF-8 sequence that a leading byte announces. *)
Definition utf8_width (a : ascii) : nat :=
  let b := byte_val a in
  if (b <? 192)%Z then 1
  else if (b <? 224)%Z then 2
  else if (b <? 240)%Z then 3
  else if (b <? 248)%Z then 4
  else 1.

(** [s.chars()]: each character as its UTF-8 bytes. *)
Fixpoint chars (s : string) : list string :=
  match s with
  | "" => []
  | String a s1 =>
      match utf8_width a, s1 with
      | 2, String b s2 => String a (String b "") :: chars s2
      | 3, String b (String c s3) => String a (String b (String c "")) :: chars s3
      | 4, String b (String c (String d s4)) =>
          String a (String b (String c (String d ""))) :: chars s4
      | _, _ => String a "" :: chars s1
      end
  end.

(** [is_char_boundary]: an offset at an end or at a byte that is no
    continuation byte [10xxxxxx]. *)
Definition is_char_boundary (s : string) (i : nat) : bool :=
  if (i =? 0)%nat then true
  else match str_drop i s with
       | "" => (i =? String.length s)%nat
       | String a _ => negb ((128 <=? byte_val a)%Z && (byte_val a <? 192)%Z)
       end.

(** [floor_char_boundary] *)
Fixpoint floor_char_boundary_at (s : string) (i : nat) : nat :=
  if is_char_boundary s i then i
  else match i with O => 0 | S i' => floor_char_boundary_at s i' end.

Definition floor_char_boundary (s : string) (i : nat) : nat :=
  if (String.length s <=? i)%nat then String.length s else floor_char_boundary_at s i.

Definition bytes_to_str (l : list Z) : string :=
  foldr (fun z s => String (ascii_of_N (Z.to_N z)) s) "" l.

(** [char::is_whitespace]: the Unicode [White_Space] characters. *)
Definition unicode_whitespace : list string :=
  bytes_to_str <$>
    [ [9]; [10]; [11]; [12]; [13]; [32]; [194; 133]; [194; 160]; [225; 154; 128];
      [226; 128; 128]; [226; 128; 129]; [226; 128; 130]; [226; 128; 131];
      [226; 128; 132]; [226; 128; 133]; [226; 128; 134]; [226; 128; 135];
      [226; 128; 136]; [226; 128; 137]; [226; 128; 138]; [226; 128; 168];
      [226; 128; 169]; [226; 128; 175]; [226; 129; 159]; [227; 128; 128] ]%Z.

Definition is_whitespace (c : string) : bool := existsb (String.eqb c) unicode_whitespace.

Definition ascii_in (lo hi : Z) (a : ascii) : bool :=
  ((lo <=? byte_val a) && (byte_val a <=? hi))%Z.

Definition is_ascii_digit (a : ascii) : bool := ascii_in 48 57 a.
Definition is_ascii_alnum (a : ascii) : bool :=
  ascii_in 48 57 a || ascii_in 65 90 a || ascii_in 97 122 a.

(** A predicate on ASCII characters, as one on characters. *)
Definition char_is (p : ascii -> bool) (c : string) : bool :=
  match c with String a "" => p a | _ => false end.

(** [s.find(p)] and [s.rfind(p)] for a predicate on characters: the byte
    offset of the first or last character that satisfies it. *)
Fixpoint find_char_in (p : string -> bool) (cs : list string) : option nat :=
  match cs with
  | [] => None
  | c :: cs' => if p c then Some 0 else Nat.add (String.length c) <$> find_char_in p cs'
  end.

Fixpoint rfind_char_in (p : string -> bool) (cs : list string) : option nat :=
  match cs with
  | [] => None
  | c :: cs' =>
      match rfind_char_in p cs' with
      | Some n => Some (String.length c + n)
      | None => if p c then Some 0 else None
      end
  end.

Definition find_char (p : string -> bool) (s : string) : option nat := find_char_in p (chars s).
Definition rfind_char (p : string -> bool) (s : string) : option nat := rfind_char_in p (chars s).

(** [&s[n..]] with its check: [None] is the panic at an offset that is not on a
    character boundary. *)
Fixpoint chars_from (n : nat) (cs : list string) : option (list string) :=
  match n, cs with
  | O, _ => Some cs
  | S _, [] => None
  | S _, c :: cs' => if (String.length c <=? n)%nat then chars_from (n - String.length c) cs' else None
  end.

Definition slice_from (n : nat) (s : string) : option string := str_concat <$> chars_from n (chars s).

(** Membership in a list of literals, for [match] arms on strings. *)
Definition one_of (l : list string) (s : string) : bool := existsb (String.eqb s) l.

(** ** Trimming *)

Fixpoint drop_while {A} (p : A -> bool) (l : list A) : list A :=
  match l with
  | [] => []
  | x :: l' => if p x then drop_while p l' else l
  end.

Definition drop_while_end {A} (p : A -> bool) (l : list A) : list A :=
  reverse (drop_while p (reverse l)).

Definition trim_start_matches (p : string -> bool) (s : string) : string :=
  str_concat (drop_while p (chars s)).

Definition trim_matches (p : string -> bool) (s : string) : string :=
  str_concat (drop_while_end p (drop_while p (chars s))).

Definition trim_start (s : string) : string := trim_start_matches is_whitespace s.
Definition trim (s : string) : string := trim_matches is_whitespace s.

(** [strip_suffix(c)] for an ASCII character. *)
Fixpoint strip_suffix_char (c : ascii) (s : string) : option string :=
  match s with
  | "" => None
  | String a "" => if Ascii.eqb a c then Some "" else None
  | String a s' => String a <$> strip_suffix_char c s'
  end.

Definition newline : ascii := "010".
Definition carriage_return : ascii := "013".
Definition dquote : ascii := "034".
Definition dquote_str : string := String dquote "".

(** [s.lines()], and [BufRead::lines] on its valid UTF-8 content. *)
Definition strip_cr (s : string) : string :=
  match strip_suffix_char carriage_return s with Some s' => s' | None => s end.

Fixpoint lines_of (l : list string) : list string :=
  match l with
  | [] => []
  | [x] => if is_empty x then [] else [x]
  | x :: l' => strip_cr x :: lines_of l'
  end.

Definition lines (s : string) : list string := lines_of (split_char newline s).

(** ** ASCII case *)

Definition ascii_shift (lo hi d : Z) (a : ascii) : ascii :=
  if ascii_in lo hi a then ascii_of_N (Z.to_N (byte_val a + d)) else a.

Fixpoint str_map (f : ascii -> ascii) (s : string) : string :=
  match s with "" => "" | String a s' => String (f a) (str_map f s') end.

Definition to_ascii_uppercase (s : string) : string := str_map (ascii_shift 97 122 (-32)) s.
Definition to_ascii_lowercase (s : string) : string := str_map (ascii_shift 65 90 32) s.

Definition eq_ignore_ascii_case (s t : string) : bool :=
  String.eqb (to_ascii_lowercase s) (to_ascii_lowercase t).

(** ** Integers *)

Definition digit_val (a : ascii) : option Z :=
  if is_ascii_digit a then Some (byte_val a - 48)%Z else None.

Fixpoint parse_digits (max acc : Z) (s : string) : option Z :=
  match s with
  | "" => Some acc
  | String a s' =>
      match digit_val a with
      | None => None
      | Some d => let acc' := (acc * 10 + d)%Z in
                  if (max <? acc')%Z then None else parse_digits max acc' s'
      end
  end.

(** [s.parse::<uN>().ok()], with [max] the type's greatest value: an optional
    [+], at least one digit, no overflow. *)
Definition parse_uint (max : Z) (s : string) : option Z :=
  match s with
  | "" => None
  | String "+" "" => None
  | String "+" s' => parse_digits max 0 s'
  | _ => parse_digits max 0 s
  end.

(** [iter().position(p)] *)
Fixpoint position {A} (p : A -> bool) (l : list A) : option nat :=
  match l with
  | [] => None
  | x :: l' => if p x then Some 0 else S <$> position p l'
  end.

(** [z.to_string()] for an unsigned integer. *)
Definition uint_to_string (z : Z) : string := pretty (Z.to_N z).

(** [format!("{:05}", z)] *)
Definition zero_pad (w : nat) (s : string) : string :=
  str_concat (replicate (w - String.length s) "0") +:+ s.

(** ** UTF-8 validity, for [std::str::from_utf8] *)

Definition is_cont (a : ascii) : bool := ascii_in 128 191 a.

Fixpoint utf8_valid (s : string) : bool :=
  match s with
  | "" => true
  | String a s1 =>
      if ascii_in 0 127 a then utf8_valid s1
      else match s1 with
      | "" => false
      | String b s2 =>
          if ascii_in 194 223 a then is_cont b && utf8_valid s2
          else match s2 with
          | "" => false
          | String c s3 =>
              if ascii_in 224 239 a then
                (if (byte_val a =? 224)%Z then ascii_in 160 191 b
                 else if (byte_val a =? 237)%Z then ascii_in 128 159 b
                 else is_cont b) && is_cont c && utf8_valid s3
              else match s3 with
              | "" => false
              | String d s4 =>
                  ascii_in 240 244 a
                  && (if (byte_val a =? 240)%Z then ascii_in 144 191 b
                      else if (byte_val a =? 244)%Z then ascii_in 128 143 b
                      else is_cont b)
                  && is_cont c && is_cont d && utf8_valid s4
              end
          end
      end
  end.

(** ** Lemmas on byte strings *)

Lemma str_app_assoc s t u : (s +:+ t) +:+ u = s +:+ t +:+ u.
Proof. induction s as [|a s IH]; simpl; [done|]. by rewrite IH. Qed.

Lemma str_app_nil_r s : s +:+ "" = s.
Proof. induction s as [|a s IH]; simpl; [done|]. by rewrite IH. Qed.

Lemma str_length_app s t : String.length (s +:+ t) = String.length s + String.length t.
Proof. induction s as [|a s IH]; simpl; auto. Qed.

Lemma str_app_inj s1 t1 s2 t2 : String.length s1 = String.length s2 ->
  s1 +:+ t1 = s2 +:+ t2 -> s1 = s2 /\ t1 = t2.
Proof.
  revert s2; induction s1 as [|a s1 IH]; intros [|b s2] Hl E; simplify_eq/=; [done|].
  destruct (IH s2) as [-> ->]; auto.
Qed.
