(* ===== verification/RustStrFacts.v ===== *)
(** * Lemmas on the string operations

    Decimal text, lines, UTF-8 decoding and trimming, as the components that
    print and parse need them. *)

From S2P Require Export RustStr.

(** ** Bytes *)

Lemma all_bytes_app p s t : all_bytes p (s +:+ t) = all_bytes p s && all_bytes p t.
Proof. induction s as [|a s IH]; simpl; [done|]. by rewrite IH, andb_assoc. Qed.

Lemma all_bytes_impl (p q : ascii -> bool) s : (forall a, p a = true -> q a = true) ->
  all_bytes p s = true -> all_bytes q s = true.
Proof.
  intros Hpq. induction s as [|a s IH]; simpl; [done|].
  intros [Ha Hs]%andb_true_iff. by rewrite (Hpq _ Ha), IH.
Qed.

Lemma byte_val_range a : (0 <= byte_val a < 256)%Z.
Proof. unfold byte_val. pose proof (N_ascii_bounded a). lia. Qed.

Lemma ascii_in_iff lo hi a : ascii_in lo hi a = true <-> (lo <= byte_val a <= hi)%Z.
Proof. unfold ascii_in. rewrite andb_true_iff, !Z.leb_le. done. Qed.

(** ** UTF-8 *)

Definition is_ascii (a : ascii) : bool := ascii_in 0 127 a.

Lemma utf8_valid_ascii s : all_bytes is_ascii s = true -> utf8_valid s = true.
Proof.
  induction s as [|a s IH]; simpl; [done|]. intros [Ha Hs]%andb_true_iff.
  unfold is_ascii in Ha. rewrite Ha. auto.
Qed.

Lemma utf8_width_ascii a : is_ascii a = true -> utf8_width a = 1.
Proof.
  unfold is_ascii, utf8_width. rewrite ascii_in_iff. intros Ha.
  destruct (Z.ltb_spec (byte_val a) 192); [done|lia].
Qed.

(** [chars] loses nothing. *)
Lemma chars_concat s : str_concat (chars s) = s.
Proof.
  assert (forall n s, String.length s <= n -> str_concat (chars s) = s) as Hn.
  { clear s. unfold str_concat. induction n as [|n IH]; intros [|a s] Hl; simpl in *; [done|lia|done|].
    repeat case_match; subst; cbn [foldr String.append];
      rewrite IH by (simpl in *; lia); reflexivity. }
  by apply (Hn (String.length s)).
Qed.

Lemma chars_ascii_cons a s : is_ascii a = true -> chars (String a s) = String a "" :: chars s.
Proof. intros Ha. simpl. by rewrite (utf8_width_ascii _ Ha). Qed.

Lemma chars_ascii s : all_bytes is_ascii s = true ->
  chars s = (fun a => String a "") <$> String.list_ascii_of_string s.
Proof.
  induction s as [|a s IH]; [done|]. simpl all_bytes. intros [Ha Hs]%andb_true_iff.
  rewrite (chars_ascii_cons _ _ Ha), (IH Hs). done.
Qed.

(** The last character of a well-formed text that ends in an ASCII byte. *)
Lemma chars_last s a : is_ascii a = true -> utf8_valid (s +:+ String a "") = true ->
  exists cs, chars (s +:+ String a "") = cs ++ [String a ""].
Proof.
  intros Ha. assert (is_cont a = false) as Hc.
  { apply not_true_iff_false. unfold is_cont. unfold is_ascii in Ha.
    rewrite ascii_in_iff in *. lia. }
  assert (forall n s, String.length s <= n -> utf8_valid (s +:+ String a "") = true ->
    exists cs, chars (s +:+ String a "") = cs ++ [String a ""]) as Hn; [|by apply (Hn (String.length s))].
  clear s. induction n as [|n IH]; intros [|b s] Hl Hv; simpl in Hl; try lia;
    [exists []; simpl; by rewrite (utf8_width_ascii _ Ha)..|].
  destruct (is_ascii b) eqn:Hb.
  - simpl in Hv |- *. rewrite (utf8_width_ascii _ Hb). unfold is_ascii in Hb. rewrite Hb in Hv.
    destruct (IH s) as [cs E]; [lia|done|]. exists (String b "" :: cs).
    simpl. by rewrite E.
  - simpl in Hv |- *. unfold is_ascii in Hb. rewrite Hb in Hv.
    unfold ascii_in in Hb.
    assert (128 <= byte_val b)%Z as Hb'.
    { pose proof (byte_val_range b). rewrite <- not_true_iff_false, andb_true_iff, !Z.leb_le in Hb. lia. }
    unfold utf8_width. destruct s as [|c s]; simpl in Hv |- *.
    { rewrite Hc in Hv. by destruct (ascii_in 194 223 b). }
    destruct (ascii_in 194 223 b) eqn:E2.
    { apply ascii_in_iff in E2. destruct (Z.ltb_spec (byte_val b) 192); [lia|].
      destruct (Z.ltb_spec (byte_val b) 224); [|lia]. apply andb_true_iff in Hv as [_ Hv].
      simpl in Hl. destruct (IH s) as [cs E]; [lia|done|]. eexists (_ :: cs). simpl. by rewrite E. }
    destruct s as [|e s]; simpl in Hv |- *.
    { rewrite Hc, andb_false_r in Hv. by destruct (ascii_in 224 239 b). }
    destruct (ascii_in 224 239 b) eqn:E3.
    { apply ascii_in_iff in E3. destruct (Z.ltb_spec (byte_val b) 192); [lia|].
      destruct (Z.ltb_spec (byte_val b) 224); [lia|]. destruct (Z.ltb_spec (byte_val b) 240); [|lia].
      apply andb_true_iff in Hv as [_ Hv].
      simpl in Hl. destruct (IH s) as [cs E]; [lia|done|]. eexists (_ :: cs). simpl. by rewrite E. }
    destruct s as [|f s]; simpl in Hv |- *.
    { by rewrite Hc, andb_false_r in Hv. }
    apply andb_true_iff in Hv as [Hv1 Hv].
    apply andb_true_iff in Hv1 as [[[Hv1 _]%andb_true_iff _]%andb_true_iff _]. apply ascii_in_iff in Hv1.
    destruct (Z.ltb_spec (byte_val b) 192); [lia|]. destruct (Z.ltb_spec (byte_val b) 224); [lia|].
    destruct (Z.ltb_spec (byte_val b) 240); [lia|]. destruct (Z.ltb_spec (byte_val b) 248); [|lia].
    simpl in Hl. destruct (IH s) as [cs E]; [lia|done|]. eexists (_ :: cs). simpl. by rewrite E.
Qed.

(** ** Trimming *)

Lemma drop_while_end_snoc {A} (p : A -> bool) l x : p x = false -> drop_while_end p (l ++ [x]) = l ++ [x].
Proof.
  intros Hx. unfold drop_while_end. rewrite reverse_snoc. simpl. rewrite Hx.
  by rewrite reverse_cons, reverse_involutive.
Qed.

(** A text between two ASCII characters that are no white space is not
    trimmed. *)
Lemma trim_id a body b : is_ascii a = true -> is_ascii b = true ->
  is_whitespace (String a "") = false -> is_whitespace (String b "") = false ->
  utf8_valid (String a (body +:+ String b "")) = true ->
  trim (String a (body +:+ String b "")) = String a (body +:+ String b "").
Proof.
  intros Ha Hb Wa Wb Hv. unfold trim, trim_matches.
  assert (utf8_valid (body +:+ String b "") = true) as Hv'.
  { simpl in Hv. unfold is_ascii in Ha. by rewrite Ha in Hv. }
  destruct (chars_last body b Hb Hv') as [cs E].
  rewrite <- (chars_concat (String a (body +:+ String b ""))) at 2.
  rewrite (chars_ascii_cons _ _ Ha), E. cbn [drop_while]. rewrite Wa.
  f_equal. by apply (drop_while_end_snoc _ (String a "" :: cs)).
Qed.

(** ** Lines *)

Definition no_newline (s : string) : bool := all_bytes (fun a => negb (Ascii.eqb a newline)) s.

Lemma split_char_line c l s : all_bytes (fun a => negb (Ascii.eqb a c)) l = true ->
  split_char c (l +:+ String c s) = l :: split_char c s.
Proof.
  induction l as [|a l IH]; simpl; [by rewrite Ascii.eqb_refl|].
  intros [Ha Hl]%andb_true_iff. apply negb_true_iff in Ha. by rewrite Ha, (IH Hl).
Qed.

Lemma split_char_none c l : all_bytes (fun a => negb (Ascii.eqb a c)) l = true -> split_char c l = [l].
Proof.
  induction l as [|a l IH]; simpl; [done|].
  intros [Ha Hl]%andb_true_iff. apply negb_true_iff in Ha. by rewrite Ha, (IH Hl).
Qed.

Lemma split_char_ne c s : split_char c s <> [].
Proof. destruct s as [|a s]; simpl; [done|]. destruct (Ascii.eqb a c); [done|]. by destruct split_char. Qed.

Lemma strip_suffix_char_snoc c s a : strip_suffix_char c (s +:+ String a "") =
  if Ascii.eqb a c then Some s else None.
Proof.
  induction s as [|b s IH]; simpl; [done|]. rewrite IH.
  destruct (s +:+ String a "") eqn:E; [by destruct s|]. by destruct (Ascii.eqb a c).
Qed.

Lemma lines_cons l s : no_newline l = true -> lines (l +:+ String newline s) = strip_cr l :: lines s.
Proof.
  intros Hl. unfold lines. rewrite split_char_line by done. simpl.
  destruct (split_char newline s) eqn:E; [by apply split_char_ne in E|done].
Qed.

(** ** Decimal text *)

Lemma parse_digits_app max acc s t v : parse_digits max acc s = Some v ->
  parse_digits max acc (s +:+ t) = parse_digits max v t.
Proof.
  revert acc; induction s as [|a s IH]; intros acc; simpl; [by intros [= ->]|].
  destruct (digit_val a); [|done]. destruct (_ <? _)%Z; [done|]. apply IH.
Qed.

Lemma pretty_digit x : (x < 10)%N ->
  is_ascii_digit (pretty_N_char x) = true /\ digit_val (pretty_N_char x) = Some (Z.of_N x).
Proof.
  intros Hx. assert (x = 0 \/ x = 1 \/ x = 2 \/ x = 3 \/ x = 4 \/ x = 5 \/ x = 6 \/ x = 7 \/ x = 8 \/ x = 9)%N
    as Hc by lia. repeat (destruct Hc as [->|Hc]; [by vm_compute|]). by subst.
Qed.

(** Printing then parsing: [acc] are the digits read before. *)
Lemma parse_pretty_go (max : Z) x : forall s, (Z.of_N x <= max)%Z ->
  parse_digits max 0 (pretty_N_go x s) = parse_digits max (Z.of_N x) s.
Proof.
  induction (N.lt_wf_0 x) as [x _ IH]; intros s Hx.
  destruct (decide (x = 0)%N) as [->|Hne]; [by rewrite pretty_N_go_0|].
  rewrite pretty_N_go_step by lia.
  assert (x `div` 10 < x)%N by (apply N.div_lt; lia).
  rewrite IH by lia. cbn [parse_digits].
  destruct (pretty_digit (x `mod` 10)) as [_ ->]; [by apply N.mod_lt|].
  pose proof (N.div_mod x 10). destruct (Z.ltb_spec max (Z.of_N (x `div` 10) * 10 + Z.of_N (x `mod` 10))); [lia|].
  f_equal. lia.
Qed.

Lemma pretty_go_digits x : forall s, all_bytes is_ascii_digit s = true ->
  all_bytes is_ascii_digit (pretty_N_go x s) = true.
Proof.
  induction (N.lt_wf_0 x) as [x _ IH]; intros s Hs.
  destruct (decide (x = 0)%N) as [->|Hne]; [by rewrite pretty_N_go_0|].
  rewrite pretty_N_go_step by lia. apply IH; [apply N.div_lt; lia|]. simpl. rewrite Hs, andb_true_r.
  apply pretty_digit. by apply N.mod_lt.
Qed.

Lemma pretty_N_digits (x : N) : all_bytes is_ascii_digit (pretty x) = true.
Proof.
  unfold pretty, pretty_N. case_decide; [done|]. by apply pretty_go_digits.
Qed.

Lemma parse_pretty max (x : N) : (Z.of_N x <= max)%Z -> parse_digits max 0 (pretty x) = Some (Z.of_N x).
Proof.
  intros Hx. unfold pretty, pretty_N. case_decide as E.
  { subst x. change (parse_digits max 0 "0") with (if (max <? 0)%Z then None else Some 0%Z).
    destruct (Z.ltb_spec max 0); [lia|done]. }
  by rewrite parse_pretty_go.
Qed.

Lemma parse_zeros max n s : (0 <= max)%Z ->
  parse_digits max 0 (str_concat (replicate n "0") +:+ s) = parse_digits max 0 s.
Proof.
  intros Hm. induction n as [|n IH]; simpl; [done|].
  change (0 * 10 + (byte_val "0" - 48))%Z with 0%Z. destruct (Z.ltb_spec max 0); [lia|]. exact IH.
Qed.

(** [zero_pad] of a number reads back as the number. *)
Lemma parse_digits_zero_pad max w z : (0 <= z <= max)%Z ->
  parse_digits max 0 (zero_pad w (uint_to_string z)) = Some z.
Proof.
  intros Hz. unfold zero_pad, uint_to_string. rewrite parse_zeros by lia.
  rewrite parse_pretty; [f_equal|]; lia.
Qed.

Lemma zero_pad_digits w z : all_bytes is_ascii_digit (zero_pad w (uint_to_string z)) = true.
Proof.
  unfold zero_pad. rewrite all_bytes_app. apply andb_true_iff; split; [|apply pretty_N_digits].
  induction (w - String.length (uint_to_string z)) as [|n IH]; [done|]. exact IH.
Qed.

(** [parse] of digits: no sign to strip. *)
Lemma parse_uint_digits max s : s <> "" -> all_bytes is_ascii_digit s = true ->
  parse_uint max s = parse_digits max 0 s.
Proof.
  destruct s as [|a s]; [done|]. intros _ [Ha _]%andb_true_iff. simpl parse_uint.
  destruct a as [[] [] [] [] [] [] [] []]; try discriminate Ha; reflexivity.
Qed.

(** ** Parts of a string *)

Lemma str_take_drop n s : str_take n s +:+ str_drop n s = s.
Proof. revert s; induction n as [|n IH]; intros [|a s]; simpl; try done. by rewrite IH. Qed.

Lemma str_drop_length n s : String.length (str_drop n s) = String.length s - n.
Proof. revert s; induction n as [|n IH]; intros [|a s]; simpl; try done; apply IH. Qed.

Lemma all_bytes_drop p n s : all_bytes p s = true -> all_bytes p (str_drop n s) = true.
Proof. rewrite <- (str_take_drop n s) at 1. rewrite all_bytes_app. by intros [_ ?]%andb_true_iff. Qed.

Lemma all_bytes_take p n s : all_bytes p s = true -> all_bytes p (str_take n s) = true.
Proof. rewrite <- (str_take_drop n s) at 1. rewrite all_bytes_app. by intros [? _]%andb_true_iff. Qed.

Lemma strip_prefix_app p s t : strip_prefix p s = Some t -> s = p +:+ t.
Proof.
  revert s; induction p as [|a p IH]; intros [|b s] E; simplify_eq/=; try done.
  destruct (Ascii.eqb_spec a b) as [->|]; [|done]. by rewrite (IH _ E).
Qed.

Lemma str_concat_cons s l : str_concat (s :: l) = s +:+ str_concat l.
Proof. done. Qed.

Lemma drop_while_suffix {A} (p : A -> bool) l : exists l1, l = l1 ++ drop_while p l.
Proof.
  induction l as [|x l [l1 IH]]; [by exists []|]. simpl. destruct (p x); [|by exists []].
  exists (x :: l1). simpl. by f_equal.
Qed.

Lemma drop_while_end_prefix {A} (p : A -> bool) l : exists l2, l = drop_while_end p l ++ l2.
Proof.
  unfold drop_while_end. destruct (drop_while_suffix p (reverse l)) as [l1 E].
  exists (reverse l1). apply (f_equal reverse) in E. by rewrite reverse_involutive, reverse_app in E.
Qed.

Lemma str_concat_app l1 l2 : str_concat (l1 ++ l2) = str_concat l1 +:+ str_concat l2.
Proof.
  unfold str_concat. induction l1 as [|s l1 IH]; simpl; [done|]. by rewrite IH, str_app_assoc.
Qed.

(** Trimming keeps a part of the string. *)
Lemma trim_start_matches_suffix p s : exists t, s = t +:+ trim_start_matches p s.
Proof.
  unfold trim_start_matches. destruct (drop_while_suffix p (chars s)) as [l1 E].
  exists (str_concat l1). by rewrite <- str_concat_app, <- E, chars_concat.
Qed.

Lemma trim_matches_part p s : exists t u, s = t +:+ trim_matches p s +:+ u.
Proof.
  unfold trim_matches. destruct (drop_while_suffix p (chars s)) as [l1 E1].
  destruct (drop_while_end_prefix p (drop_while p (chars s))) as [l2 E2].
  exists (str_concat l1), (str_concat l2).
  by rewrite <- !str_concat_app, <- E2, <- E1, chars_concat.
Qed.

Lemma all_bytes_trim q p s : all_bytes q s = true -> all_bytes q (trim_matches p s) = true.
Proof.
  destruct (trim_matches_part p s) as (t & u & E). rewrite E at 1. rewrite !all_bytes_app.
  by intros [_ [? _]%andb_true_iff]%andb_true_iff.
Qed.

Lemma all_bytes_trim_start q p s : all_bytes q s = true -> all_bytes q (trim_start_matches p s) = true.
Proof.
  destruct (trim_start_matches_suffix p s) as (t & E). rewrite E at 1. rewrite all_bytes_app.
  by intros [_ ?]%andb_true_iff.
Qed.

Lemma trim_start_length s : String.length (trim_start s) <= String.length s.
Proof.
  destruct (trim_start_matches_suffix is_whitespace s) as (t & E). rewrite E at 2.
  rewrite str_length_app. unfold trim_start. lia.
Qed.

Lemma trim_length s : String.length (trim s) <= String.length s.
Proof.
  destruct (trim_matches_part is_whitespace s) as (t & u & E). rewrite E at 2.
  rewrite !str_length_app. unfold trim. lia.
Qed.

(** ** Slices of ASCII text *)

Lemma chars_from_ones n cs : Forall (fun c => String.length c = 1) cs -> n <= length cs ->
  chars_from n cs = Some (drop n cs).
Proof.
  intros HF; revert n; induction HF as [|c cs Hc HF IH]; intros [|n] Hn; simpl in *; try done; [lia|].
  rewrite Hc. simpl. rewrite Nat.sub_0_r. apply IH. lia.
Qed.

Lemma rfind_char_ones p cs n : Forall (fun c => String.length c = 1) cs -> rfind_char_in p cs = Some n ->
  n < length cs.
Proof.
  intros HF; revert n; induction HF as [|c cs Hc HF IH]; intros n E; simpl in *; [done|].
  rewrite Hc in E. destruct (rfind_char_in p cs) as [m|]; simplify_eq/=; [specialize (IH m eq_refl); lia|].
  destruct (p c); simplify_eq. lia.
Qed.

Lemma ascii_chars_ones s : all_bytes is_ascii s = true -> Forall (fun c => String.length c = 1) (chars s).
Proof. intros Hs. rewrite (chars_ascii _ Hs). apply Forall_fmap, Forall_true. done. Qed.

(** A slice after the last match of a predicate does not panic on ASCII text. *)
Lemma slice_after_rfind p s n : all_bytes is_ascii s = true -> rfind_char p s = Some n ->
  exists t, slice_from (n + 1) s = Some t.
Proof.
  intros Hs E. pose proof (ascii_chars_ones _ Hs) as HF. unfold slice_from, rfind_char in *.
  pose proof (rfind_char_ones _ _ _ HF E). rewrite chars_from_ones by (done || lia). eauto.
Qed.

(** ** Well-formed text as a list of characters *)

Definition utf8_char (c : string) : bool :=
  match c with
  | String a "" => is_ascii a
  | String a (String b "") => ascii_in 194 223 a && is_cont b
  | String a (String b (String c "")) =>
      ascii_in 224 239 a
      && (if (byte_val a =? 224)%Z then ascii_in 160 191 b
          else if (byte_val a =? 237)%Z then ascii_in 128 159 b else is_cont b) && is_cont c
  | String a (String b (String c (String d ""))) =>
      ascii_in 240 244 a
      && (if (byte_val a =? 240)%Z then ascii_in 144 191 b
          else if (byte_val a =? 244)%Z then ascii_in 128 143 b else is_cont b) && is_cont c && is_cont d
  | _ => false
  end.

Lemma ascii_in_false lo hi a : ascii_in lo hi a = false <-> (byte_val a < lo \/ hi < byte_val a)%Z.
Proof. rewrite <- not_true_iff_false, ascii_in_iff. lia. Qed.

Lemma utf8_width_range a :
  (ascii_in 0 127 a = true -> utf8_width a = 1) /\ (ascii_in 194 223 a = true -> utf8_width a = 2) /\
  (ascii_in 224 239 a = true -> utf8_width a = 3) /\ (ascii_in 240 244 a = true -> utf8_width a = 4).
Proof.
  unfold utf8_width. rewrite !ascii_in_iff. pose proof (byte_val_range a).
  destruct (Z.ltb_spec (byte_val a) 192), (Z.ltb_spec (byte_val a) 224), (Z.ltb_spec (byte_val a) 240),
    (Z.ltb_spec (byte_val a) 248); split_and!; intros; done || lia.
Qed.

Lemma ascii_in_disjoint lo hi lo' hi' a : (hi < lo')%Z -> ascii_in lo' hi' a = true -> ascii_in lo hi a = false.
Proof. intros Hd. rewrite ascii_in_iff, ascii_in_false. lia. Qed.

(** A character in front of a text. *)
Lemma utf8_char_app c s : utf8_char c = true ->
  chars (c +:+ s) = c :: chars s /\ utf8_valid (c +:+ s) = utf8_valid s.
Proof.
  intros Hc. destruct c as [|a [|b [|d [|e [|]]]]]; simpl in Hc; try discriminate.
  - unfold is_ascii in Hc. cbn [String.append chars utf8_valid].
    destruct (utf8_width_range a) as (W & _). by rewrite (W Hc), Hc.
  - apply andb_true_iff in Hc as [Ha Hb]. destruct (utf8_width_range a) as (_ & W & _).
    cbn [String.append chars utf8_valid]. rewrite (W Ha), Ha, Hb.
    by rewrite (ascii_in_disjoint 0 127 194 223 a ltac:(lia) Ha).
  - apply andb_true_iff in Hc as [[Ha Hb]%andb_true_iff Hd]. destruct (utf8_width_range a) as (_ & _ & W & _).
    cbn [String.append chars utf8_valid]. rewrite (W Ha), Ha, Hb, Hd.
    by rewrite (ascii_in_disjoint 0 127 224 239 a ltac:(lia) Ha), (ascii_in_disjoint 194 223 224 239 a ltac:(lia) Ha).
  - apply andb_true_iff in Hc as [[[Ha Hb]%andb_true_iff Hd]%andb_true_iff He].
    destruct (utf8_width_range a) as (_ & _ & _ & W).
    cbn [String.append chars utf8_valid]. rewrite (W Ha), Ha, Hb, Hd, He.
    by rewrite (ascii_in_disjoint 0 127 240 244 a ltac:(lia) Ha), (ascii_in_disjoint 194 223 240 244 a ltac:(lia) Ha),
      (ascii_in_disjoint 224 239 240 244 a ltac:(lia) Ha).
Qed.

Lemma utf8_valid_inv s : utf8_valid s = true ->
  s = "" \/ exists c t, s = c +:+ t /\ utf8_char c = true /\ utf8_valid t = true.
Proof.
  destruct s as [|a s1]; [by left|]. intros Hv; right. simpl in Hv.
  destruct (ascii_in 0 127 a) eqn:E1; [by exists (String a ""), s1|].
  destruct s1 as [|b s2]; [done|].
  destruct (ascii_in 194 223 a) eqn:E2.
  { apply andb_true_iff in Hv as [Hb Hv]. exists (String a (String b "")), s2. simpl. by rewrite E2, Hb. }
  destruct s2 as [|c s3]; [done|].
  destruct (ascii_in 224 239 a) eqn:E3.
  { apply andb_true_iff in Hv as [Hb Hv]. exists (String a (String b (String c ""))), s3. simpl. by rewrite E3. }
  destruct s3 as [|d s4]; [done|].
  apply andb_true_iff in Hv as [Hb Hv]. by exists (String a (String b (String c (String d "")))), s4.
Qed.

Lemma utf8_char_length c : utf8_char c = true -> 0 < String.length c.
Proof. destruct c; [done|simpl; lia]. Qed.

(** Induction over the characters of a well-formed text. *)
Lemma utf8_ind (P : string -> Prop) : P "" ->
  (forall c s, utf8_char c = true -> utf8_valid s = true -> P s -> P (c +:+ s)) ->
  forall s, utf8_valid s = true -> P s.
Proof.
  intros H0 Hs s. remember (String.length s) as n eqn:En. revert s En.
  induction (lt_wf n) as [n _ IH]; intros s -> Hv.
  destruct (utf8_valid_inv s Hv) as [->|(c & t & -> & Hc & Ht)]; [done|].
  apply Hs; try done. eapply (IH (String.length t)); [|done|done].
  rewrite str_length_app. pose proof (utf8_char_length c Hc). lia.
Qed.

Lemma utf8_valid_app s t : utf8_valid s = true -> utf8_valid (s +:+ t) = utf8_valid t.
Proof.
  revert s; apply (utf8_ind (fun s => utf8_valid (s +:+ t) = utf8_valid t)); [done|].
  intros c s Hc _ IH. rewrite str_app_assoc. by rewrite (proj2 (utf8_char_app c _ Hc)).
Qed.

Lemma chars_app s t : utf8_valid s = true -> chars (s +:+ t) = chars s ++ chars t.
Proof.
  revert s; apply (utf8_ind (fun s => chars (s +:+ t) = chars s ++ chars t)); [done|].
  intros c s Hc _ IH. rewrite str_app_assoc.
  by rewrite (proj1 (utf8_char_app c (s +:+ t) Hc)), (proj1 (utf8_char_app c s Hc)), IH.
Qed.

(** A multi-byte character has no ASCII byte. *)
Lemma utf8_char_bytes c : utf8_char c = true ->
  (exists a, c = String a "" /\ is_ascii a = true) \/ all_bytes (fun a => negb (is_ascii a)) c = true.
Proof.
  intros Hc. assert (forall lo hi a, (127 < lo)%Z -> ascii_in lo hi a = true -> negb (is_ascii a) = true) as Hn.
  { intros lo hi a Hlo Ha. apply negb_true_iff. unfold is_ascii. by eapply ascii_in_disjoint; [|exact Ha]. }
  destruct c as [|a [|b [|d [|e [|]]]]]; simpl in Hc |- *; try discriminate; [by left; eauto|right..];
    bool_hyps;
    repeat match goal with H : (if ?x then _ else _) = true |- _ => destruct x end;
    unfold is_cont in *;
    repeat match goal with
      | H : ascii_in ?lo ?hi ?x = true |- context [is_ascii ?x] =>
          rewrite (Hn lo hi x) by (done || lia)
      end; done.
Qed.

(** ** Valid UTF-8 under trimming and splitting *)

Lemma str_app_inj_l s t1 t2 : s +:+ t1 = s +:+ t2 -> t1 = t2.
Proof. intros E. by apply str_app_inj in E as [_ ?]. Qed.

Lemma str_app_inj_r s1 s2 t : s1 +:+ t = s2 +:+ t -> s1 = s2.
Proof.
  intros E. assert (String.length s1 = String.length s2) as Hl.
  { apply (f_equal String.length) in E. rewrite !str_length_app in E. lia. }
  by apply (str_app_inj _ _ _ _ Hl) in E as [? _].
Qed.

Lemma chars_utf8 s : utf8_valid s = true -> Forall (fun c => utf8_char c = true) (chars s).
Proof.
  revert s; apply (utf8_ind (fun s => Forall (fun c => utf8_char c = true) (chars s))); [constructor|].
  intros c s Hc _ IH. rewrite (proj1 (utf8_char_app c s Hc)). by constructor.
Qed.

Lemma chars_of_concat cs : Forall (fun c => utf8_char c = true) cs -> chars (str_concat cs) = cs.
Proof. induction 1 as [|c cs Hc HF IH]; [done|]. rewrite str_concat_cons, (proj1 (utf8_char_app c _ Hc)). by f_equal. Qed.

Lemma concat_utf8 cs : Forall (fun c => utf8_char c = true) cs -> utf8_valid (str_concat cs) = true.
Proof. induction 1 as [|c cs Hc HF IH]; [done|]. by rewrite str_concat_cons, (proj2 (utf8_char_app c _ Hc)). Qed.

(** The characters that trimming keeps. *)
Lemma chars_trim s : utf8_valid s = true -> chars (trim s) = drop_while_end is_whitespace (drop_while is_whitespace (chars s)) /\
  utf8_valid (trim s) = true.
Proof.
  intros Hv%chars_utf8.
  destruct (drop_while_suffix is_whitespace (chars s)) as [l1 E1].
  destruct (drop_while_end_prefix is_whitespace (drop_while is_whitespace (chars s))) as [l2 E2].
  rewrite E1 in Hv. apply Forall_app in Hv as [_ Hv]. rewrite E2 in Hv. apply Forall_app in Hv as [Hv _].
  split; [by apply chars_of_concat|by apply concat_utf8].
Qed.

Lemma string_snoc s : s = "" \/ exists body a, s = body +:+ String a "".
Proof.
  induction s as [|c s IH]; [by left|right]. destruct IH as [->|(body & a & ->)]; [by exists "", c|by exists (String c body), a].
Qed.

Lemma split_app_piece c x s : all_bytes (fun a => negb (Ascii.eqb a c)) x = true -> exists h t,
  split_char c s = h :: t /\ split_char c (x +:+ s) = (x +:+ h) :: t.
Proof.
  intros Hx. destruct (split_char c s) as [|h t] eqn:E; [by apply split_char_ne in E|]. exists h, t. split; [done|].
  induction x as [|a x IH]; [done|]. simpl in Hx. apply andb_true_iff in Hx as [Ha Hx]. cbn [String.append split_char].
  apply negb_true_iff in Ha. by rewrite Ha, (IH Hx).
Qed.

Lemma split_utf8 c s : is_ascii c = true -> utf8_valid s = true -> Forall (fun p => utf8_valid p = true) (split_char c s).
Proof.
  intros Hc. revert s. apply (utf8_ind (fun s => Forall (fun p => utf8_valid p = true) (split_char c s))); [by repeat constructor|].
  intros x s Hx Hs IH. destruct (decide (x = String c "")) as [->|Hne].
  { cbn [String.append split_char]. rewrite Ascii.eqb_refl. by constructor. }
  destruct (split_app_piece c x s) as (h & t & E1 & E2).
  - destruct (utf8_char_bytes x Hx) as [(a & -> & Ha)|Hb].
    + simpl. destruct (Ascii.eqb_spec a c) as [->|]; [done|done].
    + eapply all_bytes_impl; [|exact Hb]. intros a Ha. destruct (Ascii.eqb_spec a c) as [->|]; [by rewrite Hc in Ha|done].
  - rewrite E1 in IH. rewrite E2. apply Forall_cons in IH as [Hh Ht]. constructor; [|done]. by rewrite (proj2 (utf8_char_app x h Hx)).
Qed.

Lemma utf8_valid_snoc s a : is_ascii a = true -> utf8_valid (s +:+ String a "") = true -> utf8_valid s = true.
Proof.
  intros Ha Hv. destruct (chars_last s a Ha Hv) as [cs Ec]. pose proof (chars_utf8 _ Hv) as HF. rewrite Ec in HF.
  apply Forall_app in HF as [HF _]. assert (s = str_concat cs) as ->; [|by apply concat_utf8].
  pose proof (chars_concat (s +:+ String a "")) as E. rewrite Ec, str_concat_app, str_concat_cons in E.
  change (str_concat []) with "" in E. rewrite str_app_nil_r in E. by apply str_app_inj_r in E.
Qed.

Lemma strip_cr_utf8 s : utf8_valid s = true -> utf8_valid (strip_cr s) = true.
Proof.
  intros Hv. unfold strip_cr. destruct (string_snoc s) as [->|(body & a & ->)]; [done|]. rewrite strip_suffix_char_snoc.
  destruct (Ascii.eqb_spec a carriage_return) as [->|]; [|done]. exact (utf8_valid_snoc _ carriage_return eq_refl Hv).
Qed.

Lemma lines_utf8 s : utf8_valid s = true -> Forall (fun l => utf8_valid l = true) (lines s).
Proof.
  intros Hv%(split_utf8 newline); [|done]. unfold lines. induction Hv as [|x l Hx HF IH]; [constructor|].
  destruct l as [|y l]; cbn [lines_of]; [destruct (is_empty x); by repeat constructor|].
  constructor; [by apply strip_cr_utf8|exact IH].
Qed.

Lemma trim_utf8 s : utf8_valid s = true -> utf8_valid (trim s) = true.
Proof. intros Hv. by apply chars_trim. Qed.
