(* ===== verification/Float64.v ===== *)
(** * [f64]

    The binary64 arithmetic of [SpecFloat] under the names of Rust: conversion,
    division, comparison, and the text of [{:.2}]. *)

From Stdlib Require Import Floats.SpecFloat.
From S2P Require Export RustStr.

Definition f64 : Type := spec_float.

(** [x as f64] of an integer: to nearest, ties to even *)
Definition f64_of_Z (x : Z) : f64 := binary_normalize 53 1024 x 0 false.

Definition f64_zero : f64 := S754_zero false.
Definition f64_div : f64 -> f64 -> f64 := SFdiv 53 1024.
Definition f64_mul : f64 -> f64 -> f64 := SFmul 53 1024.
Definition f64_add : f64 -> f64 -> f64 := SFadd 53 1024.
Definition f64_sub : f64 -> f64 -> f64 := SFsub 53 1024.

(** The comparison operators: false when an operand is NaN *)
Definition f64_lt : f64 -> f64 -> bool := SFltb.
Definition f64_le : f64 -> f64 -> bool := SFleb.
Definition f64_eq : f64 -> f64 -> bool := SFeqb.

(** [f64::min] and [f64::clamp] of numbers *)
Definition f64_min (x y : f64) : f64 := if f64_lt y x then y else x.
Definition f64_clamp (x lo hi : f64) : f64 := if f64_lt x lo then lo else if f64_lt hi x then hi else x.

(** A literal: the double nearest to the quotient. *)
Definition f64_lit (num den : Z) : f64 := f64_div (f64_of_Z num) (f64_of_Z den).

(** [x as u64]: towards zero, saturating *)
Definition f64_to_u64 (x : f64) : Z :=
  match x with
  | S754_finite false m e =>
      Z.min (2 ^ 64 - 1) (if (0 <=? e)%Z then Zpos m * 2 ^ e else Zpos m / 2 ^ (- e))
  | S754_infinity false => (2 ^ 64 - 1)
  | _ => 0
  end%Z.

(** The integer nearest to [n / d], ties to even. *)
Definition round_half_even (n d : Z) : Z :=
  let q := (n / d)%Z in
  match (2 * (n mod d) ?= d)%Z with
  | Lt => q
  | Gt => (q + 1)%Z
  | Eq => if Z.even q then q else (q + 1)%Z
  end.

(** [m * 2^e] times [s], rounded. *)
Definition scaled (m e s : Z) : Z :=
  if (0 <=? e)%Z then (m * 2 ^ e * s)%Z else round_half_even (m * s) (2 ^ (- e)).

(** [format!("{:.n}", x)]: no point when [n] is 0. *)
Definition fmt_fixed (n : nat) (x : f64) : string :=
  let point digits := if (n =? 0)%nat then "" else "." +:+ zero_pad n digits in
  match x with
  | S754_nan => "NaN"
  | S754_infinity s => (if s then "-inf" else "inf")
  | S754_zero s => (if s then "-0" else "0") +:+ point ""
  | S754_finite s m e =>
      let v := scaled (Zpos m) e (10 ^ Z.of_nat n) in
      (if s then "-" else "") +:+ uint_to_string (v / 10 ^ Z.of_nat n)
      +:+ point (uint_to_string (v mod 10 ^ Z.of_nat n))
  end.

(** ** Signs *)

Definition f64_nonneg (x : f64) : Prop := f64_lt x f64_zero = false.

(** A double that is [+0], positive, [+inf] or NaN. *)
Definition f64_plus (x : f64) : Prop :=
  match x with S754_zero s | S754_infinity s | S754_finite s _ _ => s = false | S754_nan => True end.

Lemma round_aux_plus m e l : f64_plus (binary_round_aux 53 1024 false m e l).
Proof.
  unfold binary_round_aux. destruct (shr_fexp _ _ m e l) as [r e1].
  destruct (shr_fexp _ _ _ e1 loc_Exact) as [r2 e2]. destruct (shr_m r2); try done.
  by destruct (_ <=? _)%Z.
Qed.

Lemma plus_nonneg x : f64_plus x -> f64_nonneg x.
Proof. by destruct x as [[]|[]| |[]]. Qed.

Lemma of_Z_plus x : (0 <= x)%Z -> f64_plus (f64_of_Z x).
Proof.
  intros Hx. unfold f64_of_Z, binary_normalize, binary_round. destruct x as [|p|p]; [done| |lia].
  destruct (shl_align _ _ _). apply round_aux_plus.
Qed.

Lemma div_plus x y : f64_plus x -> f64_plus y -> f64_plus (f64_div x y).
Proof.
  unfold f64_div, SFdiv. destruct x as [sx|sx| |sx mx ex], y as [sy|sy| |sy my ey]; simpl; intros; subst; try done.
  destruct (SFdiv_core_binary _ _ _ _ _ _) as [[mz ez] lz]. apply round_aux_plus.
Qed.

(** A quotient of counts is not negative. *)
Lemma ratio_nonneg a b : (0 <= a)%Z -> (0 <= b)%Z -> f64_nonneg (f64_div (f64_of_Z a) (f64_of_Z b)).
Proof. intros Ha Hb. apply plus_nonneg, div_plus; by apply of_Z_plus. Qed.
