(* ===== verification/Float64Facts.v ===== *)
(** * Lemmas on [f64]

    Doubles that are [+0], positive or [+inf], the values that counts and clocks
    give: conversion and division stay among them, and the comparison orders
    them. *)

From Stdlib Require Import Floats.SpecFloat.
From S2P Require Export Float64.

Definition f64_count (x : f64) : Prop :=
  match x with S754_zero s | S754_infinity s | S754_finite s _ _ => s = false | S754_nan => False end.

(** ** Rounding never makes a NaN *)

Lemma shr_1_nonneg r : (0 <= shr_m r)%Z -> (0 <= shr_m (shr_1 r))%Z.
Proof. destruct r as [[|[]|[]] ??]; simpl; lia. Qed.

Lemma iter_shr_nonneg p : forall r : shr_record, (0 <= shr_m r)%Z -> (0 <= shr_m (@SpecFloat.iter_pos shr_record shr_1 p r))%Z.
Proof. induction p as [p IH|p IH|]; intros r Hr; simpl; auto using shr_1_nonneg. Qed.

Lemma shr_fexp_nonneg m e l : (0 <= m)%Z -> (0 <= shr_m (shr_fexp 53 1024 m e l).1)%Z.
Proof.
  intros Hm. unfold shr_fexp, shr.
  assert (0 <= shr_m (shr_record_of_loc m l))%Z by (by destruct l as [|[]]).
  destruct (_ - e)%Z; simpl; auto using iter_shr_nonneg.
Qed.

Lemma round_even_nonneg m l : (0 <= m)%Z -> (0 <= round_nearest_even m l)%Z.
Proof. intros Hm. destruct l as [|[]]; simpl; try lia. destruct (Z.even m); lia. Qed.

Lemma round_aux_count m e l : (0 <= m)%Z -> f64_count (binary_round_aux 53 1024 false m e l).
Proof.
  intros Hm. unfold binary_round_aux. pose proof (shr_fexp_nonneg m e l Hm) as H1.
  destruct (shr_fexp _ _ m e l) as [r e1]. simpl in H1.
  pose proof (shr_fexp_nonneg _ e1 loc_Exact (round_even_nonneg _ (loc_of_shr_record r) H1)) as H2.
  destruct (shr_fexp _ _ _ e1 loc_Exact) as [r2 e2]. simpl in H2.
  destruct (shr_m r2); [done| |lia]. by destruct (_ <=? _)%Z.
Qed.

Lemma of_Z_count x : (0 <= x)%Z -> f64_count (f64_of_Z x).
Proof.
  intros Hx. unfold f64_of_Z, binary_normalize, binary_round. destruct x as [|p|p]; [done| |lia].
  destruct (shl_align _ _ _). by apply round_aux_count.
Qed.

(** Division by a finite number other than zero. *)
Lemma div_count x y : f64_count x -> match y with S754_finite s _ _ => s = false | _ => False end -> f64_count (f64_div x y).
Proof.
  unfold f64_div, SFdiv. destruct x as [sx|sx| |sx mx ex], y as [sy|sy| |sy my ey]; simpl; intros; subst; try done.
  unfold SFdiv_core_binary. set (m' := match _ with Zpos _ => _ | _ => _ end).
  assert (0 <= m')%Z as Hm.
  { subst m'. destruct (_ - _ - _)%Z; try lia. apply Z.shiftl_nonneg. lia. }
  pose proof (Z_div_mod m' (Zpos my)) as Hd. destruct (Z.div_eucl m' (Zpos my)) as [q r].
  apply round_aux_count. specialize (Hd ltac:(lia)). nia.
Qed.

(** ** Order *)

Lemma count_le_refl x : f64_count x -> f64_le x x = true.
Proof.
  unfold f64_le, SFleb. destruct x as [s|s| |s m e]; simpl; intros; subst; try done.
  rewrite Z.compare_refl. by rewrite (Pos.compare_refl m : Pos.compare_cont Eq m m = Eq).
Qed.

Lemma count_le_total x y : f64_count x -> f64_count y -> f64_lt x y = false -> f64_le y x = true.
Proof.
  unfold f64_le, f64_lt, SFleb, SFltb.
  destruct x as [sx|sx| |sx mx ex], y as [sy|sy| |sy my ey]; simpl; intros; subst; try done.
  rewrite (Z.compare_antisym ex ey). destruct (ex ?= ey)%Z; try done. simpl.
  change (Pos.compare_cont Eq my mx) with (my ?= mx)%positive.
  change (Pos.compare_cont Eq mx my) with (mx ?= my)%positive in *.
  rewrite (Pos.compare_antisym mx my). by destruct (mx ?= my)%positive.
Qed.

Lemma count_lt_le x y : f64_lt x y = true -> f64_le x y = true.
Proof. unfold f64_le, f64_lt, SFleb, SFltb. by destruct (SFcompare x y) as [[]|]. Qed.

Lemma count_le_trans x y z : f64_count x -> f64_count y -> f64_count z ->
  f64_le x y = true -> f64_le y z = true -> f64_le x z = true.
Proof.
  unfold f64_le, SFleb.
  destruct x as [sx|sx| |sx mx ex], y as [sy|sy| |sy my ey], z as [sz|sz| |sz mz ez]; simpl; intros Hx Hy Hz; subst; try done.
  change (Pos.compare_cont Eq mx my) with (mx ?= my)%positive.
  change (Pos.compare_cont Eq my mz) with (my ?= mz)%positive.
  change (Pos.compare_cont Eq mx mz) with (mx ?= mz)%positive.
  destruct (Z.compare_spec ex ey), (Z.compare_spec ey ez), (Z.compare_spec ex ez); try done; try lia;
    destruct (Pos.compare_spec mx my), (Pos.compare_spec my mz), (Pos.compare_spec mx mz); done || lia.
Qed.
