(* ===== verification/Regexes.v ===== *)
(** * Crate [regex]: iteration and named groups

    The part of the crate that the miner and the onboarder use: whether a
    pattern compiles, the matches of a pattern in a text from left to right
    with their groups, and the names of the groups.  [find], [captures],
    [is_match] and [replace_all] are defined from it as the crate documents
    them. *)

From S2P Require Export RustStr.

(** A match: its span in bytes, and the whole match followed by the groups. *)
Record ReMatch := mkMatch {
  m_start : nat;
  m_end : nat;
  m_groups : list (option string)
}.

Class RegexEngine := {
  (** [Regex::new(p).is_ok()] *)
  re_compiles : string -> bool;
  (** [captures_iter]: the matches of [p] that do not overlap *)
  re_matches : string -> string -> list ReMatch;
  (** [capture_names]: one name or none per group, the whole match first *)
  re_names : string -> list (option string);
  (** [regex::escape] *)
  re_escape : string -> string
}.

(** [caps.get(i)] *)
Definition group (m : ReMatch) (i : nat) : option string :=
  match m_groups m !! i with Some (Some s) => Some s | _ => None end.

Section Regexes.
Context `{RegexEngine}.

Definition re_captures_first (p text : string) : option ReMatch := head (re_matches p text).

(** [find(text).map(|m| m.as_str())] *)
Definition re_find (p text : string) : option string :=
  (fun m => str_slice (m_start m) (m_end m) text) <$> re_captures_first p text.

Definition re_is_match (p text : string) : bool := match re_matches p text with [] => false | _ => true end.

(** [replace_all]: [f] gives the replacement of the [i]-th match. *)
Fixpoint replace_spans (f : nat -> ReMatch -> string) (i last : nat) (ms : list ReMatch) (text : string) : string :=
  match ms with
  | [] => str_drop last text
  | m :: ms' => str_slice last (m_start m) text +:+ f i m +:+ replace_spans f (S i) (m_end m) ms' text
  end.

Definition re_replace_all (p : string) (f : nat -> ReMatch -> string) (text : string) : string :=
  replace_spans f 0 0 (re_matches p text) text.

(** The index of a named group, and [caps.name(n)]. *)
Fixpoint name_index (n : string) (l : list (option string)) : option nat :=
  match l with
  | [] => None
  | o :: l' => if decide (o = Some n) then Some 0 else S <$> name_index n l'
  end.

Definition group_name (p : string) (m : ReMatch) (n : string) : option string :=
  name_index n (re_names p) ≫= group m.

End Regexes.

(** An engine in which no pattern matches. *)
Module RegexDemo.

#[export] Instance demo_engine : RegexEngine := {|
  re_compiles _ := true;
  re_matches _ _ := [];
  re_names _ := [];
  re_escape s := s
|}.

End RegexDemo.
