(* ===== verification/IpAddr.v ===== *)
(** * [IpAddr::from_str]

    The recursive-descent parser of [core::net], as far as the onboarder uses
    it: whether a string is an IPv4 or IPv6 address. *)

From S2P Require Export RustStr.

Definition hex_val (a : ascii) : option Z :=
  if is_ascii_digit a then Some (byte_val a - 48)%Z
  else if ascii_in 97 102 a then Some (byte_val a - 87)%Z
  else if ascii_in 65 70 a then Some (byte_val a - 55)%Z
  else None.

Definition digit_of (radix : Z) (a : ascii) : option Z :=
  match hex_val a with Some d => if (d <? radix)%Z then Some d else None | None => None end.

(** The digits at the front: their value, their number, and the rest. *)
Fixpoint read_digits (radix acc : Z) (count : nat) (s : string) : Z * nat * string :=
  match s with
  | String a s' =>
      match digit_of radix a with
      | Some d => read_digits radix (acc * radix + d) (S count) s'
      | None => (acc, count, s)
      end
  | "" => (acc, count, s)
  end.

(** [read_number(radix, Some(max_digits), allow_zero_prefix)] into a type with
    the given maximum *)
Definition read_number (radix : Z) (max_digits : nat) (allow_zero_prefix : bool) (max : Z) (s : string)
  : option (Z * string) :=
  let '(v, count, rest) := read_digits radix 0 0 s in
  if (max_digits <? count)%nat || (count =? 0)%nat || (max <? v)%Z
     || (negb allow_zero_prefix && starts_with "0" s && (1 <? count)%nat)
  then None else Some (v, rest).

(** [read_separator(sep, index, _)] *)
Definition read_sep (sep : ascii) (index : nat) (s : string) : option string :=
  match index with O => Some s | S _ => strip_prefix (String sep "") s end.

Definition read_octet (index : nat) (s : string) : option string :=
  s1 <-! read_sep "." index s;
  r <-! read_number 10 3 false u8_max s1;
  Some r.2.

Definition read_ipv4 (s : string) : option string :=
  s1 <-! read_octet 0 s; s2 <-! read_octet 1 s1; s3 <-! read_octet 2 s2; read_octet 3 s3.

(** [read_groups] with [limit - i] groups left: the groups read, whether the last
    two are an IPv4 address, and the rest. *)
Fixpoint read_groups (left i : nat) (s : string) : nat * bool * string :=
  match left with
  | O => (i, false, s)
  | S left' =>
      match (if (left' =? 0)%nat then None else s1 <-! read_sep ":" i s; read_ipv4 s1) with
      | Some rest => (i + 2, true, rest)
      | None =>
          match (s1 <-! read_sep ":" i s; read_number 16 4 true u16_max s1) with
          | Some r => read_groups left' (S i) r.2
          | None => (i, false, s)
          end
      end
  end.

Definition read_ipv6 (s : string) : option string :=
  let '(head_size, head_ipv4, rest) := read_groups 8 0 s in
  if (head_size =? 8)%nat then Some rest
  else if head_ipv4 then None
  else
    rest1 <-! strip_prefix "::" rest;
    let '(_, _, rest2) := read_groups (8 - (head_size + 1)) 0 rest1 in
    Some rest2.

(** [IpAddr::from_str(s).is_ok()] *)
Definition is_ip_addr (s : string) : bool :=
  match (match read_ipv4 s with Some rest => Some rest | None => read_ipv6 s end) with
  | Some rest => is_empty rest
  | None => false
  end.

Example ip_examples :
  is_ip_addr <$> ["10.0.0.1"; "256.1.1.1"; "10.0.0"; "01.2.3.4"; "2001:db8::1"; "::"; "::ffff:1.2.3.4"; "1::2::3"; "1:2:3:4:5:6:7:8"; "1:2:3:4:5:6:7::"; "10.0.0.1:80"; ":1"]
  = [true; false; false; false; true; true; true; false; true; true; false; false].
Proof. vm_compute. reflexivity. Qed.
