(* ===== verification/Laya.v ===== *)
(** * The Laya decision engine ([crates/ulpf-ai/src/laya.rs])

    Scores from tokens that occur in a line, turned into probabilities by a
    softmax.  [f64::exp] is the platform's; the order in which a hash map gives
    its entries is an argument. *)

From S2P Require Export Float64.

Class LibM := { f64_exp : f64 -> f64 }.

Record LayaChoice := mkChoice {
  ch_label : string;
  ch_probability : f64;
  ch_rankings : list (string * f64)
}.

Record LayaScore := mkScore { sc_score : f64; sc_confidence : f64 }.

Record LayaNoul := mkNoul { no_decision : bool; no_probability : f64 }.

Definition vendor_candidates : list string :=
  ["cisco_asa"; "fortigate"; "paloalto"; "suricata"; "pfsense"; "juniper_srx"; "checkpoint"].

(** A name between quotes, and then a tail. *)
Definition quoted (s tail : string) : string := dquote_str +:+ s +:+ dquote_str +:+ tail.

Definition vendor_token_priors : list (string * list string) :=
  [("cisco_asa", ["Built"; "Teardown"; "outside:"; "inside:"; "connection"; "inbound"; "outbound"]);
   ("fortigate", ["type=" +:+ quoted "traffic" ""; "vd=" +:+ quoted "root" ""; "subtype=" +:+ quoted "forward" ""; "srcip="; "dstip="]);
   ("paloalto", ["Trust_to_Untrust"; "pan-os"; "vsys1"; "Trust"; "Untrust"]);
   ("suricata", [quoted "timestamp" ":"; quoted "flow_id" ":"; quoted "alert" ":"; quoted "app_proto" ":"; quoted "dest_port" ":"]);
   ("pfsense", ["pass"; "block"; "match"; "igb0"; "em0"]);
   ("juniper_srx", ["RT_FLOW_SESSION_CREATE"; "session"; "created"; "ge-0/0/0"; "sample-policy"]);
   ("checkpoint", ["Quantum"; "rule"; "accept"; "drop"; "reject"])].

Definition vendor_fingerprint_priors : list (string * list string) :=
  [("cisco_asa", ["%ASA-"]); ("fortigate", ["devname="; "logid="]); ("paloalto", [",TRAFFIC,"; ",THREAT,"]);
   ("suricata", [quoted "event_type" ":"]); ("pfsense", ["filterlog["; "filterlog:"]);
   ("juniper_srx", ["RT_FLOW:"]); ("checkpoint", ["CheckPoint-FW"])].

Definition action_token_priors : list (string * list string) :=
  [("Allowed", ["allow"; "accept"; "pass"; "permit"; "built"; "created"; "open"; "authorized"]);
   ("Blocked", ["block"; "reject"; "prevent"; "denied"; "filtered"; "quarantine"]);
   ("Dropped", ["drop"; "deny"; "discard"; "timeout"; "blackhole"]);
   ("Alert", ["alert"; "notice"; "warn"; "warning"; "alarm"; "violation"; "tamper"])].

Definition threat_tokens : list (string * f64) :=
  [("exploit", f64_lit 95 100); ("overflow", f64_lit 90 100); ("unauthorized", f64_lit 85 100); ("tamper", f64_lit 92 100);
   ("malicious", f64_lit 94 100); ("attack", f64_lit 88 100); ("sqli", f64_lit 96 100); ("injection", f64_lit 91 100);
   ("brute", f64_lit 82 100); ("spoof", f64_lit 87 100); ("backdoor", f64_lit 95 100); ("ransomware", f64_lit 99 100)].

(** [if let Some(priors) = map.get(k) { for &token in priors { if input.contains(token) { w += d } } }] *)
Fixpoint priors_of (k : string) (l : list (string * list string)) : list string :=
  match l with
  | [] => []
  | (k', v) :: l' => if String.eqb k k' then v else priors_of k l'
  end.

Definition add_hits (d : f64) (input : string) (tokens : list string) (w : f64) : f64 :=
  foldl (fun w token => if contains token input then f64_add w d else w) w tokens.

(** The engine: candidates, token tables and the path of an external model,
    which no decision reads. *)
Record LayaDecisionEngine := mkLaya {
  le_vendor_candidates : list string;
  le_vendor_token_priors : list (string * list string);
  le_vendor_fingerprint_priors : list (string * list string);
  le_action_token_priors : list (string * list string);
  le_threat_tokens : list (string * f64);
  le_onnx_model_path : option string
}.

(** [LayaDecisionEngine::new]; [priors] are the entries of [action_token_priors]
    in the order in which the hash map gives them. *)
Definition laya_new (priors : list (string * list string)) : LayaDecisionEngine :=
  mkLaya vendor_candidates vendor_token_priors vendor_fingerprint_priors priors threat_tokens None.

Definition with_onnx_model (e : LayaDecisionEngine) (path : string) : LayaDecisionEngine :=
  mkLaya (le_vendor_candidates e) (le_vendor_token_priors e) (le_vendor_fingerprint_priors e) (le_action_token_priors e)
    (le_threat_tokens e) (Some path).

Definition vendor_weight (e : LayaDecisionEngine) (input vendor : string) : f64 :=
  add_hits (f64_of_Z 10) input (priors_of vendor (le_vendor_fingerprint_priors e))
    (add_hits (f64_of_Z 4) input (priors_of vendor (le_vendor_token_priors e)) f64_zero).

(** Insertion into a list in descending order, after equal elements: the stable
    sort of [rankings]. *)
Fixpoint insert_rank (x : string * f64) (l : list (string * f64)) : list (string * f64) :=
  match l with
  | [] => [x]
  | y :: l' => if f64_lt y.2 x.2 then x :: l else y :: insert_rank x l'
  end.

Section Laya.
Context `{LibM}.

Definition softmax (scores : list (string * f64)) : list (string * f64) :=
  let total_raw := foldl (fun t s => f64_add t (f64_exp s.2)) f64_zero scores in
  (fun s => (s.1, f64_clamp (f64_div (f64_exp s.2) total_raw) (f64_lit 1 1000) (f64_lit 999 1000))) <$> scores.

Definition choose (fallback : string) (scores : list (string * f64)) : LayaChoice :=
  let rankings := foldl (fun acc x => insert_rank x acc) [] (softmax scores) in
  let top := default (fallback, f64_lit 1 2) (head rankings) in
  mkChoice top.1 top.2 rankings.

Definition classify_vendor (e : LayaDecisionEngine) (input : string) : LayaChoice :=
  choose "unknown" ((fun vendor => (vendor, vendor_weight e input vendor)) <$> le_vendor_candidates e).

Definition classify_action (e : LayaDecisionEngine) (input : string) : LayaChoice :=
  let input_lower := to_ascii_lowercase input in
  choose "Unknown" ((fun p => (p.1, add_hits (f64_of_Z 3) input_lower p.2 f64_zero)) <$> le_action_token_priors e).

End Laya.

Definition score_threat_risk (e : LayaDecisionEngine) (input : string) : LayaScore :=
  let input_lower := to_ascii_lowercase input in
  let '(max_risk, hits) :=
    foldl (fun '(mr, h) tw => if contains tw.1 input_lower then (if f64_lt mr tw.2 then tw.2 else mr, (h + 1)%Z) else (mr, h))
      (f64_lit 5 100, 0%Z) (le_threat_tokens e) in
  let confidence := if (0 <? hits)%Z
                    then f64_min (f64_add (f64_lit 70 100) (f64_mul (f64_of_Z hits) (f64_lit 10 100))) (f64_lit 99 100)
                    else f64_lit 90 100 in
  mkScore max_risk confidence.

Definition is_malicious_anomaly (e : LayaDecisionEngine) (input : string) : LayaNoul :=
  let risk := score_threat_risk e input in
  let is_malicious := f64_le (f64_lit 50 100) (sc_score risk) in
  mkNoul is_malicious (if is_malicious then sc_score risk else f64_sub (f64_of_Z 1) (sc_score risk)).
