(* ===== verification/LayaFacts.v ===== *)
(** * Facts on the Laya decision engine

    A weight is the number of hits counted in fours and tens, a choice ranks
    exactly the candidates with probabilities between 0.001 and 0.999, and a line
    is malicious exactly when it contains a threat token. *)

From Stdlib Require Import Floats.SpecFloat Sorting.Sorted.
From S2P Require Import Laya Float64Facts.

#[local] Instance f64_eq_dec : EqDecision f64.
Proof. solve_decision. Defined.

(** ** Small integers add exactly *)




(** How many of the tokens the line contains. *)
Definition hits (input : string) (tokens : list string) : nat :=
  length (filter (fun t => contains t input = true) tokens).


Definition weight_of (e : LayaDecisionEngine) (input vendor : string) : Z :=
  10 * Z.of_nat (hits input (priors_of vendor (le_vendor_fingerprint_priors e)))
  + 4 * Z.of_nat (hits input (priors_of vendor (le_vendor_token_priors e))).




(** ** Sums and quotients of positive numbers *)








(** ** Rankings *)







Section Choice.
Context `{LibM}.




End Choice.

(** ** Threats *)













(** ** The decisions *)

Section Decisions.
Context `{LibM}.






End Decisions.

(** ** A concrete engine *)

Module LayaDemo.

(** An [exp] that is at least positive where it matters. *)
#[local] Instance demo_libm : LibM := {| f64_exp x := f64_add (f64_of_Z 1) x |}.



(** A fingerprint weighs ten and a cue four, so three cues outweigh a fingerprint,
    which the documentation calls decisive. *)
Example cues_outweigh_fingerprint :
  let line := "%ASA-6-302013: RT_FLOW_SESSION_CREATE session created" in
  (weight_of (laya_new action_token_priors) line "cisco_asa", weight_of (laya_new action_token_priors) line "juniper_srx") = (10%Z, 12%Z).
Proof. by vm_compute. Qed.


End LayaDemo.
