(* ===== verification/Drain.v ===== *)
(** * The template miner ([crates/ulpf-ai/src/drain.rs])

    Masking, tokenization, the prefix tree and the clusters.  The clock of a
    call and its latency are arguments; ids and counts are unbounded. *)

From S2P Require Export Regexes Float64.

(** ** Configuration *)

Record DrainConfig := mkDrainConfig {
  depth : Z;
  similarity_threshold : f64;
  max_children : nat;
  max_clusters : Z;
  rare_count_threshold : nat;
  surge_multiplier : f64;
  window_size : nat;
  unique_anchor_tokens : list string;
  anchors_enabled : bool
}.

Definition drain_default : DrainConfig :=
  mkDrainConfig 4 (f64_lit 1 2) 100 10000 5 (f64_of_Z 3) 100
    ["ALLOW"; "DENY"; "DROP"; "BLOCK"; "PERMIT"; "REJECT"; "PASS"; "ACCEPT"; "ALLOWED"; "DENIED"; "BLOCKED";
     "BUILT"; "TEARDOWN"; "CLOSE"; "CLOSED"; "RESET"; "RST"; "TRAFFIC"; "THREAT"] true.

Definition CLASS_KEYS : list string := ["type"].

(** ** Alerts and results *)

Inductive AlertSeverity := SevInfo | SevLow | SevMedium | SevHigh | SevCritical.

Inductive AnomalyType := NewTemplate | RareClusterSurge | EvasionAnomaly.

Record AnomalyAlert := mkAlert {
  al_type : AnomalyType;
  al_cluster_id : nat;
  al_template : string;
  al_message : string;
  al_timestamp : Z;
  al_count : nat;
  al_severity : AlertSeverity
}.

Record ClusterResult := mkClusterResult {
  cr_cluster_id : nat;
  cr_template : string;
  cr_is_new : bool;
  cr_similarity : f64;
  cr_anomaly : option AnomalyAlert;
  cr_latency_micros : Z
}.

(** ** Clusters *)

Record LogCluster := mkCluster {
  lc_cluster_id : nat;
  lc_template_tokens : list string;
  lc_template : string;
  lc_count : nat;
  lc_size : nat;
  lc_created_at : Z;
  lc_last_seen : Z;
  lc_recent_timestamps : list Z;
  lc_syslog_tag : option string
}.

Definition wildcard : string := "<*>".

Definition cluster_new (cluster_id : nat) (tokens : list string) (now_ms : Z) (tag : option string) : LogCluster :=
  mkCluster cluster_id tokens (str_join " " tokens) 1 (length tokens) now_ms now_ms [now_ms] tag.

(** The loop of [update]: the template after the line, and whether it changed. *)
Fixpoint merge_tokens (tmpl incoming : list string) : list string * bool :=
  match tmpl, incoming with
  | t :: tmpl', i :: incoming' =>
      let '(r, changed) := merge_tokens tmpl' incoming' in
      if negb (String.eqb t i) && negb (String.eqb t wildcard) then (wildcard :: r, true) else (t :: r, changed)
  | _, _ => (tmpl, false)
  end.

Definition cluster_update (c : LogCluster) (incoming : list string) (now_ms : Z) : LogCluster :=
  let ts := lc_recent_timestamps c in
  let ts := (if (64 <=? length ts)%nat then drop 1 ts else ts) ++ [now_ms] in
  let '(tokens, changed) := merge_tokens (lc_template_tokens c) incoming in
  mkCluster (lc_cluster_id c) tokens (if changed then str_join " " tokens else lc_template c) (lc_count c + 1)
    (lc_size c) (lc_created_at c) now_ms ts (lc_syslog_tag c).

Definition recent_rate_per_sec (c : LogCluster) : f64 :=
  let ts := lc_recent_timestamps c in
  let n := f64_of_Z (Z.of_nat (length ts)) in
  match head ts, last ts with
  | Some oldest, Some newest =>
      if (length ts <? 2)%nat then f64_zero
      else let elapsed_ms := (newest - oldest)%Z in
           if (elapsed_ms <=? 0)%Z then n
           else f64_div n (f64_div (f64_of_Z elapsed_ms) (f64_of_Z 1000))
  | _, _ => f64_zero
  end.

(** ** Tokens *)

Definition is_token_quote (c : string) : bool := one_of [","; ";"; dquote_str; "'"] c.

(** [split_whitespace] *)
Fixpoint split_ws (cs : list string) (cur : string) : list string :=
  match cs with
  | [] => if is_empty cur then [] else [cur]
  | c :: cs' =>
      if is_whitespace c then (if is_empty cur then split_ws cs' "" else cur :: split_ws cs' "")
      else split_ws cs' (cur +:+ c)
  end.

Definition split_whitespace (s : string) : list string := split_ws (chars s) "".

Definition not_empty (s : string) : bool := negb (is_empty s).

Definition tokenize (input : string) : list string :=
  if contains " " input
  then List.filter not_empty (trim_matches is_token_quote <$> split_whitespace input)
  else if contains "," input then List.filter not_empty (trim <$> split_char "," input)
  else [input].

Definition has_byte (p : ascii -> bool) (s : string) : bool :=
  match find_byte p s with Some _ => true | None => false end.

Definition has_digit_or_param (token : string) : bool :=
  String.eqb token wildcard || has_byte is_ascii_digit token.

Definition is_anchor_junk (c : string) : bool := is_token_quote c || is_whitespace c.

Definition quote_colon : string := dquote_str +:+ ":".

Definition anchor_value (token : string) : string :=
  let value := match find "=" token with
               | Some p => str_drop (p + 1) token
               | None => match find quote_colon token with
                         | Some p => str_drop (p + 2) token
                         | None => token
                         end
               end in
  trim_matches is_anchor_junk value.

Definition kv_key (token : string) : option string :=
  key <-! match find "=" token with
          | Some p => Some (str_take p token)
          | None => (fun p => str_take p token) <$> find quote_colon token
          end;
  Some (trim_matches is_anchor_junk key).

(** ** Similarity *)

(** The two tests of the anchor loop: a pair of tokens that forces a distinct
    cluster. *)
Definition anchors_differ (anchor_tokens : list string) (t1 t2 : string) : bool :=
  let v1 := anchor_value t1 in
  let v2 := anchor_value t2 in
  let is_anchor := existsb (fun a => eq_ignore_ascii_case v1 a || eq_ignore_ascii_case v2 a) anchor_tokens in
  (is_anchor && negb (eq_ignore_ascii_case v1 v2))
  || match kv_key t1, kv_key t2 with
     | Some k1, Some k2 =>
         eq_ignore_ascii_case k1 k2 && existsb (eq_ignore_ascii_case k1) CLASS_KEYS
         && negb (eq_ignore_ascii_case v1 v2)
     | _, _ => false
     end.

Fixpoint count_matches (tmpl tokens : list string) : nat :=
  match tmpl, tokens with
  | t1 :: tmpl', t2 :: tokens' =>
      (if String.eqb t1 wildcard || String.eqb t1 t2 then 1 else 0) + count_matches tmpl' tokens'
  | _, _ => 0
  end.

Definition is_nil_list {A} (l : list A) : bool := match l with [] => true | _ => false end.

Definition compute_similarity (tmpl tokens anchor_tokens : list string) : f64 :=
  if negb (length tmpl =? length tokens)%nat || is_nil_list tmpl then f64_zero
  else if negb (is_nil_list anchor_tokens)
          && existsb (fun p => anchors_differ anchor_tokens p.1 p.2) (zip tmpl tokens) then f64_zero
  else f64_div (f64_of_Z (Z.of_nat (count_matches tmpl tokens))) (f64_of_Z (Z.of_nat (length tmpl))).

(** ** The prefix tree *)

#[warnings="-register-all"]
Inductive Node := mkNode {
  n_key : string;
  n_children : gmap string Node;
  n_cluster_ids : list nat
}.

Definition node_new (key : string) : Node := mkNode key ∅ [].

Record DrainMiner := mkMiner {
  dm_config : DrainConfig;
  dm_root : Node;
  dm_clusters : gmap nat LogCluster;
  dm_next_cluster_id : nat;
  dm_total_logs : nat
}.

Definition miner_new (config : DrainConfig) : DrainMiner := mkMiner config (node_new "root") ∅ 1 0.

(** [for i in 0..depth - 2], up to the last token: the tokens of the path *)
Definition prefix_tokens (config : DrainConfig) (tokens : list string) : list string :=
  take (Z.to_nat (Z.min (wrapu 64 (depth config - 2)) (Z.of_nat (length tokens)))) tokens.

(** The walk of [find_best_match]. *)
Fixpoint descend (path : list string) (current : Node) : option Node :=
  match path with
  | [] => Some current
  | token :: path' =>
      let key := if has_digit_or_param token then "*" else token in
      match n_children current !! key with
      | Some child => descend path' child
      | None => match n_children current !! "*" with
                | Some wildcard_child => descend path' wildcard_child
                | None => None
                end
      end
  end.

Definition search_leaf (config : DrainConfig) (root : Node) (tokens : list string) : option Node :=
  match n_children root !! (pretty (length tokens) : string) with
  | None => None
  | Some len_node => descend (prefix_tokens config tokens) len_node
  end.

(** The body of the loop over the candidates. *)
Definition match_step (m : DrainMiner) (tokens : list string) (tag : option string) (acc : option nat * f64)
    (c_id : nat) : option nat * f64 :=
  let '(best, max_sim) := acc in
  match dm_clusters m !! c_id with
  | None => acc
  | Some c =>
      if negb (lc_size c =? length tokens)%nat then acc
      else if anchors_enabled (dm_config m) && negb (bool_decide (lc_syslog_tag c = tag)) then acc
      else
        let anchor_vocab := if anchors_enabled (dm_config m) then unique_anchor_tokens (dm_config m) else [] in
        let sim := compute_similarity (lc_template_tokens c) tokens anchor_vocab in
        if f64_lt max_sim sim
        then (if f64_le (similarity_threshold (dm_config m)) sim then Some c_id else best, sim)
        else acc
  end.

Definition find_best_match (m : DrainMiner) (tokens : list string) (tag : option string) : option nat * f64 :=
  match search_leaf (dm_config m) (dm_root m) tokens with
  | None => (None, f64_zero)
  | Some leaf => foldl (match_step m tokens tag) (None, f64_zero) (n_cluster_ids leaf)
  end.

(** The walk of [insert_to_tree] below the node of the length. *)
Fixpoint insert_path (maxc cluster_id : nat) (path : list string) (current : Node) : Node :=
  match path with
  | [] => mkNode (n_key current) (n_children current) (n_cluster_ids current ++ [cluster_id])
  | token :: path' =>
      let key := if has_digit_or_param token || (maxc <=? size (n_children current))%nat then "*" else token in
      let child := default (node_new key) (n_children current !! key) in
      mkNode (n_key current) (<[key := insert_path maxc cluster_id path' child]> (n_children current))
        (n_cluster_ids current)
  end.

Definition insert_to_tree (config : DrainConfig) (root : Node) (cluster_id : nat) (tokens : list string) : Node :=
  let len_key : string := pretty (length tokens) in
  let len_node := default (node_new len_key) (n_children root !! len_key) in
  mkNode (n_key root)
    (<[len_key := insert_path (max_children config) cluster_id (prefix_tokens config tokens) len_node]> (n_children root))
    (n_cluster_ids root).

(** ** [add_log] *)

Definition surge_alert (cfg : DrainConfig) (total prev_count : nat) (c : LogCluster) (now_ms : Z)
  : option AnomalyAlert :=
  if (rare_count_threshold cfg * 3 <? total)%nat && (prev_count <=? rare_count_threshold cfg)%nat
     && (rare_count_threshold cfg <? lc_count c)%nat
  then let rate := recent_rate_per_sec c in
       if f64_le (surge_multiplier cfg) rate || (rare_count_threshold cfg + 2 <=? lc_count c)%nat
       then Some (mkAlert RareClusterSurge (lc_cluster_id c) (lc_template c)
                    ("Rare cluster #" +:+ pretty (lc_cluster_id c) +:+ " suddenly surged to "
                     +:+ pretty (lc_count c) +:+ " events (rate: " +:+ fmt_fixed 2 rate +:+ " eps)")
                    now_ms (lc_count c) SevHigh)
       else None
  else None.

Definition new_template_alert (cluster_id : nat) (template : string) (now_ms : Z) : AnomalyAlert :=
  mkAlert NewTemplate cluster_id template
    ("Unseen log structural template #" +:+ pretty cluster_id +:+ " detected: '" +:+ template +:+ "'")
    now_ms 1 SevMedium.

(** [add_log] from the tokens and the tag on; [None] is the panic of
    [get_mut(..).unwrap()]. *)
Definition add_tokens (m : DrainMiner) (now_ms latency : Z) (tokens : list string) (tag : option string)
  : option (ClusterResult * DrainMiner) :=
  let total := S (dm_total_logs m) in
  if is_nil_list tokens
  then Some (mkClusterResult 0 "" false (f64_of_Z 1) None latency,
             mkMiner (dm_config m) (dm_root m) (dm_clusters m) (dm_next_cluster_id m) total)
  else
    let '(matched, max_sim) := find_best_match m tokens tag in
    match matched with
    | Some c_id =>
        cluster <-! dm_clusters m !! c_id;
        let c := cluster_update cluster tokens now_ms in
        Some (mkClusterResult c_id (lc_template c) false max_sim
                (surge_alert (dm_config m) total (lc_count cluster) c now_ms) latency,
              mkMiner (dm_config m) (dm_root m) (<[c_id := c]> (dm_clusters m)) (dm_next_cluster_id m) total)
    | None =>
        let cluster_id := dm_next_cluster_id m in
        let c := cluster_new cluster_id tokens now_ms tag in
        Some (mkClusterResult cluster_id (lc_template c) true max_sim
                (Some (new_template_alert cluster_id (lc_template c) now_ms)) latency,
              mkMiner (dm_config m) (insert_to_tree (dm_config m) (dm_root m) cluster_id tokens)
                (<[cluster_id := c]> (dm_clusters m)) (S cluster_id) total)
    end.

(** ** Masking *)

Definition SYSLOG_TAG_PATTERN : string := "%[A-Za-z0-9_-]+-\d+-\d+:|%[A-Za-z0-9_-]+:".
Definition RE_IP_PORT : string := "((?:\d{1,3}\.){3}\d{1,3})[:/](\d{1,5})".
Definition RE_IP : string := "\b(?:\d{1,3}\.){3}\d{1,3}\b".
Definition RE_TIMESTAMP_ISO : string :=
  "\b\d{4}[-/]\d{2}[-/]\d{2}[T\s]\d{2}:\d{2}:\d{2}(?:\.\d+)?(?:Z|[+-]\d{2}:?\d{2})?\b".
Definition RE_TIMESTAMP_SYSLOG : string :=
  "\b(?:Jan|Feb|Mar|Apr|May|Jun|Jul|Aug|Sep|Oct|Nov|Dec)\s+\d{1,2}\s+\d{2}:\d{2}:\d{2}\b".
Definition RE_HEX : string := "\b0x[0-9a-fA-F]+\b|\b[a-fA-F0-9]{32,64}\b".
Definition RE_UUID : string :=
  "\b[0-9a-fA-F]{8}-[0-9a-fA-F]{4}-[0-9a-fA-F]{4}-[0-9a-fA-F]{4}-[0-9a-fA-F]{12}\b".
Definition RE_URL : string := "https?://[^\s," +:+ dquote_str +:+ "'>]+".
Definition RE_KV_NUM : string :=
  "(\b(?:sessionid|session_id|logid|sentbyte|rcvdbyte|sentpkt|rcvdpkt|duration|bytes|cn1|cn2|cn3|eventtime|tracker)=\s*["
  +:+ dquote_str +:+ "']?)\d+([" +:+ dquote_str +:+ "']?)".
Definition RE_PURE_NUM : string := "\b\d{3,}\b".

Section Masking.
Context `{RegexEngine}.

Definition syslog_tag_of (raw : string) : option string := re_find SYSLOG_TAG_PATTERN raw.

(** [if b { s = re.replace_all(&s, "<*>") }] *)
Definition mask_if (b : bool) (p : string) (s : string) : string :=
  if b then re_replace_all p (fun _ _ => wildcard) s else s.

Definition placeholder (i : nat) : string := "__SYSLOG_TAG_" +:+ pretty i +:+ "__".

Definition mask (raw : string) : string :=
  let has_percent := contains "%" raw in
  let has_dot := contains "." raw in
  let has_colon := contains ":" raw in
  let has_digit := has_byte is_ascii_digit raw in
  if negb has_digit && negb has_percent then raw
  else
    let tags := if has_percent then re_matches SYSLOG_TAG_PATTERN raw else [] in
    let saved_tags := imap (fun i m => (placeholder i, default "" (group m 0))) tags in
    let s := if has_percent then replace_spans (fun i _ => placeholder i) 0 0 tags raw else raw in
    let s := mask_if (contains "http" raw) RE_URL s in
    let s := mask_if (contains "-" raw && (36 <? String.length raw)%nat) RE_UUID s in
    let s := mask_if (contains "0x" raw) RE_HEX s in
    let s := mask_if (has_colon && (contains "-" raw || contains "/" raw)) RE_TIMESTAMP_ISO s in
    let s := mask_if has_colon RE_TIMESTAMP_SYSLOG s in
    let s := mask_if (has_dot && (has_colon || contains "/" raw)) RE_IP_PORT s in
    let s := mask_if has_dot RE_IP s in
    let s := if contains "=" raw
             then re_replace_all RE_KV_NUM
                    (fun _ m => default "" (group m 1) +:+ wildcard +:+ default "" (group m 2)) s
             else s in
    let s := mask_if has_digit RE_PURE_NUM s in
    foldl (fun s pt => replace pt.1 pt.2 s) s saved_tags.

Definition add_log (m : DrainMiner) (now_ms latency : Z) (raw : string) : option (ClusterResult * DrainMiner) :=
  add_tokens m now_ms latency (tokenize (mask raw)) (syslog_tag_of raw).

End Masking.

(** ** Queries *)

Definition get_cluster (m : DrainMiner) (id : nat) : option LogCluster := dm_clusters m !! id.
Definition cluster_count (m : DrainMiner) : nat := size (dm_clusters m).
Definition total_logs (m : DrainMiner) : nat := dm_total_logs m.

(** [sort_by_key(|a| Reverse(a.count))], which is stable *)
Fixpoint insert_by_count (c : LogCluster) (l : list LogCluster) : list LogCluster :=
  match l with
  | [] => [c]
  | c' :: l' => if (lc_count c' <=? lc_count c)%nat then c :: l else c' :: insert_by_count c l'
  end.

(** [values] is the order in which the map gives its clusters. *)
Definition all_clusters_by_frequency (values : list LogCluster) : list LogCluster :=
  foldr insert_by_count [] values.
