(* ===== verification/DrainFacts.v ===== *)
(** * What the template miner guarantees

    Every line of a cluster is covered by its template, carries its tag, and
    agrees with the others on the verdict; a new cluster is found again unless
    a node of its path is full. *)

From S2P Require Export Drain.

Definition same_word (v w : string) : Prop := to_ascii_lowercase v = to_ascii_lowercase w.

Lemma eq_ignore_iff v w : eq_ignore_ascii_case v w = true <-> same_word v w.
Proof. unfold eq_ignore_ascii_case, same_word. apply String.eqb_eq. Qed.

(** A token whose value is a word of the vocabulary. *)
Definition verdict (vocab : list string) (t : string) : bool :=
  existsb (eq_ignore_ascii_case (anchor_value t)) vocab.

Lemma verdict_iff vocab t : verdict vocab t = true <-> exists a, a ∈ vocab /\ same_word (anchor_value t) a.
Proof.
  unfold verdict. rewrite existsb_exists. setoid_rewrite <- list_elem_of_In. by setoid_rewrite eq_ignore_iff.
Qed.

(** The vocabulary has no word that a wildcard could be taken for. *)
Definition vocab_ok (vocab : list string) : Prop := Forall (fun a => eq_ignore_ascii_case wildcard a = false) vocab.

Lemma wildcard_no_verdict vocab : vocab_ok vocab -> verdict vocab wildcard = false.
Proof.
  intros Hv. destruct (verdict vocab wildcard) eqn:E; [|done]. apply existsb_exists in E as (a & Ha & E).
  apply list_elem_of_In in Ha. eapply Forall_forall in Hv; [|done]. change (anchor_value wildcard) with wildcard in E.
  congruence.
Qed.

(** Tokens that may share a position differ in no verdict. *)
Lemma anchors_agree vocab t1 t2 : anchors_differ vocab t1 t2 = false ->
  verdict vocab t1 = true \/ verdict vocab t2 = true -> same_word (anchor_value t1) (anchor_value t2).
Proof.
  unfold anchors_differ. intros E Hv. apply orb_false_iff in E as [E _]. apply eq_ignore_iff.
  destruct (eq_ignore_ascii_case (anchor_value t1) (anchor_value t2)); [done|].
  rewrite andb_true_r in E. rewrite <- not_true_iff_false, existsb_exists in E. destruct E.
  destruct Hv as [Hv|Hv]; apply existsb_exists in Hv as (a & Ha & Ea); exists a; split; try done; rewrite Ea.
  - done.
  - by rewrite orb_true_r.
Qed.

Lemma verdict_same vocab t1 t2 : same_word (anchor_value t1) (anchor_value t2) -> verdict vocab t1 = verdict vocab t2.
Proof. unfold verdict, same_word, eq_ignore_ascii_case. by intros ->. Qed.

(** ** The candidates *)

Section Miner.
Context (cfg : DrainConfig).

Definition vocab_of : list string := if anchors_enabled cfg then unique_anchor_tokens cfg else [].

(** A cluster that a line may join. *)
Record joinable (c : LogCluster) (tokens : list string) (tag : option string) : Prop := {
  jo_size : lc_size c = length tokens;
  jo_tag : anchors_enabled cfg = true -> lc_syslog_tag c = tag;
  jo_length : length (lc_template_tokens c) = length tokens;
  jo_anchors : Forall2 (fun t1 t2 => vocab_of = [] \/ anchors_differ vocab_of t1 t2 = false) (lc_template_tokens c) tokens
}.

Lemma existsb_zip_false (p : string * string -> bool) l : forall k, length l = length k ->
  existsb p (zip l k) = false -> Forall2 (fun x y => p (x, y) = false) l k.
Proof.
  induction l as [|x l IH]; intros [|y k] Hl; simpl in *; try done; intros E.
  apply orb_false_iff in E as [E1 E2]. constructor; [done|]. apply IH; [lia|done].
Qed.

Lemma similarity_cases tmpl tokens : compute_similarity tmpl tokens vocab_of = f64_zero \/
  (length tmpl = length tokens /\
   Forall2 (fun t1 t2 => vocab_of = [] \/ anchors_differ vocab_of t1 t2 = false) tmpl tokens).
Proof.
  unfold compute_similarity. destruct (Nat.eqb_spec (length tmpl) (length tokens)) as [El|]; simpl; [|by left].
  destruct (is_nil_list tmpl); [by left|]. destruct (is_nil_list vocab_of) eqn:Ev; simpl.
  - right. split; [done|]. destruct vocab_of; [|done]. clear Ev.
    apply Forall2_same_length_lookup_2; [done|]. by left.
  - destruct (existsb _ _) eqn:E; [by left|]. right. split; [done|].
    apply existsb_zip_false in E; [|done]. eapply Forall2_impl; [exact E|]. by right.
Qed.

Lemma similarity_nonneg tmpl tokens vocab : f64_nonneg (compute_similarity tmpl tokens vocab).
Proof.
  unfold compute_similarity. destruct (_ || _); [done|]. destruct (_ && _); [done|]. apply ratio_nonneg; lia.
Qed.

(** The loop invariant of [find_best_match]. *)
Definition match_ok (m : DrainMiner) (tokens : list string) (tag : option string) (acc : option nat * f64) : Prop :=
  f64_nonneg acc.2 /\
  forall id, acc.1 = Some id -> exists c, dm_clusters m !! id = Some c /\ joinable c tokens tag.

Lemma match_step_ok m tokens tag acc id : dm_config m = cfg -> match_ok m tokens tag acc ->
  match_ok m tokens tag (match_step m tokens tag acc id).
Proof.
  intros Hcfg Hok. pose proof Hok as [Hn Hb]. unfold match_step. destruct acc as [best ms]. simpl in *.
  destruct (dm_clusters m !! id) as [c|] eqn:Ec; [|done].
  destruct (Nat.eqb_spec (lc_size c) (length tokens)) as [Es|]; simpl; [|done]. rewrite Hcfg.
  destruct (anchors_enabled cfg && negb (bool_decide (lc_syslog_tag c = tag))) eqn:Et; [done|].
  change (if anchors_enabled cfg then unique_anchor_tokens cfg else []) with vocab_of.
  set (sim := compute_similarity _ _ _). destruct (f64_lt ms sim) eqn:El; [|done].
  split; [apply similarity_nonneg|]. simpl. destruct (f64_le _ sim); [|done]. intros i [= <-]. exists c. split; [done|].
  destruct (similarity_cases (lc_template_tokens c) tokens) as [Ez|[Hl HF]].
  - fold sim in Ez. rewrite Ez in El. unfold f64_nonneg in Hn. congruence.
  - split; try done. intros Ha. rewrite Ha in Et. simpl in Et. apply negb_false_iff, bool_decide_eq_true in Et. done.
Qed.

Lemma find_best_match_ok m tokens tag id sim : dm_config m = cfg -> find_best_match m tokens tag = (Some id, sim) ->
  exists c, dm_clusters m !! id = Some c /\ joinable c tokens tag.
Proof.
  intros Hcfg. unfold find_best_match. destruct (search_leaf _ _ _) as [leaf|]; [|done].
  assert (forall l acc, match_ok m tokens tag acc -> match_ok m tokens tag (foldl (match_step m tokens tag) acc l)) as HF.
  { intros l. induction l as [|i l IH]; intros acc Hok; [done|]. simpl. by apply IH, match_step_ok. }
  intros E. destruct (HF (n_cluster_ids leaf) (None, f64_zero)) as [_ Hb]; [by split|].
  apply Hb. by rewrite E.
Qed.

(** ** Runs *)

(** A line as the miner sees it: the cluster it was given, its tokens, its tag. *)
Record Member := mkMember { mb_id : nat; mb_tokens : list string; mb_tag : option string }.

Definition covers (t x : string) : Prop := t = wildcard \/ t = x.

(** What holds between the miner and the lines it has seen. *)
Record drain_inv (m : DrainMiner) (hist : list Member) : Prop := {
  di_config : dm_config m = cfg;
  di_id : forall id c, dm_clusters m !! id = Some c -> lc_cluster_id c = id /\ 0 < id < dm_next_cluster_id m;
  di_next : 0 < dm_next_cluster_id m;
  di_text : forall id c, dm_clusters m !! id = Some c ->
    lc_template c = str_join " " (lc_template_tokens c) /\ lc_size c = length (lc_template_tokens c);
  di_count : forall id c, dm_clusters m !! id = Some c ->
    lc_count c = length (filter (fun b => mb_id b = id) hist);
  di_member : forall b, b ∈ hist -> exists c, dm_clusters m !! mb_id b = Some c /\
    Forall2 covers (lc_template_tokens c) (mb_tokens b) /\
    (anchors_enabled cfg = true -> lc_syslog_tag c = mb_tag b);
  di_verdict : forall b c i x t, b ∈ hist -> dm_clusters m !! mb_id b = Some c ->
    mb_tokens b !! i = Some x -> verdict vocab_of x = true -> lc_template_tokens c !! i = Some t ->
    t = wildcard \/ same_word (anchor_value t) (anchor_value x);
  di_pairs : forall b1 b2 i x y, b1 ∈ hist -> b2 ∈ hist -> mb_id b1 = mb_id b2 ->
    mb_tokens b1 !! i = Some x -> mb_tokens b2 !! i = Some y ->
    verdict vocab_of x = true -> verdict vocab_of y = true -> same_word (anchor_value x) (anchor_value y)
}.

Lemma merge_tokens_lookup tmpl : forall tokens i t, length tmpl = length tokens -> tmpl !! i = Some t ->
  exists x, tokens !! i = Some x /\
    (merge_tokens tmpl tokens).1 !! i = Some (if decide (t = x) then t else wildcard).
Proof.
  induction tmpl as [|t tmpl IH]; intros [|x tokens] i t' Hl Ht; simpl in *; try done.
  assert (length tmpl = length tokens) as Hl' by lia.
  destruct (merge_tokens tmpl tokens) as [r ch] eqn:E. destruct i as [|i]; simplify_eq/=.
  - exists x. split; [done|]. destruct (String.eqb_spec t' x); [by rewrite decide_True|]. rewrite decide_False by done.
    by destruct (String.eqb_spec t' wildcard) as [->|].
  - destruct (IH tokens i t' Hl' Ht) as (x' & Hx & Hm). rewrite E in Hm. exists x'. split; [done|].
    by destruct (negb _ && negb _).
Qed.

Lemma merge_tokens_length tmpl : forall tokens, length (merge_tokens tmpl tokens).1 = length tmpl.
Proof.
  induction tmpl as [|t tmpl IH]; intros [|x tokens]; simpl; try done.
  specialize (IH tokens). destruct (merge_tokens tmpl tokens) as [r ch]. destruct (negb _ && negb _); simpl in *; lia.
Qed.

Lemma merge_tokens_unchanged tmpl : forall tokens, (merge_tokens tmpl tokens).2 = false -> (merge_tokens tmpl tokens).1 = tmpl.
Proof.
  induction tmpl as [|t tmpl IH]; intros [|x tokens]; simpl; try done.
  specialize (IH tokens). destruct (merge_tokens tmpl tokens) as [r ch]. destruct (negb _ && negb _); simpl in *; [done|].
  intros ->. by rewrite IH.
Qed.

Lemma merge_covers tmpl tokens xs : length tmpl = length tokens -> Forall2 covers tmpl xs ->
  Forall2 covers (merge_tokens tmpl tokens).1 xs.
Proof.
  intros Hl HF. pose proof (Forall2_length _ _ _ HF) as Hlx. apply Forall2_same_length_lookup_2.
  { by rewrite merge_tokens_length. }
  intros i t x Ht Hx. destruct (lookup_lt_is_Some_2 tmpl i) as [t0 Ht0]; [rewrite Hlx; by eapply lookup_lt_Some|].
  destruct (merge_tokens_lookup tmpl tokens i t0 Hl Ht0) as (y & _ & E). rewrite E in Ht. injection Ht as <-.
  destruct (decide (t0 = y)); [|by left]. eapply Forall2_lookup_lr in HF; eauto.
Qed.

Lemma merge_covers_new tmpl tokens : length tmpl = length tokens -> Forall2 covers (merge_tokens tmpl tokens).1 tokens.
Proof.
  intros Hl. apply Forall2_same_length_lookup_2; [by rewrite merge_tokens_length|].
  intros i t x Ht Hx. destruct (lookup_lt_is_Some_2 tmpl i) as [t0 Ht0]; [rewrite Hl; by eapply lookup_lt_Some|].
  destruct (merge_tokens_lookup tmpl tokens i t0 Hl Ht0) as (y & Hy & E). simplify_eq.
  destruct (decide (t0 = x)); [by right|by left].
Qed.

Lemma count_snoc hist b id : length (filter (fun b => mb_id b = id) (hist ++ [b])) =
  length (filter (fun b => mb_id b = id) hist) + if decide (mb_id b = id) then 1 else 0.
Proof. rewrite filter_app, length_app. f_equal. rewrite filter_cons. by case_decide. Qed.

Lemma cluster_update_fields c tokens now : let c' := cluster_update c tokens now in
  lc_cluster_id c' = lc_cluster_id c /\ lc_count c' = lc_count c + 1 /\ lc_size c' = lc_size c /\
  lc_syslog_tag c' = lc_syslog_tag c /\ lc_template_tokens c' = (merge_tokens (lc_template_tokens c) tokens).1.
Proof. unfold cluster_update. by destruct (merge_tokens _ _). Qed.

Lemma cluster_update_text c tokens now : lc_template c = str_join " " (lc_template_tokens c) ->
  lc_template (cluster_update c tokens now) = str_join " " (lc_template_tokens (cluster_update c tokens now)).
Proof.
  intros E. unfold cluster_update. pose proof (merge_tokens_unchanged (lc_template_tokens c) tokens) as Hu.
  destruct (merge_tokens _ _) as [r ch]. simpl in *. destruct ch; [done|]. by rewrite Hu.
Qed.

(** A verdict in the line is the verdict of the template. *)
Lemma joinable_verdict c tokens tag i t x : vocab_ok vocab_of -> joinable c tokens tag ->
  lc_template_tokens c !! i = Some t -> tokens !! i = Some x -> verdict vocab_of x = true ->
  t <> wildcard /\ same_word (anchor_value t) (anchor_value x).
Proof.
  intros Hok J Ht Hx Hv. pose proof (jo_anchors _ _ _ J) as HF. eapply Forall2_lookup_lr in HF; [|exact Ht|exact Hx].
  destruct HF as [E|E]; [by rewrite E in Hv|]. apply anchors_agree in E; [|by right]. split; [|done].
  intros ->. apply (verdict_same vocab_of) in E. rewrite wildcard_no_verdict in E by done. congruence.
Qed.

Lemma insert_lookup_cases {A} (M : gmap nat A) id c' id' c1 : <[id := c']> M !! id' = Some c1 ->
  (id' = id /\ c1 = c') \/ (id' <> id /\ M !! id' = Some c1).
Proof.
  destruct (decide (id' = id)) as [->|]; [rewrite lookup_insert_eq|rewrite lookup_insert_ne by done]; naive_solver.
Qed.

(** A line that joins agrees with the verdicts of the cluster. *)
Lemma join_agrees m hist id c tokens tag b i x y : vocab_ok vocab_of -> drain_inv m hist ->
  dm_clusters m !! id = Some c -> joinable c tokens tag -> b ∈ hist -> mb_id b = id ->
  mb_tokens b !! i = Some x -> tokens !! i = Some y ->
  verdict vocab_of x = true -> verdict vocab_of y = true -> same_word (anchor_value x) (anchor_value y).
Proof.
  intros Hok I Ec J Hb Hid Hx Hy Vx Vy. destruct (di_member _ _ I b Hb) as (c0 & E0 & HF & _).
  assert (c0 = c) as -> by congruence. eapply Forall2_lookup_r in HF as (t & Ht & _); [|exact Hx].
  destruct (joinable_verdict c tokens tag i t y Hok J Ht Hy Vy) as [Hw Hs]. rewrite <- Hid in Ec.
  destruct (di_verdict _ _ I b c i x t Hb Ec Hx Vx Ht) as [|Hs']; [done|]. unfold same_word in *. congruence.
Qed.

(** The template keeps or hides the verdicts of its lines. *)
Lemma join_verdict m hist c tokens tag b i x t : drain_inv m hist -> joinable c tokens tag ->
  (b ∈ hist /\ dm_clusters m !! mb_id b = Some c \/ mb_tokens b = tokens) ->
  mb_tokens b !! i = Some x -> verdict vocab_of x = true -> (merge_tokens (lc_template_tokens c) tokens).1 !! i = Some t ->
  t = wildcard \/ same_word (anchor_value t) (anchor_value x).
Proof.
  intros I J Hb Hx Hv Ht. destruct (lookup_lt_is_Some_2 (lc_template_tokens c) i) as [t0 Ht0].
  { rewrite <- (merge_tokens_length _ tokens). by eapply lookup_lt_Some. }
  destruct (merge_tokens_lookup _ tokens i t0 (jo_length _ _ _ J) Ht0) as (y & Hy & E). rewrite E in Ht.
  injection Ht as <-. case_decide; [subst y|by left]. destruct Hb as [[Hb Ec]|Hb].
  - by apply (di_verdict _ _ I b c i x t0 Hb Ec).
  - rewrite Hb in Hx. simplify_eq. by right.
Qed.

(** A line joins a cluster. *)
Lemma join_inv m hist id c tokens tag now : vocab_ok vocab_of -> drain_inv m hist ->
  dm_clusters m !! id = Some c -> joinable c tokens tag ->
  drain_inv (mkMiner (dm_config m) (dm_root m) (<[id := cluster_update c tokens now]> (dm_clusters m))
               (dm_next_cluster_id m) (S (dm_total_logs m))) (hist ++ [mkMember id tokens tag]).
Proof.
  intros Hok I Ec J. destruct (cluster_update_fields c tokens now) as (Fi & Fc & Fs & Fg & Ft).
  set (c' := cluster_update c tokens now) in *. pose proof (jo_length _ _ _ J) as Hl. split; simpl.
  - apply (di_config _ _ I).
  - intros id' c1 [[-> ->]|[_ H1]]%insert_lookup_cases; [rewrite Fi|]; by apply (di_id _ _ I).
  - apply (di_next _ _ I).
  - intros id' c1 [[-> ->]|[_ H1]]%insert_lookup_cases; [|by apply (di_text _ _ I) in H1].
    destruct (di_text _ _ I id c Ec) as [E1 E2]. split; [by apply cluster_update_text|].
    rewrite Fs, Ft, merge_tokens_length. done.
  - intros id' c1 H1. rewrite count_snoc. simpl. apply insert_lookup_cases in H1 as [[-> ->]|[Hne H1]].
    + rewrite Fc, (di_count _ _ I id c Ec), decide_True by done. done.
    + rewrite (di_count _ _ I id' c1 H1), decide_False by done. lia.
  - intros b [Hb| ->]%elem_of_snoc; simpl.
    + destruct (di_member _ _ I b Hb) as (c0 & E0 & HF & Htag). destruct (decide (mb_id b = id)) as [<-|].
      * exists c'. rewrite lookup_insert_eq, Ft, Fg. simplify_eq. split_and!; [done|by apply merge_covers|done].
      * exists c0. by rewrite lookup_insert_ne.
    + exists c'. rewrite lookup_insert_eq, Ft, Fg. split_and!; [done|by apply merge_covers_new|].
      apply (jo_tag _ _ _ J).
  - intros b c1 i x t Hb [[Hid ->]|[Hne H1]]%insert_lookup_cases Hx Hv Ht.
    + rewrite Ft in Ht. eapply join_verdict; eauto. apply elem_of_snoc in Hb as [Hb| ->]; [left; by rewrite Hid|by right].
    + apply elem_of_snoc in Hb as [Hb| ->]; [|done]. by apply (di_verdict _ _ I b c1 i x t Hb H1).
  - intros b1 b2 i x y [H1| ->]%elem_of_snoc [H2| ->]%elem_of_snoc Hid Hx Hy Vx Vy; simpl in *.
    + by apply (di_pairs _ _ I b1 b2 i x y).
    + by apply (join_agrees m hist id c tokens tag b1 i x y).
    + symmetry. by apply (join_agrees m hist id c tokens tag b2 i y x).
    + by simplify_eq.
Qed.

Lemma cover_self l : Forall2 covers l l.
Proof. induction l; constructor; auto. by right. Qed.

Lemma count_none (hist : list Member) id : (forall b, b ∈ hist -> mb_id b <> id) ->
  length (filter (fun b => mb_id b = id) hist) = 0.
Proof.
  induction hist as [|b hist IH]; intros Hn; [done|]. rewrite filter_cons_False by (apply Hn; by left).
  apply IH. intros b' Hb. apply Hn. by right.
Qed.

(** A line makes a cluster. *)
Lemma create_inv m hist tokens tag now root : drain_inv m hist ->
  drain_inv (mkMiner (dm_config m) root
               (<[dm_next_cluster_id m := cluster_new (dm_next_cluster_id m) tokens now tag]> (dm_clusters m))
               (S (dm_next_cluster_id m)) (S (dm_total_logs m)))
    (hist ++ [mkMember (dm_next_cluster_id m) tokens tag]).
Proof.
  intros I. set (id := dm_next_cluster_id m). set (c' := cluster_new id tokens now tag).
  assert (forall b, b ∈ hist -> mb_id b < id) as Hlt.
  { intros b Hb. destruct (di_member _ _ I b Hb) as (c & Ec & _). apply (di_id _ _ I) in Ec. lia. }
  split; simpl.
  - apply (di_config _ _ I).
  - intros id' c1 [[-> ->]|[_ H1]]%insert_lookup_cases.
    + pose proof (di_next _ _ I). simpl. unfold id. lia.
    + apply (di_id _ _ I) in H1. fold id in H1. lia.
  - lia.
  - intros id' c1 [[-> ->]|[_ H1]]%insert_lookup_cases; [done|by apply (di_text _ _ I) in H1].
  - intros id' c1 H1. rewrite count_snoc. simpl. apply insert_lookup_cases in H1 as [[-> ->]|[Hne H1]].
    + rewrite decide_True, count_none by (done || intros b Hb; apply Hlt in Hb; lia). done.
    + rewrite (di_count _ _ I id' c1 H1), decide_False by done. lia.
  - intros b [Hb| ->]%elem_of_snoc; simpl.
    + destruct (di_member _ _ I b Hb) as (c0 & E0 & HF). exists c0. rewrite lookup_insert_ne; [done|].
      apply Hlt in Hb. lia.
    + exists c'. rewrite lookup_insert_eq. split_and!; [done|apply cover_self|done].
  - intros b c1 i x t Hb [[Hid ->]|[Hne H1]]%insert_lookup_cases Hx Hv Ht; apply elem_of_snoc in Hb as [Hb| ->].
    + apply Hlt in Hb. lia.
    + simpl in *. simplify_eq. by right.
    + by apply (di_verdict _ _ I b c1 i x t Hb H1).
    + done.
  - intros b1 b2 i x y [H1| ->]%elem_of_snoc [H2| ->]%elem_of_snoc Hid Hx Hy Vx Vy; simpl in *.
    + by apply (di_pairs _ _ I b1 b2 i x y).
    + apply Hlt in H1. lia.
    + apply Hlt in H2. lia.
    + by simplify_eq.
Qed.

Lemma add_tokens_inv m hist now lat tokens tag : vocab_ok vocab_of -> drain_inv m hist ->
  exists r m', add_tokens m now lat tokens tag = Some (r, m') /\
    drain_inv m' (if is_nil_list tokens then hist else hist ++ [mkMember (cr_cluster_id r) tokens tag]).
Proof.
  intros Hok I. unfold add_tokens. destruct (is_nil_list tokens) eqn:En.
  { eexists _, _. split; [reflexivity|]. by destruct I. }
  destruct (find_best_match m tokens tag) as [[id|] sim] eqn:Ef.
  - destruct (find_best_match_ok m tokens tag id sim) as (c & Ec & J); [apply (di_config _ _ I)|done|].
    rewrite Ec. eexists _, _. split; [reflexivity|]. by apply join_inv.
  - eexists _, _. split; [reflexivity|]. by apply create_inv.
Qed.

End Miner.

(** The miner never panics: a match is always a cluster that exists. *)
Lemma drain_total `{RegexEngine} m now lat raw : exists r m', add_log m now lat raw = Some (r, m').
Proof.
  unfold add_log, add_tokens. destruct (is_nil_list _); [eauto|].
  destruct (find_best_match m _ _) as [[id|] sim] eqn:E; [|eauto].
  destruct (find_best_match_ok (dm_config m) m _ _ id sim eq_refl E) as (c & -> & _). eauto.
Qed.

(** ** The prefix tree *)

(** The cluster ids below a node. *)
Inductive in_tree (id : nat) : Node -> Prop :=
| in_here n : id ∈ n_cluster_ids n -> in_tree id n
| in_child n key child : n_children n !! key = Some child -> in_tree id child -> in_tree id n.

Lemma in_tree_new id key : ~ in_tree id (node_new key).
Proof. by inversion 1 as [? Hi|? ? ? Hc]; [apply not_elem_of_nil in Hi|]. Qed.

Lemma in_tree_default id key (o : option Node) n : (forall c, o = Some c -> in_tree id c -> in_tree id n) ->
  in_tree id (default (node_new key) o) -> in_tree id n.
Proof. intros Hc. destruct o as [c|]; simpl; [by apply Hc|]. by intros Hi%in_tree_new. Qed.

Lemma in_tree_insert_path maxc new path : forall n id,
  in_tree id (insert_path maxc new path n) -> id = new \/ in_tree id n.
Proof.
  induction path as [|t path IH]; intros n id; simpl.
  - inversion 1 as [? Hi|? key child Hc Ht]; simpl in *; [|right; by eapply in_child].
    apply elem_of_app in Hi as [Hi|Hi%list_elem_of_singleton]; [right; by apply in_here|by left].
  - set (key := if _ || _ then "*" else t). inversion 1 as [? Hi|? k child Hc Ht]; simpl in *; [right; by apply in_here|].
    destruct (decide (k = key)) as [->|].
    + rewrite lookup_insert_eq in Hc. injection Hc as <-. destruct (IH _ _ Ht) as [|Hd]; [by left|]. right.
      eapply in_tree_default; [|exact Hd]. intros c Ec Hi. by eapply in_child.
    + rewrite lookup_insert_ne in Hc by done. right. by eapply in_child.
Qed.

Lemma in_tree_insert cfg root new tokens id :
  in_tree id (insert_to_tree cfg root new tokens) -> id = new \/ in_tree id root.
Proof.
  unfold insert_to_tree. inversion 1 as [? Hi|? k child Hc Ht]; simpl in *; [right; by apply in_here|].
  destruct (decide (k = pretty (length tokens))) as [->|].
  - rewrite lookup_insert_eq in Hc. injection Hc as <-. apply in_tree_insert_path in Ht as [|Hd]; [by left|]. right.
    eapply in_tree_default; [|exact Hd]. intros c Ec Hi. by eapply in_child.
  - rewrite lookup_insert_ne in Hc by done. right. by eapply in_child.
Qed.

Lemma descend_in_tree path : forall n leaf id, descend path n = Some leaf -> id ∈ n_cluster_ids leaf -> in_tree id n.
Proof.
  induction path as [|t path IH]; intros n leaf id; simpl; [intros [= <-]; apply in_here|].
  set (key := if has_digit_or_param t then "*" else t). intros Hd Hi. destruct (n_children n !! key) eqn:E; [by eapply in_child; eauto|].
  destruct (n_children n !! "*") eqn:E2; [by eapply in_child; eauto|done].
Qed.

(** The ids of the tree were given out. *)
Definition tree_ok (m : DrainMiner) : Prop := forall id, in_tree id (dm_root m) -> id < dm_next_cluster_id m.

Lemma add_tokens_tree_ok m now lat tokens tag r m' : tree_ok m -> add_tokens m now lat tokens tag = Some (r, m') ->
  tree_ok m' /\ dm_config m' = dm_config m.
Proof.
  intros T. unfold add_tokens. destruct (is_nil_list tokens); [by intros [= <- <-]|].
  destruct (find_best_match m tokens tag) as [[id|] sim].
  - destruct (dm_clusters m !! id); [|done]. by intros [= <- <-].
  - intros [= <- <-]. split; [|done]. intros id Hi. simpl in *. apply in_tree_insert in Hi as [->|Hi]; [lia|].
    apply T in Hi. lia.
Qed.

(** The walk of a search meets no full node, so that an insertion takes the
    same way. *)
Fixpoint path_free (maxc : nat) (path : list string) (n : Node) : bool :=
  match path with
  | [] => true
  | t :: path' =>
      let key := if has_digit_or_param t then "*" else t in
      (has_digit_or_param t || (size (n_children n) <? maxc)%nat)
      && path_free maxc path' (default (node_new key) (n_children n !! key))
  end.

Lemma insert_path_found maxc id path : forall n, path_free maxc path n = true ->
  exists leaf, descend path (insert_path maxc id path n) = Some leaf /\ id ∈ n_cluster_ids leaf.
Proof.
  induction path as [|t path IH]; intros n; simpl.
  - intros _. eexists. split; [reflexivity|]. simpl. set_solver.
  - intros [E1 E2]%andb_true_iff.
    assert (has_digit_or_param t || (maxc <=? size (n_children n))%nat = has_digit_or_param t) as ->.
    { destruct (has_digit_or_param t); [done|]. simpl in *. apply Nat.ltb_lt in E1. by apply Nat.leb_gt. }
    rewrite lookup_insert_eq. by apply IH.
Qed.

(** A new cluster is found again: when no node on the way of a line is full,
    the cluster that the line makes is among the candidates of the next search
    for the same tokens. *)
Theorem new_cluster_is_candidate m now lat tokens tag r m' :
  add_tokens m now lat tokens tag = Some (r, m') -> cr_is_new r = true ->
  path_free (max_children (dm_config m)) (prefix_tokens (dm_config m) tokens)
    (default (node_new (pretty (length tokens))) (n_children (dm_root m) !! (pretty (length tokens) : string))) = true ->
  exists leaf, search_leaf (dm_config m') (dm_root m') tokens = Some leaf /\ cr_cluster_id r ∈ n_cluster_ids leaf.
Proof.
  unfold add_tokens. destruct (is_nil_list tokens); [by intros [= <- <-]|].
  destruct (find_best_match m tokens tag) as [[id|] sim]; [destruct (dm_clusters m !! id); [|done]; by intros [= <- <-]|].
  intros [= <- <-] _ Hf. simpl. unfold search_leaf, insert_to_tree. simpl. rewrite lookup_insert_eq.
  by apply insert_path_found.
Qed.

(** A full node on the way of a line whose first token has a child of its own:
    an insertion goes below the wildcard, a search below the token. *)
Record blocked_by (m : DrainMiner) (tokens : list string) (tag : option string) (t : string) (nd child : Node) : Prop := {
  bb_path : exists path, prefix_tokens (dm_config m) tokens = t :: path;
  bb_token : has_digit_or_param t = false /\ t <> "*";
  bb_node : n_children (dm_root m) !! (pretty (length tokens) : string) = Some nd;
  bb_child : n_children nd !! t = Some child;
  bb_full : max_children (dm_config m) <= size (n_children nd);
  bb_none : (find_best_match m tokens tag).1 = None
}.

Lemma match_fold_fresh m m' tokens tag ids : dm_config m' = dm_config m ->
  (forall id, id ∈ ids -> dm_clusters m' !! id = dm_clusters m !! id) -> forall acc,
  foldl (match_step m' tokens tag) acc ids = foldl (match_step m tokens tag) acc ids.
Proof.
  intros Hcfg. induction ids as [|id ids IH]; intros Hids acc; [done|]. simpl.
  assert (match_step m' tokens tag acc id = match_step m tokens tag acc id) as ->.
  { unfold match_step. by rewrite Hcfg, Hids by left. }
  apply IH. intros i Hi. apply Hids. by right.
Qed.

Lemma blocked_step m now lat tokens tag t nd child : tree_ok m -> blocked_by m tokens tag t nd child ->
  exists r m', add_tokens m now lat tokens tag = Some (r, m') /\ cr_is_new r = true /\
    (exists nd', blocked_by m' tokens tag t nd' child) /\ dm_next_cluster_id m' = S (dm_next_cluster_id m) /\
    dm_clusters m' !! cr_cluster_id r <> None /\ cr_cluster_id r = dm_next_cluster_id m.
Proof.
  intros T [(path & Ep) [Ht Hs] En Ec Hfull Hnone]. unfold add_tokens. destruct tokens as [|x tokens'] eqn:Etok.
  { unfold prefix_tokens in Ep. by rewrite take_nil in Ep. }
  rewrite <- Etok in *. replace (is_nil_list tokens) with false by (by rewrite Etok).
  destruct (find_best_match m tokens tag) as [best sim] eqn:Ef. simpl in Hnone. subst best.
  eexists _, _. split; [reflexivity|]. split_and!; try done; simpl; [|by rewrite lookup_insert_eq].
  set (id := dm_next_cluster_id m).
  assert (insert_path (max_children (dm_config m)) id (t :: path) nd =
    mkNode (n_key nd) (<["*" := insert_path (max_children (dm_config m)) id path
      (default (node_new "*") (n_children nd !! "*"))]> (n_children nd)) (n_cluster_ids nd)) as Ei.
  { simpl. by rewrite Ht, (proj2 (Nat.leb_le _ _) Hfull). }
  eexists. split; simpl.
  - by exists path.
  - done.
  - rewrite En, Ep. simpl default. rewrite Ei. by rewrite lookup_insert_eq.
  - simpl. by rewrite lookup_insert_ne.
  - simpl. rewrite map_size_insert. destruct (n_children nd !! "*"); simpl; lia.
  - unfold find_best_match, search_leaf, insert_to_tree in Ef |- *. simpl. rewrite lookup_insert_eq, En, Ep.
    rewrite En, Ep in Ef. simpl default. rewrite Ei. simpl in Ef |- *. rewrite Ht in Ef |- *. rewrite Ec in Ef.
    rewrite lookup_insert_ne, Ec by done. destruct (descend path child) as [leaf|] eqn:Ed; [|done].
    rewrite (match_fold_fresh m); simpl; [by rewrite Ef|done|]. intros i Hi. apply lookup_insert_ne.
    assert (in_tree i (dm_root m)) as Hin by (eapply in_child, in_child, descend_in_tree; eauto).
    apply T in Hin. unfold id. lia.
Qed.

(** ** Lines *)

Section Lines.
Context `{RegexEngine}.

(** Lines through the miner, with the clock and latency of each call: the
    members and the final state. *)
Fixpoint mine (m : DrainMiner) (lines : list (Z * Z * string)) : option (list Member * DrainMiner) :=
  match lines with
  | [] => Some ([], m)
  | (now, lat, raw) :: lines' =>
      match add_log m now lat raw with
      | None => None
      | Some (r, m1) =>
          match mine m1 lines' with
          | None => None
          | Some (l, m2) =>
              let tokens := tokenize (mask raw) in
              Some (if is_nil_list tokens then l else mkMember (cr_cluster_id r) tokens (syslog_tag_of raw) :: l, m2)
          end
      end
  end.

Lemma miner_new_inv cfg : drain_inv cfg (miner_new cfg) [].
Proof.
  split; simpl; try done; [lia| |]; intros b; intros; by destruct (not_elem_of_nil b).
Qed.

Lemma mine_inv cfg lines : vocab_ok (vocab_of cfg) -> forall m hist, drain_inv cfg m hist ->
  exists l m', mine m lines = Some (l, m') /\ drain_inv cfg m' (hist ++ l).
Proof.
  intros Hok. induction lines as [|[[now lat] raw] lines IH]; intros m hist I; simpl.
  { exists [], m. by rewrite app_nil_r. }
  destruct (add_tokens_inv cfg m hist now lat (tokenize (mask raw)) (syslog_tag_of raw) Hok I) as (r & m1 & E & I1).
  unfold add_log. rewrite E. destruct (IH m1 _ I1) as (l & m2 & -> & I2). eexists _, m2. split; [reflexivity|].
  destruct (is_nil_list _); [done|]. by rewrite <- app_assoc in I2.
Qed.

(** C17: on every sequence of lines the miner runs without a panic, and then, for
    each line that has tokens, the cluster it was given exists, its template
    covers the line token by token (each template token is the line's token or
    the wildcard), and, with anchors on, its syslog tag is that of the line; a
    cluster counts exactly its lines, its size is the length of its template
    and its text is the template's tokens joined by blanks. *)
Theorem templates_cover_lines cfg lines : vocab_ok (vocab_of cfg) ->
  exists l m, mine (miner_new cfg) lines = Some (l, m) /\
    (forall b, b ∈ l -> exists c, get_cluster m (mb_id b) = Some c /\
       Forall2 covers (lc_template_tokens c) (mb_tokens b) /\
       (anchors_enabled cfg = true -> lc_syslog_tag c = mb_tag b)) /\
    (forall id c, get_cluster m id = Some c ->
       lc_count c = length (filter (fun b => mb_id b = id) l) /\
       lc_template c = str_join " " (lc_template_tokens c) /\ lc_size c = length (lc_template_tokens c)).
Proof.
  intros Hok. destruct (mine_inv cfg lines Hok _ _ (miner_new_inv cfg)) as (l & m & E & I). exists l, m.
  split_and!; [done|apply (di_member _ _ _ I)|]. intros id c Ec. split; [by apply (di_count _ _ _ I)|].
  by apply (di_text _ _ _ I id c).
Qed.

(** C11: action inviolability: two lines in one cluster never carry different
    verdicts of the anchor vocabulary at the same position. *)
Theorem verdicts_never_mix cfg lines l m b1 b2 i x y : vocab_ok (vocab_of cfg) ->
  mine (miner_new cfg) lines = Some (l, m) -> b1 ∈ l -> b2 ∈ l -> mb_id b1 = mb_id b2 ->
  mb_tokens b1 !! i = Some x -> mb_tokens b2 !! i = Some y ->
  verdict (vocab_of cfg) x = true -> verdict (vocab_of cfg) y = true ->
  same_word (anchor_value x) (anchor_value y).
Proof.
  intros Hok E. destruct (mine_inv cfg lines Hok _ _ (miner_new_inv cfg)) as (l' & m' & E' & I). simplify_eq.
  apply (di_pairs _ _ _ I).
Qed.

Lemma mine_tree_ok lines : forall m l m', tree_ok m -> mine m lines = Some (l, m') ->
  tree_ok m' /\ dm_config m' = dm_config m.
Proof.
  induction lines as [|[[now lat] raw] lines IH]; intros m l m' T; simpl; [by intros [= <- <-]|].
  unfold add_log. destruct (add_tokens _ _ _ _ _) as [[r m1]|] eqn:E; [|done].
  destruct (add_tokens_tree_ok _ _ _ _ _ _ _ T E) as [T1 C1].
  destruct (mine m1 lines) as [[l2 m2]|] eqn:E2; [|done]. intros [= _ <-].
  destruct (IH _ _ _ T1 E2) as [? ?]. split; [done|congruence].
Qed.

Lemma blocked_growth raw t child times : forall m nd, tree_ok m ->
  blocked_by m (tokenize (mask raw)) (syslog_tag_of raw) t nd child ->
  exists l m', mine m ((fun p => (p.1, p.2, raw)) <$> times) = Some (l, m') /\
    mb_id <$> l = seq (dm_next_cluster_id m) (length times).
Proof.
  induction times as [|[now lat] times IH]; intros m nd T B; [by exists [], m|].
  rewrite fmap_cons. cbn [mine fst snd].
  destruct (blocked_step m now lat _ _ t nd child T B) as (r & m1 & E & _ & (nd' & B') & En & _ & Ei).
  destruct (add_tokens_tree_ok _ _ _ _ _ _ _ T E) as [T1 _].
  unfold add_log. rewrite E. destruct (IH m1 nd' T1 B') as (l & m2 & -> & Hl). eexists _, m2. split; [reflexivity|].
  destruct (bb_path _ _ _ _ _ _ B) as [path Ep]. destruct (tokenize (mask raw)) as [|x xs];
    [unfold prefix_tokens in Ep; by rewrite take_nil in Ep|].
  cbn [is_nil_list]. rewrite fmap_cons, Hl, En. simpl. by rewrite Ei.
Qed.

(** Below a full node lines are mined into one cluster each: in every state
    the miner can reach, when the node of a line's length is full, the line's
    first token has a child of its own there and no cluster matches the line,
    then every repetition of the line makes a new cluster, without end, since
    insertion takes the wildcard and the search the token's child. *)
Theorem full_node_never_matches cfg lines l m raw t nd child times :
  mine (miner_new cfg) lines = Some (l, m) ->
  blocked_by m (tokenize (mask raw)) (syslog_tag_of raw) t nd child ->
  exists l' m', mine m ((fun p => (p.1, p.2, raw)) <$> times) = Some (l', m') /\
    mb_id <$> l' = seq (dm_next_cluster_id m) (length times).
Proof.
  intros E B. apply (blocked_growth raw t child times m nd); [|done].
  apply (mine_tree_ok lines (miner_new cfg) l m); [|done].
  intros id Hi. by apply in_tree_new in Hi.
Qed.

(** The class partition does not hold: with the default configuration three
    lines whose [type] is written with quotes, without, and with quotes and
    another value end in one cluster, although the first and the last, mined
    alone, are kept apart. *)
Theorem class_keys_mix :
  let l1 := "alpha beta type=" +:+ dquote_str +:+ "event" +:+ dquote_str +:+ " gamma" in
  let l2 := "alpha beta type=event gamma" in
  let l3 := "alpha beta type=" +:+ dquote_str +:+ "dns" +:+ dquote_str +:+ " gamma" in
  Forall (fun l => syslog_tag_of l = None) [l1; l2; l3] ->
  (exists l m, mine (miner_new drain_default) [(0%Z, 0%Z, l1); (0%Z, 0%Z, l2); (0%Z, 0%Z, l3)] = Some (l, m) /\
     mb_id <$> l = [1; 1; 1]) /\
  (exists l m, mine (miner_new drain_default) [(0%Z, 0%Z, l1); (0%Z, 0%Z, l3)] = Some (l, m) /\ mb_id <$> l = [1; 2]).
Proof.
  intros l1 l2 l3 HF. rewrite !Forall_cons in HF. destruct HF as (E1 & E2 & E3 & _).
  split; cbn [mine]; unfold add_log; rewrite E1, ?E2, E3.
  all: eexists _, _; split; [vm_compute; reflexivity|vm_compute; reflexivity].
Qed.

End Lines.

(** ** Alerts *)

(** A surge alert is raised for a cluster only at the line that makes its
    count one more than the threshold, and only when the recent rate reaches
    the multiplier; the test for a count of two more never decides. *)
Theorem surge_alert_once m now lat tokens tag r m' a : add_tokens m now lat tokens tag = Some (r, m') ->
  cr_anomaly r = Some a -> al_type a = RareClusterSurge ->
  exists c, get_cluster m' (cr_cluster_id r) = Some c /\ al_count a = lc_count c /\
    lc_count c = rare_count_threshold (dm_config m) + 1 /\
    f64_le (surge_multiplier (dm_config m)) (recent_rate_per_sec c) = true /\
    rare_count_threshold (dm_config m) * 3 < dm_total_logs m'.
Proof.
  unfold add_tokens. destruct (is_nil_list tokens); [by intros [= <- <-]|].
  destruct (find_best_match m tokens tag) as [[id|] sim]; [|by intros [= <- <-] [= <-]].
  destruct (dm_clusters m !! id) as [c|] eqn:Ec; [|done]. intros [= <- <-]. simpl. unfold surge_alert.
  destruct (cluster_update_fields c tokens now) as (_ & Fc & _). set (c' := cluster_update c tokens now) in *.
  destruct (_ && _) eqn:E; [|done]. bool_hyps.
  destruct (f64_le _ _) eqn:Er; simpl; [|destruct (Nat.leb_spec (rare_count_threshold (dm_config m) + 2) (lc_count c')); [lia|done]].
  intros [= <-] _. exists c'. unfold get_cluster. simpl. rewrite lookup_insert_eq. split_and!; try done; lia.
Qed.

(** ** Witnesses *)

Module DrainDemo.
Import RegexDemo.

Definition at0 (raw : string) : Z * Z * string := (0%Z, 0%Z, raw).

Definition mined (cfg : DrainConfig) (lines : list string) : list Member * DrainMiner :=
  default ([], miner_new cfg) (mine (miner_new cfg) (at0 <$> lines)).

Lemma default_vocab_ok : vocab_ok (vocab_of drain_default).
Proof. repeat constructor. Defined.

Definition verdict_lines : list string := ["edge fw DENY tcp"; "edge fw deny tcp"; "edge fw ALLOW tcp"].

Lemma templates_cover_lines_witness : exists l m, mine (miner_new drain_default) (at0 <$> verdict_lines) = Some (l, m) /\
  (forall b, b ∈ l -> exists c, get_cluster m (mb_id b) = Some c /\
     Forall2 covers (lc_template_tokens c) (mb_tokens b) /\
     (anchors_enabled drain_default = true -> lc_syslog_tag c = mb_tag b)) /\
  (forall id c, get_cluster m id = Some c ->
     lc_count c = length (filter (fun b => mb_id b = id) l) /\
     lc_template c = str_join " " (lc_template_tokens c) /\ lc_size c = length (lc_template_tokens c)).
Proof. apply (templates_cover_lines drain_default (at0 <$> verdict_lines)), default_vocab_ok. Defined.

Definition line0 : Member := mkMember 1 ["edge"; "fw"; "DENY"; "tcp"] None.
Definition line1 : Member := mkMember 1 ["edge"; "fw"; "deny"; "tcp"] None.

Lemma verdicts_never_mix_witness : same_word (anchor_value "DENY") (anchor_value "deny").
Proof.
  apply (verdicts_never_mix drain_default (at0 <$> verdict_lines) (mined drain_default verdict_lines).1
           (mined drain_default verdict_lines).2 line0 line1 2).
  - apply default_vocab_ok.
  - vm_compute. reflexivity.
  - vm_compute. left.
  - vm_compute. right. left.
  - reflexivity.
  - reflexivity.
  - reflexivity.
  - reflexivity.
  - reflexivity.
Defined.

Definition new_result : ClusterResult :=
  mkClusterResult 1 "edge fw DENY tcp" true f64_zero (Some (new_template_alert 1 "edge fw DENY tcp" 0)) 0.

Lemma new_cluster_is_candidate_witness : exists leaf,
  search_leaf drain_default (dm_root (mined drain_default ["edge fw DENY tcp"]).2) (mb_tokens line0) = Some leaf /\
  cr_cluster_id new_result ∈ n_cluster_ids leaf.
Proof.
  apply (new_cluster_is_candidate (miner_new drain_default) 0 0 (mb_tokens line0) None new_result
           (mined drain_default ["edge fw DENY tcp"]).2); vm_compute; reflexivity.
Defined.

(** One child per node. *)
Definition narrow : DrainConfig := mkDrainConfig 4 (f64_lit 1 2) 1 10000 1 (f64_of_Z 1) 100 [] false.

Definition narrow_miner : DrainMiner := (mined narrow ["alpha one x"]).2.
Definition narrow_node : Node := default (node_new "") (n_children (dm_root narrow_miner) !! "3").
Definition narrow_child : Node := default (node_new "") (n_children narrow_node !! "alpha").

Lemma full_node_never_matches_witness : exists l' m',
  mine narrow_miner ((fun p => (p.1, p.2, "alpha two y")) <$> [(0%Z, 0%Z); (1%Z, 0%Z); (2%Z, 0%Z)]) = Some (l', m') /\
  mb_id <$> l' = [2; 3; 4].
Proof.
  apply (full_node_never_matches narrow (at0 <$> ["alpha one x"]) (mined narrow ["alpha one x"]).1 narrow_miner
           "alpha two y" "alpha" narrow_node narrow_child [(0%Z, 0%Z); (1%Z, 0%Z); (2%Z, 0%Z)]).
  - vm_compute. reflexivity.
  - split.
    + exists ["two"]. vm_compute. reflexivity.
    + split; [reflexivity|discriminate].
    + vm_compute. reflexivity.
    + vm_compute. reflexivity.
    + vm_compute. lia.
    + vm_compute. reflexivity.
Defined.

Lemma class_keys_mix_witness :
  let l1 := "alpha beta type=" +:+ dquote_str +:+ "event" +:+ dquote_str +:+ " gamma" in
  let l2 := "alpha beta type=event gamma" in
  let l3 := "alpha beta type=" +:+ dquote_str +:+ "dns" +:+ dquote_str +:+ " gamma" in
  (exists l m, mine (miner_new drain_default) [(0%Z, 0%Z, l1); (0%Z, 0%Z, l2); (0%Z, 0%Z, l3)] = Some (l, m) /\
     mb_id <$> l = [1; 1; 1]) /\
  (exists l m, mine (miner_new drain_default) [(0%Z, 0%Z, l1); (0%Z, 0%Z, l3)] = Some (l, m) /\ mb_id <$> l = [1; 2]).
Proof. intros l1 l2 l3. pose proof class_keys_mix as W. cbv zeta in W. apply W. repeat constructor. Defined.

Definition surge_miner : DrainMiner := (mined narrow ["a"; "b b"; "c c c"]).2.
Definition surge_step : option (ClusterResult * DrainMiner) := add_tokens surge_miner 0 0 ["a"] None.
Definition surge_result : ClusterResult := (default (new_result, surge_miner) surge_step).1.
Definition surge_after : DrainMiner := (default (new_result, surge_miner) surge_step).2.
Definition surge_alert0 : AnomalyAlert := default (new_template_alert 0 "" 0) (cr_anomaly surge_result).

Lemma surge_alert_once_witness : exists c, get_cluster surge_after 1 = Some c /\ al_count surge_alert0 = lc_count c /\
  lc_count c = 2 /\ f64_le (f64_of_Z 1) (recent_rate_per_sec c) = true /\ 3 < dm_total_logs surge_after.
Proof.
  apply (surge_alert_once surge_miner 0 0 ["a"] None surge_result surge_after surge_alert0); vm_compute; reflexivity.
Defined.

End DrainDemo.
