(* ===== verification/External.v ===== *)
(** * Third-party code

    The crates that the sources call and that are not part of the repository
    are parameters of the model: one class per crate, whose operations are the
    functions the sources use and whose laws are the documented behaviour the
    theorems rely on.  Module [Demo] gives concrete functions that satisfy the
    laws; the witnesses of the theorems use them. *)

From S2P Require Export RustStr.

(** ** [[u8; 32]] *)

Record bytes32 : Set := mk32 {
  b32 : string;
  b32_len : (String.length b32 =? 32)%nat = true
}.

Lemma bytes32_eq (x y : bytes32) : b32 x = b32 y -> x = y.
Proof.
  destruct x as [x Hx], y as [y Hy]; simpl; intros ->.
  f_equal; apply proof_irrel.
Qed.

Lemma bytes32_length (x : bytes32) : String.length (b32 x) = 32.
Proof. apply Nat.eqb_eq, b32_len. Qed.

#[global] Instance bytes32_eq_dec : EqDecision bytes32.
Proof.
  intros x y; destruct (decide (b32 x = b32 y)) as [E|E].
  - left; by apply bytes32_eq.
  - right; congruence.
Defined.

(** ** Crate [sha2]: [Sha256::digest], a function from bytes to 32 bytes. *)
Class Sha256 := { sha256 : string -> bytes32 }.

(** No collision among the strings of [l].  SHA-256 has collisions, so that
    injectivity cannot be assumed of it; the theorems that need it assume it
    of the inputs that the run hashes. *)
Definition collision_free `{Sha256} (l : list string) : Prop :=
  forall x y, x ∈ l -> y ∈ l -> sha256 x = sha256 y -> x = y.

(** The test hashes each string once. *)
Definition collision_test `{Sha256} (l : list string) : Prop :=
  let hs := (fun x => (sha256 x, x)) <$> l in
  Forall (fun p => Forall (fun q => p.1 = q.1 -> p.2 = q.2) hs) hs.

Lemma collision_test_spec `{Sha256} l : collision_test l <-> collision_free l.
Proof.
  unfold collision_test, collision_free. cbv zeta. rewrite Forall_fmap, Forall_forall.
  setoid_rewrite Forall_fmap. setoid_rewrite Forall_forall. simpl. naive_solver.
Qed.

#[global] Instance collision_free_dec `{Sha256} l : Decision (collision_free l).
Proof.
  destruct (decide (collision_test l)) as [T|T]; [left|right];
    rewrite <- (collision_test_spec l); exact T.
Defined.

Lemma collision_free_sub `{Sha256} l l' : l' ⊆ l -> collision_free l -> collision_free l'.
Proof. intros Hs Hc x y Hx Hy; apply Hc; by apply Hs. Qed.

(** ** Crate [hex] *)
Class HexLib := {
  hex_encode : string -> string;
  (** [hex::decode(s).ok()] *)
  hex_decode : string -> option string;
  (** [hex::decode_to_slice(s, &mut [0u8; 32])], the slice when it succeeds *)
  hex_decode_32 : string -> option bytes32;
  hex_decode_encode : forall b, hex_decode (hex_encode b) = Some b;
  hex_decode_32_encode : forall h, hex_decode_32 (hex_encode (b32 h)) = Some h;
  (** lowercase digits *)
  hex_encode_digits : forall b,
    all_bytes (fun a => is_ascii_digit a || ascii_in 97 102 a) (hex_encode b) = true
}.

Lemma hex_encode_inj `{HexLib} a b : hex_encode a = hex_encode b -> a = b.
Proof.
  intros E. apply (inj Some). by rewrite <- !hex_decode_encode, E.
Qed.

(** ** Concrete instances *)

Module Demo.

Definition pad_string (s : string) : string :=
  str_take 32 (s +:+ str_concat (replicate 32 (String "000" ""))).

Lemma str_take_length n s : n <= String.length s -> String.length (str_take n s) = n.
Proof.
  revert s; induction n as [|n IH]; intros [|a s] Hn; simpl in *; auto; [lia|].
  f_equal; apply IH; lia.
Qed.

Lemma pad_length s : (String.length (pad_string s) =? 32)%nat = true.
Proof.
  apply Nat.eqb_eq, str_take_length. rewrite str_length_app.
  change (String.length (str_concat _)) with 32. lia.
Qed.

Definition pad32 (s : string) : bytes32 := mk32 (pad_string s) (pad_length s).

Fixpoint le_bytes (n : nat) (z : Z) : string :=
  match n with
  | O => ""
  | S n' => String (ascii_of_N (Z.to_N (z mod 256))) (le_bytes n' (z / 256))
  end.

Fixpoint poly (acc : Z) (s : string) : Z :=
  match s with
  | "" => acc
  | String a s' => poly ((acc * 257 + byte_val a + 1) mod 1152921504606846883) s'
  end.

(** A 32-byte polynomial hash in the place of SHA-256. *)
#[export] Instance demo_sha256 : Sha256 := {| sha256 s := pad32 (le_bytes 32 (poly 7 s)) |}.

Definition hex_digit (n : Z) : ascii :=
  ascii_of_N (Z.to_N (if (n <? 10)%Z then n + 48 else n + 87)).

Definition hex_val (a : ascii) : option Z :=
  let b := byte_val a in
  if ((48 <=? b) && (b <=? 57))%Z then Some (b - 48)%Z
  else if ((97 <=? b) && (b <=? 102))%Z then Some (b - 87)%Z
  else if ((65 <=? b) && (b <=? 70))%Z then Some (b - 55)%Z
  else None.

Fixpoint encode (s : string) : string :=
  match s with
  | "" => ""
  | String a s' => String (hex_digit (byte_val a / 16))
                     (String (hex_digit (byte_val a mod 16)) (encode s'))
  end.

Fixpoint decode (s : string) : option string :=
  match s with
  | "" => Some ""
  | String _ "" => None
  | String a (String b s') =>
      match hex_val a, hex_val b, decode s' with
      | Some x, Some y, Some r => Some (String (ascii_of_N (Z.to_N (x * 16 + y)%Z)) r)
      | _, _, _ => None
      end
  end.

Definition decode_32 (s : string) : option bytes32 :=
  match decode s with
  | Some r => match decide ((String.length r =? 32)%nat = true) with
              | left H => Some (mk32 r H)
              | right _ => None
              end
  | None => None
  end.

Lemma decode_encode s : decode (encode s) = Some s.
Proof.
  induction s as [|a s IH]; [done|].
  cbn [encode decode]. rewrite IH.
  destruct a as [[] [] [] [] [] [] [] []]; reflexivity.
Qed.

Lemma decode_32_encode h : decode_32 (encode (b32 h)) = Some h.
Proof.
  unfold decode_32. rewrite decode_encode. case_decide as H.
  - f_equal. by apply bytes32_eq.
  - destruct H. apply b32_len.
Qed.

Lemma encode_digits s : all_bytes (fun a => is_ascii_digit a || ascii_in 97 102 a) (encode s) = true.
Proof.
  induction s as [|a s IH]; [done|]. cbn [encode all_bytes]. rewrite IH.
  destruct a as [[] [] [] [] [] [] [] []]; reflexivity.
Qed.

#[export] Instance demo_hex : HexLib := {|
  hex_encode := encode; hex_decode := decode; hex_decode_32 := decode_32;
  hex_decode_encode := decode_encode; hex_decode_32_encode := decode_32_encode;
  hex_encode_digits := encode_digits
|}.

(** A codec for any countable type: its number in binary, between braces.  It
    takes the place of JSON serialisation. *)
Fixpoint bits (p : positive) : string :=
  match p with
  | xH => "}"
  | xO p => String "0" (bits p)
  | xI p => String "1" (bits p)
  end.

Fixpoint unbits (s : string) : option positive :=
  match s with
  | String "}" "" => Some xH
  | String "0" s' => xO <$> unbits s'
  | String "1" s' => xI <$> unbits s'
  | _ => None
  end.

Definition bits_encode `{Countable A} (x : A) : string := String "{" (bits (countable.encode x)).

Definition bits_decode `{Countable A} (s : string) : option A :=
  match s with
  | String "{" s' => unbits s' ≫= countable.decode
  | _ => None
  end.

Lemma unbits_bits p : unbits (bits p) = Some p.
Proof. induction p as [p IH|p IH|]; simpl; rewrite ?IH; done. Qed.

Lemma bits_decode_encode `{Countable A} (x : A) : bits_decode (bits_encode x) = Some x.
Proof. simpl. rewrite unbits_bits. simpl. apply countable.decode_encode. Qed.

Lemma bits_all (q : ascii -> bool) p : q "0"%char = true -> q "1"%char = true -> q "}"%char = true ->
  all_bytes q (bits p) = true.
Proof. intros H0 H1 H2. induction p as [p IH|p IH|]; simpl; rewrite ?H0, ?H1, ?H2, ?IH; done. Qed.

Lemma bits_brace p : exists body, bits p = body +:+ "}".
Proof.
  induction p as [p [b IH]|p [b IH]|]; simpl; [exists (String "1" b)|exists (String "0" b)|by exists ""];
    by rewrite IH.
Qed.

Lemma bits_utf8 p : utf8_valid (bits p) = true.
Proof. induction p; done. Qed.

End Demo.
