(* ===== verification/Arrow.v ===== *)
(** * Crates [arrow] and [parquet]

    What [storage.rs] uses of Arrow arrays, record batches and Parquet files.
    An array is its physical type with its values; building a dictionary
    array, a fixed-size binary array and a record batch, and writing and
    reading a Parquet file, are parameters with the documented behaviour as
    laws. *)

From S2P Require Export External.

Inductive DataType :=
| Utf8 | UInt64 | UInt32 | Int64 | Int8
| Dictionary (key value : DataType)
| FixedSizeBinary (size : Z)
| OtherType (name : string).

Record Field := mkField { field_name : string; field_type : DataType; field_nullable : bool }.

(** Arrays without nulls.  A dictionary array holds a key per row into its
    values; [Int8Type] keys are the only ones the sources ask for. *)
Inductive ArrayRef :=
| StringArray (values : list string)
| UInt64Array (values : list Z)
| UInt32Array (values : list Z)
| Int64Array (values : list Z)
| Int8DictionaryArray (keys : list Z) (values : ArrayRef)
| FixedSizeBinaryArray (size : Z) (values : list string)
| OtherArray (type_ : DataType).

Fixpoint array_type (a : ArrayRef) : DataType :=
  match a with
  | StringArray _ => Utf8
  | UInt64Array _ => UInt64
  | UInt32Array _ => UInt32
  | Int64Array _ => Int64
  | Int8DictionaryArray _ v => Dictionary Int8 (array_type v)
  | FixedSizeBinaryArray n _ => FixedSizeBinary n
  | OtherArray t => t
  end.

Record RecordBatch := mkBatch {
  batch_schema : list Field;
  batch_columns : list ArrayRef;
  batch_num_rows : nat
}.

(** One value of an array. *)
Inductive Cell := CStr (s : string) | CInt (z : Z).

(** [keys.value(i) as usize], then the value there; a negative key is out of
    range. *)
Definition dict_lookup (values : list string) (key : Z) : option string :=
  if (key <? 0)%Z then None else values !! Z.to_nat key.

(** The values an array stands for, row by row. *)
Definition array_cells (a : ArrayRef) : option (list Cell) :=
  match a with
  | StringArray l => Some (CStr <$> l)
  | UInt64Array l | UInt32Array l | Int64Array l => Some (CInt <$> l)
  | Int8DictionaryArray keys (StringArray values) =>
      fmap CStr <$> mapM (dict_lookup values) keys
  | FixedSizeBinaryArray _ l => Some (CStr <$> l)
  | _ => None
  end.

(** A batch that [RecordBatch::try_new] accepts: columns of the schema's types,
    each standing for one value per row. *)
Definition batch_wf (b : RecordBatch) : Prop :=
  Forall2 (fun f a => field_type f = array_type a) (batch_schema b) (batch_columns b) /\
  Forall (fun a => exists l, array_cells a = Some l /\ length l = batch_num_rows b) (batch_columns b).

Class ArrowLib := {
  (** [iter.map(Some).collect::<DictionaryArray<Int8Type>>()]: keys and values *)
  dict_from_iter : list string -> list Z * list string;
  (** [FixedSizeBinaryArray::try_from_iter] *)
  fsb_try_from_iter : list string -> Result string ArrayRef;
  (** [RecordBatch::try_new] *)
  batch_try_new : list Field -> list ArrayRef -> Result string RecordBatch;
  (** [{:?}] of a data type *)
  debug_type : DataType -> string;

  (** [Int8] keys address 128 distinct values. *)
  dict_from_iter_ok : forall l, size (list_to_set l : gset string) <= 128 ->
    mapM (dict_lookup (dict_from_iter l).2) (dict_from_iter l).1 = Some l;
  (** "Returns error if argument has length zero, or sizes of nested slices
      don't match." *)
  fsb_try_from_iter_ok : forall l n, l <> [] -> Forall (fun s => String.length s = n) l ->
    fsb_try_from_iter l = Ok (FixedSizeBinaryArray (Z.of_nat n) l);
  fsb_try_from_iter_nil : exists e, fsb_try_from_iter [] = Err e;
  batch_try_new_ok : forall schema cols n, cols <> [] ->
    batch_wf (mkBatch schema cols n) -> batch_try_new schema cols = Ok (mkBatch schema cols n)
}.

Inductive Compression := SNAPPY | ZSTD | UNCOMPRESSED.

Class ParquetLib := {
  (** contents of a file on disk *)
  parquet_file : Type;
  (** what [ArrowWriter] writes for one batch *)
  parquet_encode : Compression -> RecordBatch -> parquet_file;
  (** the batches [ParquetRecordBatchReader] yields, or its error *)
  parquet_decode : parquet_file -> Result string (list RecordBatch);

  (** Reading a file back yields the rows written, in order, in batches of the
      reader's size, under the schema written. *)
  parquet_roundtrip : forall c b, batch_wf b -> exists bs,
    parquet_decode (parquet_encode c b) = Ok bs /\
    Forall (fun b' => batch_wf b' /\ batch_schema b' = batch_schema b) bs /\
    forall i a, batch_columns b !! i = Some a ->
      exists ls, mapM (fun b' => batch_columns b' !! i ≫= array_cells) bs = Some ls /\
                 array_cells a = Some (concat ls)
}.

(** ** Concrete instances *)

Module ArrowDemo.

Fixpoint index_of (x : string) (l : list string) : nat :=
  match l with
  | [] => 0
  | y :: l' => if String.eqb x y then 0 else S (index_of x l')
  end.

Definition demo_dict (l : list string) : list Z * list string :=
  let values := remove_dups l in ((fun x => Z.of_nat (index_of x values)) <$> l, values).

Lemma index_of_lookup x l : x ∈ l -> l !! index_of x l = Some x.
Proof.
  induction 1 as [|x y l Hx IH]; simpl.
  - by rewrite String.eqb_refl.
  - destruct (String.eqb_spec x y) as [->|]; done.
Qed.

Lemma demo_dict_ok l : mapM (dict_lookup (demo_dict l).2) (demo_dict l).1 = Some l.
Proof.
  unfold demo_dict; simpl. apply mapM_Some, Forall2_fmap_l.
  apply Forall_Forall2_diag, Forall_forall. intros x Hx. unfold dict_lookup; simpl.
  destruct (Z.ltb_spec (Z.of_nat (index_of x (remove_dups l))) 0); [lia|].
  rewrite Nat2Z.id. by apply index_of_lookup, elem_of_remove_dups.
Qed.

Definition demo_fsb (l : list string) : Result string ArrayRef :=
  match l with
  | [] => Err "Input iterable argument has no data"
  | s :: _ => if decide (Forall (fun t => String.length t = String.length s) l)
              then Ok (FixedSizeBinaryArray (Z.of_nat (String.length s)) l)
              else Err "Nested array size mismatch"
  end.

Lemma demo_fsb_ok l n : l <> [] -> Forall (fun s => String.length s = n) l ->
  demo_fsb l = Ok (FixedSizeBinaryArray (Z.of_nat n) l).
Proof.
  intros Hne HF. destruct l as [|s l]; [done|]. simpl. inv HF as [|? ? Hs HF'].
  rewrite decide_True; [done|]. by constructor.
Qed.

Definition cells_length (a : ArrayRef) : nat :=
  match array_cells a with Some l => length l | None => 0 end.

Definition demo_batch (schema : list Field) (cols : list ArrayRef) : Result string RecordBatch :=
  match cols with
  | [] => Err "must either specify a row count or at least one column"
  | a :: _ => Ok (mkBatch schema cols (cells_length a))
  end.

Lemma demo_batch_ok schema cols n : cols <> [] ->
  batch_wf (mkBatch schema cols n) -> demo_batch schema cols = Ok (mkBatch schema cols n).
Proof.
  intros Hne [_ HF]. destruct cols as [|a cols]; [done|]. simpl in *.
  apply Forall_cons in HF as [(l & E & <-) _]. unfold cells_length. by rewrite E.
Qed.

#[export] Instance demo_arrow : ArrowLib := {|
  dict_from_iter := demo_dict;
  fsb_try_from_iter := demo_fsb;
  batch_try_new := demo_batch;
  debug_type _ := "DataType";
  dict_from_iter_ok l _ := demo_dict_ok l;
  fsb_try_from_iter_ok := demo_fsb_ok;
  fsb_try_from_iter_nil := ex_intro _ _ eq_refl;
  batch_try_new_ok := demo_batch_ok
|}.

Lemma demo_parquet_roundtrip (b : RecordBatch) : batch_wf b -> exists bs,
  Ok (E:=string) [b] = Ok bs /\
  Forall (fun b' => batch_wf b' /\ batch_schema b' = batch_schema b) bs /\
  forall i a, batch_columns b !! i = Some a ->
    exists ls, mapM (fun b' => batch_columns b' !! i ≫= array_cells) bs = Some ls /\
               array_cells a = Some (concat ls).
Proof.
  intros Hwf. exists [b]; split_and!; [done|by constructor|]. intros i a Ha.
  destruct Hwf as [_ HF]. rewrite Forall_lookup in HF.
  destruct (HF i a Ha) as (l & E & _). exists [l]. simpl. rewrite Ha; simpl. rewrite E; simpl.
  by rewrite app_nil_r.
Qed.

#[export] Instance demo_parquet : ParquetLib := {|
  parquet_file := Compression * RecordBatch;
  parquet_encode c b := (c, b);
  parquet_decode f := Ok [f.2];
  parquet_roundtrip c b := demo_parquet_roundtrip b
|}.

End ArrowDemo.
