(* ===== verification/Storage.v ===== *)
(** * Columnar block storage ([crates/ulpf-integrity/src/storage.rs])

    Records, their translation to and from Arrow record batches (legacy and
    current column types), and Parquet block files on a file system. *)

From S2P Require Export Arrow.

(** ** Records *)

Record StoredLogRecord := mkStored {
  sr_event_id : string;
  sr_block_id : Z;
  sr_leaf_index : Z;
  sr_timestamp : Z;
  sr_vendor : string;
  sr_raw_log : string;
  sr_raw_hash : string;
  sr_ocsf_json : string
}.

#[global] Instance StoredLogRecord_eq_dec : EqDecision StoredLogRecord.
Proof. solve_decision. Defined.

Inductive ParquetCompression := Snappy | Zstd | Uncompressed.

(** [impl From<ParquetCompression> for Compression] *)
Definition compression_of (c : ParquetCompression) : Compression :=
  match c with Snappy => SNAPPY | Zstd => ZSTD | Uncompressed => UNCOMPRESSED end.

Definition log_schema : list Field :=
  [ mkField "event_id" Utf8 false;
    mkField "block_id" UInt64 false;
    mkField "leaf_index" UInt32 false;
    mkField "timestamp" Int64 false;
    mkField "vendor" (Dictionary Int8 Utf8) false;
    mkField "raw_log" Utf8 false;
    mkField "raw_hash" (FixedSizeBinary 32) false;
    mkField "ocsf_json" Utf8 false ].

(** ** The file system

    Block files by path.  A path that a writer has created and not finished
    holds what was written so far. *)

(** Faults of the file system during one write: which call fails, and what a
    failed write leaves in the file. *)
Record WriteFaults {P : Type} := mkFaults {
  fail_create_dir : bool;
  fail_create_file : bool;
  fail_write : option P
}.
Arguments WriteFaults : clear implicits.

Section Storage.
Context `{HexLib} `{ArrowLib} `{ParquetLib}.

(** The hash column: the loop that decodes the hex digests. *)
Fixpoint decode_hashes (records : list StoredLogRecord) : Result string (list string) :=
  match records with
  | [] => Ok []
  | r :: records' =>
      match hex_decode (sr_raw_hash r) with
      | None => Err ("raw_hash for event " +:+ sr_event_id r +:+ " is not valid hex")
      | Some bytes =>
          if (String.length bytes =? 32)%nat
          then hs ← decode_hashes records'; Ok (bytes :: hs)
          else Err ("raw_hash for event " +:+ sr_event_id r +:+ " decodes to "
                    +:+ pretty (String.length bytes) +:+ " bytes, expected 32 (SHA-256)")
      end
  end.

Definition records_to_batch (records : list StoredLogRecord) : Result string RecordBatch :=
  let distinct : gset string := list_to_set (sr_vendor <$> records) in
  if (128 <? size distinct)%nat
  then Err ("Too many distinct vendor values for Dictionary(Int8) block: "
            +:+ pretty (size distinct) +:+ " > 128 — split the block")
  else
    let vendors := dict_from_iter (sr_vendor <$> records) in
    hash_bytes ← decode_hashes records;
    match fsb_try_from_iter hash_bytes with
    | Err _ => Err "Failed to build FixedSizeBinary(32) raw_hash column"
    | Ok raw_hashes =>
        match batch_try_new log_schema
                [ StringArray (sr_event_id <$> records);
                  UInt64Array (sr_block_id <$> records);
                  UInt32Array (sr_leaf_index <$> records);
                  Int64Array (sr_timestamp <$> records);
                  Int8DictionaryArray vendors.1 (StringArray vendors.2);
                  StringArray (sr_raw_log <$> records);
                  raw_hashes;
                  StringArray (sr_ocsf_json <$> records) ] with
        | Err _ => Err "Failed to construct Arrow RecordBatch"
        | Ok batch => Ok batch
        end
    end.

(** ** Decoding

    [None] is a panic: a column or a row that is not there. *)

Definition downcast_string (a : ArrayRef) : option (list string) :=
  match a with StringArray l => Some l | _ => None end.

(** The closure [get_str]. *)
Definition get_str (b : RecordBatch) (col : nat) (name : string)
  : option (Result string (list string)) :=
  a <-! batch_columns b !! col;
  Some (match downcast_string a with
        | Some l => Ok l
        | None => Err ("Column " +:+ pretty col +:+ " (" +:+ name +:+ ") is not a Utf8 StringArray")
        end).

Definition get_ints (b : RecordBatch) (col : nat) (downcast : ArrayRef -> option (list Z))
    (msg : string) : option (Result string (list Z)) :=
  a <-! batch_columns b !! col; Some (ok_or (downcast a) msg).

Definition downcast_u64 (a : ArrayRef) := match a with UInt64Array l => Some l | _ => None end.
Definition downcast_u32 (a : ArrayRef) := match a with UInt32Array l => Some l | _ => None end.
Definition downcast_i64 (a : ArrayRef) := match a with Int64Array l => Some l | _ => None end.

Inductive VendorCol :=
| VPlain (l : list string)
| VDict (keys : list Z) (values : ArrayRef).

Inductive HashCol :=
| HPlain (l : list string)
| HBinary (l : list string).

Definition vendor_col (b : RecordBatch) : option (Result string VendorCol) :=
  f <-! batch_schema b !! 4;
  match field_type f with
  | Utf8 => r <-! get_str b 4 "vendor"; Some (VPlain <$> r)
  | Dictionary _ _ =>
      a <-! batch_columns b !! 4;
      Some (match a with
            | Int8DictionaryArray keys values => Ok (VDict keys values)
            | _ => Err "Column 4 (vendor) dictionary does not use Int8 keys"
            end)
  | other => Some (Err ("Column 4 (vendor) has unexpected type " +:+ debug_type other))
  end.

Definition hash_col (b : RecordBatch) : option (Result string HashCol) :=
  f <-! batch_schema b !! 6;
  match field_type f with
  | Utf8 => r <-! get_str b 6 "raw_hash"; Some (HPlain <$> r)
  | FixedSizeBinary 32 =>
      a <-! batch_columns b !! 6;
      Some (match a with
            | FixedSizeBinaryArray _ l => Ok (HBinary l)
            | _ => Err "Column 6 (raw_hash) is not a FixedSizeBinaryArray"
            end)
  | other => Some (Err ("Column 6 (raw_hash) has unexpected type " +:+ debug_type other))
  end.

Definition vendor_at (v : VendorCol) (i : nat) : option (Result string string) :=
  match v with
  | VPlain l => s <-! l !! i; Some (Ok s)
  | VDict keys values =>
      match downcast_string values with
      | None => Some (Err "Column 4 (vendor) dictionary values are not Utf8")
      | Some vs => key <-! keys !! i; s <-! dict_lookup vs key; Some (Ok s)
      end
  end.

Definition hash_at (h : HashCol) (i : nat) : option string :=
  match h with
  | HPlain l => l !! i
  | HBinary l => hex_encode <$> l !! i
  end.

(** The decoded columns, in the order in which the source takes them. *)
Record Columns := mkColumns {
  c_event_ids : list string; c_block_ids : list Z; c_leaf_indices : list Z;
  c_timestamps : list Z; c_raw_logs : list string; c_ocsf_jsons : list string;
  c_vendors : VendorCol; c_raw_hashes : HashCol
}.

Definition batch_columns_of (b : RecordBatch) : option (Result string Columns) :=
  event_ids <-? get_str b 0 "event_id";
  block_ids <-? get_ints b 1 downcast_u64 "Column 1 (block_id) is not a UInt64Array";
  leaf_indices <-? get_ints b 2 downcast_u32 "Column 2 (leaf_index) is not a UInt32Array";
  timestamps <-? get_ints b 3 downcast_i64 "Column 3 (timestamp) is not an Int64Array";
  raw_logs <-? get_str b 5 "raw_log";
  ocsf_jsons <-? get_str b 7 "ocsf_json";
  vendors <-? vendor_col b;
  raw_hashes <-? hash_col b;
  Some (Ok (mkColumns event_ids block_ids leaf_indices timestamps raw_logs ocsf_jsons
              vendors raw_hashes)).

Definition record_at (c : Columns) (i : nat) : option (Result string StoredLogRecord) :=
  event_id <-! c_event_ids c !! i;
  block_id <-! c_block_ids c !! i;
  leaf_index <-! c_leaf_indices c !! i;
  timestamp <-! c_timestamps c !! i;
  vendor <-? vendor_at (c_vendors c) i;
  raw_log <-! c_raw_logs c !! i;
  raw_hash <-! hash_at (c_raw_hashes c) i;
  ocsf_json <-! c_ocsf_jsons c !! i;
  Some (Ok (mkStored event_id block_id leaf_index timestamp vendor raw_log raw_hash ocsf_json)).

(** The loop over the rows [i, i + n). *)
Fixpoint records_from (c : Columns) (i n : nat) : option (Result string (list StoredLogRecord)) :=
  match n with
  | O => Some (Ok [])
  | S n' => r <-? record_at c i; rs <-? records_from c (S i) n'; Some (Ok (r :: rs))
  end.

Definition batch_to_records (b : RecordBatch) : option (Result string (list StoredLogRecord)) :=
  c <-? batch_columns_of b; records_from c 0 (batch_num_rows b).

(** ** Files *)

Definition BlockStore : Type := gmap string parquet_file.

Definition write_parquet_file (fx : WriteFaults parquet_file) (fs : BlockStore) (path : string)
    (batch : RecordBatch) (compression : ParquetCompression) : Result string unit * BlockStore :=
  if fail_create_dir fx then (Err "Failed to create parent directory", fs)
  else if fail_create_file fx then (Err "Failed to create file", fs)
  else match fail_write fx with
       | Some partial => (Err "Failed to write batch to Parquet", <[path := partial]> fs)
       | None => (Ok tt, <[path := parquet_encode (compression_of compression) batch]> fs)
       end.

Definition write_records_to_parquet (fx : WriteFaults parquet_file) (fs : BlockStore)
    (path : string) (records : list StoredLogRecord) (compression : ParquetCompression)
  : Result string unit * BlockStore :=
  match records_to_batch records with
  | Err e => (Err e, fs)
  | Ok batch => write_parquet_file fx fs path batch compression
  end.

(** The loop over the batches of a file. *)
Fixpoint read_batches (bs : list RecordBatch) : option (Result string (list StoredLogRecord)) :=
  match bs with
  | [] => Some (Ok [])
  | b :: bs' => rs <-? batch_to_records b; rest <-? read_batches bs'; Some (Ok (rs ++ rest))
  end.

Definition read_parquet_file (fs : BlockStore) (path : string)
  : option (Result string (list StoredLogRecord)) :=
  match fs !! path with
  | None => Some (Err "Failed to open Parquet file")
  | Some f =>
      match parquet_decode f with
      | Err e => Some (Err e)
      | Ok bs => read_batches bs
      end
  end.

End Storage.
