(* ===== verification/StorageFacts.v ===== *)
(** * Correctness of the block storage

    A block of records survives the translation to columns, the Parquet file
    and the way back; the conditions under which the writer refuses a block. *)

From S2P Require Export Storage.

Section Facts.
Context `{HexLib} `{ArrowLib} `{ParquetLib}.

(** ** What can be stored *)

(** The digest of the record is the lowercase hex form of 32 bytes. *)
Definition hash_ok (r : StoredLogRecord) : Prop := exists h : bytes32, sr_raw_hash r = hex_encode (b32 h).

(** The weaker condition of the writer: 32 bytes in either case. *)
Definition digest_ok (r : StoredLogRecord) : Prop :=
  exists bytes, hex_decode (sr_raw_hash r) = Some bytes /\ String.length bytes = 32.

Definition convertible (records : list StoredLogRecord) : Prop :=
  records <> [] /\ Forall digest_ok records /\
  size (list_to_set (sr_vendor <$> records) : gset string) <= 128.

Definition storable (records : list StoredLogRecord) : Prop :=
  records <> [] /\ Forall hash_ok records /\
  size (list_to_set (sr_vendor <$> records) : gset string) <= 128.

(** The value of column [i] in the row of a record. *)
Definition row_cell (i : nat) (r : StoredLogRecord) : Cell :=
  match i with
  | 0 => CStr (sr_event_id r)
  | 1 => CInt (sr_block_id r)
  | 2 => CInt (sr_leaf_index r)
  | 3 => CInt (sr_timestamp r)
  | 4 => CStr (sr_vendor r)
  | 5 => CStr (sr_raw_log r)
  | 6 => CStr (default "" (hex_decode (sr_raw_hash r)))
  | _ => CStr (sr_ocsf_json r)
  end.

(** A batch of the current schema whose rows are those of [records]. *)
Definition batch_of (b : RecordBatch) (records : list StoredLogRecord) : Prop :=
  batch_wf b /\ batch_schema b = log_schema /\ batch_num_rows b = length records /\
  forall i, i < 8 -> batch_columns b !! i ≫= array_cells = Some (row_cell i <$> records).

(** ** Encoding *)

Lemma hash_digest_ok r : hash_ok r -> digest_ok r.
Proof. intros [h E]. exists (b32 h). by rewrite E, hex_decode_encode, bytes32_length. Qed.

Lemma storable_convertible records : storable records -> convertible records.
Proof.
  intros (Hne & Hh & Hv). split_and!; [done| |done].
  eapply Forall_impl; [exact Hh|apply hash_digest_ok].
Qed.

Lemma decode_hashes_ok records : Forall digest_ok records ->
  exists hs, decode_hashes records = Ok hs /\ Forall (fun s => String.length s = 32) hs /\
    CStr <$> hs = row_cell 6 <$> records.
Proof.
  induction 1 as [|r records (bytes & Hr & Hl) _ (hs & E & HF & Hc)]; simpl; [by exists []|].
  rewrite Hr, Hl; simpl. rewrite E; simpl.
  exists (bytes :: hs); split_and!; [done|by constructor|]. by rewrite !fmap_cons, Hc.
Qed.

Lemma cells_fmap {A} (f : A -> string) (l : list A) : CStr <$> (f <$> l) = (fun r => CStr (f r)) <$> l.
Proof. by rewrite <- list_fmap_compose. Qed.

Lemma int_cells_fmap {A} (f : A -> Z) (l : list A) : CInt <$> (f <$> l) = (fun r => CInt (f r)) <$> l.
Proof. by rewrite <- list_fmap_compose. Qed.

Lemma records_to_batch_ok records : convertible records ->
  exists b, records_to_batch records = Ok b /\ batch_of b records.
Proof.
  intros (Hne & Hh & Hv). unfold records_to_batch.
  destruct (Nat.ltb_spec 128 (size (list_to_set (sr_vendor <$> records) : gset string))); [lia|].
  destruct (decode_hashes_ok _ Hh) as (hs & E & HF & Hc). rewrite E; simpl.
  assert (hs <> []) as Hhs by (destruct hs, records; done).
  assert (length hs = length records) as Hlen.
  { apply (f_equal length) in Hc. by rewrite !length_fmap in Hc. }
  rewrite (fsb_try_from_iter_ok hs 32) by done.
  match goal with |- context [batch_try_new log_schema ?cols] =>
    assert (batch_of (mkBatch log_schema cols (length records)) records) as Hb end.
  { pose proof (dict_from_iter_ok _ Hv) as Hd.
    assert (forall i, i < 8 -> 
      [ StringArray (sr_event_id <$> records); UInt64Array (sr_block_id <$> records);
        UInt32Array (sr_leaf_index <$> records); Int64Array (sr_timestamp <$> records);
        Int8DictionaryArray (dict_from_iter (sr_vendor <$> records)).1
          (StringArray (dict_from_iter (sr_vendor <$> records)).2);
        StringArray (sr_raw_log <$> records); FixedSizeBinaryArray (Z.of_nat 32) hs;
        StringArray (sr_ocsf_json <$> records) ] !! i ≫= array_cells = Some (row_cell i <$> records))
      as Hcells.
    { intros i Hi. do 8 (destruct i as [|i]; [simpl; rewrite ?Hd; simpl;
        rewrite ?cells_fmap, ?int_cells_fmap, ?Hc; done|]). lia. }
    split_and!; [|done..]. split; simpl.
    - repeat constructor.
    - apply Forall_lookup. intros i a Ha.
      assert (i < 8) as Hi by (apply lookup_lt_Some in Ha; simpl in Ha; lia).
      specialize (Hcells i Hi). rewrite Ha in Hcells. simpl in Hcells.
      eexists; split; [exact Hcells|]. by rewrite length_fmap. }
  rewrite (batch_try_new_ok _ _ (length records)); [by eauto|done|apply Hb].
Qed.

(** ** Decoding *)

Lemma str_cells_inv a cs : array_type a = Utf8 -> array_cells a = Some cs ->
  exists l, a = StringArray l /\ cs = CStr <$> l.
Proof. destruct a; simpl; intros; simplify_eq; eauto. Qed.

Lemma fmap_cstr_inj (l1 l2 : list string) : CStr <$> l1 = CStr <$> l2 -> l1 = l2.
Proof. apply list_fmap_eq_inj. by intros ?? [=]. Qed.

Lemma fmap_cint_inj (l1 l2 : list Z) : CInt <$> l1 = CInt <$> l2 -> l1 = l2.
Proof. apply list_fmap_eq_inj. by intros ?? [=]. Qed.

(** A decoded column set that agrees with [records]. *)
Definition columns_of (c : Columns) (records : list StoredLogRecord) : Prop :=
  c_event_ids c = sr_event_id <$> records /\ c_block_ids c = sr_block_id <$> records /\
  c_leaf_indices c = sr_leaf_index <$> records /\ c_timestamps c = sr_timestamp <$> records /\
  c_raw_logs c = sr_raw_log <$> records /\ c_ocsf_jsons c = sr_ocsf_json <$> records /\
  (forall i r, records !! i = Some r -> vendor_at (c_vendors c) i = Some (Ok (sr_vendor r))) /\
  (forall i r, records !! i = Some r -> hash_at (c_raw_hashes c) i = Some (sr_raw_hash r)).

Lemma record_at_ok c records i r : columns_of c records -> records !! i = Some r ->
  record_at c i = Some (Ok r).
Proof.
  intros (E0 & E1 & E2 & E3 & E5 & E7 & Ev & Eh) Hr. unfold record_at.
  rewrite E0, E1, E2, E3, E5, E7, !list_lookup_fmap, Hr; simpl.
  rewrite (Ev _ _ Hr), (Eh _ _ Hr); simpl. by destruct r.
Qed.

Lemma records_from_ok c records n i : columns_of c records -> i + n = length records ->
  records_from c i n = Some (Ok (drop i records)).
Proof.
  intros Hc. revert i; induction n as [|n IH]; intros i Hi; simpl.
  - by rewrite drop_ge by lia.
  - destruct (lookup_lt_is_Some_2 records i) as [r Hr]; [lia|].
    rewrite (record_at_ok _ _ _ _ Hc Hr); simpl. rewrite IH by lia; simpl.
    by rewrite (drop_S _ _ _ Hr).
Qed.


Lemma batch_column b records i f : batch_of b records -> log_schema !! i = Some f ->
  exists a, batch_columns b !! i = Some a /\ array_type a = field_type f /\
    array_cells a = Some (row_cell i <$> records).
Proof.
  intros ([Hty _] & Hs & _ & Hc) Hf. rewrite Hs in Hty.
  assert (i < 8) as Hi by (apply lookup_lt_Some in Hf; simpl in Hf; lia).
  specialize (Hc i Hi). destruct (batch_columns b !! i) as [a|] eqn:Ha; [|done].
  exists a; split_and!; [done| |done]. symmetry.
  exact (Forall2_lookup_lr _ _ _ _ _ _ Hty Hf Ha).
Qed.

Lemma str_column b records i f : batch_of b records -> log_schema !! i = Some f ->
  field_type f = Utf8 ->
  exists l, batch_columns b !! i = Some (StringArray l) /\ CStr <$> l = row_cell i <$> records.
Proof.
  intros Hb Hf Ht. destruct (batch_column _ _ _ _ Hb Hf) as (a & Ha & Hty & Hc).
  rewrite Ht in Hty. apply str_cells_inv in Hc as (l & -> & ->); eauto.
Qed.

Lemma dict_vendor_at keys vs (records : list StoredLogRecord) :
  mapM (M:=option) (dict_lookup vs) keys = Some (sr_vendor <$> records) ->
  forall i r, records !! i = Some r ->
    vendor_at (VDict keys (StringArray vs)) i = Some (Ok (sr_vendor r)).
Proof.
  intros Hm i r Hr. apply mapM_Some in Hm.
  assert ((sr_vendor <$> records) !! i = Some (sr_vendor r)) as Hv
    by (by rewrite list_lookup_fmap, Hr).
  destruct (Forall2_lookup_r _ _ _ _ _ Hm Hv) as (k & Hk & Hd). simpl. by rewrite Hk, Hd.
Qed.

Lemma binary_hash_at (l : list string) records : Forall hash_ok records -> CStr <$> l = row_cell 6 <$> records ->
  forall i r, records !! i = Some r -> hash_at (HBinary l) i = Some (sr_raw_hash r).
Proof.
  intros Hh Hc i r Hr. apply (f_equal (lookup i)) in Hc.
  rewrite !list_lookup_fmap, Hr in Hc. simpl in *. destruct (l !! i) as [x|]; [|done].
  simpl in *. injection Hc as ->. rewrite Forall_lookup in Hh. destruct (Hh _ _ Hr) as [h ->].
  by rewrite hex_decode_encode.
Qed.

Lemma batch_columns_of_ok b records : batch_of b records -> Forall hash_ok records ->
  exists c, batch_columns_of b = Some (Ok c) /\ columns_of c records.
Proof.
  intros Hb Hh. unfold batch_columns_of, get_str, get_ints, vendor_col, hash_col.
  destruct (str_column _ _ 0 _ Hb eq_refl eq_refl) as (l0 & -> & C0).
  destruct (batch_column _ _ 1 _ Hb eq_refl) as (a1 & -> & T1 & C1).
  destruct (batch_column _ _ 2 _ Hb eq_refl) as (a2 & -> & T2 & C2).
  destruct (batch_column _ _ 3 _ Hb eq_refl) as (a3 & -> & T3 & C3).
  destruct (batch_column _ _ 4 _ Hb eq_refl) as (a4 & -> & T4 & C4).
  destruct (str_column _ _ 5 _ Hb eq_refl eq_refl) as (l5 & -> & C5).
  destruct (batch_column _ _ 6 _ Hb eq_refl) as (a6 & -> & T6 & C6).
  destruct (str_column _ _ 7 _ Hb eq_refl eq_refl) as (l7 & -> & C7).
  destruct Hb as (_ & -> & _).
  destruct a1; try discriminate.
  destruct a2; try discriminate.
  destruct a3; try discriminate.
  destruct a4 as [| | | |keys [vs| | | | | |]| |]; try discriminate; simpl in *.
  destruct a6; try discriminate.
  simpl. eexists; split; [done|].
  split_and!; simpl in *; simplify_eq;
    try (first [apply fmap_cstr_inj|apply fmap_cint_inj]; by rewrite ?cells_fmap, ?int_cells_fmap).
  - apply dict_vendor_at. destruct (mapM _ keys) as [l|]; simplify_eq/=.
    f_equal. apply fmap_cstr_inj. by rewrite cells_fmap.
  - apply binary_hash_at; done.
Qed.

Lemma batch_to_records_ok b records : batch_of b records -> Forall hash_ok records ->
  batch_to_records b = Some (Ok records).
Proof.
  intros Hb Hh. unfold batch_to_records.
  destruct (batch_columns_of_ok _ _ Hb Hh) as (c & -> & Hc); simpl.
  destruct Hb as (_ & _ & -> & _). by rewrite (records_from_ok _ _ _ 0 Hc).
Qed.

(** ** Files *)

(** The batches of a file stand for consecutive rows of the block. *)
Lemma split_batches bs records :
  Forall (fun b => batch_wf b /\ batch_schema b = log_schema) bs ->
  (forall i, i < 8 -> exists ls, mapM (M:=option) (fun b => batch_columns b !! i ≫= array_cells) bs = Some ls
      /\ row_cell i <$> records = concat ls) ->
  exists parts, Forall2 batch_of bs parts /\ concat parts = records.
Proof.
  intros HF; revert records. induction HF as [|b bs [Hwf Hs] HF IH]; intros records Hc.
  - destruct (Hc 0) as (ls & [= <-] & E); [lia|]. exists []; split; [done|].
    by destruct records.
  - set (n := batch_num_rows b).
    assert (forall i, i < 8 -> exists l ls, batch_columns b !! i ≫= array_cells = Some l /\ length l = n /\
      mapM (M:=option) (fun b => batch_columns b !! i ≫= array_cells) bs = Some ls /\
      row_cell i <$> records = l ++ concat ls) as Hsplit.
    { intros i Hi. destruct (Hc i Hi) as (ls & E & Er). apply mapM_Some in E.
      apply Forall2_cons_inv_l in E as (l & ls' & El & E' & ->).
      apply mapM_Some in E'. exists l, ls'; split_and!; try done.
      destruct (batch_columns b !! i) as [a|] eqn:Ha; [|done]. simpl in El.
      destruct Hwf as [_ Hl]. rewrite Forall_lookup in Hl.
      destruct (Hl _ _ Ha) as (l' & E1 & E2). unfold n. congruence. }
    destruct (Hsplit 0) as (l0 & ls0 & _ & Hl0 & _ & E0); [lia|].
    apply (f_equal length) in E0. rewrite length_fmap, length_app in E0.
    destruct (IH (drop n records)) as (parts & HP & HC).
    { intros i Hi. destruct (Hsplit i Hi) as (l & ls & _ & Hl & E & Er). exists ls; split; [done|].
      by rewrite fmap_drop, Er, drop_app_length'. }
    exists (take n records :: parts); split; [|by simpl; rewrite HC, take_drop].
    constructor; [|done]. split_and!; try done; [rewrite length_take; lia|].
    intros i Hi. destruct (Hsplit i Hi) as (l & ls & El & Hl & _ & Er).
    by rewrite El, fmap_take, Er, take_app_length'.
Qed.

Lemma read_batches_ok bs parts : Forall2 batch_of bs parts -> Forall hash_ok (concat parts) ->
  read_batches bs = Some (Ok (concat parts)).
Proof.
  induction 1 as [|b p bs parts Hb _ IH]; simpl; [done|].
  intros [Hp Hq]%Forall_app. rewrite (batch_to_records_ok _ _ Hb Hp); simpl. by rewrite IH.
Qed.

(** What one write leaves under a path holds exactly the records. *)
Lemma parquet_decode_records c b records : batch_of b records -> Forall hash_ok records ->
  exists bs, parquet_decode (parquet_encode c b) = Ok bs /\ read_batches bs = Some (Ok records).
Proof.
  intros (Hwf & Hs & Hn & Hc) Hh. destruct (parquet_roundtrip c b Hwf) as (bs & E & HF & Hcols).
  rewrite Hs in HF. destruct (split_batches bs records HF) as (parts & HP & <-).
  { intros i Hi. specialize (Hc i Hi). destruct (batch_columns b !! i) as [a|] eqn:Ha; [|done].
    destruct (Hcols _ _ Ha) as (ls & E1 & E2). exists ls; split; [done|]. simpl in Hc. congruence. }
  exists bs; split; [done|]. by apply read_batches_ok.
Qed.

Definition no_faults : WriteFaults parquet_file := mkFaults _ false false None.

(** The write of a block that can be stored succeeds, and a read of the file
    returns its records. *)
Lemma write_read_records fs path records c : storable records ->
  exists fs', write_records_to_parquet no_faults fs path records c = (Ok tt, fs') /\
    read_parquet_file fs' path = Some (Ok records) /\
    (forall p, p <> path -> fs' !! p = fs !! p).
Proof.
  intros Hst. destruct (records_to_batch_ok _ (storable_convertible _ Hst)) as (b & E & Hb).
  destruct (parquet_decode_records (compression_of c) _ _ Hb (proj1 (proj2 Hst))) as (bs & Ed & Er).
  unfold write_records_to_parquet, write_parquet_file. rewrite E. cbn [fail_create_dir fail_create_file fail_write no_faults].
  eexists; split_and!; [reflexivity| |].
  - unfold read_parquet_file, BlockStore. by rewrite lookup_insert_eq, Ed.
  - intros p Hp. unfold BlockStore. by rewrite lookup_insert_ne.
Qed.

(** ** Properties *)

(** A non-empty block whose digests are hex forms of 32 bytes and whose
    vendors number at most 128 is converted to a record batch, and the batch
    decodes to exactly the same records, in order. *)
Theorem records_batch_roundtrip records : storable records ->
  exists b, records_to_batch records = Ok b /\ batch_to_records b = Some (Ok records).
Proof.
  intros Hst. destruct (records_to_batch_ok _ (storable_convertible _ Hst)) as (b & E & Hb).
  exists b; split; [done|]. apply batch_to_records_ok; [done|apply Hst].
Qed.

(** C21: without an I/O fault, writing such a block succeeds under every
    compression, reading the file back returns exactly the records whatever
    batch size the reader uses, and no other file changes. *)
Theorem block_file_roundtrip fs path records c : storable records ->
  exists fs', write_records_to_parquet no_faults fs path records c = (Ok tt, fs') /\
    read_parquet_file fs' path = Some (Ok records) /\
    (forall p, p <> path -> fs' !! p = fs !! p).
Proof. apply write_read_records. Qed.

(** Why the conversion refuses a block. *)
Inductive refusal (records : list StoredLogRecord) : Prop :=
| refused_empty : records = [] -> refusal records
| refused_vendors : 128 < size (list_to_set (sr_vendor <$> records) : gset string) -> refusal records
| refused_digest r : r ∈ records -> ~ digest_ok r -> refusal records.

#[global] Instance digest_ok_dec r : Decision (digest_ok r).
Proof.
  unfold digest_ok. destruct (hex_decode (sr_raw_hash r)) as [bytes|] eqn:E.
  - destruct (decide (String.length bytes = 32)); [left; eauto|right; naive_solver].
  - right; naive_solver.
Defined.

Lemma refusal_or_convertible records : refusal records \/ convertible records.
Proof.
  destruct (decide (records = [])) as [->|Hne]; [by left; apply refused_empty|].
  destruct (decide (128 < size (list_to_set (sr_vendor <$> records) : gset string)));
    [by left; apply refused_vendors|].
  destruct (decide (Forall digest_ok records)) as [|Hd]; [right; split_and!; [done..|lia]|].
  apply not_Forall_Exists in Hd; [|apply _]. apply Exists_exists in Hd as (r & Hr & Hd).
  left. by apply (refused_digest _ r).
Qed.

Lemma decode_hashes_bad records r : r ∈ records -> ~ digest_ok r ->
  exists e, decode_hashes records = Err e.
Proof.
  unfold digest_ok. intros Hr Hbad. induction Hr as [r|r r' records _ IH]; simpl.
  - destruct (hex_decode (sr_raw_hash r)) as [bytes|]; [|eauto].
    destruct (Nat.eqb_spec (String.length bytes) 32); [|eauto]. destruct Hbad; eauto.
  - destruct (hex_decode (sr_raw_hash r')) as [bytes|]; [|eauto].
    destruct (String.length bytes =? 32)%nat; [|eauto]. destruct IH as [e ->]; [done|]. simpl; eauto.
Qed.

Lemma records_to_batch_refused records : refusal records -> exists e, records_to_batch records = Err e.
Proof.
  intros Hr. unfold records_to_batch.
  destruct (Nat.ltb_spec 128 (size (list_to_set (sr_vendor <$> records) : gset string))); [eauto|].
  destruct Hr as [->|Hv|r Hr Hb]; [|lia|].
  - simpl. destruct fsb_try_from_iter_nil as [e ->]. eauto.
  - destruct (decode_hashes_bad _ _ Hr Hb) as [e ->]. simpl; eauto.
Qed.

(** A block is refused exactly when it is empty, has more than 128 distinct
    vendors, or has a digest that is not the hex form of 32 bytes; a write
    of a refused block reports an error and leaves the disk untouched,
    whatever the file system does, and a block that is not refused is
    written when the file system does not fail. *)
Theorem block_write_refusal fx fs path records c :
  (refusal records -> exists e, write_records_to_parquet fx fs path records c = (Err e, fs)) /\
  (~ refusal records -> exists fs', write_records_to_parquet no_faults fs path records c = (Ok tt, fs')).
Proof.
  unfold write_records_to_parquet. split.
  - intros [e ->]%records_to_batch_refused. eauto.
  - intros Hn. destruct (refusal_or_convertible records) as [|Hc]; [done|].
    destruct (records_to_batch_ok _ Hc) as (b & -> & _). simpl; eauto.
Qed.

End Facts.

(** ** Witnesses *)

Module StorageDemo.
Import Demo ArrowDemo.

Definition rec1 : StoredLogRecord :=
  mkStored "e1" 1 0 1700000000000 "cisco" "%ASA-1 a" (hex_encode (b32 (sha256 "%ASA-1 a"))) "{}".
Definition rec2 : StoredLogRecord :=
  mkStored "e2" 1 1 1700000000000 "cef" "CEF:0|x" (hex_encode (b32 (sha256 "CEF:0|x"))) "{}".

Lemma demo_storable : storable [rec1; rec2].
Proof.
  split_and!; [done| |by vm_compute; lia].
  repeat constructor; eexists; reflexivity.
Qed.

Lemma records_batch_roundtrip_witness : storable [rec1; rec2] /\
  exists b, records_to_batch [rec1; rec2] = Ok b /\ batch_to_records b = Some (Ok [rec1; rec2]).
Proof. split; [apply demo_storable|]. apply (records_batch_roundtrip [rec1; rec2]), demo_storable. Defined.

Lemma block_file_roundtrip_witness : storable [rec1; rec2] /\
  exists fs', write_records_to_parquet no_faults ∅ "block_00001.parquet" [rec1; rec2] Snappy = (Ok tt, fs') /\
    read_parquet_file fs' "block_00001.parquet" = Some (Ok [rec1; rec2]) /\
    (forall p, p <> "block_00001.parquet" -> fs' !! p = (∅ : BlockStore) !! p).
Proof.
  split; [apply demo_storable|].
  apply (block_file_roundtrip ∅ "block_00001.parquet" [rec1; rec2] Snappy), demo_storable.
Defined.

Definition bad_rec : StoredLogRecord := mkStored "e3" 1 0 0 "cef" "CEF:0|x" "abcd" "{}".

(** A digest of two bytes is refused and nothing is written. *)
Lemma block_write_refusal_witness :
  exists e, write_records_to_parquet no_faults ∅ "block_00001.parquet" [bad_rec] Zstd = (Err e, ∅).
Proof.
  apply (proj1 (block_write_refusal no_faults ∅ "block_00001.parquet" [bad_rec] Zstd)).
  apply (refused_digest _ bad_rec); [by left|]. by intros (bytes & [= <-] & E).
Defined.

End StorageDemo.
