(* ===== verification/Merkle.v ===== *)
(** * RFC 6962 Merkle trees ([crates/ulpf-integrity/src/merkle.rs])

    Hashes, tree construction, inclusion and consistency proofs and their
    verifiers, as the source has them.  [None] is a panic (the [assert!] of
    [largest_power_of_two_less_than]).  The recursions, which halve a slice, run
    on fuel; [MerkleFacts] shows that the fuel given always suffices and that
    the assertion never fails. *)

From S2P Require Export External.

(** ** Hashes *)

Definition LEAF_PREFIX : ascii := "000".
Definition NODE_PREFIX : ascii := "001".

(** [struct Hash(pub [u8; 32])] *)
Record Hash : Set := mkHash { hash_0 : bytes32 }.

#[global] Instance Hash_eq_dec : EqDecision Hash.
Proof. solve_decision. Defined.

Inductive Side := Left | Right.

#[global] Instance Side_eq_dec : EqDecision Side.
Proof. solve_decision. Defined.

Inductive MerkleError :=
| IndexOutOfBounds (index size : nat)
| EmptyTree
| InvalidConsistencySize (prev_size size : nat).

Section Merkle.
Context `{Sha256} `{HexLib}.

Definition to_hex (h : Hash) : string := hex_encode (b32 (hash_0 h)).

Definition from_hex (s : string) : option Hash := mkHash <$> hex_decode_32 s.

(** [Display] and [Debug]; the string that [serialize] hands to the serializer, and
    [deserialize] on the string that the deserializer gives, if it gives one. *)
Definition hash_display (h : Hash) : string := to_hex h.
Definition hash_debug (h : Hash) : string := "Hash(" +:+ to_hex h +:+ ")".
Definition hash_serialize (h : Hash) : string := to_hex h.
Definition hash_deserialize (s : option string) : option Hash := s ≫= from_hex.

Definition leaf_input (data : string) : string := String LEAF_PREFIX data.

Definition hash_leaf (data : string) : Hash := mkHash (sha256 (leaf_input data)).

Definition node_input (left right : Hash) : string :=
  String NODE_PREFIX (b32 (hash_0 left) +:+ b32 (hash_0 right)).

Definition hash_children (left right : Hash) : Hash := mkHash (sha256 (node_input left right)).

Definition empty_tree_hash : Hash := mkHash (sha256 "").

(** ** The split point *)

(** [usize::leading_zeros] on 64 bits *)
Definition leading_zeros (x : Z) : Z := if (x =? 0)%Z then 64 else 63 - Z.log2 x.

Definition largest_power_of_two_less_than (n : nat) : option nat :=
  if (1 <? n)%nat
  then Some (Z.to_nat (Z.shiftl 1 (64 - 1 - leading_zeros (Z.of_nat n - 1))))
  else None.

(** ** Trees *)

Inductive TreeNode :=
| Leaf (hash : Hash) (_index : nat)
| Internal (hash : Hash) (size : nat) (left right : TreeNode).

Definition node_hash (t : TreeNode) : Hash :=
  match t with Leaf h _ => h | Internal h _ _ _ => h end.

Fixpoint collect_audit_path (t : TreeNode) (target_idx : nat) (path : list (Hash * Side))
  : option (list (Hash * Side)) :=
  match t with
  | Leaf _ _ => Some path
  | Internal _ size lt rt =>
      match largest_power_of_two_less_than size with
      | None => None
      | Some k =>
          if (target_idx <? k)%nat
          then path' ← collect_audit_path lt target_idx path;
               Some (path' ++ [(node_hash rt, Right)])
          else path' ← collect_audit_path rt (target_idx - k) path;
               Some (path' ++ [(node_hash lt, Left)])
      end
  end.

Record InclusionProof := {
  leaf_index : nat;
  tree_size : nat;
  audit_path : list (Hash * Side)
}.

Record MerkleTree := {
  leaf_hashes : list Hash;
  root : Hash;
  root_node : option TreeNode
}.

Definition empty_tree : MerkleTree :=
  {| leaf_hashes := []; root := empty_tree_hash; root_node := None |}.

Fixpoint build_subtree_fuel (fuel : nat) (leaves : list Hash) (offset : nat) : option TreeNode :=
  match fuel with
  | O => None
  | S fuel' =>
      let n := length leaves in
      if (n =? 1)%nat
      then h ← head leaves; Some (Leaf h offset)
      else k ← largest_power_of_two_less_than n;
           left ← build_subtree_fuel fuel' (take k leaves) offset;
           right ← build_subtree_fuel fuel' (drop k leaves) (offset + k);
           Some (Internal (hash_children (node_hash left) (node_hash right)) n left right)
  end.

Definition build_subtree (leaves : list Hash) (offset : nat) : option TreeNode :=
  build_subtree_fuel (length leaves) leaves offset.

Definition from_leaf_hashes (leaves : list Hash) : option MerkleTree :=
  if (length leaves =? 0)%nat then Some empty_tree
  else node ← build_subtree leaves 0;
       Some {| leaf_hashes := leaves; root := node_hash node; root_node := Some node |}.

Definition from_raw_logs (logs : list string) : option MerkleTree :=
  from_leaf_hashes (hash_leaf <$> logs).

Definition tree_len (t : MerkleTree) : nat := length (leaf_hashes t).

Definition leaf_hash (t : MerkleTree) (index : nat) : option Hash := leaf_hashes t !! index.

(** ** Inclusion proofs *)

Definition inclusion_proof (t : MerkleTree) (index : nat)
  : option (Result MerkleError InclusionProof) :=
  let size := length (leaf_hashes t) in
  if (size =? 0)%nat then Some (Err EmptyTree)
  else if (size <=? index)%nat then Some (Err (IndexOutOfBounds index size))
  else path ← match root_node t with
              | Some node => collect_audit_path node index []
              | None => Some []
              end;
       Some (Ok {| leaf_index := index; tree_size := size; audit_path := path |}).

(** The loop of [verify_inclusion_proof_by_hash]. *)
Definition audit_step (current_hash : Hash) (step : Hash * Side) : Hash :=
  match step.2 with
  | Right => hash_children current_hash step.1
  | Left => hash_children step.1 current_hash
  end.

Definition fold_audit_path (h : Hash) (path : list (Hash * Side)) : Hash :=
  foldl audit_step h path.

Definition verify_inclusion_proof_by_hash (leaf_hash : Hash) (leaf_index tree_size : nat)
    (audit_path : list (Hash * Side)) (expected_root : Hash) : bool :=
  if (tree_size =? 0)%nat || (tree_size <=? leaf_index)%nat then false
  else if (tree_size =? 1)%nat
  then match audit_path with [] => true | _ => false end
       && (leaf_index =? 0)%nat && bool_decide (leaf_hash = expected_root)
  else bool_decide (fold_audit_path leaf_hash audit_path = expected_root).

Definition verify_inclusion_proof (raw_log : string) (leaf_index tree_size : nat)
    (audit_path : list (Hash * Side)) (expected_root : Hash) : bool :=
  verify_inclusion_proof_by_hash (hash_leaf raw_log) leaf_index tree_size audit_path expected_root.

(** [InclusionProof::verify] and [InclusionProof::verify_hash] *)
Definition proof_verify (p : InclusionProof) (raw_log : string) (expected_root : Hash) : bool :=
  verify_inclusion_proof raw_log (leaf_index p) (tree_size p) (audit_path p) expected_root.

Definition proof_verify_hash (p : InclusionProof) (h expected_root : Hash) : bool :=
  verify_inclusion_proof_by_hash h (leaf_index p) (tree_size p) (audit_path p) expected_root.

(** ** Consistency proofs *)

Fixpoint subproof_fuel (fuel m : nat) (leaves : list Hash) (b : bool) : option (list Hash) :=
  match fuel with
  | O => None
  | S fuel' =>
      let n := length leaves in
      if (m =? n)%nat
      then if b then Some []
           else t ← from_leaf_hashes leaves; Some [root t]
      else k ← largest_power_of_two_less_than n;
           if (m <=? k)%nat
           then p ← subproof_fuel fuel' m (take k leaves) b;
                right ← from_leaf_hashes (drop k leaves);
                Some (p ++ [root right])
           else p ← subproof_fuel fuel' (m - k) (drop k leaves) false;
                left ← from_leaf_hashes (take k leaves);
                Some (p ++ [root left])
  end.

Definition subproof (m : nat) (leaves : list Hash) (b : bool) : option (list Hash) :=
  subproof_fuel (length leaves) m leaves b.

Definition consistency_proof (t : MerkleTree) (prev_size : nat)
  : option (Result MerkleError (list Hash)) :=
  let size := length (leaf_hashes t) in
  if (prev_size =? 0)%nat || (size <? prev_size)%nat
  then Some (Err (InvalidConsistencySize prev_size size))
  else if (prev_size =? size)%nat then Some (Ok [])
  else p ← subproof prev_size (leaf_hashes t) true; Some (Ok p).

(** [Vec::pop] *)
Definition vec_pop {A} (l : list A) : option (A * list A) :=
  match reverse l with
  | [] => None
  | x :: r => Some (x, reverse r)
  end.

(** The recursions of the verifier return [None] for a panic, [Some None] for
    the source's [None], and otherwise the hashes with the stack left. *)
Fixpoint verify_subproof_full_fuel (fuel m n : nat) (proof : list Hash)
  : option (option (Hash * Hash * list Hash)) :=
  match fuel with
  | O => None
  | S fuel' =>
      if (m =? n)%nat
      then Some (match vec_pop proof with
                 | None => None
                 | Some (h, proof') => Some (h, h, proof')
                 end)
      else k ← largest_power_of_two_less_than n;
           match vec_pop proof with
           | None => Some None
           | Some (mth, proof') =>
               if (m <=? k)%nat
               then r ← verify_subproof_full_fuel fuel' m k proof';
                    Some (match r with
                          | None => None
                          | Some (sub_m, sub_k, rest) =>
                              Some (sub_m, hash_children sub_k mth, rest)
                          end)
               else r ← verify_subproof_full_fuel fuel' (m - k) (n - k) proof';
                    Some (match r with
                          | None => None
                          | Some (sub_m, sub_n, rest) =>
                              Some (hash_children mth sub_m, hash_children mth sub_n, rest)
                          end)
           end
  end.

Fixpoint verify_consistency_internal_fuel (fuel m n : nat) (proof : list Hash) (prev_root : Hash)
  : option (option (Hash * list Hash)) :=
  match fuel with
  | O => None
  | S fuel' =>
      if (m =? n)%nat then Some (Some (prev_root, proof))
      else k ← largest_power_of_two_less_than n;
           match vec_pop proof with
           | None => Some None
           | Some (mth, proof') =>
               if (m <=? k)%nat
               then r ← verify_consistency_internal_fuel fuel' m k proof' prev_root;
                    Some (match r with
                          | None => None
                          | Some (left_root, rest) => Some (hash_children left_root mth, rest)
                          end)
               else r ← verify_subproof_full_fuel fuel' (m - k) (n - k) proof';
                    Some (match r with
                          | None => None
                          | Some (sub_m, sub_n, rest) =>
                              if decide (hash_children mth sub_m = prev_root)
                              then Some (hash_children mth sub_n, rest)
                              else None
                          end)
           end
  end.

Definition verify_consistency_proof (prev_size curr_size : nat) (prev_root curr_root : Hash)
    (proof : list Hash) : option bool :=
  if (prev_size =? 0)%nat || (curr_size <? prev_size)%nat then Some false
  else if (prev_size =? curr_size)%nat
  then Some (match proof with [] => true | _ => false end && bool_decide (prev_root = curr_root))
  else r ← verify_consistency_internal_fuel curr_size prev_size curr_size proof prev_root;
       Some (match r with
             | Some (reconstructed_root, rest) =>
                 match rest with [] => true | _ => false end
                 && bool_decide (reconstructed_root = curr_root)
             | None => false
             end).

End Merkle.
