(* ===== verification/MerkleFacts.v ===== *)
(** * Correctness of the Merkle trees

    The tree head of RFC 6962 as an inductive specification, and the theorems
    on [Merkle]: the tree built is the RFC's tree, honest proofs are accepted,
    accepted proofs are honest as long as no SHA-256 collision occurs among
    the strings hashed, and a root determines the logs under it. *)

From S2P Require Export Merkle.

(** ** Specification *)

Section Spec.
Context `{Sha256}.

(** RFC 6962, section 2.1, over the leaf hashes: a one-element list is its own
    head; a longer one splits at the largest power of two below its length. *)
Inductive MTH : list Hash -> Hash -> Prop :=
| MTH_leaf h : MTH [h] h
| MTH_node j ls rs hl hr :
    length ls = 2 ^ j -> 0 < length rs <= 2 ^ j ->
    MTH ls hl -> MTH rs hr -> MTH (ls ++ rs) (hash_children hl hr).

(** The head of any list, the empty one included. *)
Definition rfc6962_root (leaves : list Hash) (h : Hash) : Prop :=
  (leaves = [] /\ h = mkHash (sha256 "")) \/ MTH leaves h.

(** A tree whose shape, sizes, indices and hashes are those the RFC prescribes
    for the given leaves. *)
Inductive tree_ok : TreeNode -> list Hash -> nat -> Prop :=
| tree_ok_leaf h o : tree_ok (Leaf h o) [h] o
| tree_ok_node j lt rt ls rs o :
    length ls = 2 ^ j -> 0 < length rs <= 2 ^ j ->
    tree_ok lt ls o -> tree_ok rt rs (o + length ls) ->
    tree_ok (Internal (hash_children (node_hash lt) (node_hash rt)) (length (ls ++ rs)) lt rt)
      (ls ++ rs) o.

(** The strings hashed for the internal nodes of a tree. *)
Fixpoint node_inputs (t : TreeNode) : list string :=
  match t with
  | Leaf _ _ => []
  | Internal _ _ lt rt => node_input (node_hash lt) (node_hash rt) :: node_inputs lt ++ node_inputs rt
  end.

(** The strings hashed for a tree of leaf hashes. *)
Definition head_inputs (t : MerkleTree) : list string :=
  match root_node t with Some n => node_inputs n | None => [] end.

(** The strings hashed to build the tree of a list of logs. *)
Definition tree_inputs (logs : list string) (t : MerkleTree) : list string :=
  "" :: (leaf_input <$> logs) ++ head_inputs t.

(** The strings hashed by the inclusion verifier. *)
Definition step_input (h : Hash) (s : Hash * Side) : string :=
  match s.2 with Right => node_input h s.1 | Left => node_input s.1 h end.

Fixpoint path_inputs (h : Hash) (path : list (Hash * Side)) : list string :=
  match path with
  | [] => []
  | s :: path' => step_input h s :: path_inputs (audit_step h s) path'
  end.

(** The strings hashed by the consistency verifier. *)
Fixpoint subproof_full_inputs (fuel m n : nat) (proof : list Hash) : list string :=
  match fuel with
  | O => []
  | S fuel' =>
      if (m =? n)%nat then []
      else match largest_power_of_two_less_than n, vec_pop proof with
           | Some k, Some (mth, proof') =>
               if (m <=? k)%nat
               then subproof_full_inputs fuel' m k proof' ++
                    match verify_subproof_full_fuel fuel' m k proof' with
                    | Some (Some (_, sub_k, _)) => [node_input sub_k mth]
                    | _ => []
                    end
               else subproof_full_inputs fuel' (m - k) (n - k) proof' ++
                    match verify_subproof_full_fuel fuel' (m - k) (n - k) proof' with
                    | Some (Some (sub_m, sub_n, _)) => [node_input mth sub_m; node_input mth sub_n]
                    | _ => []
                    end
           | _, _ => []
           end
  end.

Fixpoint consistency_inputs (fuel m n : nat) (proof : list Hash) (prev_root : Hash) : list string :=
  match fuel with
  | O => []
  | S fuel' =>
      if (m =? n)%nat then []
      else match largest_power_of_two_less_than n, vec_pop proof with
           | Some k, Some (mth, proof') =>
               if (m <=? k)%nat
               then consistency_inputs fuel' m k proof' prev_root ++
                    match verify_consistency_internal_fuel fuel' m k proof' prev_root with
                    | Some (Some (left_root, _)) => [node_input left_root mth]
                    | _ => []
                    end
               else subproof_full_inputs fuel' (m - k) (n - k) proof' ++
                    match verify_subproof_full_fuel fuel' (m - k) (n - k) proof' with
                    | Some (Some (sub_m, sub_n, _)) => [node_input mth sub_m; node_input mth sub_n]
                    | _ => []
                    end
           | _, _ => []
           end
  end.

End Spec.

#[global] Hint Constructors MTH tree_ok : core.

(** ** The split point *)

Lemma pow2_unique i j n : 2 ^ i < n <= 2 * 2 ^ i -> 2 ^ j < n <= 2 * 2 ^ j -> i = j.
Proof.
  intros Hi Hj. destruct (lt_eq_lt_dec i j) as [[Hlt|]|Hlt]; [|done|]; exfalso.
  - assert (2 ^ S i <= 2 ^ j) by (apply Nat.pow_le_mono_r; lia). simpl in *; lia.
  - assert (2 ^ S j <= 2 ^ i) by (apply Nat.pow_le_mono_r; lia). simpl in *; lia.
Qed.

Lemma pow2_lt_double a j : 2 ^ a < 2 * 2 ^ j -> 2 ^ a <= 2 ^ j.
Proof.
  intros Ha. apply Nat.pow_le_mono_r; [done|].
  apply Nat.lt_succ_r, (Nat.pow_lt_mono_r_iff 2); simpl; lia.
Qed.

Lemma lpo2_spec n : 1 < n ->
  exists j, largest_power_of_two_less_than n = Some (2 ^ j) /\ 2 ^ j < n <= 2 * 2 ^ j.
Proof.
  intros Hn. unfold largest_power_of_two_less_than, leading_zeros.
  destruct (Nat.ltb_spec 1 n); [|lia].
  destruct (Z.eqb_spec (Z.of_nat n - 1) 0); [lia|].
  set (x := (Z.of_nat n - 1)%Z) in *. assert (0 < x)%Z as Hx by lia.
  pose proof (Z.log2_nonneg x). pose proof (Z.log2_spec x Hx) as [Hlo Hhi].
  replace (64 - 1 - (63 - Z.log2 x))%Z with (Z.log2 x) by lia.
  rewrite Z.shiftl_1_l. rewrite Z.pow_succ_r in Hhi by done.
  exists (Z.to_nat (Z.log2 x)).
  assert (Z.of_nat (2 ^ Z.to_nat (Z.log2 x)) = 2 ^ Z.log2 x)%Z as Hp.
  { rewrite Nat2Z.inj_pow, Z2Nat.id by done. done. }
  split; [|lia]. f_equal. by rewrite <- Hp, Nat2Z.id.
Qed.

Lemma lpo2_at n j : 2 ^ j < n <= 2 * 2 ^ j -> largest_power_of_two_less_than n = Some (2 ^ j).
Proof.
  intros Hj. assert (2 ^ j <> 0) by (by apply Nat.pow_nonzero).
  destruct (lpo2_spec n) as (i & -> & Hi); [lia|].
  by rewrite (pow2_unique i j n).
Qed.

Lemma lpo2_app {A} (ls rs : list A) j :
  length ls = 2 ^ j -> 0 < length rs <= 2 ^ j ->
  largest_power_of_two_less_than (length (ls ++ rs)) = Some (length ls).
Proof. intros Hl Hr. rewrite (lpo2_at _ j), Hl; [done|]. rewrite length_app. lia. Qed.

(** Splitting a list of at least two elements at its split point. *)
Lemma lpo2_split {A} (l : list A) : 1 < length l ->
  exists j ls rs, l = ls ++ rs /\ length ls = 2 ^ j /\ 0 < length rs <= 2 ^ j /\
    largest_power_of_two_less_than (length l) = Some (length ls).
Proof.
  intros Hl. destruct (lpo2_spec _ Hl) as (j & Hk & Hj).
  exists j, (take (2 ^ j) l), (drop (2 ^ j) l).
  rewrite take_drop, length_take, length_drop, Nat.min_l by lia. repeat split; auto; lia.
Qed.

(** ** Construction *)

Section Facts.
Context `{Sha256} `{HexLib}.

(** A digest survives serialization. *)
Lemma hash_serde_roundtrip h : hash_deserialize (Some (hash_serialize h)) = Some h.
Proof. unfold hash_deserialize, hash_serialize, from_hex, to_hex. simpl. rewrite hex_decode_32_encode. by destruct h. Qed.

Lemma tree_ok_ne t ls o : tree_ok t ls o -> 0 < length ls.
Proof. induction 1; rewrite ?length_app; simpl; lia. Qed.

Lemma tree_ok_MTH t ls o : tree_ok t ls o -> MTH ls (node_hash t).
Proof. induction 1; simpl; eauto. Qed.

Lemma MTH_ne ls h : MTH ls h -> 0 < length ls.
Proof. induction 1; rewrite ?length_app; simpl; lia. Qed.

Lemma MTH_fun ls h1 : MTH ls h1 -> forall h2, MTH ls h2 -> h1 = h2.
Proof.
  induction 1 as [h|j ls rs hl hr Hl Hr HL IHl HR IHr]; intros h2 H2.
  - inv H2 as [|j ls rs hl hr Hl Hr HL HR E]; [done|].
    apply (f_equal length) in E. rewrite length_app in E.
    pose proof (MTH_ne _ _ HL). simpl in E; lia.
  - inv H2 as [h E|i ls' rs' hl' hr' Hl' Hr' HL' HR' E].
    + apply (f_equal length) in E. rewrite length_app in E.
      pose proof (MTH_ne _ _ HL). simpl in E; lia.
    + pose proof (lpo2_app _ _ _ Hl Hr) as K. rewrite <- E, (lpo2_app _ _ _ Hl' Hr') in K.
      simplify_eq K. intros K'. apply app_inj_1 in E as [-> ->]; [|done].
      by rewrite (IHl hl'), (IHr hr').
Qed.

Lemma build_subtree_fuel_ok fuel leaves o :
  0 < length leaves <= fuel -> exists t, build_subtree_fuel fuel leaves o = Some t /\ tree_ok t leaves o.
Proof.
  revert leaves o; induction fuel as [|fuel IH]; intros leaves o Hl; [lia|]; simpl.
  destruct (Nat.eqb_spec (length leaves) 1) as [E|E].
  - destruct leaves as [|h [|]]; simplify_eq/=. eauto.
  - destruct (lpo2_split leaves) as (j & ls & rs & -> & HL & HR & ->); [lia|]; simpl.
    rewrite length_app in *. pose proof (Nat.pow_nonzero 2 j).
    rewrite take_app_length, drop_app_length.
    destruct (IH ls o) as (lt & -> & Hlt); [lia|]; simpl.
    destruct (IH rs (o + length ls)) as (rt & -> & Hrt); [lia|]; simpl.
    rewrite <- length_app. eauto.
Qed.

Lemma from_leaf_hashes_nil : from_leaf_hashes [] = Some empty_tree.
Proof. done. Qed.

Lemma from_leaf_hashes_cons leaves : 0 < length leaves ->
  exists node, from_leaf_hashes leaves =
      Some {| leaf_hashes := leaves; root := node_hash node; root_node := Some node |}
    /\ tree_ok node leaves 0.
Proof.
  intros Hl. unfold from_leaf_hashes, build_subtree.
  destruct (Nat.eqb_spec (length leaves) 0); [lia|].
  destruct (build_subtree_fuel_ok (length leaves) leaves 0) as (t & -> & Ht); [lia|].
  simpl. eauto.
Qed.

Lemma from_leaf_hashes_MTH leaves : 0 < length leaves ->
  exists t, from_leaf_hashes leaves = Some t /\ MTH leaves (root t).
Proof.
  intros Hl. destruct (from_leaf_hashes_cons leaves Hl) as (node & -> & Ht).
  eexists; split; [done|]. by eapply tree_ok_MTH.
Qed.


Lemma leaf_hashes_head (leaves : list Hash) :
  exists t, from_leaf_hashes leaves = Some t /\ leaf_hashes t = leaves /\
    forall h, rfc6962_root leaves h <-> h = root t.
Proof.
  destruct (decide (leaves = [])) as [->|Hne].
  - exists empty_tree; repeat split; auto.
    + intros [[_ ->]|HM]; [done|]. apply MTH_ne in HM; simpl in HM; lia.
    + intros ->. by left.
  - assert (0 < length leaves) as Hl by (destruct leaves; simpl; [done|lia]).
    destruct (from_leaf_hashes_cons leaves Hl) as (node & -> & Ht).
    eexists; split_and!; [done..|]. intros h; split.
    + intros [[-> _]|HM]; [done|]. eapply MTH_fun; [exact HM|]. by eapply tree_ok_MTH.
    + intros ->. right. by eapply tree_ok_MTH.
Qed.

(** C10: every list of leaf hashes, of any length, yields a tree (the split
    assertion never fails and the recursion ends); the tree keeps the leaves,
    and its root is the Merkle tree head of RFC 6962 for them, the only one. *)
Theorem from_leaf_hashes_rfc6962 (leaves : list Hash) :
  exists t, from_leaf_hashes leaves = Some t /\ leaf_hashes t = leaves /\
    forall h, rfc6962_root leaves h <-> h = root t.
Proof. apply leaf_hashes_head. Qed.

(** ** Inclusion proofs *)

(** What [collect_audit_path] adds to the path it is given. *)
Lemma collect_audit_path_ok t ls o : tree_ok t ls o -> forall i path h, ls !! i = Some h ->
  exists p, collect_audit_path t i path = Some (path ++ p) /\
    fold_audit_path h p = node_hash t /\ 2 ^ length p < 2 * length ls.
Proof.
  induction 1 as [h o|j lt rt ls rs o Hl Hr HL IHl HR IHr]; intros i path h' Hi.
  - apply list_lookup_singleton_Some in Hi as [-> ->]. exists []. rewrite app_nil_r.
    simpl; auto.
  - cbn [collect_audit_path]. rewrite (lpo2_app _ _ _ Hl Hr).
    apply lookup_app_Some in Hi.
    destruct (Nat.ltb_spec i (length ls)).
    + destruct Hi as [Hi|[? _]]; [|lia].
      destruct (IHl i path h' Hi) as (p & -> & Hf & Hp). simpl.
      exists (p ++ [(node_hash rt, Right)]). unfold fold_audit_path in *.
      rewrite foldl_app, Hf, app_assoc, !length_app. simpl.
      pose proof (pow2_lt_double (length p) j). rewrite Nat.pow_add_r. simpl. repeat split; lia.
    + destruct Hi as [Hi|[_ Hi]]; [apply lookup_lt_Some in Hi; lia|].
      destruct (IHr (i - length ls) path h' Hi) as (p & -> & Hf & Hp). simpl.
      exists (p ++ [(node_hash lt, Left)]). unfold fold_audit_path in *.
      rewrite foldl_app, Hf, app_assoc, !length_app. simpl.
      pose proof (pow2_lt_double (length p) j). rewrite Nat.pow_add_r. simpl. repeat split; lia.
Qed.

Lemma verify_by_hash_fold h i n p r : i < n -> (n = 1 -> p = []) ->
  verify_inclusion_proof_by_hash h i n p r = true <-> fold_audit_path h p = r.
Proof.
  intros Hi Hn. unfold verify_inclusion_proof_by_hash.
  destruct (Nat.eqb_spec n 0), (Nat.leb_spec n i); simpl; [lia..|].
  destruct (Nat.eqb_spec n 1) as [->|].
  - rewrite Hn by done. destruct (Nat.eqb_spec i 0); [simpl|lia].
    by rewrite bool_decide_eq_true.
  - by rewrite bool_decide_eq_true.
Qed.

Lemma inclusion_complete (logs : list string) :
  exists t, from_raw_logs logs = Some t /\ forall i,
    match logs !! i with
    | None => inclusion_proof t i =
        Some (Err (if decide (logs = []) then EmptyTree else IndexOutOfBounds i (length logs)))
    | Some d => exists p, inclusion_proof t i = Some (Ok p) /\
        leaf_index p = i /\ tree_size p = length logs /\
        proof_verify p d (root t) = true /\ 2 ^ length (audit_path p) < 2 * length logs
    end.
Proof.
  unfold from_raw_logs. destruct (decide (logs = [])) as [->|Hne].
  { exists empty_tree; split; [done|]. intros i. done. }
  assert (0 < length (hash_leaf <$> logs)) as Hl
    by (rewrite length_fmap; destruct logs; simpl; [done|lia]).
  destruct (from_leaf_hashes_cons _ Hl) as (node & -> & Ht).
  eexists; split; [done|]. intros i. unfold inclusion_proof; cbn [leaf_hashes root_node root].
  rewrite length_fmap in *.
  destruct (Nat.eqb_spec (length logs) 0); [lia|].
  destruct (logs !! i) as [d|] eqn:Hi.
  - pose proof (lookup_lt_Some _ _ _ Hi). destruct (Nat.leb_spec (length logs) i); [lia|].
    destruct (collect_audit_path_ok _ _ _ Ht i [] (hash_leaf d)) as (p & -> & Hf & Hp).
    { by rewrite list_lookup_fmap, Hi. }
    rewrite length_fmap in Hp. eexists; split_and!; [done..| |done].
    apply verify_by_hash_fold; [done| |done].
    simpl. intros E. rewrite E in Hp. destruct p as [|x p]; [done|].
    pose proof (Nat.pow_nonzero 2 (length p)). simpl in Hp. lia.
  - apply lookup_ge_None in Hi. by destruct (Nat.leb_spec (length logs) i); [|lia].
Qed.

(** C26: the tree of any list of logs answers every inclusion request: with
    [EmptyTree] or [IndexOutOfBounds] exactly when there is no such leaf, and
    otherwise with a proof that carries the index and the size, that the
    verifier accepts for that log against the tree's root, and whose audit
    path is logarithmic in the number of logs. *)
Theorem inclusion_proof_complete (logs : list string) :
  exists t, from_raw_logs logs = Some t /\ forall i,
    match logs !! i with
    | None => inclusion_proof t i =
        Some (Err (if decide (logs = []) then EmptyTree else IndexOutOfBounds i (length logs)))
    | Some d => exists p, inclusion_proof t i = Some (Ok p) /\
        leaf_index p = i /\ tree_size p = length logs /\
        proof_verify p d (root t) = true /\ 2 ^ length (audit_path p) < 2 * length logs
    end.
Proof. apply inclusion_complete. Qed.


Lemma node_input_inj a b c d : node_input a b = node_input c d -> a = c /\ b = d.
Proof.
  intros E. injection E as E. apply str_app_inj in E as [E1 E2]; [|by rewrite !bytes32_length].
  destruct a, b, c, d; simpl in *. split; f_equal; by apply bytes32_eq.
Qed.

Lemma audit_step_input h s : audit_step h s = mkHash (sha256 (step_input h s)).
Proof. by destruct s as [? []]. Qed.

Lemma path_inputs_snoc h p s :
  path_inputs h (p ++ [s]) = path_inputs h p ++ [step_input (fold_audit_path h p) s].
Proof.
  revert h; induction p as [|x p IH]; intros h; simpl; [done|]. by rewrite IH.
Qed.

Lemma fold_audit_path_snoc h p s :
  fold_audit_path h (p ++ [s]) = audit_step (fold_audit_path h p) s.
Proof. unfold fold_audit_path. by rewrite foldl_app. Qed.

(** Below, [L] is the list of all strings hashed and has no collision. *)
Section CollisionFree.
Context (L : list string) (HL : collision_free L).

Abbreviation hashed l := (Forall (fun x => x ∈ L) l).

Lemma leaf_node_no_collision d a b :
  hash_leaf d = hash_children a b -> leaf_input d ∈ L -> node_input a b ∈ L -> False.
Proof. intros E H1 H2. injection E as E. by apply HL in E. Qed.

Lemma leaf_no_collision d d' :
  hash_leaf d = hash_leaf d' -> leaf_input d ∈ L -> leaf_input d' ∈ L -> d = d'.
Proof. intros E H1 H2. injection E as E. apply HL in E; [|done..]. by injection E. Qed.

Lemma node_no_collision a b c d :
  hash_children a b = hash_children c d -> node_input a b ∈ L -> node_input c d ∈ L ->
  a = c /\ b = d.
Proof. intros E H1 H2. injection E as E. apply HL in E; [|done..]. by apply node_input_inj. Qed.

Ltac hashed_split :=
  rewrite ?fmap_app, ?Forall_app, ?Forall_cons, ?Forall_app, ?Forall_singleton in *; destruct_and?.

(** An audit path that folds to the head of a tree starts at one of its leaves. *)
Lemma fold_audit_path_sound t ls o : tree_ok t ls o -> forall logs path d,
  ls = hash_leaf <$> logs -> hashed (leaf_input <$> logs) -> hashed (node_inputs t) ->
  leaf_input d ∈ L -> hashed (path_inputs (hash_leaf d) path) ->
  fold_audit_path (hash_leaf d) path = node_hash t -> d ∈ logs.
Proof.
  induction 1 as [h o|j lt rt ls rs o Hl Hr Hlt IHl Hrt IHr];
    intros logs path d E Hlogs Hin Hd Hp Hf; destruct path as [|s p _] using rev_ind.
  - destruct logs as [|x [|]]; try discriminate E. injection E as ->.
    apply leaf_no_collision in Hf as ->; [by left|done|]. by inv Hlogs.
  - destruct logs as [|x [|]]; try discriminate E. injection E as ->.
    rewrite fold_audit_path_snoc, audit_step_input in Hf. rewrite path_inputs_snoc in Hp.
    hashed_split. destruct s as [sib []]; destruct (leaf_node_no_collision _ _ _ (eq_sym Hf)); auto.
    all: by inv Hlogs.
  - simpl in *. hashed_split. by destruct (leaf_node_no_collision _ _ _ Hf).
  - symmetry in E; apply fmap_app_inv in E as (l1 & l2 & -> & -> & ->).
    rewrite fold_audit_path_snoc in Hf. rewrite path_inputs_snoc in Hp. simpl in Hin, Hf.
    hashed_split. apply elem_of_app.
    destruct s as [sib []]; destruct (node_no_collision _ _ _ _ Hf); auto; [right|left]; eauto.
Qed.

(** The head of a tree of logs is the hash of a non-empty string. *)
Lemma tree_head_input t logs o : tree_ok t (hash_leaf <$> logs) o ->
  hashed (leaf_input <$> logs) -> hashed (node_inputs t) ->
  exists x, x ∈ L /\ x <> "" /\ node_hash t = mkHash (sha256 x).
Proof.
  intros Ht Hlogs Hin. remember (hash_leaf <$> logs) as ls eqn:E.
  destruct Ht as [h o'|]; simpl in *.
  - destruct logs as [|x [|]]; try discriminate. injection E as ->. inv Hlogs. by eauto.
  - hashed_split. by eauto.
Qed.

(** Two trees with the same head stand over the same logs. *)
Lemma tree_binding t1 ls1 o1 : tree_ok t1 ls1 o1 -> forall t2 ls2 o2 logs1 logs2,
  tree_ok t2 ls2 o2 -> ls1 = hash_leaf <$> logs1 -> ls2 = hash_leaf <$> logs2 ->
  hashed (leaf_input <$> logs1) -> hashed (node_inputs t1) ->
  hashed (leaf_input <$> logs2) -> hashed (node_inputs t2) ->
  node_hash t1 = node_hash t2 -> logs1 = logs2.
Proof.
  induction 1 as [h o|j lt rt ls rs o Hl Hr Hlt IHl Hrt IHr];
    intros t2 ls2 o2 logs1 logs2 Ht2 E1 E2 Hlogs1 Hin1 Hlogs2 Hin2 Hf;
    destruct Ht2 as [h2 o2|j2 lt2 rt2 ls2 rs2 o2 Hl2 Hr2 Hlt2 Hrt2]; simpl in *.
  - destruct logs1 as [|x [|]], logs2 as [|y [|]]; try discriminate.
    injection E1 as ->; injection E2 as ->. apply leaf_no_collision in Hf as ->; [done|..].
    + by inv Hlogs1.
    + by inv Hlogs2.
  - destruct logs1 as [|x [|]]; try discriminate. injection E1 as ->. hashed_split.
    destruct (leaf_node_no_collision _ _ _ Hf); [|done]. by inv Hlogs1.
  - destruct logs2 as [|x [|]]; try discriminate. injection E2 as ->. hashed_split.
    destruct (leaf_node_no_collision _ _ _ (eq_sym Hf)); [|done]. by inv Hlogs2.
  - symmetry in E1; apply fmap_app_inv in E1 as (l1 & l1' & -> & -> & ->).
    symmetry in E2; apply fmap_app_inv in E2 as (l2 & l2' & -> & -> & ->).
    hashed_split. destruct (node_no_collision _ _ _ _ Hf); [done..|].
    f_equal; eauto.
Qed.

End CollisionFree.


(** The tree of a list of logs, with the RFC's shape when there are any. *)
Lemma from_raw_logs_inv logs t : from_raw_logs logs = Some t ->
  (logs = [] /\ t = empty_tree) \/
  exists node, t = {| leaf_hashes := hash_leaf <$> logs; root := node_hash node; root_node := Some node |}
    /\ tree_ok node (hash_leaf <$> logs) 0.
Proof.
  unfold from_raw_logs. destruct logs as [|x logs]; intros E; [left|right].
  - by injection E as <-.
  - destruct (from_leaf_hashes_cons (hash_leaf <$> x :: logs)) as (node & E' & Ht); [simpl; lia|].
    rewrite E' in E. injection E as <-. eauto.
Qed.

Lemma hashed_all (L l : list string) : L = l -> Forall (fun x => x ∈ L) l.
Proof. intros ->. by apply Forall_forall. Qed.

(** C3: an accepted inclusion proof is honest: when the verifier accepts a raw
    log against the root of a list of logs, whatever index, size and path it
    was given, that log is one of the list, provided SHA-256 has no collision
    among the strings hashed to build the tree and to check the proof. *)
Theorem inclusion_proof_sound logs t d i n path :
  from_raw_logs logs = Some t ->
  verify_inclusion_proof d i n path (root t) = true ->
  collision_free (tree_inputs logs t ++ leaf_input d :: path_inputs (hash_leaf d) path) ->
  d ∈ logs.
Proof.
  intros Ht Hv HL. unfold verify_inclusion_proof, verify_inclusion_proof_by_hash in Hv.
  assert (fold_audit_path (hash_leaf d) path = root t) as Hf.
  { destruct (_ || _); [done|]. destruct (n =? 1); [|by apply bool_decide_eq_true in Hv].
    destruct path; [|done]. simpl in *. apply andb_true_iff in Hv as [_ Hv].
    by apply bool_decide_eq_true in Hv. }
  remember (tree_inputs logs t ++ _) as L eqn:EL; apply hashed_all in EL as HF; clear EL.
  apply Forall_app in HF as [HF1 HF2]. apply Forall_cons in HF2 as [Hd HF2].
  unfold tree_inputs in HF1. apply Forall_cons in HF1 as [H0' HF1].
  apply Forall_app in HF1 as [HF1 HF3].
  apply from_raw_logs_inv in Ht as [[-> ->]|(node & -> & Hok)]; cbn [root root_node empty_tree head_inputs] in *.
  - exfalso. destruct path as [|s p _] using rev_ind.
    + injection Hf as Hf. by apply HL in Hf.
    + rewrite fold_audit_path_snoc, audit_step_input in Hf. injection Hf as Hf.
      rewrite path_inputs_snoc in HF2. rewrite Forall_app, Forall_singleton in HF2.
      destruct HF2 as [_ HF2].
      apply HL in Hf; [destruct s as [? []]; discriminate Hf|done|done].
  - eapply (fold_audit_path_sound _ HL); eauto.
Qed.

Lemma roots_bind_logs logs1 logs2 t1 t2 :
  from_raw_logs logs1 = Some t1 -> from_raw_logs logs2 = Some t2 ->
  root t1 = root t2 ->
  collision_free (tree_inputs logs1 t1 ++ tree_inputs logs2 t2) ->
  logs1 = logs2.
Proof.
  intros Ht1 Ht2 Hr HL.
  remember (tree_inputs logs1 t1 ++ _) as L eqn:EL; apply hashed_all in EL as HF; clear EL.
  unfold tree_inputs in HF.
  apply Forall_app in HF as [[HE1 HF1]%Forall_cons [HE2 HF2]%Forall_cons].
  apply Forall_app in HF1 as [HF1 HN1]. apply Forall_app in HF2 as [HF2 HN2].
  apply from_raw_logs_inv in Ht1 as [[-> ->]|(n1 & -> & Hok1)];
    apply from_raw_logs_inv in Ht2 as [[-> ->]|(n2 & -> & Hok2)]; [done|..]; cbn [root root_node empty_tree head_inputs] in *.
  - destruct (tree_head_input _ _ _ _ Hok2 HF2 HN2) as (x & Hx & Hne & E).
    rewrite <- Hr in E. injection E as E. by apply HL in E.
  - destruct (tree_head_input _ _ _ _ Hok1 HF1 HN1) as (x & Hx & Hne & E).
    rewrite Hr in E. injection E as E. by apply HL in E.
  - eapply (tree_binding _ HL); [exact Hok1|exact Hok2|done..].
Qed.

(** C14: a root commits to the logs under it, to their contents, number and
    order: two lists of logs with the same root are equal, provided SHA-256 has
    no collision among the strings hashed for the two trees. *)
Theorem merkle_root_binding logs1 logs2 t1 t2 :
  from_raw_logs logs1 = Some t1 -> from_raw_logs logs2 = Some t2 ->
  root t1 = root t2 ->
  collision_free (tree_inputs logs1 t1 ++ tree_inputs logs2 t2) ->
  logs1 = logs2.
Proof. apply roots_bind_logs. Qed.


(** The verifier binds neither the index nor the size: in a tree of two logs
    or more, the honest proof of one log is accepted as the proof of that log
    at every other index, and under every other claimed size above the index. *)
Theorem inclusion_proof_index_not_bound logs t i d p j n :
  from_raw_logs logs = Some t -> logs !! i = Some d ->
  inclusion_proof t i = Some (Ok p) -> 1 < n -> 1 < length logs -> j < n ->
  verify_inclusion_proof d j n (audit_path p) (root t) = true.
Proof.
  intros Ht Hd Hp Hn Hlen Hj.
  apply from_raw_logs_inv in Ht as [[-> ->]|(node & -> & Hok)]; [done|].
  destruct (collect_audit_path_ok _ _ _ Hok i [] (hash_leaf d)) as (path & E & Hf & _).
  { by rewrite list_lookup_fmap, Hd. }
  pose proof (lookup_lt_Some _ _ _ Hd).
  unfold inclusion_proof in Hp; cbn [leaf_hashes root_node] in Hp.
  rewrite length_fmap, E in Hp.
  destruct (Nat.eqb_spec (length logs) 0), (Nat.leb_spec (length logs) i); [lia..|].
  injection Hp as <-. apply verify_by_hash_fold; [done|lia|done].
Qed.

(** ** Consistency proofs *)

Lemma vec_pop_snoc {A} (l : list A) x : vec_pop (l ++ [x]) = Some (x, l).
Proof. unfold vec_pop. by rewrite reverse_snoc, reverse_involutive. Qed.

Lemma MTH_take_left ls rs (m : nat) h : m <= length ls -> MTH (take m ls) h -> MTH (take m (ls ++ rs)) h.
Proof. intros Hm. by rewrite take_app_le. Qed.

Lemma MTH_take_right j ls rs m hl hm :
  length ls = 2 ^ j -> length rs <= 2 ^ j -> length ls < m <= length (ls ++ rs) ->
  MTH ls hl -> MTH (take (m - length ls) rs) hm -> MTH (take m (ls ++ rs)) (hash_children hl hm).
Proof.
  intros Hl Hr Hm HL HR. rewrite take_app_ge by lia. rewrite length_app in Hm.
  eapply MTH_node; eauto. rewrite length_take. lia.
Qed.

Lemma subproof_full_complete fuel : forall m leaves, 1 <= m <= length leaves -> length leaves <= fuel ->
  exists p, subproof_fuel fuel m leaves false = Some p /\ forall q fuel', length leaves <= fuel' ->
    exists hm hn, verify_subproof_full_fuel fuel' m (length leaves) (q ++ p) = Some (Some (hm, hn, q))
      /\ MTH (take m leaves) hm /\ MTH leaves hn.
Proof.
  induction fuel as [|fuel IH]; intros m leaves Hm Hf; [lia|]; cbn [subproof_fuel].
  destruct (Nat.eqb_spec m (length leaves)) as [->|Hne].
  - destruct (from_leaf_hashes_MTH leaves) as (t & -> & Ht); [lia|].
    exists [root t]; split; [done|]. intros q [|fuel'] Hf'; [lia|]; simpl.
    rewrite Nat.eqb_refl, vec_pop_snoc, firstn_all. eauto.
  - destruct (lpo2_split leaves) as (j & ls & rs & -> & HL & HR & HK); [lia|].
    rewrite HK; simpl. rewrite length_app in *. pose proof (Nat.pow_nonzero 2 j).
    rewrite take_app_length, drop_app_length.
    destruct (from_leaf_hashes_MTH ls) as (lt & Elt & Hlt); [lia|].
    destruct (from_leaf_hashes_MTH rs) as (rt & Ert & Hrt); [lia|].
    destruct (Nat.leb_spec m (length ls)).
    + destruct (IH m ls) as (p & -> & Hp); [lia..|]; simpl. rewrite Ert; simpl.
      eexists; split; [done|]. intros q [|fuel'] Hf'; [lia|]; cbn [verify_subproof_full_fuel].
      destruct (Hp q fuel') as (hm & hk & E & Hhm & Hhk); [lia|].
      destruct (Nat.eqb_spec m (length ls + length rs)); [lia|].
      rewrite HK; simpl. rewrite app_assoc, vec_pop_snoc.
      destruct (Nat.leb_spec m (length ls)); [|lia]. rewrite E; simpl.
      eexists _, _; split_and!; [done| |eauto]. by apply MTH_take_left.
    + destruct (IH (m - length ls) rs) as (p & -> & Hp); [lia..|]; simpl. rewrite Elt; simpl.
      eexists; split; [done|]. intros q [|fuel'] Hf'; [lia|]; cbn [verify_subproof_full_fuel].
      destruct (Hp q fuel') as (hm & hn & E & Hhm & Hhn); [lia|].
      destruct (Nat.eqb_spec m (length ls + length rs)); [lia|].
      rewrite HK; simpl. rewrite app_assoc, vec_pop_snoc.
      destruct (Nat.leb_spec m (length ls)); [lia|].
      replace (length ls + length rs - length ls) with (length rs) by lia. rewrite E; simpl.
      eexists _, _; split_and!; [done| |eauto].
      eapply MTH_take_right; rewrite ?length_app; eauto; lia.
Qed.


Lemma subproof_complete fuel : forall m leaves, 1 <= m <= length leaves -> length leaves <= fuel ->
  exists p, subproof_fuel fuel m leaves true = Some p /\
  forall q fuel' prev, length leaves <= fuel' -> MTH (take m leaves) prev ->
    exists hn, verify_consistency_internal_fuel fuel' m (length leaves) (q ++ p) prev = Some (Some (hn, q))
      /\ MTH leaves hn.
Proof.
  induction fuel as [|fuel IH]; intros m leaves Hm Hf; [lia|]; cbn [subproof_fuel].
  destruct (Nat.eqb_spec m (length leaves)) as [->|Hne].
  - exists []; split; [done|]. intros q [|fuel'] prev Hf'; [lia|]; simpl.
    rewrite Nat.eqb_refl, firstn_all, app_nil_r. eauto.
  - destruct (lpo2_split leaves) as (j & ls & rs & -> & HL & HR & HK); [lia|].
    rewrite HK; simpl. rewrite length_app in *. pose proof (Nat.pow_nonzero 2 j).
    rewrite take_app_length, drop_app_length.
    destruct (from_leaf_hashes_MTH ls) as (lt & Elt & Hlt); [lia|].
    destruct (from_leaf_hashes_MTH rs) as (rt & Ert & Hrt); [lia|].
    destruct (Nat.leb_spec m (length ls)).
    + destruct (IH m ls) as (p & -> & Hp); [lia..|]; simpl. rewrite Ert; simpl.
      eexists; split; [done|].
      intros q [|fuel'] prev Hf' Hprev; [lia|]; cbn [verify_consistency_internal_fuel].
      rewrite take_app_le in Hprev by done.
      destruct (Hp q fuel' prev) as (hk & E & Hhk); [lia|done|].
      destruct (Nat.eqb_spec m (length ls + length rs)); [lia|].
      rewrite HK; simpl. rewrite app_assoc, vec_pop_snoc.
      destruct (Nat.leb_spec m (length ls)); [|lia]. rewrite E; simpl. eauto.
    + destruct (subproof_full_complete fuel (m - length ls) rs) as (p & -> & Hp); [lia..|]; simpl.
      rewrite Elt; simpl. eexists; split; [done|].
      intros q [|fuel'] prev Hf' Hprev; [lia|]; cbn [verify_consistency_internal_fuel].
      destruct (Hp q fuel') as (hm & hn & E & Hhm & Hhn); [lia|].
      destruct (Nat.eqb_spec m (length ls + length rs)); [lia|].
      rewrite HK; simpl. rewrite app_assoc, vec_pop_snoc.
      destruct (Nat.leb_spec m (length ls)); [lia|].
      replace (length ls + length rs - length ls) with (length rs) by lia. rewrite E; simpl.
      rewrite decide_True; [by eauto|]. eapply MTH_fun; [|exact Hprev].
      eapply MTH_take_right; rewrite ?length_app; eauto; lia.
Qed.

(** For every list of leaves and every earlier size, [consistency_proof]
    answers: with [InvalidConsistencySize] exactly when the size is zero or
    beyond the tree, and otherwise with a proof that the verifier accepts for
    the roots of the prefix of that size and of the whole list.  Neither side
    panics or runs out of fuel. *)
Theorem consistency_proof_complete (leaves : list Hash) (m : nat) :
  exists t tp, from_leaf_hashes leaves = Some t /\ from_leaf_hashes (take m leaves) = Some tp /\
    if decide (1 <= m <= length leaves)
    then exists p, consistency_proof t m = Some (Ok p) /\
           verify_consistency_proof m (length leaves) (root tp) (root t) p = Some true
    else consistency_proof t m = Some (Err (InvalidConsistencySize m (length leaves))).
Proof.
  destruct (leaf_hashes_head leaves) as (t & Et & El & Hr).
  destruct (leaf_hashes_head (take m leaves)) as (tp & Etp & _ & Hrp).
  exists t, tp; split_and!; [done..|]. unfold consistency_proof, verify_consistency_proof. rewrite El.
  case_decide as Hm.
  - destruct (Nat.eqb_spec m 0), (Nat.ltb_spec (length leaves) m); [lia..|]; simpl.
    destruct (Nat.eqb_spec m (length leaves)) as [->|Hne].
    + exists []; split; [done|]. rewrite firstn_all in Etp.
      assert (tp = t) as -> by congruence.
      by rewrite bool_decide_eq_true_2.
    + destruct (from_leaf_hashes_MTH leaves) as (t' & Et' & Hroot); [lia|].
      assert (t' = t) as -> by congruence.
      destruct (from_leaf_hashes_MTH (take m leaves)) as (t' & Et'' & Hprev).
      { rewrite length_take; lia. }
      assert (t' = tp) as -> by congruence. unfold subproof.
      destruct (subproof_complete (length leaves) m leaves) as (p & -> & Hp); [lia..|].
      exists p; split; [done|].
      destruct (Hp [] (length leaves) (root tp)) as (hn & E & Hhn); [lia|done|].
      simpl in E. rewrite E; simpl. rewrite bool_decide_eq_true_2; [done|]. by eapply MTH_fun.
  - destruct (Nat.eqb_spec m 0), (Nat.ltb_spec (length leaves) m); simpl; [done..|lia].
Qed.


Section ConsistencySound.
Context (L : list string) (HL : collision_free L).

Abbreviation hashed l := (Forall (fun x => x ∈ L) l).

Lemma subproof_full_sound t leaves o : tree_ok t leaves o -> forall fuel m proof sm sn rest,
  1 <= m <= length leaves -> hashed (node_inputs t) ->
  hashed (subproof_full_inputs fuel m (length leaves) proof) ->
  verify_subproof_full_fuel fuel m (length leaves) proof = Some (Some (sm, sn, rest)) ->
  sn = node_hash t -> MTH (take m leaves) sm.
Proof.
  induction 1 as [h o|j lt rt ls rs o Hl Hr Hlt IHl Hrt IHr];
    intros [|fuel] m proof sm sn rest Hm Hin Hv E Esn; try discriminate E;
    cbn [verify_subproof_full_fuel subproof_full_inputs] in *.
  - simpl in Hm. destruct (Nat.eqb_spec m (length [h])); [|simpl in *; lia].
    destruct (vec_pop proof) as [[x ?]|]; [|done]. simplify_eq/=. eauto.
  - destruct (Nat.eqb_spec m (length (ls ++ rs))) as [->|Hne].
    + destruct (vec_pop proof) as [[x ?]|]; [|done]. simplify_eq/=.
      rewrite firstn_all. econstructor; eauto using tree_ok_MTH.
    + rewrite (lpo2_app _ _ _ Hl Hr) in *. simpl in E, Hin.
      apply Forall_cons in Hin as [Hx Hin]. apply Forall_app in Hin as [Hin1 Hin2].
      destruct (vec_pop proof) as [[mth proof']|]; [|done].
      destruct (Nat.leb_spec m (length ls)).
      * apply Forall_app in Hv as [Hv Hv'].
        destruct (verify_subproof_full_fuel _ _ _ _) as [[[[hm hk] r]|]|] eqn:E1; try done.
        simpl in E. injection E as -> <- _. rewrite Forall_singleton in Hv'.
        destruct (node_no_collision _ HL _ _ _ _ Esn) as [-> ->]; [done..|].
        apply MTH_take_left; [done|]. eapply IHl; eauto. lia.
      * rewrite length_app in *.
        replace (length ls + length rs - length ls) with (length rs) in * by lia.
        apply Forall_app in Hv as [Hv Hv'].
        destruct (verify_subproof_full_fuel _ _ _ _) as [[[[hm hn] r]|]|] eqn:E1; try done.
        simpl in E. injection E as <- <- _. inv Hv' as [|? ? Hv1 Hv2]. inv Hv2.
        destruct (node_no_collision _ HL _ _ _ _ Esn) as [-> ->]; [done..|].
        eapply MTH_take_right; rewrite ?length_app; eauto using tree_ok_MTH; try lia.
        eapply IHr; eauto. lia.
Qed.

Lemma consistency_internal_sound t leaves o : tree_ok t leaves o -> forall fuel m proof prev hn rest,
  1 <= m <= length leaves -> hashed (node_inputs t) ->
  hashed (consistency_inputs fuel m (length leaves) proof prev) ->
  verify_consistency_internal_fuel fuel m (length leaves) proof prev = Some (Some (hn, rest)) ->
  hn = node_hash t -> MTH (take m leaves) prev.
Proof.
  induction 1 as [h o|j lt rt ls rs o Hl Hr Hlt IHl Hrt IHr];
    intros [|fuel] m proof prev hn rest Hm Hin Hv E Ehn; try discriminate E;
    cbn [verify_consistency_internal_fuel consistency_inputs] in *.
  - simpl in Hm. destruct (Nat.eqb_spec m (length [h])); [|simpl in *; lia]. simplify_eq/=. eauto.
  - destruct (Nat.eqb_spec m (length (ls ++ rs))) as [->|Hne].
    + simplify_eq/=. rewrite firstn_all. econstructor; eauto using tree_ok_MTH.
    + rewrite (lpo2_app _ _ _ Hl Hr) in *. simpl in E, Hin.
      apply Forall_cons in Hin as [Hx Hin]. apply Forall_app in Hin as [Hin1 Hin2].
      destruct (vec_pop proof) as [[mth proof']|]; [|done].
      destruct (Nat.leb_spec m (length ls)).
      * apply Forall_app in Hv as [Hv Hv'].
        destruct (verify_consistency_internal_fuel _ _ _ _ _) as [[[hk r]|]|] eqn:E1; try done.
        simpl in E. injection E as <- _. rewrite Forall_singleton in Hv'.
        destruct (node_no_collision _ HL _ _ _ _ Ehn) as [-> ->]; [done..|].
        apply MTH_take_left; [done|]. eapply IHl; eauto. lia.
      * rewrite length_app in *.
        replace (length ls + length rs - length ls) with (length rs) in * by lia.
        apply Forall_app in Hv as [Hv Hv'].
        destruct (verify_subproof_full_fuel _ _ _ _) as [[[[hm hk] r]|]|] eqn:E1; try done.
        simpl in E. case_decide as Hp; [|done]. injection E as <- _.
        inv Hv' as [|? ? Hv1 Hv2]. inv Hv2.
        destruct (node_no_collision _ HL _ _ _ _ Ehn) as [-> ->]; [done..|].
        eapply MTH_take_right; rewrite ?length_app; eauto using tree_ok_MTH; try lia.
        eapply subproof_full_sound; eauto. lia.
Qed.

End ConsistencySound.

(** C15: an accepted consistency proof is honest: if it is accepted for an
    earlier root and size against the root of [leaves], then the earlier root
    is the RFC 6962 head of the first [m] of these leaves, so the log was only
    appended to; provided SHA-256 has no collision among the strings hashed to
    build the tree and to check the proof. *)
Theorem consistency_proof_sound leaves t m prev_root proof :
  from_leaf_hashes leaves = Some t ->
  verify_consistency_proof m (length leaves) prev_root (root t) proof = Some true ->
  collision_free (head_inputs t ++
                  consistency_inputs (length leaves) m (length leaves) proof prev_root) ->
  1 <= m <= length leaves /\ MTH (take m leaves) prev_root.
Proof.
  intros Et Hv HL. unfold verify_consistency_proof in Hv.
  destruct (Nat.eqb_spec m 0), (Nat.ltb_spec (length leaves) m); try done; simpl in Hv.
  assert (1 <= m <= length leaves) as Hm by lia. split; [done|].
  destruct (from_leaf_hashes_cons leaves) as (node & E & Hok); [lia|].
  rewrite Et in E. injection E as ->. cbn [root head_inputs root_node] in *.
  destruct (Nat.eqb_spec m (length leaves)) as [->|Hne].
  { injection Hv as Hv. apply andb_true_iff in Hv as [_ Hv].
    apply bool_decide_eq_true in Hv as ->. rewrite firstn_all. by eapply tree_ok_MTH. }
  destruct (verify_consistency_internal_fuel _ _ _ _ _) as [[[hn rest]|]|] eqn:E; try done.
  simpl in Hv. injection Hv as Hv. apply andb_true_iff in Hv as [_ Hv].
  apply bool_decide_eq_true in Hv as ->.
  remember (node_inputs node ++ _) as L eqn:EL; apply hashed_all in EL as HF; clear EL.
  apply Forall_app in HF as [HF1 HF2].
  by eapply (consistency_internal_sound L).
Qed.

End Facts.

(** ** Witnesses *)

Module MerkleDemo.
Import Demo.

Definition logs : list string := ["deny tcp 10.0.0.1"; "built udp 10.0.0.2"; "drop"].

Definition tree : MerkleTree := default empty_tree (from_raw_logs logs).

Definition path (i : nat) : list (Hash * Side) :=
  match inclusion_proof tree i with Some (Ok p) => audit_path p | _ => [] end.

Definition cproof (m : nat) : list Hash :=
  match consistency_proof tree m with Some (Ok p) => p | _ => [] end.

Definition prefix_root (m : nat) : Hash :=
  root (default empty_tree (from_raw_logs (take m logs))).

Lemma inclusion_proof_sound_witness : "built udp 10.0.0.2" ∈ logs.
Proof.
  apply (inclusion_proof_sound logs tree "built udp 10.0.0.2" 1 3 (path 1)).
  - vm_compute; reflexivity.
  - vm_compute; reflexivity.
  - apply (bool_decide_unpack _). vm_compute. exact I.
Defined.

Lemma merkle_root_binding_witness : logs = logs.
Proof.
  apply (merkle_root_binding logs logs tree tree).
  - vm_compute; reflexivity.
  - vm_compute; reflexivity.
  - reflexivity.
  - apply (bool_decide_unpack _). vm_compute. exact I.
Defined.

Lemma inclusion_proof_index_not_bound_witness :
  verify_inclusion_proof "built udp 10.0.0.2" 2 7 (path 1) (root tree) = true.
Proof.
  apply (inclusion_proof_index_not_bound logs tree 1 "built udp 10.0.0.2"
           {| leaf_index := 1; tree_size := 3; audit_path := path 1 |} 2 7).
  - vm_compute; reflexivity.
  - reflexivity.
  - vm_compute; reflexivity.
  - lia.
  - simpl; lia.
  - lia.
Defined.

Lemma consistency_proof_sound_witness :
  1 <= 2 <= length (hash_leaf <$> logs) /\ MTH (take 2 (hash_leaf <$> logs)) (prefix_root 2).
Proof.
  apply (consistency_proof_sound (hash_leaf <$> logs) tree 2 (prefix_root 2) (cproof 2)).
  - vm_compute; reflexivity.
  - vm_compute; reflexivity.
  - apply (bool_decide_unpack _). vm_compute. exact I.
Defined.

End MerkleDemo.
