(* ===== verification/Batcher.v ===== *)
(** * The batch accumulator ([crates/ulpf-integrity/src/batcher.rs])

    The dual-trigger accumulator with its disk: the Parquet block files and
    the text of [ledger.jsonl].  What an operation reads from the outside
    world (clocks, fresh UUIDs, faults of the file system) is an argument.
    Context strings that name a path are kept without the path. *)

From S2P Require Export RustStrFacts Storage Merkle.

(** ** Data *)

Definition DEFAULT_MAX_BATCH_SIZE : nat := Z.to_nat 1000.
Definition DEFAULT_MAX_BATCH_DURATION_MS : Z := 2000.

Record BatcherConfig := mkConfig {
  max_batch_size : nat;
  max_batch_duration_ms : Z;
  storage_dir : string;
  ledger_path : string;
  compression : ParquetCompression
}.

(** [impl Default for BatcherConfig] *)
Definition default_config : BatcherConfig :=
  mkConfig DEFAULT_MAX_BATCH_SIZE DEFAULT_MAX_BATCH_DURATION_MS
    "data/parquet" "data/ledger.jsonl" Snappy.

Record IncomingLog := mkIncoming {
  il_vendor : string;
  il_raw_log : string;
  il_timestamp : option Z;
  il_event_id : option string;
  il_ocsf_json : option string
}.

Definition incoming_new (vendor raw_log : string) : IncomingLog :=
  mkIncoming vendor raw_log None None None.

Definition with_timestamp (l : IncomingLog) (ts : Z) : IncomingLog :=
  mkIncoming (il_vendor l) (il_raw_log l) (Some ts) (il_event_id l) (il_ocsf_json l).

Definition with_event_id (l : IncomingLog) (id : string) : IncomingLog :=
  mkIncoming (il_vendor l) (il_raw_log l) (il_timestamp l) (Some id) (il_ocsf_json l).

Definition with_ocsf (l : IncomingLog) (ocsf : string) : IncomingLog :=
  mkIncoming (il_vendor l) (il_raw_log l) (il_timestamp l) (il_event_id l) (Some ocsf).

Record LedgerEntry := mkEntry {
  le_block_id : Z;
  le_timestamp : Z;
  le_leaf_count : nat;
  le_merkle_root : string;
  le_parquet_file : string
}.

#[global] Instance LedgerEntry_eq_dec : EqDecision LedgerEntry.
Proof. solve_decision. Defined.

Record BlockFlushResult := mkFlushed {
  fr_block_id : Z;
  fr_merkle_root : Hash;
  fr_leaf_count : nat;
  fr_parquet_path : string;
  fr_tree : MerkleTree
}.

(** Instants are nanoseconds of the monotonic clock. *)
Record BatchAccumulator := mkBatcher {
  config : BatcherConfig;
  buffer : list IncomingLog;
  first_item_time : option Z;
  current_block_id : Z;
  in_memory_ledger : list LedgerEntry
}.

(** An entry whose fields are values of the Rust types. *)
Definition entry_repr (e : LedgerEntry) : Prop :=
  (0 <= le_block_id e <= u64_max)%Z /\ (- 2 ^ 63 <= le_timestamp e < 2 ^ 63)%Z /\
  (Z.of_nat (le_leaf_count e) <= u64_max)%Z /\
  utf8_valid (le_merkle_root e) = true /\ utf8_valid (le_parquet_file e) = true.

(** ** Crate [serde_json] on [LedgerEntry]

    [to_string] of a struct is a JSON object on one line. *)
Class LedgerJson := {
  ledger_to_string : LedgerEntry -> string;
  (** [from_str(s).ok()] *)
  ledger_from_str : string -> option LedgerEntry;
  ledger_from_to_string : forall e, entry_repr e -> ledger_from_str (ledger_to_string e) = Some e;
  ledger_object : forall e, exists body, ledger_to_string e = "{" +:+ body +:+ "}";
  ledger_one_line : forall e, entry_repr e -> no_newline (ledger_to_string e) = true;
  ledger_utf8 : forall e, entry_repr e -> utf8_valid (ledger_to_string e) = true
}.

(** ** The disk *)

Record Disk `{ParquetLib} := mkDisk {
  blocks : BlockStore;
  texts : gmap string string
}.

(** Faults of one append: a call that fails, or a write that stops after some
    bytes. *)
Record LedgerFaults := mkLedgerFaults {
  fail_ledger_dir : bool;
  fail_ledger_open : bool;
  fail_ledger_write : option nat
}.

(** What [flush] draws from outside: [Utc::now()], the UUID made for the [i]-th
    log if it has none, and the faults. *)
Record FlushEnv `{ParquetLib} := mkEnv {
  env_now_ms : Z;
  env_uuid : nat -> string;
  env_write : WriteFaults parquet_file;
  env_ledger : LedgerFaults
}.

(** [PathBuf::join] of a relative component. *)
Definition path_join (dir file : string) : string :=
  if is_empty dir then file
  else match strip_suffix_char "/" dir with
       | Some _ => dir +:+ file
       | None => dir +:+ "/" +:+ file
       end.

(** [format!("block_{:05}.parquet", block_id)] *)
Definition block_filename (block_id : Z) : string :=
  "block_" +:+ zero_pad 5 (uint_to_string block_id) +:+ ".parquet".

Section Batcher.
Context `{Sha256} `{HexLib} `{ArrowLib} `{PQ : ParquetLib} `{LedgerJson}.

(** ** The ledger file *)

(** The loop over the lines of the file. *)
Fixpoint load_lines (idx : nat) (ls : list string) : Result string (list LedgerEntry) :=
  match ls with
  | [] => Ok []
  | line :: ls' =>
      if utf8_valid line then
        let trimmed := trim line in
        if is_empty trimmed then load_lines (S idx) ls'
        else match ledger_from_str trimmed with
             | None => Err ("Failed parsing ledger entry at line " +:+ pretty idx +:+ ": " +:+ trimmed)
             | Some entry => rest ← load_lines (S idx) ls'; Ok (entry :: rest)
             end
      else Err ("Error reading line " +:+ pretty idx +:+ " from ledger")
  end.

Definition load_ledger_entries (d : Disk) (path : string) : Result string (list LedgerEntry) :=
  match texts d !! path with
  | None => Err "Failed to open ledger"
  | Some text => load_lines 0 (lines text)
  end.

Definition append_ledger_entry (b : BatchAccumulator) (fx : LedgerFaults) (d : Disk)
    (entry : LedgerEntry) : Result string unit * Disk :=
  let path := ledger_path (config b) in
  let old := default "" (texts d !! path) in
  if fail_ledger_dir fx then (Err "Failed to create directory", d)
  else if fail_ledger_open fx then (Err "Failed opening ledger", d)
  else let line := ledger_to_string entry +:+ String newline "" in
       match fail_ledger_write fx with
       | Some n => (Err "Failed appending entry to ledger file",
                    mkDisk _ (blocks d) (<[path := old +:+ str_take n line]> (texts d)))
       | None => (Ok tt, mkDisk _ (blocks d) (<[path := old +:+ line]> (texts d)))
       end.

(** ** Construction *)

(** [u64] addition in the release profile. *)
Definition next_id (id : Z) : Z := wrapu 64 (id + 1).

Definition batcher_new (cfg : BatcherConfig) (d : Disk) : Result string BatchAccumulator :=
  let loaded := match texts d !! ledger_path cfg with
                | Some _ => load_ledger_entries d (ledger_path cfg)
                | None => Ok []
                end in
  in_memory_ledger ← loaded;
  let next_block_id := match last in_memory_ledger with
                       | Some entry => next_id (le_block_id entry)
                       | None => 0%Z
                       end in
  Ok (mkBatcher cfg [] None next_block_id in_memory_ledger).

(** ** Observers *)

Definition pending_count (b : BatchAccumulator) : nat := length (buffer b).

(** [elapsed] saturates at zero. *)
Definition pending_duration (b : BatchAccumulator) (now : Z) : option Z :=
  (fun t => Z.max 0 (now - t)) <$> first_item_time b.

Definition from_millis (ms : Z) : Z := (ms * 1000000)%Z.

Definition is_nil {A} (l : list A) : bool := match l with [] => true | _ => false end.

Definition duration_met (b : BatchAccumulator) (now : Z) : bool :=
  match pending_duration b now with
  | Some d => (from_millis (max_batch_duration_ms (config b)) <=? d)%Z
  | None => false
  end.

Definition should_flush (b : BatchAccumulator) (now : Z) : bool :=
  if is_nil (buffer b) then false
  else let count_met := (max_batch_size (config b) <=? length (buffer b))%nat in
       count_met || duration_met b now.

(** ** Flushing *)

Definition to_stored (env : FlushEnv) (block_id : Z) (i : nat) (item : IncomingLog) : StoredLogRecord :=
  mkStored (default (env_uuid env i) (il_event_id item))
    block_id (wrapu 32 (Z.of_nat i))
    (default (env_now_ms env) (il_timestamp item))
    (il_vendor item) (il_raw_log item)
    (hex_encode (b32 (sha256 (il_raw_log item))))
    (default "{}" (il_ocsf_json item)).

Definition FlushResult : Type := Result string (option BlockFlushResult) * BatchAccumulator * Disk.

Definition flush (env : FlushEnv) (b : BatchAccumulator) (d : Disk) : option FlushResult :=
  if is_nil (buffer b) then Some (Ok None, b, d)
  else
    let logs := buffer b in
    let block_id := current_block_id b in
    let b1 := mkBatcher (config b) [] None (next_id block_id) (in_memory_ledger b) in
    let now_ms := env_now_ms env in
    let count := length logs in
    let stored_records := imap (to_stored env block_id) logs in
    tree <-! from_raw_logs (sr_raw_log <$> stored_records);
    let merkle_root := root tree in
    let root_hex := to_hex merkle_root in
    let parquet_filename := block_filename block_id in
    let parquet_path := path_join (storage_dir (config b)) parquet_filename in
    Some
      match write_records_to_parquet (env_write env) (blocks d) parquet_path stored_records
              (compression (config b)) with
      | (Err _, fs) => (Err "Failed writing Parquet block", b1, mkDisk _ fs (texts d))
      | (Ok _, fs) =>
          let ledger_entry := mkEntry block_id now_ms count root_hex parquet_filename in
          match append_ledger_entry b1 (env_ledger env) (mkDisk _ fs (texts d)) ledger_entry with
          | (Err e, d2) => (Err e, b1, d2)
          | (Ok _, d2) =>
              (Ok (Some (mkFlushed block_id merkle_root count parquet_path tree)),
               mkBatcher (config b1) (buffer b1) (first_item_time b1) (current_block_id b1)
                 (in_memory_ledger b1 ++ [ledger_entry]), d2)
          end
      end.

(** [t0] is the clock when [push] stamps the first item, [t1] when
    [should_flush] reads it. *)
Definition push (t0 t1 : Z) (env : FlushEnv) (log : IncomingLog) (b : BatchAccumulator) (d : Disk)
  : option FlushResult :=
  let fit := if is_nil (buffer b) then Some t0 else first_item_time b in
  let b1 := mkBatcher (config b) (buffer b ++ [log]) fit (current_block_id b) (in_memory_ledger b) in
  if should_flush b1 t1 then flush env b1 d else Some (Ok None, b1, d).

Definition check_timeout (now : Z) (env : FlushEnv) (b : BatchAccumulator) (d : Disk)
  : option FlushResult :=
  if is_nil (buffer b) then Some (Ok None, b, d)
  else if duration_met b now then flush env b d else Some (Ok None, b, d).

End Batcher.
