(* ===== verification/BatcherFacts.v ===== *)
(** * Correctness of the batch accumulator

    The abstract view of an accumulator and its disk is the list of batches
    flushed so far, each with what the flush drew from outside; [represents]
    relates it to the concrete state.  Fault-free runs refine the abstract
    machine, so that no log is lost and the ledger describes the blocks; with
    faults, the invariant and the append-only ledger remain, but the batch of
    a failed flush is gone. *)

From S2P Require Export StorageFacts MerkleFacts Batcher.

(** ** Names of block files *)

Lemma path_join_inj dir f g : path_join dir f = path_join dir g -> f = g.
Proof.
  unfold path_join. destruct (is_empty dir); [done|].
  destruct (strip_suffix_char _ dir); intros E; [by apply str_app_inj_l in E|].
  by apply str_app_inj_l, (str_app_inj_l "/") in E.
Qed.

Lemma block_filename_inj i j : (0 <= i <= u64_max)%Z -> (0 <= j <= u64_max)%Z ->
  block_filename i = block_filename j -> i = j.
Proof.
  intros Hi Hj E. unfold block_filename in E.
  apply str_app_inj_l, str_app_inj_r, (f_equal (parse_digits u64_max 0)) in E.
  rewrite !parse_digits_zero_pad in E by done. congruence.
Qed.

Lemma digits_ascii s : all_bytes is_ascii_digit s = true -> all_bytes is_ascii s = true.
Proof.
  apply all_bytes_impl. intros a. unfold is_ascii_digit, is_ascii. rewrite !ascii_in_iff. lia.
Qed.

Lemma block_filename_utf8 i : utf8_valid (block_filename i) = true.
Proof.
  apply utf8_valid_ascii. unfold block_filename. rewrite !all_bytes_app.
  by rewrite (digits_ascii _ (zero_pad_digits 5 i)).
Qed.

Section Facts.
Context `{Sha256} `{HexLib} `{ArrowLib} `{PQ : ParquetLib} `{LedgerJson}.

Lemma to_hex_utf8 h : utf8_valid (to_hex h) = true.
Proof.
  apply utf8_valid_ascii. unfold to_hex.
  eapply all_bytes_impl; [|apply hex_encode_digits]. intros a. unfold is_ascii_digit, is_ascii.
  rewrite orb_true_iff, !ascii_in_iff. lia.
Qed.

(** ** The ledger file *)

(** The text of a ledger: one line per entry. *)
Definition ledger_text (es : list LedgerEntry) : string :=
  str_concat ((fun e => ledger_to_string e +:+ String newline "") <$> es).


Lemma ledger_text_snoc es e :
  ledger_text (es ++ [e]) = ledger_text es +:+ ledger_to_string e +:+ String newline "".
Proof.
  unfold ledger_text. rewrite fmap_app, str_concat_app. cbn. by rewrite str_app_nil_r.
Qed.

Lemma entry_line e : entry_repr e ->
  strip_cr (ledger_to_string e) = ledger_to_string e /\ trim (ledger_to_string e) = ledger_to_string e /\
  is_empty (ledger_to_string e) = false.
Proof.
  intros He. pose proof (ledger_utf8 _ He) as Hu. destruct (ledger_object e) as [body E]. rewrite E in *.
  split_and!; [|by apply (trim_id "{" body "}")|done].
  unfold strip_cr. change ("{" +:+ body +:+ "}") with (("{" +:+ body) +:+ "}").
  by rewrite strip_suffix_char_snoc.
Qed.

Lemma load_ledger_text es idx : Forall entry_repr es -> load_lines idx (lines (ledger_text es)) = Ok es.
Proof.
  intros HF. revert idx. induction HF as [|e es He HF IH]; intros idx; [done|].
  unfold ledger_text. rewrite fmap_cons. cbn [str_concat foldr]. rewrite str_app_assoc.
  cbn [String.append]. change (foldr String.append "" ?l) with (str_concat l).
  destruct (entry_line _ He) as (E1 & E2 & E3).
  rewrite lines_cons by (by apply ledger_one_line). cbn [load_lines].
  rewrite E1, E2, E3, (ledger_utf8 _ He), (ledger_from_to_string _ He).
  change (str_concat (_ <$> es)) with (ledger_text es). by rewrite IH.
Qed.

(** ** Abstract state *)

(** A batch that was flushed, with what its flush drew from outside. *)
Definition Flushed : Type := FlushEnv * list IncomingLog.

Definition block_records (k : nat) (x : Flushed) : list StoredLogRecord :=
  imap (to_stored x.1 (Z.of_nat k)) x.2.

Definition logs_root (logs : list string) : Hash := root (default empty_tree (from_raw_logs logs)).

Definition block_entry (k : nat) (x : Flushed) : LedgerEntry :=
  mkEntry (Z.of_nat k) (env_now_ms x.1) (length x.2) (to_hex (logs_root (il_raw_log <$> x.2)))
    (block_filename (Z.of_nat k)).

Definition block_path (cfg : BatcherConfig) (k : nat) : string :=
  path_join (storage_dir cfg) (block_filename (Z.of_nat k)).

(** ** Vendors *)

(** How many distinct vendors a list of logs has.  A block holds at most 128. *)
Definition vendors (logs : list IncomingLog) : nat := size (list_to_set (il_vendor <$> logs) : gset string).

(** No [n] consecutive logs have more than 128 vendors. *)
Definition few_vendors (n : nat) (logs : list IncomingLog) : Prop := forall i, vendors (take n (drop i logs)) <= 128.

Lemma vendors_incl logs logs' : (forall l, l ∈ logs -> l ∈ logs') -> vendors logs <= vendors logs'.
Proof.
  intros Hi. unfold vendors. apply subseteq_size. intros v. rewrite !elem_of_list_to_set, !list_elem_of_fmap.
  intros (l & -> & Hl). eauto.
Qed.

Lemma vendors_length logs : vendors logs <= length logs.
Proof.
  unfold vendors. induction logs as [|l logs IH]; [done|]. rewrite fmap_cons, list_to_set_cons. cbn [length].
  rewrite size_union_alt, size_singleton. apply le_n_S. etrans; [|exact IH]. apply subseteq_size. set_solver.
Qed.

(** A segment that fits into a block has few vendors. *)
Lemma few_vendors_segment n pre batch post : few_vendors n (pre ++ batch ++ post) -> length batch <= n -> vendors batch <= 128.
Proof.
  intros Hf Hl. etrans; [|exact (Hf (length pre))]. apply vendors_incl. intros l Hl'.
  rewrite drop_app_length, take_app_ge by done. set_solver.
Qed.

Lemma few_vendors_app n l l' : few_vendors n (l ++ l') -> few_vendors n l.
Proof.
  intros Hf i. etrans; [|exact (Hf i)]. apply vendors_incl. intros x. rewrite drop_app, take_app. set_solver.
Qed.

Lemma few_vendors_suffix n l l' : few_vendors n (l ++ l') -> few_vendors n l'.
Proof. intros Hf i. specialize (Hf (length l + i)). by rewrite drop_app_add in Hf. Qed.

(** Logs of at most 128 vendors, and blocks of at most 128 logs. *)
Lemma few_vendors_all n logs : vendors logs <= 128 -> few_vendors n logs.
Proof.
  intros Hv i. etrans; [|exact Hv]. apply vendors_incl. intros l Hl.
  rewrite <- (take_drop i logs). apply elem_of_app. right. rewrite <- (take_drop n (drop i logs)). set_solver.
Qed.

Lemma few_vendors_small n logs : n <= 128 -> few_vendors n logs.
Proof. intros Hn i. etrans; [apply vendors_length|]. rewrite length_take. lia. Qed.

(** ** The concrete state of a history *)

Record represents (cfg : BatcherConfig) (hist : list Flushed) (b : BatchAccumulator) (d : Disk) : Prop := {
  rep_config : config b = cfg;
  rep_ledger : in_memory_ledger b = imap block_entry hist;
  rep_next : current_block_id b = Z.of_nat (length hist);
  rep_text : default "" (texts d !! ledger_path cfg) = ledger_text (in_memory_ledger b);
  rep_repr : Forall entry_repr (in_memory_ledger b);
  rep_batches : Forall (fun x => x.2 <> [] /\ vendors x.2 <= 128) hist;
  rep_blocks : forall k x, hist !! k = Some x ->
    read_parquet_file (blocks d) (block_path cfg k) = Some (Ok (block_records k x))
}.

Lemma rep_nonempty cfg hist b d : represents cfg hist b d -> Forall (fun x => x.2 <> []) hist.
Proof. intros HR. eapply Forall_impl; [apply (rep_batches _ _ _ _ HR)|]. by intros x []. Qed.

Lemma rep_vendors cfg hist b d k x : represents cfg hist b d -> hist !! k = Some x -> vendors x.2 <= 128.
Proof. intros HR Hx. by destruct (proj1 (Forall_lookup _ _) (rep_batches _ _ _ _ HR) _ _ Hx). Qed.

(** An environment without faults, whose clock gives an [i64]. *)
Definition good_env (env : FlushEnv) : Prop :=
  env_write env = no_faults /\ env_ledger env = mkLedgerFaults false false None /\
  (- 2 ^ 63 <= env_now_ms env < 2 ^ 63)%Z.

(** ** One flush *)

Lemma from_raw_logs_total logs : exists t, from_raw_logs logs = Some t.
Proof. destruct (leaf_hashes_head (hash_leaf <$> logs)) as (t & E & _). by exists t. Qed.

Lemma stored_fields env id logs :
  sr_raw_log <$> imap (to_stored env id) logs = il_raw_log <$> logs /\
  sr_vendor <$> imap (to_stored env id) logs = il_vendor <$> logs.
Proof.
  split; apply list_eq; intros i; rewrite !list_lookup_fmap, list_lookup_imap; by destruct (logs !! i).
Qed.

Lemma stored_storable env id logs : logs <> [] ->
  vendors logs <= 128 ->
  storable (imap (to_stored env id) logs).
Proof.
  intros Hne Hv. split_and!.
  - intros E. apply (f_equal length) in E. rewrite length_imap in E. by destruct logs.
  - apply Forall_lookup. intros i r Hr. apply list_lookup_imap_Some in Hr as (x & _ & ->). by eexists.
  - by rewrite (proj2 (stored_fields env id logs)).
Qed.

Lemma flush_unfold env b d : buffer b <> [] ->
  flush env b d = Some
    (let id := current_block_id b in let logs := buffer b in
     let b1 := mkBatcher (config b) [] None (next_id id) (in_memory_ledger b) in
     let e := mkEntry id (env_now_ms env) (length logs) (to_hex (logs_root (il_raw_log <$> logs))) (block_filename id) in
     let path := path_join (storage_dir (config b)) (block_filename id) in
     match write_records_to_parquet (env_write env) (blocks d) path (imap (to_stored env id) logs)
             (compression (config b)) with
     | (Err _, fs) => (Err "Failed writing Parquet block", b1, mkDisk _ fs (texts d))
     | (Ok _, fs) =>
         match append_ledger_entry b1 (env_ledger env) (mkDisk _ fs (texts d)) e with
         | (Err x, d2) => (Err x, b1, d2)
         | (Ok _, d2) =>
             (Ok (Some (mkFlushed id (logs_root (il_raw_log <$> logs)) (length logs) path
                          (default empty_tree (from_raw_logs (il_raw_log <$> logs))))),
              mkBatcher (config b) [] None (next_id id) (in_memory_ledger b ++ [e]), d2)
         end
     end).
Proof.
  intros Hne. unfold flush, logs_root.
  replace (is_nil (buffer b)) with false by (by destruct (buffer b)).
  rewrite (proj1 (stored_fields env (current_block_id b) (buffer b))).
  destruct (from_raw_logs_total (il_raw_log <$> buffer b)) as [t ->]. reflexivity.
Qed.

Lemma next_id_small (n : nat) : (Z.of_nat n < u64_max)%Z -> next_id (Z.of_nat n) = Z.of_nat (S n).
Proof. intros Hn. unfold next_id, wrapu. unfold u64_max in Hn. rewrite Z.mod_small; lia. Qed.

Lemma imap_snoc {A B} (f : nat -> A -> B) l x : imap f (l ++ [x]) = imap f l ++ [f (length l) x].
Proof. rewrite imap_app. simpl. by rewrite Nat.add_0_r. Qed.

Lemma flush_represents cfg hist b d env :
  represents cfg hist b d -> buffer b <> [] -> good_env env ->
  vendors (buffer b) <= 128 ->
  (Z.of_nat (length hist) < u64_max)%Z -> (Z.of_nat (length (buffer b)) <= u64_max)%Z ->
  exists fr b' d', flush env b d = Some (Ok (Some fr), b', d') /\
    represents cfg (hist ++ [(env, buffer b)]) b' d' /\ buffer b' = [] /\ first_item_time b' = None.
Proof.
  intros [Rc Rl Rn Rt Rr Re Rb] Hne (Hw & Hl & Hts) Hv Hh Hbuf. rewrite (flush_unfold _ _ _ Hne). cbv zeta.
  set (id := current_block_id b) in *. rewrite Hw, Hl, Rc.
  destruct (write_read_records (blocks d) (path_join (storage_dir cfg) (block_filename id)) _
    (compression cfg) (stored_storable env id _ Hne Hv)) as (fs & -> & Hread & Hother).
  unfold append_ledger_entry. cbn [fail_ledger_dir fail_ledger_open fail_ledger_write config texts blocks].
  eexists _, _, _. split; [reflexivity|]. split; [|done].
  assert (entry_repr (block_entry (length hist) (env, buffer b))) as Her.
  { split_and!; simpl; [lia..|apply to_hex_utf8|apply block_filename_utf8]. }
  unfold block_entry in Her. simpl in Her. rewrite <- Rn in Her. fold id in Her.
  split; cbn [config in_memory_ledger current_block_id texts blocks].
  - done.
  - rewrite imap_snoc, Rl. unfold block_entry at 3. simpl. by rewrite <- Rn.
  - rewrite Rn, length_app, (next_id_small _ Hh). simpl. lia.
  - rewrite lookup_insert_eq, Rt, ledger_text_snoc. done.
  - apply Forall_app. split; [done|]. by constructor.
  - apply Forall_app. split; [done|]. by constructor.
  - intros k x Hx. apply lookup_snoc_Some in Hx as [[Hk Hx]|[-> <-]].
    + rewrite <- (Rb _ _ Hx). unfold read_parquet_file. rewrite Hother; [done|].
      intros E. apply path_join_inj, block_filename_inj in E; unfold u64_max in *; lia.
    + unfold block_path, block_records. simpl. rewrite <- Rn. exact Hread.
Qed.

(** ** Runs *)

Inductive BatchOp :=
| OpPush (t0 t1 : Z) (log : IncomingLog)
| OpTimeout (now : Z)
| OpFlush.

Definition batch_step (op : BatchOp) (env : FlushEnv) (b : BatchAccumulator) (d : Disk)
  : option FlushResult :=
  match op with
  | OpPush t0 t1 log => push t0 t1 env log b d
  | OpTimeout now => check_timeout now env b d
  | OpFlush => flush env b d
  end.

Fixpoint batch_run (ops : list (BatchOp * FlushEnv)) (b : BatchAccumulator) (d : Disk)
  : option (list (Result string (option BlockFlushResult)) * BatchAccumulator * Disk) :=
  match ops with
  | [] => Some ([], b, d)
  | (op, env) :: ops' =>
      match batch_step op env b d with
      | None => None
      | Some (r, b1, d1) =>
          match batch_run ops' b1 d1 with
          | None => None
          | Some (rs, b2, d2) => Some (r :: rs, b2, d2)
          end
      end
  end.

Definition pushed_by (op : BatchOp) : list IncomingLog :=
  match op with OpPush _ _ log => [log] | _ => [] end.

(** The logs that a run was given. *)
Definition pushed (ops : list (BatchOp * FlushEnv)) : list IncomingLog :=
  concat (pushed_by ∘ fst <$> ops).

(** ** The invariant of the accumulator *)

Record batcher_inv (b : BatchAccumulator) : Prop := {
  inv_time : buffer b = [] <-> first_item_time b = None;
  inv_pending : pending_count b < Nat.max 1 (max_batch_size (config b));
  inv_id : (0 <= current_block_id b <= u64_max)%Z
}.

Lemma next_id_range id : (0 <= next_id id <= u64_max)%Z.
Proof. unfold next_id, wrapu, u64_max. pose proof (Z.mod_pos_bound (id + 1) (2 ^ 64)). lia. Qed.

Lemma flush_state env b d r b' d' : buffer b <> [] -> flush env b d = Some (r, b', d') ->
  config b' = config b /\ buffer b' = [] /\ first_item_time b' = None /\
  current_block_id b' = next_id (current_block_id b) /\
  exists new, in_memory_ledger b' = in_memory_ledger b ++ new /\
    exists tail, default "" (texts d' !! ledger_path (config b)) =
                 default "" (texts d !! ledger_path (config b)) +:+ tail /\
    forall fr, r = Ok (Some fr) -> exists e, new = [e] /\ tail = ledger_to_string e +:+ String newline "".
Proof.
  intros Hne. rewrite (flush_unfold _ _ _ Hne). cbv zeta. intros E. injection E as E.
  destruct (write_records_to_parquet _ _ _ _ _) as [[?|?] fs].
  - unfold append_ledger_entry in E. cbn [config texts blocks] in E.
    destruct (fail_ledger_dir _); [simplify_eq; split_and!; try done; exists []; rewrite app_nil_r;
      split; [done|]; exists ""; by rewrite str_app_nil_r|].
    destruct (fail_ledger_open _); [simplify_eq; split_and!; try done; exists []; rewrite app_nil_r;
      split; [done|]; exists ""; by rewrite str_app_nil_r|].
    destruct (fail_ledger_write _) as [n|]; simplify_eq; split_and!; try done.
    + exists []. rewrite app_nil_r. split; [done|]. eexists. cbn [texts]. rewrite lookup_insert_eq.
      split; [done|]. intros ? [=].
    + eexists; split; [done|]. eexists. cbn [texts]. rewrite lookup_insert_eq. split; [done|]. eauto.
  - simplify_eq. split_and!; try done. exists []. rewrite app_nil_r. split; [done|].
    exists "". by rewrite str_app_nil_r.
Qed.

Lemma flush_total env b d : exists r b' d', flush env b d = Some (r, b', d').
Proof.
  destruct (decide (buffer b = [])) as [E|Hne].
  - unfold flush. rewrite E. eauto.
  - rewrite (flush_unfold _ _ _ Hne). match goal with |- exists r b' d', Some ?x = _ => destruct x as [[r b'] d'] end. eauto.
Qed.

(** Every operation appends its log, then returns or flushes. *)
Lemma batch_step_cases op env b d : batcher_inv b -> exists b1,
  config b1 = config b /\ buffer b1 = buffer b ++ pushed_by op /\
  current_block_id b1 = current_block_id b /\ in_memory_ledger b1 = in_memory_ledger b /\
  ((batch_step op env b d = Some (Ok None, b1, d) /\ batcher_inv b1) \/
   (buffer b1 <> [] /\ batch_step op env b d = flush env b1 d)).
Proof.
  intros Hinv. destruct op as [t0 t1 log|now|]; simpl.
  - unfold push. eexists (mkBatcher _ (buffer b ++ [log]) _ _ _); split_and!; [done..|].
    match goal with |- context [should_flush ?x t1] => destruct (should_flush x t1) eqn:E end.
    + right. split; [by destruct (buffer b)|done].
    + left. split; [done|]. unfold should_flush in E. cbn [buffer config] in E.
      replace (is_nil (buffer b ++ [log])) with false in E by (by destruct (buffer b)).
      apply orb_false_iff in E as [E _]. apply Nat.leb_gt in E.
      destruct Hinv as [Ht Hp Hi]. split; cbn; [|unfold pending_count; cbn; lia|done].
      split; [by destruct (buffer b)|]. destruct (buffer b); cbn; [done|]. intros HN.
      by apply Ht in HN.
  - unfold check_timeout. rewrite app_nil_r. exists b; split_and!; [done..|].
    destruct (buffer b) as [|l ls] eqn:E; cbn [is_nil]; [by left|].
    destruct (duration_met b now); [right|left]; done.
  - rewrite app_nil_r. exists b; split_and!; [done..|].
    destruct (decide (buffer b = [])) as [E|E]; [|by right]. left. unfold flush. by rewrite E.
Qed.

Lemma batch_step_total op env b d : batcher_inv b ->
  exists r b' d', batch_step op env b d = Some (r, b', d').
Proof.
  intros Hinv. destruct (batch_step_cases op env b d Hinv) as (b1 & _ & _ & _ & _ & [[-> _]|[_ ->]]);
    [eauto|apply flush_total].
Qed.

Lemma batch_step_inv op env b d r b' d' : batcher_inv b -> batch_step op env b d = Some (r, b', d') ->
  batcher_inv b' /\ config b' = config b.
Proof.
  intros Hinv E. destruct (batch_step_cases op env b d Hinv) as (b1 & Hc & _ & _ & _ & [[E1 ?]|[Hne E1]]).
  - rewrite E in E1. by simplify_eq.
  - rewrite E in E1. symmetry in E1. destruct (flush_state _ _ _ _ _ _ Hne E1) as (Hc' & Hb & Hf & Hi & _).
    split; [|congruence]. split; [by rewrite Hb, Hf|unfold pending_count; rewrite Hb; simpl; lia|].
    rewrite Hi. apply next_id_range.
Qed.

Lemma new_inv cfg d b : batcher_new cfg d = Ok b -> batcher_inv b /\ config b = cfg.
Proof.
  unfold batcher_new. intros E.
  destruct (match texts d !! ledger_path cfg with Some _ => _ | None => _ end) as [es|e]; simplify_eq/=.
  split; [|done]. split; cbn; [done|unfold pending_count; cbn; lia|].
  destruct (last es); [apply next_id_range|unfold u64_max; lia].
Qed.

Lemma batch_run_inv ops : forall b d, batcher_inv b -> exists rs b' d',
  batch_run ops b d = Some (rs, b', d') /\ batcher_inv b' /\ config b' = config b /\ length rs = length ops.
Proof.
  induction ops as [|[op env] ops IH]; intros b d Hinv; simpl; [eauto 10|].
  destruct (batch_step_total op env b d Hinv) as (r & b1 & d1 & E). rewrite E.
  destruct (batch_step_inv _ _ _ _ _ _ _ Hinv E) as [Hinv1 Hc1].
  destruct (IH b1 d1 Hinv1) as (rs & b2 & d2 & -> & Hinv2 & Hc2 & Hl).
  eexists _, _, _. split_and!; [done..|congruence|]. simpl. by rewrite Hl.
Qed.

(** ** Fault-free runs refine the abstract machine *)

(** The most logs that a block can have. *)
Definition block_limit (cfg : BatcherConfig) : nat := Nat.max 1 (max_batch_size cfg).

Lemma run_represents cfg ops : forall hist b d,
  represents cfg hist b d -> batcher_inv b -> Forall (fun x => good_env x.2) ops ->
  few_vendors (block_limit cfg) (buffer b ++ pushed ops) ->
  (Z.of_nat (length hist + length (buffer b) + length ops) < u64_max)%Z ->
  exists rs b' d' hist', batch_run ops b d = Some (rs, b', d') /\
    Forall (fun r => exists o, r = Ok o) rs /\
    represents cfg (hist ++ hist') b' d' /\ batcher_inv b' /\
    concat hist'.*2 ++ buffer b' = buffer b ++ pushed ops /\ length hist' <= length ops.
Proof.
  induction ops as [|[op env] ops IH]; intros hist b d HR Hinv HF Hv Hlen.
  { exists [], b, d, []. rewrite !app_nil_r. simpl. split_and!; [done..|lia]. }
  apply Forall_cons in HF as [Henv HF]. change (pushed ((op, env) :: ops)) with (pushed_by op ++ pushed ops) in *.
  rewrite (assoc_L app) in *. simpl in Hlen. simpl batch_run.
  destruct (batch_step_cases op env b d Hinv) as (b1 & Hc & Hb & Hi & Hl & Hcase).
  assert (represents cfg hist b1 d) as HR1.
  { destruct HR as [Rc Rl Rn Rt Rr Re Rb]. split; by rewrite ?Hc, ?Hi, ?Hl. }
  assert (length (pushed_by op) <= 1) as Hp by (destruct op; simpl; lia).
  rewrite <- Hb in *. assert (length (buffer b1) = length (buffer b) + length (pushed_by op)) as Hlb
    by (by rewrite Hb, length_app).
  destruct Hcase as [[-> Hinv1]|[Hne E]].
  - destruct (IH hist b1 d) as (rs & b' & d' & hist' & -> & Hok & HR' & Hinv' & Hcat & Hlh); [done..|lia|].
    exists (Ok None :: rs), b', d', hist'. split_and!; [done| |done..|simpl; lia]. constructor; eauto.
  - rewrite E. destruct (flush_represents cfg hist b1 d env) as (fr & b2 & d2 & E2 & HR2 & Hb2 & Hf2); try done.
    { apply (few_vendors_segment (block_limit cfg) [] _ (pushed ops)); [done|]. pose proof (inv_pending _ Hinv) as Hpend.
      unfold pending_count in Hpend. rewrite (rep_config _ _ _ _ HR) in Hpend. unfold block_limit. lia. }
    { lia. } { lia. }
    rewrite E2. destruct (flush_state _ _ _ _ _ _ Hne E2) as (Hc2 & _ & _ & Hi2 & _).
    destruct (IH (hist ++ [(env, buffer b1)]) b2 d2) as (rs & b' & d' & hist' & -> & Hok & HR' & Hinv' & Hcat & Hlh); try done.
    { split; [by rewrite Hb2, Hf2|unfold pending_count; rewrite Hb2; simpl; lia|].
      rewrite Hi2. apply next_id_range. }
    { rewrite Hb2. by eapply few_vendors_suffix. }
    { rewrite length_app, Hb2; simpl. destruct (buffer b1); [done|simpl in *; lia]. }
    exists (Ok (Some fr) :: rs), b', d', ((env, buffer b1) :: hist').
    split_and!; [done|constructor; eauto| |done| |simpl; lia].
    + by rewrite <- (assoc_L app) in HR'.
    + change (concat ((env, buffer b1) :: hist').*2) with (buffer b1 ++ concat hist'.*2).
      by rewrite <- app_assoc, Hcat, Hb2.
Qed.

Definition empty_disk : Disk := mkDisk _ ∅ ∅.

Lemma new_represents cfg : exists b, batcher_new cfg empty_disk = Ok b /\
  represents cfg [] b empty_disk /\ batcher_inv b /\ buffer b = [].
Proof.
  eexists; split; [reflexivity|]. split_and!; [|by eapply (new_inv cfg empty_disk)|].
  all: done.
Qed.

Lemma fresh_run cfg ops : Forall (fun x => good_env x.2) ops ->
  few_vendors (block_limit cfg) (pushed ops) ->
  (Z.of_nat (length ops) < u64_max)%Z ->
  exists b0 rs b d hist, batcher_new cfg empty_disk = Ok b0 /\
    batch_run ops b0 empty_disk = Some (rs, b, d) /\ Forall (fun r => exists o, r = Ok o) rs /\
    represents cfg hist b d /\ concat hist.*2 ++ buffer b = pushed ops /\ length hist <= length ops.
Proof.
  intros HF Hv Hl. destruct (new_represents cfg) as (b0 & E0 & HR & Hinv & Hb).
  destruct (run_represents cfg ops [] b0 empty_disk) as (rs & b & d & hist & E & Hok & HR' & _ & Hcat & Hlh); try done;
    [by rewrite Hb..|]. rewrite Hb in Hcat. eauto 15.
Qed.

(** The block file that a ledger entry names. *)
Definition entry_records (cfg : BatcherConfig) (d : Disk) (e : LedgerEntry)
  : option (Result string (list StoredLogRecord)) :=
  read_parquet_file (blocks d) (path_join (storage_dir cfg) (le_parquet_file e)).

(** The stored form of a log keeps every field that the log has. *)
Record stored_as (l : IncomingLog) (r : StoredLogRecord) : Prop := {
  sa_vendor : sr_vendor r = il_vendor l;
  sa_raw_log : sr_raw_log r = il_raw_log l;
  sa_raw_hash : sr_raw_hash r = hex_encode (b32 (sha256 (il_raw_log l)));
  sa_timestamp ts : il_timestamp l = Some ts -> sr_timestamp r = ts;
  sa_event_id id : il_event_id l = Some id -> sr_event_id r = id;
  sa_ocsf o : il_ocsf_json l = Some o -> sr_ocsf_json r = o
}.

Lemma to_stored_as env id i l : stored_as l (to_stored env id i l).
Proof. split; intros; simpl; try done; by simplify_option_eq. Qed.

Lemma block_records_stored k x : Forall2 stored_as x.2 (block_records k x).
Proof.
  apply Forall2_same_length_lookup. unfold block_records. rewrite length_imap. split; [done|].
  intros i l r Hl Hr. apply list_lookup_imap_Some in Hr as (l' & Hl' & ->).
  simplify_eq. apply to_stored_as.
Qed.

Lemma represents_blocks cfg hist b d : represents cfg hist b d ->
  exists bs, Forall2 (fun e rs => entry_records cfg d e = Some (Ok rs)) (in_memory_ledger b) bs /\
    bs = imap block_records hist.
Proof.
  intros [Rc Rl Rn Rt Rr Re Rb]. eexists; split; [|done]. rewrite Rl.
  apply Forall2_same_length_lookup. rewrite !length_imap. split; [done|].
  intros k e rs He Hr. apply list_lookup_imap_Some in He as (x & Hx & ->).
  apply list_lookup_imap_Some in Hr as (x' & Hx' & ->). simplify_eq. exact (Rb _ _ Hx).
Qed.

Lemma concat_stored (hist : list Flushed) n :
  Forall2 stored_as (concat hist.*2) (concat (imap (fun k => block_records (n + k)) hist)).
Proof.
  revert n; induction hist as [|x hist IH]; intros n; [constructor|].
  rewrite imap_cons, fmap_cons. cbn [concat]. apply Forall2_app; [apply block_records_stored|].
  specialize (IH (S n)). erewrite imap_ext; [exact IH|]. intros i y _. simpl. f_equal. lia.
Qed.

(** The disk of a represented state restarts it, less what was pending. *)
Lemma represents_restart cfg hist b d : represents cfg hist b d ->
  (Z.of_nat (length hist) <= u64_max)%Z ->
  batcher_new cfg d = Ok (mkBatcher cfg [] None (Z.of_nat (length (in_memory_ledger b))) (in_memory_ledger b)).
Proof.
  intros [Rc Rl Rn Rt Rr Re Rb] Hlen. unfold batcher_new, load_ledger_entries.
  assert (match texts d !! ledger_path cfg with
          | Some text => load_lines 0 (lines text) | None => Ok [] end = Ok (in_memory_ledger b)) as El.
  { destruct (texts d !! ledger_path cfg) as [text|]; simpl in Rt.
    - rewrite Rt. by apply load_ledger_text.
    - destruct (in_memory_ledger b) as [|e es]; [done|]. exfalso.
      unfold ledger_text in Rt. rewrite fmap_cons in Rt. cbn [str_concat foldr] in Rt.
      destruct (ledger_object e) as [body E]. by rewrite E in Rt. }
  destruct (texts d !! ledger_path cfg); rewrite El; simpl; f_equal; f_equal.
  all: rewrite Rl, length_imap; destruct hist as [|x hist] using rev_ind; [done|].
  all: rewrite imap_snoc, last_snoc, length_app; simpl; rewrite length_app in Hlen; simpl in Hlen.
  all: rewrite next_id_small by lia; lia.
Qed.

(** ** Properties *)

(** On any disk from which an accumulator can be created, every sequence of
    pushes, timeout checks and flushes runs to its end without a panic,
    whatever faults the disk has; at the end, the first-item time is set
    exactly when logs are pending, fewer than [max 1 max_batch_size] logs are
    pending, and the next block id is a [u64]. *)
Theorem batcher_invariant cfg d0 b0 ops : batcher_new cfg d0 = Ok b0 ->
  exists rs b d, batch_run ops b0 d0 = Some (rs, b, d) /\ batcher_inv b /\ config b = cfg.
Proof.
  intros E. destruct (new_inv _ _ _ E) as [Hinv Hc].
  destruct (batch_run_inv ops b0 d0 Hinv) as (rs & b & d & ? & ? & ? & _). rewrite Hc in *. eauto 10.
Qed.

(** C4: nothing is lost or reordered: from an empty disk, without disk faults
    and if no logs that can fill one block (that is, no [max 1 max_batch_size]
    consecutive ones) have more than 128 vendors, every operation of a run
    succeeds, and the logs pushed are, in order, those of the block files that
    the ledger names, one after the other, followed by those still pending;
    each stored record keeps vendor, raw log, the SHA-256 digest and, where
    given, timestamp, event id and OCSF text. *)
Theorem batcher_lossless cfg ops : Forall (fun x => good_env x.2) ops ->
  few_vendors (block_limit cfg) (pushed ops) ->
  (Z.of_nat (length ops) < u64_max)%Z ->
  exists b0 rs b d bs flushed, batcher_new cfg empty_disk = Ok b0 /\
    batch_run ops b0 empty_disk = Some (rs, b, d) /\ Forall (fun r => exists o, r = Ok o) rs /\
    Forall2 (fun e rs => entry_records cfg d e = Some (Ok rs)) (in_memory_ledger b) bs /\
    pushed ops = flushed ++ buffer b /\ Forall2 stored_as flushed (concat bs).
Proof.
  intros HF Hv Hl. destruct (fresh_run cfg ops HF Hv Hl) as (b0 & rs & b & d & hist & E0 & E & Hok & HR & Hcat & Hlh).
  destruct (represents_blocks _ _ _ _ HR) as (bs & HB & ->).
  exists b0, rs, b, d, (imap block_records hist), (concat hist.*2). split_and!; try done.
  apply (concat_stored hist 0).
Qed.

(** C9: after a run from an empty disk, without disk faults and with no more than
    128 vendors among logs that can fill one block, the ledger describes the
    blocks: the ids are 0, 1,
    2, ..., each entry's file holds [leaf_count] records of that block with
    consecutive leaf indices, and [merkle_root] is the hex form of the RFC
    6962 root of their raw logs; [ledger.jsonl] parses back to exactly the
    in-memory ledger, and an accumulator created from the disk has that
    ledger, nothing pending, and continues with the next id. *)
Theorem ledger_describes_blocks cfg ops : Forall (fun x => good_env x.2) ops ->
  few_vendors (block_limit cfg) (pushed ops) ->
  (Z.of_nat (length ops) < u64_max)%Z ->
  exists b0 rs b d, batcher_new cfg empty_disk = Ok b0 /\
    batch_run ops b0 empty_disk = Some (rs, b, d) /\
    le_block_id <$> in_memory_ledger b = Z.of_nat <$> seq 0 (length (in_memory_ledger b)) /\
    Forall (fun e => exists rs t, entry_records cfg d e = Some (Ok rs) /\
        le_leaf_count e = length rs /\ from_raw_logs (sr_raw_log <$> rs) = Some t /\
        le_merkle_root e = to_hex (root t) /\
        forall i r, rs !! i = Some r ->
          sr_block_id r = le_block_id e /\ sr_leaf_index r = wrapu 32 (Z.of_nat i))
      (in_memory_ledger b) /\
    batcher_new cfg d = Ok (mkBatcher cfg [] None (Z.of_nat (length (in_memory_ledger b))) (in_memory_ledger b)).
Proof.
  intros HF Hv Hl. destruct (fresh_run cfg ops HF Hv Hl) as (b0 & rs & b & d & hist & E0 & E & Hok & HR & Hcat & Hlh).
  exists b0, rs, b, d. split_and!; [done..| | |].
  - rewrite (rep_ledger _ _ _ _ HR), length_imap. apply list_eq. intros k.
    rewrite !list_lookup_fmap, list_lookup_imap.
    destruct (hist !! k) as [x|] eqn:Ek; simpl.
    + rewrite lookup_seq_lt; [done|]. by eapply lookup_lt_Some.
    + rewrite lookup_seq_ge; [done|]. by apply lookup_ge_None.
  - rewrite (rep_ledger _ _ _ _ HR). apply Forall_lookup. intros k e He.
    apply list_lookup_imap_Some in He as (x & Hx & ->). exists (block_records k x).
    destruct (from_raw_logs_total (il_raw_log <$> x.2)) as [t Et]. exists t.
    unfold block_records. rewrite (proj1 (stored_fields _ _ _)), length_imap. split_and!; try done.
    + exact (rep_blocks _ _ _ _ HR _ _ Hx).
    + unfold block_entry, logs_root. cbn [le_merkle_root]. by rewrite Et.
    + intros i r Hr. by apply list_lookup_imap_Some in Hr as (l & _ & ->).
  - apply (represents_restart _ _ _ _ HR). lia.
Qed.

Lemma batch_step_append op env b d r b' d' : batcher_inv b -> batch_step op env b d = Some (r, b', d') ->
  exists new tail, in_memory_ledger b' = in_memory_ledger b ++ new /\
    default "" (texts d' !! ledger_path (config b)) = default "" (texts d !! ledger_path (config b)) +:+ tail.
Proof.
  intros Hinv E. destruct (batch_step_cases op env b d Hinv) as (b1 & Hc & _ & _ & Hl & [[E1 _]|[Hne E1]]);
    rewrite E in E1.
  - simplify_eq. exists [], "". by rewrite app_nil_r, str_app_nil_r.
  - symmetry in E1. destruct (flush_state _ _ _ _ _ _ Hne E1) as (_ & _ & _ & _ & new & En & tail & Et & _).
    rewrite Hl in En. rewrite Hc in Et. eauto.
Qed.

(** The ledger is append-only under every fault: whatever operations run
    and whatever calls of the file system fail or stop half way, the in-memory
    ledger and the bytes of [ledger.jsonl] at the start are prefixes of those
    at the end. *)
Theorem ledger_append_only ops b d : batcher_inv b ->
  exists rs b' d' new tail, batch_run ops b d = Some (rs, b', d') /\
    in_memory_ledger b' = in_memory_ledger b ++ new /\
    default "" (texts d' !! ledger_path (config b)) = default "" (texts d !! ledger_path (config b)) +:+ tail.
Proof.
  revert b d; induction ops as [|[op env] ops IH]; intros b d Hinv; simpl.
  { exists [], b, d, [], "". by rewrite app_nil_r, str_app_nil_r. }
  destruct (batch_step_total op env b d Hinv) as (r & b1 & d1 & E). rewrite E.
  destruct (batch_step_inv _ _ _ _ _ _ _ Hinv E) as [Hinv1 Hc1].
  destruct (batch_step_append _ _ _ _ _ _ _ Hinv E) as (new1 & tail1 & En1 & Et1).
  destruct (IH b1 d1 Hinv1) as (rs & b2 & d2 & new2 & tail2 & -> & En2 & Et2).
  exists (r :: rs), b2, d2, (new1 ++ new2), (tail1 +:+ tail2). split_and!; [done|..].
  - by rewrite En2, En1, app_assoc.
  - rewrite Hc1 in Et2. by rewrite Et2, Et1, str_app_assoc.
Qed.

(** A flush whose block cannot be written drops the batch. *)
Lemma flush_unwritten env b d e : buffer b <> [] ->
  write_records_to_parquet (env_write env) (blocks d) (path_join (storage_dir (config b)) (block_filename (current_block_id b)))
    (imap (to_stored env (current_block_id b)) (buffer b)) (compression (config b)) = (Err e, blocks d) ->
  exists b' e, flush env b d = Some (Err e, b', d) /\ buffer b' = [] /\
    in_memory_ledger b' = in_memory_ledger b /\ current_block_id b' = next_id (current_block_id b) /\
    forall env', flush env' b' d = Some (Ok None, b', d).
Proof.
  intros Hne E. rewrite (flush_unfold _ _ _ Hne). cbv zeta. rewrite E.
  exists (mkBatcher (config b) [] None (next_id (current_block_id b)) (in_memory_ledger b)).
  eexists; split_and!; try done. by destruct d.
Qed.

(** C37: the batch of a failed flush is gone: when the block file cannot be
    created, [flush] reports the error, yet the pending logs have left the
    buffer, no block and no ledger entry hold them, the disk is as before, and
    the block id is used up, so that a second flush writes nothing. *)
Theorem failed_flush_drops_batch env b d : buffer b <> [] -> fail_create_file (env_write env) = true ->
  exists b' e, flush env b d = Some (Err e, b', d) /\ buffer b' = [] /\
    in_memory_ledger b' = in_memory_ledger b /\ current_block_id b' = next_id (current_block_id b) /\
    forall env', flush env' b' d = Some (Ok None, b', d).
Proof.
  intros Hne Hf.
  assert (exists e, write_records_to_parquet (env_write env) (blocks d)
    (path_join (storage_dir (config b)) (block_filename (current_block_id b)))
    (imap (to_stored env (current_block_id b)) (buffer b)) (compression (config b)) = (Err e, blocks d)) as [e E].
  { unfold write_records_to_parquet, write_parquet_file.
    destruct (records_to_batch _); [|eauto]. rewrite Hf. destruct (fail_create_dir _); eauto. }
  by eapply flush_unwritten.
Qed.

(** C36: without any fault of the disk, a batch of more than 128 vendors is gone:
    the writer refuses the block, [flush] reports the error, yet the pending
    logs have left the buffer, no block and no ledger entry hold them, the
    disk is as before, and the block id is used up.  The vendor of a CEF line is
    a field of the line, so its sender chooses it. *)
Theorem vendor_flood_drops_batch env b d : 128 < vendors (buffer b) ->
  exists b' e, flush env b d = Some (Err e, b', d) /\ buffer b' = [] /\
    in_memory_ledger b' = in_memory_ledger b /\ current_block_id b' = next_id (current_block_id b) /\
    forall env', flush env' b' d = Some (Ok None, b', d).
Proof.
  intros Hv. assert (buffer b <> []) as Hne by (intros E; rewrite E in Hv; vm_compute in Hv; lia).
  destruct (records_to_batch_refused (imap (to_stored env (current_block_id b)) (buffer b))) as [e E].
  { apply refused_vendors. by rewrite (proj2 (stored_fields env (current_block_id b) (buffer b))). }
  eapply (flush_unwritten env b d e); [done|]. unfold write_records_to_parquet. by rewrite E.
Qed.

(** The duration trigger: once the oldest pending log is as old as the
    configured limit, a timeout check flushes all pending logs, whatever the
    faults; before that it changes nothing. *)
Theorem check_timeout_trigger now env b d t0 : first_item_time b = Some t0 -> buffer b <> [] ->
  exists r b' d', check_timeout now env b d = Some (r, b', d') /\
    if (from_millis (max_batch_duration_ms (config b)) <=? Z.max 0 (now - t0))%Z
    then flush env b d = Some (r, b', d') /\ pending_count b' = 0
    else r = Ok None /\ b' = b /\ d' = d.
Proof.
  intros Ht Hne. unfold check_timeout, duration_met, pending_duration. rewrite Ht. simpl.
  replace (is_nil (buffer b)) with false by (by destruct (buffer b)).
  destruct (_ <=? _)%Z; [|eauto 10]. destruct (flush_total env b d) as (r & b' & d' & E). rewrite E.
  eexists _, _, _. split_and!; [done..|]. unfold pending_count.
  by destruct (flush_state _ _ _ _ _ _ Hne E) as (_ & -> & _).
Qed.

End Facts.

(** ** Witnesses *)

Module BatcherDemo.
Import Demo ArrowDemo.

#[export] Instance LedgerEntry_countable : Countable LedgerEntry.
Proof.
  apply (inj_countable' (fun e => (le_block_id e, le_timestamp e, le_leaf_count e, le_merkle_root e, le_parquet_file e))
           (fun '(a, b, c, d, e) => mkEntry a b c d e)). by intros [].
Defined.

Lemma demo_object (e : LedgerEntry) : exists body, bits_encode e = "{" +:+ body +:+ "}".
Proof. unfold bits_encode. destruct (bits_brace (countable.encode e)) as [body ->]. by exists body. Qed.

#[export] Instance demo_ledger_json : LedgerJson := {|
  ledger_to_string := bits_encode;
  ledger_from_str := bits_decode;
  ledger_from_to_string e _ := bits_decode_encode e;
  ledger_object := demo_object;
  ledger_one_line e _ := bits_all (fun a => negb (Ascii.eqb a newline)) _ eq_refl eq_refl eq_refl;
  ledger_utf8 e _ := bits_utf8 _
|}.

Definition cfg : BatcherConfig := mkConfig 2 2000 "data" "data/ledger.jsonl" Snappy.

Definition env : FlushEnv :=
  mkEnv _ 1700000000000 (fun i => "uuid" +:+ pretty i) no_faults (mkLedgerFaults false false None).

Definition bad_env : FlushEnv :=
  mkEnv _ 1700000000000 (fun i => "uuid" +:+ pretty i) (mkFaults _ false true None) (mkLedgerFaults false false None).

(** Two logs fill a block, a third one waits until it times out, a fourth one
    is pending. *)
Definition ops : list (BatchOp * FlushEnv) :=
  [ (OpPush 0 1 (incoming_new "cisco" "%ASA-1 a"), env);
    (OpPush 2 3 (with_event_id (incoming_new "cef" "CEF:0|x") "e2"), env);
    (OpPush 4 5 (incoming_new "cef" "CEF:0|y"), env);
    (OpTimeout 3000000000, env);
    (OpPush 3000000001 3000000002 (incoming_new "cef" "CEF:0|z"), env) ].

Definition b0 : BatchAccumulator := mkBatcher cfg [] None 0 [].

Lemma good_ops : Forall (fun x => good_env x.2) ops.
Proof. repeat constructor; simpl; lia. Qed.

Lemma batcher_invariant_witness :
  exists rs b d, batch_run ops b0 empty_disk = Some (rs, b, d) /\ batcher_inv b /\ config b = cfg.
Proof. apply (batcher_invariant cfg empty_disk b0 ops). reflexivity. Defined.

Lemma batcher_lossless_witness :
  exists b0 rs b d bs flushed, batcher_new cfg empty_disk = Ok b0 /\
    batch_run ops b0 empty_disk = Some (rs, b, d) /\ Forall (fun r => exists o, r = Ok o) rs /\
    Forall2 (fun e rs => entry_records cfg d e = Some (Ok rs)) (in_memory_ledger b) bs /\
    pushed ops = flushed ++ buffer b /\ Forall2 stored_as flushed (concat bs).
Proof.
  apply (batcher_lossless cfg ops); [apply good_ops|apply few_vendors_small; vm_compute; lia|vm_compute; reflexivity].
Defined.

Lemma ledger_describes_blocks_witness : exists b0 rs b d, batcher_new cfg empty_disk = Ok b0 /\
    batch_run ops b0 empty_disk = Some (rs, b, d) /\
    le_block_id <$> in_memory_ledger b = Z.of_nat <$> seq 0 (length (in_memory_ledger b)) /\
    Forall (fun e => exists rs t, entry_records cfg d e = Some (Ok rs) /\
        le_leaf_count e = length rs /\ from_raw_logs (sr_raw_log <$> rs) = Some t /\
        le_merkle_root e = to_hex (root t) /\
        forall i r, rs !! i = Some r ->
          sr_block_id r = le_block_id e /\ sr_leaf_index r = wrapu 32 (Z.of_nat i))
      (in_memory_ledger b) /\
    batcher_new cfg d = Ok (mkBatcher cfg [] None (Z.of_nat (length (in_memory_ledger b))) (in_memory_ledger b)).
Proof.
  apply (ledger_describes_blocks cfg ops); [apply good_ops|apply few_vendors_small; vm_compute; lia|vm_compute; reflexivity].
Defined.

(** The run above in numbers: two blocks, of two logs and of one. *)
Example ops_blocks : match batch_run ops b0 empty_disk with
  | Some (_, b, _) => (le_leaf_count <$> in_memory_ledger b, le_parquet_file <$> in_memory_ledger b, pending_count b)
  | None => ([], [], 0)
  end = ([2; 1], ["block_00000.parquet"; "block_00001.parquet"], 1).
Proof. vm_compute. reflexivity. Qed.

Lemma ledger_append_only_witness : exists rs b' d' new tail, batch_run ops b0 empty_disk = Some (rs, b', d') /\
    in_memory_ledger b' = in_memory_ledger b0 ++ new /\
    default "" (texts d' !! ledger_path (config b0)) = default "" (texts empty_disk !! ledger_path (config b0)) +:+ tail.
Proof.
  apply (ledger_append_only ops b0 empty_disk). split; [done|unfold pending_count; simpl; lia|vm_compute; done].
Defined.

Definition pending : BatchAccumulator := mkBatcher cfg [incoming_new "cef" "CEF:0|z"] (Some 0%Z) 0 [].

Lemma failed_flush_drops_batch_witness : exists b' e, flush bad_env pending empty_disk = Some (Err e, b', empty_disk) /\
    buffer b' = [] /\ in_memory_ledger b' = [] /\ current_block_id b' = next_id 0 /\
    forall env', flush env' b' empty_disk = Some (Ok None, b', empty_disk).
Proof. apply (failed_flush_drops_batch bad_env pending empty_disk); [discriminate|reflexivity]. Defined.

(** 129 logs, each of a vendor of its own. *)
Definition flood : BatchAccumulator :=
  mkBatcher (mkConfig 1000 2000 "data" "data/ledger.jsonl" Snappy) ((fun i => incoming_new (pretty i) "CEF:0|v") <$> seq 0 129) (Some 0%Z) 0 [].

Lemma vendor_flood_drops_batch_witness : env_write env = no_faults /\
  exists b' e, flush env flood empty_disk = Some (Err e, b', empty_disk) /\ buffer b' = [] /\ in_memory_ledger b' = [] /\
    current_block_id b' = next_id 0 /\ forall env', flush env' b' empty_disk = Some (Ok None, b', empty_disk).
Proof. split; [reflexivity|]. apply (vendor_flood_drops_batch env flood empty_disk). vm_compute. lia. Defined.

Lemma check_timeout_trigger_witness : exists r b' d', check_timeout 3000000000 env pending empty_disk = Some (r, b', d') /\
    if (from_millis 2000 <=? Z.max 0 (3000000000 - 0))%Z
    then flush env pending empty_disk = Some (r, b', d') /\ pending_count b' = 0
    else r = Ok None /\ b' = pending /\ d' = empty_disk.
Proof. apply (check_timeout_trigger 3000000000 env pending empty_disk 0); [reflexivity|discriminate]. Defined.

End BatcherDemo.
