(* ===== verification/Tamper.v ===== *)
(** * Tamper detection ([crates/ulpf-integrity/src/tamper.rs])

    The comparison of a block with its ledger entry, the report it produces and
    the report's text. *)

From S2P Require Export Batcher.

Inductive TamperReason :=
| DigestMismatch (stored_hash calculated_hash : string)
| IndexMismatch (expected_index found_index : Z)
| CountDiscrepancy (expected_count actual_count : nat)
| MerkleRootMismatch (ledger_root computed_root : string).

#[global] Instance TamperReason_eq_dec : EqDecision TamperReason.
Proof. solve_decision. Defined.

(** [impl fmt::Display for TamperReason] *)
Definition reason_fmt (r : TamperReason) : string :=
  match r with
  | DigestMismatch stored_hash calculated_hash =>
      "SHA-256 Digest Mismatch (Stored: " +:+ stored_hash +:+ " vs Computed: " +:+ calculated_hash +:+ ")"
  | IndexMismatch expected_index found_index =>
      "Leaf Index Mismatch (Expected: " +:+ uint_to_string expected_index
      +:+ ", Found: " +:+ uint_to_string found_index +:+ ")"
  | CountDiscrepancy expected_count actual_count =>
      "Block Record Count Discrepancy (Ledger: " +:+ pretty expected_count
      +:+ " vs Actual: " +:+ pretty actual_count +:+ ")"
  | MerkleRootMismatch ledger_root computed_root =>
      "Merkle Root Mismatch (Ledger: " +:+ ledger_root +:+ " vs Computed: " +:+ computed_root +:+ ")"
  end.

Record TamperedRecord := mkTampered {
  tr_leaf_index : Z;
  tr_event_id : string;
  tr_stored_raw_hash : string;
  tr_calculated_raw_hash : string;
  tr_raw_log_preview : string;
  tr_reason : TamperReason
}.

#[global] Instance TamperedRecord_eq_dec : EqDecision TamperedRecord.
Proof. solve_decision. Defined.

Record TamperReport := mkReport {
  is_valid : bool;
  tp_block_id : Z;
  ledger_merkle_root : string;
  computed_merkle_root : string;
  expected_records : nat;
  actual_records : nat;
  tampered_records : list TamperedRecord;
  summary : string
}.

Definition is_tampered (r : TamperReport) : bool := negb (is_valid r).

Definition ln (s : string) : string := s +:+ String newline "".

(** One entry of the breakdown of [format_alert]. *)
Definition format_tampered (i : nat) (rec : TamperedRecord) : string :=
  ln ("  [" +:+ pretty (i + 1) +:+ "] Leaf #" +:+ uint_to_string (tr_leaf_index rec)
      +:+ " (Event ID: " +:+ tr_event_id rec +:+ ")")
  +:+ ln ("Reason:     " +:+ reason_fmt (tr_reason rec))
  +:+ ln ("Stored:     " +:+ tr_stored_raw_hash rec)
  +:+ ln ("Calculated: " +:+ tr_calculated_raw_hash rec)
  +:+ ln ("Log Snippet: " +:+ dquote_str +:+ tr_raw_log_preview rec +:+ dquote_str).

Definition format_alert (r : TamperReport) : string :=
  if is_valid r then
    ln "PASS: Merkle Root Matches (RFC 6962)"
    +:+ ln ("Block ID:             " +:+ uint_to_string (tp_block_id r))
    +:+ ln ("Records Verified:     " +:+ pretty (actual_records r))
    +:+ ln ("Anchored Merkle Root: " +:+ ledger_merkle_root r)
    +:+ "Integrity Status:     100% UNTAMPERED"
  else
    let rule := "--------------------------------------------------" in
    let out :=
      ln ("ALARM: FORENSIC TAMPER DETECTED IN BLOCK #" +:+ zero_pad 5 (uint_to_string (tp_block_id r)) +:+ "!")
      +:+ ln rule
      +:+ ln ("Ledger Root:   " +:+ ledger_merkle_root r)
      +:+ ln ("Computed Root: " +:+ computed_merkle_root r)
      +:+ ln ("Expected Rows: " +:+ pretty (expected_records r) +:+ " | Actual Rows: " +:+ pretty (actual_records r))
      +:+ ln ("Summary:       " +:+ summary r)
      +:+ ln rule in
    match tampered_records r with
    | [] => out
    | l =>
        out +:+ ln "Tampered Records Breakdown:"
        +:+ str_concat (imap format_tampered (take 10 l))
        +:+ (if (10 <? length l)%nat
             then ln ("  ... and " +:+ pretty (length l - 10) +:+ " additional tampered records.")
             else "")
    end.

Definition preview_log (log : string) : string :=
  let max_len := 64 in
  if (length (chars log) <=? max_len)%nat then log
  else str_concat (take max_len (chars log)) +:+ "...".

(** [Path::file_stem]: the last component, less its extension. *)
Fixpoint before_last_dot (s : string) : option string :=
  match s with
  | "" => None
  | String a s' =>
      match before_last_dot s' with
      | Some p => Some (String a p)
      | None => if Ascii.eqb a "." then Some "" else None
      end
  end.

Definition file_stem (path : string) : option string :=
  match last (filter (fun c => c <> "" /\ c <> ".") (split_char "/" path)) with
  | None => None
  | Some ".." => None
  | Some name =>
      match before_last_dot name with
      | Some "" | None => Some name
      | Some stem => Some stem
      end
  end.

Section Tamper.
Context `{Sha256} `{HexLib} `{ArrowLib} `{PQ : ParquetLib} `{LedgerJson}.

(** The body of the loop over the records. *)
Definition check_record (i : nat) (record : StoredLogRecord) : list TamperedRecord :=
  let expected_idx := wrapu 32 (Z.of_nat i) in
  let computed_digest := hex_encode (b32 (sha256 (sr_raw_log record))) in
  (if bool_decide (sr_leaf_index record = expected_idx) then []
   else [mkTampered (sr_leaf_index record) (sr_event_id record) (sr_raw_hash record) ""
           (preview_log (sr_raw_log record)) (IndexMismatch expected_idx (sr_leaf_index record))])
  ++ (if bool_decide (computed_digest = sr_raw_hash record) then []
      else [mkTampered (sr_leaf_index record) (sr_event_id record) (sr_raw_hash record) computed_digest
              (preview_log (sr_raw_log record)) (DigestMismatch (sr_raw_hash record) computed_digest)]).

Definition verify_records (records : list StoredLogRecord) (ledger_entry : LedgerEntry)
  : option TamperReport :=
  let actual_records := length records in
  let expected_records := le_leaf_count ledger_entry in
  let counted :=
    if (actual_records =? expected_records)%nat then []
    else [mkTampered (wrapu 32 (Z.of_nat actual_records)) "" "" "" ""
            (CountDiscrepancy expected_records actual_records)] in
  let checked := counted ++ concat (imap check_record records) in
  computed_tree <-! from_raw_logs (sr_raw_log <$> records);
  let computed_root := to_hex (root computed_tree) in
  let ledger_root := le_merkle_root ledger_entry in
  let root_matches := bool_decide (computed_root = ledger_root) in
  let tampered_records :=
    if negb root_matches && is_nil checked
    then checked ++ [mkTampered 0 "" ledger_root computed_root "" (MerkleRootMismatch ledger_root computed_root)]
    else checked in
  let is_valid := root_matches && is_nil tampered_records in
  let summary :=
    if is_valid then "Block integrity mathematically verified against anchored Merkle root."
    else "Tamper detected: " +:+ pretty (length tampered_records)
         +:+ " anomaly/anomalies found. Recomputed root " +:+ computed_root
         +:+ " != Ledger root " +:+ ledger_root +:+ "." in
  Some (mkReport is_valid (le_block_id ledger_entry) ledger_root computed_root expected_records
          actual_records tampered_records summary).

Definition verify_block_file (d : Disk) (parquet_path : string) (ledger_entry : LedgerEntry)
  : option (Result string TamperReport) :=
  records <-? read_parquet_file (blocks d) parquet_path;
  report <-! verify_records records ledger_entry;
  Some (Ok report).

Definition verify_block_with_ledger (d : Disk) (parquet_path ledger_path : string)
  : option (Result string TamperReport) :=
  records <-? read_parquet_file (blocks d) parquet_path;
  ledger_entries <-? Some (load_ledger_entries d ledger_path);
  let block_id :=
    match records with
    | first :: _ => sr_block_id first
    | [] =>
        let fname := default "" (file_stem parquet_path) in
        default 0%Z (match strip_prefix "block_" fname with
                     | Some s => parse_uint u64_max s
                     | None => None
                     end)
    end in
  match List.find (fun e => le_block_id e =? block_id)%Z ledger_entries with
  | None => Some (Err ("No corresponding ledger entry found for block ID " +:+ uint_to_string block_id))
  | Some entry => report <-! verify_records records entry; Some (Ok report)
  end.

End Tamper.
