(* ===== verification/TamperFacts.v ===== *)
(** * What the tamper check guarantees

    The verdict of [verify_records] in terms of the records and the entry; that
    it accepts every block the batcher wrote; that a block it accepts has the
    raw logs that were anchored; and what it does not look at. *)

From S2P Require Export BatcherFacts Tamper.

Section Facts.
Context `{Sha256} `{HexLib} `{ArrowLib} `{PQ : ParquetLib} `{LedgerJson}.

(** The conditions on a single record. *)
Definition record_ok (i : nat) (r : StoredLogRecord) : Prop :=
  sr_leaf_index r = wrapu 32 (Z.of_nat i) /\ sr_raw_hash r = hex_encode (b32 (sha256 (sr_raw_log r))).

Lemma check_record_nil i r : check_record i r = [] <-> record_ok i r.
Proof.
  unfold check_record, record_ok. repeat case_bool_decide; simpl; intuition congruence.
Qed.

Lemma checks_nil records : concat (imap check_record records) = [] <->
  forall i r, records !! i = Some r -> record_ok i r.
Proof.
  rewrite concat_nil, Forall_lookup. setoid_rewrite list_lookup_imap. split.
  - intros Hc i r Hr. apply check_record_nil, (Hc i). by rewrite Hr.
  - intros Hc i x Hx. destruct (records !! i) as [r|] eqn:Hr; simplify_eq/=. by apply check_record_nil, Hc.
Qed.

(** The anomalies found before the root is compared. *)
Definition anomalies (records : list StoredLogRecord) (e : LedgerEntry) : list TamperedRecord :=
  (if (length records =? le_leaf_count e)%nat then []
   else [mkTampered (wrapu 32 (Z.of_nat (length records))) "" "" "" ""
           (CountDiscrepancy (le_leaf_count e) (length records))])
  ++ concat (imap check_record records).

Lemma anomalies_nil records e : anomalies records e = [] <->
  length records = le_leaf_count e /\ forall i r, records !! i = Some r -> record_ok i r.
Proof.
  unfold anomalies. destruct (Nat.eqb_spec (length records) (le_leaf_count e)); simpl.
  - rewrite checks_nil. naive_solver.
  - naive_solver.
Qed.

Definition records_root (records : list StoredLogRecord) : Hash := logs_root (sr_raw_log <$> records).

Lemma verify_records_total records e : exists rep, verify_records records e = Some rep /\
  is_valid rep = bool_decide (to_hex (records_root records) = le_merkle_root e) && is_nil (anomalies records e) /\
  tampered_records rep =
    (if negb (bool_decide (to_hex (records_root records) = le_merkle_root e)) && is_nil (anomalies records e)
     then [mkTampered 0 "" (le_merkle_root e) (to_hex (records_root records)) ""
             (MerkleRootMismatch (le_merkle_root e) (to_hex (records_root records)))]
     else anomalies records e).
Proof.
  unfold verify_records, records_root, logs_root.
  destruct (from_raw_logs_total (sr_raw_log <$> records)) as [t ->]. eexists; split; [reflexivity|].
  cbn [is_valid tampered_records default].
  change ((if (_ =? _)%nat then _ else _) ++ concat _) with (anomalies records e).
  destruct (bool_decide _), (anomalies records e); done.
Qed.

Lemma is_nil_true {A} (l : list A) : is_nil l = true <-> l = [].
Proof. by destruct l. Qed.

Lemma verify_records_spec records e : exists rep, verify_records records e = Some rep /\
  (is_valid rep = true <->
     length records = le_leaf_count e /\ to_hex (records_root records) = le_merkle_root e /\
     forall i r, records !! i = Some r -> record_ok i r) /\
  (is_valid rep = true <-> tampered_records rep = []).
Proof.
  destruct (verify_records_total records e) as (rep & E & Hv & Ht). exists rep; split; [done|].
  rewrite Hv, andb_true_iff, is_nil_true, anomalies_nil, bool_decide_eq_true. split; [naive_solver|].
  rewrite Ht. rewrite <- anomalies_nil. case_bool_decide; destruct (anomalies records e); naive_solver.
Qed.

(** The verdict: verification never panics; the block is valid exactly when
    it has as many records as the entry says, the RFC 6962 root of its raw
    logs is the anchored one, and every record has the leaf index of its
    position and the SHA-256 digest of its raw log; and an invalid block is
    always reported with at least one anomaly. *)
Theorem verify_records_verdict records e : exists rep, verify_records records e = Some rep /\
  (is_valid rep = true <->
     length records = le_leaf_count e /\ to_hex (records_root records) = le_merkle_root e /\
     forall i r, records !! i = Some r -> record_ok i r) /\
  (is_valid rep = true <-> tampered_records rep = []).
Proof. apply verify_records_spec. Qed.

(** An entry that anchors a list of logs, as [flush] writes it. *)
Definition anchors (e : LedgerEntry) (logs : list string) : Prop :=
  le_leaf_count e = length logs /\ le_merkle_root e = to_hex (logs_root logs).

Lemma to_hex_inj h1 h2 : to_hex h1 = to_hex h2 -> h1 = h2.
Proof.
  unfold to_hex. intros E%hex_encode_inj. destruct h1, h2. f_equal. by apply bytes32_eq.
Qed.

(** The strings hashed to build the tree of a list of logs. *)
Definition logs_inputs (logs : list string) : list string :=
  tree_inputs logs (default empty_tree (from_raw_logs logs)).

(** C6: no altered, inserted, deleted or swapped raw log passes: if a block is
    accepted against an entry that anchors [logs], its raw logs are exactly
    [logs], in order, and its leaf indices and digests are those of [logs];
    provided SHA-256 has no collision among the strings hashed for the two
    trees. *)
Theorem verify_records_sound records e logs rep : anchors e logs ->
  verify_records records e = Some rep -> is_valid rep = true ->
  collision_free (logs_inputs (sr_raw_log <$> records) ++ logs_inputs logs) ->
  sr_raw_log <$> records = logs /\
  forall i r, records !! i = Some r -> record_ok i r.
Proof.
  intros [Hc Hm] E Hv HL. destruct (verify_records_spec records e) as (rep' & E' & Hs & _).
  assert (rep' = rep) as -> by congruence. apply Hs in Hv as (Hlen & Hroot & Hrec). split; [|done].
  rewrite Hm in Hroot. apply to_hex_inj in Hroot. unfold records_root, logs_root, logs_inputs in *.
  destruct (from_raw_logs_total (sr_raw_log <$> records)) as [t1 E1].
  destruct (from_raw_logs_total logs) as [t2 E2]. rewrite E1, E2 in *. simpl in *.
  by apply (roots_bind_logs _ _ t1 t2).
Qed.

Lemma elem_of_checks x records : x ∈ concat (imap check_record records) <->
  exists i r, records !! i = Some r /\ x ∈ check_record i r.
Proof.
  rewrite elem_of_concat. setoid_rewrite list_elem_of_lookup. setoid_rewrite list_lookup_imap_Some.
  naive_solver.
Qed.

Lemma elem_of_check x i r : x ∈ check_record i r <->
  (sr_leaf_index r <> wrapu 32 (Z.of_nat i) /\
   x = mkTampered (sr_leaf_index r) (sr_event_id r) (sr_raw_hash r) "" (preview_log (sr_raw_log r))
         (IndexMismatch (wrapu 32 (Z.of_nat i)) (sr_leaf_index r))) \/
  (hex_encode (b32 (sha256 (sr_raw_log r))) <> sr_raw_hash r /\
   x = mkTampered (sr_leaf_index r) (sr_event_id r) (sr_raw_hash r) (hex_encode (b32 (sha256 (sr_raw_log r))))
         (preview_log (sr_raw_log r)) (DigestMismatch (sr_raw_hash r) (hex_encode (b32 (sha256 (sr_raw_log r)))))).
Proof.
  unfold check_record. rewrite elem_of_app.
  repeat case_bool_decide; rewrite ?list_elem_of_singleton, ?elem_of_nil; naive_solver.
Qed.

Lemma elem_of_report x records e rep : verify_records records e = Some rep ->
  x ∈ tampered_records rep <-> x ∈ concat (imap check_record records) \/
    x = mkTampered (wrapu 32 (Z.of_nat (length records))) "" "" "" ""
          (CountDiscrepancy (le_leaf_count e) (length records)) /\ length records <> le_leaf_count e \/
    x = mkTampered 0 "" (le_merkle_root e) (to_hex (records_root records)) ""
          (MerkleRootMismatch (le_merkle_root e) (to_hex (records_root records))) /\
      to_hex (records_root records) <> le_merkle_root e /\ anomalies records e = [].
Proof.
  intros E. destruct (verify_records_total records e) as (rep' & E' & _ & Ht).
  assert (rep' = rep) as -> by congruence. rewrite Ht. clear E E' Ht rep.
  destruct (anomalies records e) as [|y l] eqn:En.
  - rewrite andb_true_r. pose proof (proj1 (anomalies_nil _ _) En) as [Hl Hr].
    pose proof (proj2 (checks_nil _) Hr) as ->. rewrite elem_of_nil.
    case_bool_decide; simpl; rewrite ?list_elem_of_singleton, ?elem_of_nil; naive_solver.
  - rewrite andb_false_r, <- En. assert (anomalies records e <> []) as Hne by (by rewrite En).
    clear En y l. unfold anomalies at 1. rewrite elem_of_app.
    destruct (Nat.eqb_spec (length records) (le_leaf_count e)); rewrite ?list_elem_of_singleton, ?elem_of_nil;
      tauto.
Qed.

(** The report pinpoints: a record with a wrong index or digest is listed
    with its own leaf index, event id, stored digest and the recomputed one,
    and every index or digest anomaly listed comes from such a record. *)
Theorem report_pinpoints records e rep : verify_records records e = Some rep ->
  (forall x, x ∈ tampered_records rep <->
    (exists i r, records !! i = Some r /\ sr_leaf_index r <> wrapu 32 (Z.of_nat i) /\
       x = mkTampered (sr_leaf_index r) (sr_event_id r) (sr_raw_hash r) "" (preview_log (sr_raw_log r))
             (IndexMismatch (wrapu 32 (Z.of_nat i)) (sr_leaf_index r))) \/
    (exists i r, records !! i = Some r /\ hex_encode (b32 (sha256 (sr_raw_log r))) <> sr_raw_hash r /\
       x = mkTampered (sr_leaf_index r) (sr_event_id r) (sr_raw_hash r) (hex_encode (b32 (sha256 (sr_raw_log r))))
             (preview_log (sr_raw_log r)) (DigestMismatch (sr_raw_hash r) (hex_encode (b32 (sha256 (sr_raw_log r)))))) \/
    (length records <> le_leaf_count e /\
       x = mkTampered (wrapu 32 (Z.of_nat (length records))) "" "" "" ""
             (CountDiscrepancy (le_leaf_count e) (length records))) \/
    (anomalies records e = [] /\ to_hex (records_root records) <> le_merkle_root e /\
       x = mkTampered 0 "" (le_merkle_root e) (to_hex (records_root records)) ""
             (MerkleRootMismatch (le_merkle_root e) (to_hex (records_root records))))).
Proof.
  intros E x. rewrite (elem_of_report _ _ _ _ E), elem_of_checks. setoid_rewrite elem_of_check. naive_solver.
Qed.

(** ** Blocks that the batcher wrote *)

Lemma block_records_ok k x : forall i r, block_records k x !! i = Some r -> record_ok i r.
Proof. intros i r Hr. by apply list_lookup_imap_Some in Hr as (l & _ & ->). Qed.

Lemma block_verifies k x : exists rep, verify_records (block_records k x) (block_entry k x) = Some rep /\
  is_valid rep = true.
Proof.
  destruct (verify_records_spec (block_records k x) (block_entry k x)) as (rep & E & Hv & _).
  exists rep; split; [done|]. apply Hv. unfold block_records, records_root.
  rewrite length_imap, (proj1 (stored_fields _ _ _)). split_and!; [done..|]. apply block_records_ok.
Qed.

Lemma find_entry (hist : list Flushed) n k x : hist !! k = Some x ->
  List.find (fun e => le_block_id e =? Z.of_nat (n + k))%Z (imap (fun i => block_entry (n + i)) hist)
  = Some (block_entry (n + k) x).
Proof.
  revert n k; induction hist as [|y hist IH]; intros n [|k] Hk; simplify_eq/=.
  - by rewrite Z.eqb_refl.
  - destruct (Z.eqb_spec (Z.of_nat (n + 0)) (Z.of_nat (n + S k))); [lia|].
    specialize (IH (S n) k Hk). rewrite Nat.add_succ_comm in IH. rewrite <- IH.
    f_equal. apply imap_ext. intros i z _. simpl. f_equal. lia.
Qed.

(** The ledger of a run has a file as soon as a block was flushed. *)
Lemma represents_ledger cfg hist b d k x : represents cfg hist b d -> hist !! k = Some x ->
  is_Some (texts d !! ledger_path cfg) /\ load_ledger_entries d (ledger_path cfg) = Ok (imap block_entry hist).
Proof.
  intros [Rc Rl Rn Rt Rr Re Rb] Hx. unfold load_ledger_entries.
  destruct (texts d !! ledger_path cfg) as [text|] eqn:Et; simpl in Rt.
  2:{ exfalso. rewrite Rl in Rt. destruct hist as [|y hist]; [done|]. rewrite imap_cons in Rt.
      unfold ledger_text in Rt. rewrite fmap_cons in Rt. cbn [str_concat foldr] in Rt.
      destruct (ledger_object (block_entry 0 y)) as [body Eb]. by rewrite Eb in Rt. }
  split; [by eexists|]. by rewrite Rt, load_ledger_text, Rl.
Qed.

(** The audit of a file with records of block [k], whichever they are by now,
    compares them with the entry of block [k]. *)
Lemma audit_block cfg hist b d d' path k x r rs : represents cfg hist b d -> hist !! k = Some x ->
  texts d' !! ledger_path cfg = texts d !! ledger_path cfg -> read_parquet_file (blocks d') path = Some (Ok (r :: rs)) ->
  sr_block_id r = Z.of_nat k ->
  verify_block_with_ledger d' path (ledger_path cfg) = Ok <$> verify_records (r :: rs) (block_entry k x).
Proof.
  intros HR Hx Ht Hr Hid. destruct (represents_ledger _ _ _ _ _ _ HR Hx) as [_ Hl].
  unfold verify_block_with_ledger. rewrite Hr. cbn [xbind]. unfold load_ledger_entries in *. rewrite Ht, Hl. cbn [xbind].
  rewrite Hid. pose proof (find_entry hist 0 k _ Hx) as Hfind. simpl in Hfind.
  change (imap (fun i => block_entry i) hist) with (imap block_entry hist) in Hfind. rewrite Hfind.
  by destruct (verify_records _ _).
Qed.

Lemma represents_head cfg hist b d k x : represents cfg hist b d -> hist !! k = Some x ->
  exists r rs, block_records k x = r :: rs /\ sr_block_id r = Z.of_nat k.
Proof.
  intros HR Hx. pose proof (rep_nonempty _ _ _ _ HR) as Re. rewrite Forall_lookup in Re. specialize (Re _ _ Hx).
  destruct x as [env [|l logs]]; [done|]. by eexists _, _.
Qed.

Lemma represents_verifies cfg hist b d k x : represents cfg hist b d -> hist !! k = Some x ->
  exists rep, verify_block_with_ledger d (block_path cfg k) (ledger_path cfg) = Some (Ok rep) /\
    is_valid rep = true /\ tp_block_id rep = Z.of_nat k.
Proof.
  intros HR Hx. destruct (represents_head _ _ _ _ _ _ HR Hx) as (r & rs & Er & Hid).
  destruct (block_verifies k x) as (rep & Ev & Hval). exists rep. rewrite Er in Ev.
  rewrite (audit_block cfg hist b d d _ k x r rs), Ev; [|done..|by rewrite (rep_blocks _ _ _ _ HR _ _ Hx), Er|done].
  split_and!; [done..|]. clear -Ev. unfold verify_records in Ev. destruct (from_raw_logs _); [|done]. by injection Ev as <-.
Qed.

(** Every block that a fault-free run wrote passes the audit against the
    ledger on disk: for each ledger entry, [verify_block_with_ledger] on its
    file finds the entry and reports a valid block. *)
Theorem flushed_blocks_verify cfg ops : Forall (fun x => good_env x.2) ops ->
  few_vendors (block_limit cfg) (pushed ops) ->
  (Z.of_nat (length ops) < u64_max)%Z ->
  exists b0 rs b d, batcher_new cfg empty_disk = Ok b0 /\
    batch_run ops b0 empty_disk = Some (rs, b, d) /\
    Forall (fun e => exists rep,
        verify_block_with_ledger d (path_join (storage_dir cfg) (le_parquet_file e)) (ledger_path cfg)
          = Some (Ok rep) /\ is_valid rep = true /\ tp_block_id rep = le_block_id e)
      (in_memory_ledger b).
Proof.
  intros HF Hv Hl. destruct (fresh_run cfg ops HF Hv Hl) as (b0 & rs & b & d & hist & E0 & E & Hok & HR & Hcat & Hlh).
  exists b0, rs, b, d. split_and!; [done..|]. rewrite (rep_ledger _ _ _ _ HR). apply Forall_lookup. intros k e He.
  apply list_lookup_imap_Some in He as (x & Hx & ->). exact (represents_verifies _ _ _ _ _ _ HR Hx).
Qed.

(** ** What the audit does not cover *)

(** Two records that agree in what is checked. *)
Definition same_leaf (r r' : StoredLogRecord) : Prop :=
  sr_leaf_index r' = sr_leaf_index r /\ sr_raw_log r' = sr_raw_log r /\ sr_raw_hash r' = sr_raw_hash r.

(** Only raw log, digest and index are protected: records whose event id,
    timestamp, vendor, block id or OCSF text was altered get the same verdict
    and the same computed root as the original ones. *)
Theorem metadata_not_covered records records' e : Forall2 same_leaf records records' ->
  exists rep rep', verify_records records e = Some rep /\ verify_records records' e = Some rep' /\
    is_valid rep' = is_valid rep /\ computed_merkle_root rep' = computed_merkle_root rep.
Proof.
  intros HF. destruct (verify_records_spec records e) as (rep & E & Hv & _).
  destruct (verify_records_spec records' e) as (rep' & E' & Hv' & _).
  assert (sr_raw_log <$> records' = sr_raw_log <$> records) as Hlog.
  { clear -HF. induction HF as [|r r' l l' [_ [Hr _]] _ IH]; [done|]. rewrite !fmap_cons. congruence. }
  exists rep, rep'. split_and!; [done..| |].
  - apply eq_true_iff_eq. rewrite Hv, Hv'. unfold records_root. rewrite Hlog, (Forall2_length _ _ _ HF).
    assert ((forall i r, records !! i = Some r -> record_ok i r) <->
            (forall i r, records' !! i = Some r -> record_ok i r)) as ->; [|done].
    unfold record_ok. split; intros Hr i r Hi.
    + destruct (Forall2_lookup_r _ _ _ _ _ HF Hi) as (r0 & H0' & (-> & -> & ->)). eauto.
    + destruct (Forall2_lookup_l _ _ _ _ _ HF Hi) as (r0 & H0' & (<- & <- & <-)). eauto.
  - clear -E E' Hlog. unfold verify_records in *. rewrite Hlog in E'.
    destruct (from_raw_logs _); [|done]. by simplify_eq/=.
Qed.

(** C38: the audit does not bind a block to its file: when the file of one block
    is overwritten with the (non-empty) file of another, auditing the
    overwritten file gives the report of the other block. *)
Theorem substituted_block_passes d p q lp f rs rep : blocks d !! p = Some f ->
  read_parquet_file (blocks d) p = Some (Ok rs) -> rs <> [] ->
  verify_block_with_ledger d p lp = Some (Ok rep) ->
  verify_block_with_ledger (mkDisk _ (<[q := f]> (blocks d)) (texts d)) q lp = Some (Ok rep).
Proof.
  intros Hf Hr Hne. unfold verify_block_with_ledger, load_ledger_entries. cbn [blocks texts].
  assert (read_parquet_file (<[q:=f]> (blocks d)) q = Some (Ok rs)) as ->.
  { rewrite <- Hr. unfold read_parquet_file, BlockStore in *. by rewrite lookup_insert_eq, Hf. }
  rewrite Hr. cbn [xbind]. by destruct rs.
Qed.

End Facts.

(** ** Witnesses *)

Module TamperDemo.
Import Demo ArrowDemo BatcherDemo.

Definition block : Flushed := (env, [incoming_new "cisco" "%ASA-1 a"; incoming_new "cef" "CEF:0|x"]).
Definition entry : LedgerEntry := block_entry 0 block.
Definition recs : list StoredLogRecord := block_records 0 block.

Definition no_report : TamperReport := mkReport false 0 "" "" 0 0 [] "".
Definition report (l : list StoredLogRecord) : TamperReport := default no_report (verify_records l entry).

(** A record whose raw log was altered under its old digest. *)
Definition altered : StoredLogRecord :=
  mkStored "e1" 0 1 0 "cef" "CEF:0|X" (hex_encode (b32 (sha256 "CEF:0|x"))) "{}".
Definition altered_recs : list StoredLogRecord := take 1 recs ++ [altered].

Lemma verify_records_sound_witness : sr_raw_log <$> recs = ["%ASA-1 a"; "CEF:0|x"] /\
  forall i r, recs !! i = Some r -> record_ok i r.
Proof.
  apply (verify_records_sound recs entry ["%ASA-1 a"; "CEF:0|x"] (report recs)).
  - split; vm_compute; reflexivity.
  - vm_compute; reflexivity.
  - vm_compute; reflexivity.
  - apply (bool_decide_unpack _). vm_compute. exact I.
Defined.

Lemma report_pinpoints_witness :
  mkTampered 1 "e1" (hex_encode (b32 (sha256 "CEF:0|x"))) (hex_encode (b32 (sha256 "CEF:0|X"))) "CEF:0|X"
    (DigestMismatch (hex_encode (b32 (sha256 "CEF:0|x"))) (hex_encode (b32 (sha256 "CEF:0|X"))))
  ∈ tampered_records (report altered_recs).
Proof.
  apply (report_pinpoints altered_recs entry (report altered_recs)).
  - vm_compute; reflexivity.
  - right; left. exists 1, altered. split; [reflexivity|].
    split; [vm_compute; discriminate|vm_compute; reflexivity].
Defined.

Lemma flushed_blocks_verify_witness : exists b0 rs b d, batcher_new cfg empty_disk = Ok b0 /\
    batch_run ops b0 empty_disk = Some (rs, b, d) /\
    Forall (fun e => exists rep,
        verify_block_with_ledger d (path_join (storage_dir cfg) (le_parquet_file e)) (ledger_path cfg)
          = Some (Ok rep) /\ is_valid rep = true /\ tp_block_id rep = le_block_id e)
      (in_memory_ledger b).
Proof.
  apply (flushed_blocks_verify cfg ops); [apply good_ops|apply few_vendors_small; vm_compute; lia|vm_compute; reflexivity].
Defined.

(** The same block with another vendor, time, id and OCSF text in its records. *)
Definition forged_recs : list StoredLogRecord :=
  (fun r => mkStored "forged" 9 (sr_leaf_index r) 1 "nobody" (sr_raw_log r) (sr_raw_hash r) "{}") <$> recs.

Lemma metadata_not_covered_witness : exists rep rep', verify_records recs entry = Some rep /\
  verify_records forged_recs entry = Some rep' /\
  is_valid rep' = is_valid rep /\ computed_merkle_root rep' = computed_merkle_root rep.
Proof. apply (metadata_not_covered recs forged_recs entry). repeat constructor. Defined.

Example forged_recs_valid : is_valid (report forged_recs) = true.
Proof. vm_compute. reflexivity. Qed.

(** Block 1 of a run is overwritten with block 0. *)
Definition disk1 : Disk := match batch_run ops b0 empty_disk with Some (_, _, d) => d | None => empty_disk end.
Definition file0 : parquet_file :=
  default (SNAPPY, mkBatch [] [] 0) (blocks disk1 !! "data/block_00000.parquet").
Definition report0 : TamperReport :=
  match verify_block_with_ledger disk1 "data/block_00000.parquet" "data/ledger.jsonl" with
  | Some (Ok r) => r | _ => no_report end.
Definition recs0 : list StoredLogRecord :=
  match read_parquet_file (blocks disk1) "data/block_00000.parquet" with Some (Ok r) => r | _ => [] end.

Lemma substituted_block_passes_witness :
  verify_block_with_ledger (mkDisk _ (<["data/block_00001.parquet" := file0]> (blocks disk1)) (texts disk1))
    "data/block_00001.parquet" "data/ledger.jsonl" = Some (Ok report0).
Proof.
  apply (substituted_block_passes disk1 "data/block_00000.parquet" "data/block_00001.parquet" "data/ledger.jsonl"
           file0 recs0 report0).
  - vm_compute; reflexivity.
  - vm_compute; reflexivity.
  - vm_compute; discriminate.
  - vm_compute; reflexivity.
Defined.

Example report0_valid : is_valid report0 = true /\ tp_block_id report0 = 0%Z.
Proof. vm_compute. done. Qed.

End TamperDemo.
