(* ===== verification/Queue.v ===== *)
(** * The ingest queue ([crates/ulpf-core/src/ingest/queue.rs])

    The bounded queue between socket producers and the consumer, as a
    transition system: one program counter per producer in [push], the mutex,
    the [not_full] condition variable, and the steps of [pop_batch] and
    [close].  A step is what one thread does between two points where another
    may act: a load of the [closed] flag, taking the mutex, or a piece of the
    critical section that no other thread can observe in part.  [close] stores
    the flag and notifies without the mutex, so these are two steps of their
    own.  Steps interleave sequentially. *)

From S2P Require Export RustStr.

Inductive BackpressurePolicy := Block | Drop.

#[global] Instance BackpressurePolicy_eq_dec : EqDecision BackpressurePolicy.
Proof. solve_decision. Defined.

Record QueueStats := mkStats {
  st_pushed : Z;
  st_dropped : Z;
  st_blocked : Z;
  st_current_len : nat;
  st_queued_bytes : Z;
  st_dropped_bytes : Z;
  st_high_water_bytes : Z
}.

(** ** Shared memory *)

(** The counters are [AtomicU64], whose [fetch_add] wraps. *)
Record MemoryQueueInner := mkQueue {
  queue : list string;
  capacity : nat;
  policy : BackpressurePolicy;
  pushed : Z;
  dropped : Z;
  blocked : Z;
  queued_bytes : Z;
  dropped_bytes : Z;
  high_water_bytes : Z;
  closed : bool
}.

(** [VecDeque::with_capacity] reserves the memory; a capacity above [isize::MAX] bytes
    panics there, before there is a queue. *)
Definition memory_queue_new (capacity : nat) (policy : BackpressurePolicy) : MemoryQueueInner :=
  mkQueue [] capacity policy 0 0 0 0 0 0 false.

Definition add64 (x y : Z) : Z := wrapu 64 (x + y).
Definition sub64 (x y : Z) : Z := wrapu 64 (x - y).
Definition byte_len (b : string) : Z := Z.of_nat (String.length b).

(** [queue.push_back(b)] with its accounting. *)
Definition enqueue (q : MemoryQueueInner) (b : string) : MemoryQueueInner :=
  let len := byte_len b in
  let current := add64 (queued_bytes q) len in
  mkQueue (queue q ++ [b]) (capacity q) (policy q) (add64 (pushed q) 1) (dropped q) (blocked q)
    current (dropped_bytes q) (Z.max (high_water_bytes q) current) (closed q).

Definition count_drop (q : MemoryQueueInner) (b : string) : MemoryQueueInner :=
  mkQueue (queue q) (capacity q) (policy q) (pushed q) (add64 (dropped q) 1) (blocked q)
    (queued_bytes q) (add64 (dropped_bytes q) (byte_len b)) (high_water_bytes q) (closed q).

Definition count_blocked (q : MemoryQueueInner) : MemoryQueueInner :=
  mkQueue (queue q) (capacity q) (policy q) (pushed q) (dropped q) (add64 (blocked q) 1)
    (queued_bytes q) (dropped_bytes q) (high_water_bytes q) (closed q).

(** The loop of [pop_batch]: [n] times [pop_front], with the bytes popped. *)
Fixpoint pop_front_n (n : nat) (l : list string) (bytes_popped : Z) : list string * Z * list string :=
  match n, l with
  | S n', item :: l' =>
      let '(batch, bytes, rest) := pop_front_n n' l' (add64 bytes_popped (byte_len item)) in
      (item :: batch, bytes, rest)
  | _, _ => ([], bytes_popped, l)
  end.

(** [pop_batch]: the batch, the queue after it, and whether [not_full] is
    notified. *)
Definition pop_batch (q : MemoryQueueInner) (max_batch_size : nat) : list string * MemoryQueueInner * bool :=
  match queue q with
  | [] => ([], q, false)
  | _ =>
      let batch_size := Nat.min max_batch_size (length (queue q)) in
      let '(batch, bytes_popped, rest) := pop_front_n batch_size (queue q) 0 in
      match batch with
      | [] => (batch, mkQueue rest (capacity q) (policy q) (pushed q) (dropped q) (blocked q) (queued_bytes q)
                 (dropped_bytes q) (high_water_bytes q) (closed q), false)
      | _ =>
          let gauge := if (0 <? bytes_popped)%Z then sub64 (queued_bytes q) bytes_popped else queued_bytes q in
          (batch, mkQueue rest (capacity q) (policy q) (pushed q) (dropped q) (blocked q) gauge
             (dropped_bytes q) (high_water_bytes q) (closed q), true)
      end
  end.

Definition stats (q : MemoryQueueInner) : QueueStats :=
  mkStats (pushed q) (dropped q) (blocked q) (length (queue q)) (queued_bytes q) (dropped_bytes q)
    (high_water_bytes q).

(** [closed.store(true)] of [close]; its notifications are steps of the system. *)
Definition set_closed (q : MemoryQueueInner) : MemoryQueueInner :=
  mkQueue (queue q) (capacity q) (policy q) (pushed q) (dropped q) (blocked q) (queued_bytes q)
    (dropped_bytes q) (high_water_bytes q) true.

(** ** [push] *)

(** Where a producer is in [push(b)]. *)
Inductive Pc :=
| Entry (b : string)       (** before the first load of [closed] *)
| Locking (b : string)     (** at [queue.lock()] *)
| LoopHead (b : string)    (** Block, with the mutex: at [while queue.len() >= capacity] *)
| LoopClosed (b : string)  (** Block, with the mutex: full, before the load of [closed] *)
| Waiting (b : string)     (** Block, with the mutex: not closed, about to wait *)
| Parked (b : string)      (** in [not_full.wait] *)
| Relock (b : string)      (** woken, to take the mutex again *)
| AfterLoop (b : string)   (** Block, with the mutex: not full, before the load of [closed] *)
| Enqueue (b : string)     (** Block, with the mutex: not closed, about to enqueue *)
| DropClosed (b : string)  (** Drop, with the mutex: before the load of [closed] *)
| DropTest (b : string)    (** Drop, with the mutex: not closed *)
| Done (r : Result string unit).

Definition holds (pc : Pc) : bool :=
  match pc with
  | LoopHead _ | LoopClosed _ | Waiting _ | AfterLoop _ | Enqueue _ | DropClosed _ | DropTest _ => true
  | _ => false
  end.

Definition shut_down : Result string unit := Err "ingest queue is shut down".
Definition shut_down_blocked : Result string unit := Err "ingest queue shut down while blocked".

(** One step of [push]: the next program counter and memory; a step that needs
    the mutex has none while it is taken, and a parked producer has none. *)
Definition push_step (q : MemoryQueueInner) (mutex_free : bool) (pc : Pc) : option (Pc * MemoryQueueInner) :=
  match pc with
  | Entry b => Some (if closed q then Done shut_down else Locking b, q)
  | Locking b =>
      if mutex_free
      then Some (match policy q with Block => LoopHead b | Drop => DropClosed b end, q)
      else None
  | LoopHead b => Some (if (capacity q <=? length (queue q))%nat then LoopClosed b else AfterLoop b, q)
  | LoopClosed b => Some (if closed q then Done shut_down_blocked else Waiting b, q)
  | Waiting b => Some (Parked b, count_blocked q)
  | Parked _ => None
  | Relock b => if mutex_free then Some (LoopHead b, q) else None
  | AfterLoop b => Some (if closed q then Done shut_down_blocked else Enqueue b, q)
  | Enqueue b => Some (Done (Ok tt), enqueue q b)
  | DropClosed b => Some (if closed q then Done shut_down else DropTest b, q)
  | DropTest b =>
      Some (Done (Ok tt), if (capacity q <=? length (queue q))%nat then count_drop q b else enqueue q b)
  | Done _ => None
  end.

(** ** The system *)

(** [notifies] counts the calls of [close] that have stored the flag and not yet
    notified.  The last four fields record the history: lines enqueued, lines
    shed, lines popped, and lines whose [push] returned [Ok]. *)
Record System := mkSystem {
  inner : MemoryQueueInner;
  mutex : option nat;
  threads : gmap nat Pc;
  notifies : nat;
  accepted : list string;
  shed : list string;
  popped : list string;
  acked : list string
}.

Inductive Action :=
| Call (t : nat) (b : string)   (** thread [t] calls [push(b)] *)
| Run (t : nat)                 (** thread [t] makes a step of [push] *)
| Spurious (t : nat)            (** a parked thread wakes without a notification *)
| Pop (max_batch_size : nat)    (** the consumer's [pop_batch] *)
| CloseStore                    (** [close] stores the flag *)
| CloseNotify.                  (** [close] notifies *)

Definition wake (pc : Pc) : Pc := match pc with Parked b => Relock b | _ => pc end.

Definition pc_bytes (pc : Pc) : string :=
  match pc with
  | Entry b | Locking b | LoopHead b | LoopClosed b | Waiting b | Parked b | Relock b | AfterLoop b
  | Enqueue b | DropClosed b | DropTest b => b
  | Done _ => ""
  end.

(** What a step of [push] from [pc] to [pc'] adds to the history, read off its effect:
    the lines that are new at the end of the queue, the line if the counter of
    drops has moved, and the line if the call has returned [Ok]. *)
Definition history (s : System) (pc pc' : Pc) (q' : MemoryQueueInner) : list string * list string * list string :=
  (accepted s ++ drop (length (queue (inner s))) (queue q'),
   if (dropped q' =? dropped (inner s))%Z then shed s else shed s ++ [pc_bytes pc],
   match pc' with Done (Ok _) => acked s ++ [pc_bytes pc] | _ => acked s end).

Definition exec (a : Action) (s : System) : option System :=
  match a with
  | Call t b =>
      match threads s !! t with
      | None | Some (Done _) =>
          Some (mkSystem (inner s) (mutex s) (<[t := Entry b]> (threads s)) (notifies s)
                  (accepted s) (shed s) (popped s) (acked s))
      | _ => None
      end
  | Run t =>
      pc <-! threads s !! t;
      match push_step (inner s) (match mutex s with None => true | Some _ => false end) pc with
      | None => None
      | Some (pc', q') =>
          let m := if holds pc' then Some t else if holds pc then None else mutex s in
          let '(acc, shd, ack) := history s pc pc' q' in
          Some (mkSystem q' m (<[t := pc']> (threads s)) (notifies s) acc shd (popped s) ack)
      end
  | Spurious t =>
      match threads s !! t with
      | Some (Parked b) =>
          Some (mkSystem (inner s) (mutex s) (<[t := Relock b]> (threads s)) (notifies s)
                  (accepted s) (shed s) (popped s) (acked s))
      | _ => None
      end
  | Pop n =>
      match mutex s with
      | Some _ => None
      | None =>
          let '(batch, q', notify) := pop_batch (inner s) n in
          Some (mkSystem q' None (if notify then wake <$> threads s else threads s) (notifies s)
                  (accepted s) (shed s) (popped s ++ batch) (acked s))
      end
  | CloseStore =>
      Some (mkSystem (set_closed (inner s)) (mutex s) (threads s) (S (notifies s))
              (accepted s) (shed s) (popped s) (acked s))
  | CloseNotify =>
      match notifies s with
      | O => None
      | S n => Some (mkSystem (inner s) (mutex s) (wake <$> threads s) n
                       (accepted s) (shed s) (popped s) (acked s))
      end
  end.

Definition initial (cap : nat) (pol : BackpressurePolicy) : System :=
  mkSystem (memory_queue_new cap pol) None ∅ 0 [] [] [] [].

Inductive reachable (cap : nat) (pol : BackpressurePolicy) : System -> Prop :=
| reach_init : reachable cap pol (initial cap pol)
| reach_step s a s' : reachable cap pol s -> exec a s = Some s' -> reachable cap pol s'.

Fixpoint exec_all (l : list Action) (s : System) : option System :=
  match l with
  | [] => Some s
  | a :: l' => s' <-! exec a s; exec_all l' s'
  end.

(** ** The broker stub *)

Record BrokerQueue := mkBroker {
  bk_pushed : Z;
  bk_dropped : Z;
  bk_blocked : Z;
  bk_queued_bytes : Z;
  bk_dropped_bytes : Z;
  bk_high_water_bytes : Z;
  bk_closed : bool
}.

Definition broker_new (capacity : nat) (policy : BackpressurePolicy) : BrokerQueue := mkBroker 0 0 0 0 0 0 false.

Definition broker_push (q : BrokerQueue) (b : string) : Result string unit * BrokerQueue :=
  if bk_closed q then (shut_down, q)
  else (Ok tt, mkBroker (add64 (bk_pushed q) 1) (bk_dropped q) (bk_blocked q) (bk_queued_bytes q)
                 (bk_dropped_bytes q) (bk_high_water_bytes q) (bk_closed q)).

Definition broker_pop_batch (q : BrokerQueue) (max_batch_size : nat) : list string := [].

Definition broker_stats (q : BrokerQueue) : QueueStats :=
  mkStats (bk_pushed q) (bk_dropped q) (bk_blocked q) 0 (bk_queued_bytes q) (bk_dropped_bytes q)
    (bk_high_water_bytes q).

Definition broker_close (q : BrokerQueue) : BrokerQueue :=
  mkBroker (bk_pushed q) (bk_dropped q) (bk_blocked q) (bk_queued_bytes q) (bk_dropped_bytes q)
    (bk_high_water_bytes q) true.
