(* ===== verification/QueueFacts.v ===== *)
(** * Correctness of the ingest queue

    The invariant of the reachable states of the queue, by induction over the
    steps; what it gives: the bound, the first-in-first-out order, the byte
    gauge and the absence of lost wake-ups on the consumer's side; and the
    lost wake-up of [close]. *)

From S2P Require Export Queue.

Definition sum_bytes (l : list string) : Z := foldr (fun b z => (byte_len b + z)%Z) 0%Z l.

Lemma sum_bytes_app l1 l2 : sum_bytes (l1 ++ l2) = (sum_bytes l1 + sum_bytes l2)%Z.
Proof. induction l1 as [|b l1 IH]; simpl; lia. Qed.

Lemma sum_bytes_nonneg l : (0 <= sum_bytes l)%Z.
Proof. induction l as [|b l IH]; simpl; [lia|]. unfold byte_len. lia. Qed.

(** ** The critical section of the consumer *)

Lemma pop_front_n_spec n : forall l z, pop_front_n n l (wrapu 64 z) =
  (take n l, wrapu 64 (z + sum_bytes (take n l)), drop n l).
Proof.
  induction n as [|n IH]; intros [|b l] z; simpl; rewrite ?Z.add_0_r; try done.
  unfold add64. rewrite wrapu_add, IH. by rewrite Z.add_assoc.
Qed.

Lemma pop_batch_spec q n : queued_bytes q = wrapu 64 (sum_bytes (queue q)) ->
  exists q' notify, pop_batch q n = (take n (queue q), q', notify) /\
    q' = mkQueue (drop n (queue q)) (capacity q) (policy q) (pushed q) (dropped q) (blocked q)
           (wrapu 64 (sum_bytes (drop n (queue q)))) (dropped_bytes q) (high_water_bytes q) (closed q) /\
    (notify = true <-> take n (queue q) <> []).
Proof.
  intros Hg. unfold pop_batch. destruct (queue q) as [|b l] eqn:E.
  - destruct q; simpl in *; subst. rewrite take_nil, drop_nil. eexists _, _; split_and!; [done|done|done].
  - rewrite <- E in *. clear b l E.
    replace (pop_front_n _ (queue q) 0) with
      (take n (queue q), wrapu 64 (sum_bytes (take n (queue q))), drop n (queue q)).
    2:{ change 0%Z with (wrapu 64 0) at 1. rewrite pop_front_n_spec.
        destruct (decide (n <= length (queue q))).
        - by rewrite Nat.min_l.
        - by rewrite Nat.min_r, !firstn_all, !skipn_all, !firstn_all2, !skipn_all2 by lia. }
    assert (wrapu 64 (sum_bytes (drop n (queue q))) =
            wrapu 64 (sum_bytes (queue q) - sum_bytes (take n (queue q)))) as Hd.
    { f_equal. rewrite <- (take_drop n (queue q)) at 2. rewrite sum_bytes_app. lia. }
    destruct (take n (queue q)) as [|b l] eqn:Et.
    + eexists _, _; split_and!; [done| |done]. f_equal. rewrite Hd, Hg. simpl. f_equal. lia.
    + eexists _, _; split_and!; [done| |done]. f_equal. rewrite Hd, <- Et, Hg.
      destruct (Z.ltb_spec 0 (wrapu 64 (sum_bytes (take n (queue q))))) as [|Hz].
      * unfold sub64. by rewrite wrapu_sub, wrapu_sub_r.
      * pose proof (wrapu_range 64 (sum_bytes (take n (queue q))) ltac:(lia)) as Hr.
        rewrite <- (wrapu_sub_r 64 (sum_bytes (queue q))).
        replace (wrapu 64 (sum_bytes (take n (queue q)))) with 0%Z by lia. f_equal. lia.
Qed.

Lemma add64_one_ne x : add64 (wrapu 64 x) 1 <> wrapu 64 x.
Proof.
  unfold add64. pose proof (wrapu_range 64 x ltac:(lia)) as Hr. intros E.
  destruct (decide (wrapu 64 x = 2 ^ 64 - 1)%Z) as [Em|Hne].
  - rewrite Em in E. vm_compute in E. discriminate E.
  - rewrite wrapu_small in E by lia. lia.
Qed.

(** ** The invariant *)

(** What a program counter knows of the memory. *)
Definition pc_ok (q : MemoryQueueInner) (pc : Pc) : Prop :=
  match pc with
  | LoopHead _ | Relock _ => policy q = Block
  | LoopClosed _ | Waiting _ | Parked _ => policy q = Block /\ capacity q <= length (queue q)
  | AfterLoop _ | Enqueue _ => policy q = Block /\ length (queue q) < capacity q
  | DropClosed _ | DropTest _ => policy q = Drop
  | _ => True
  end.

Record queue_inv (s : System) : Prop := {
  qi_mutex : forall t, mutex s = Some t <-> exists pc, threads s !! t = Some pc /\ holds pc = true;
  qi_pc : forall t pc, threads s !! t = Some pc -> pc_ok (inner s) pc;
  qi_bound : length (queue (inner s)) <= capacity (inner s);
  qi_fifo : accepted s = popped s ++ queue (inner s);
  qi_bytes : queued_bytes (inner s) = wrapu 64 (sum_bytes (queue (inner s)));
  qi_pushed : pushed (inner s) = wrapu 64 (Z.of_nat (length (accepted s)));
  qi_dropped : dropped (inner s) = wrapu 64 (Z.of_nat (length (shed s)));
  qi_dropped_bytes : dropped_bytes (inner s) = wrapu 64 (sum_bytes (shed s));
  qi_high : (sum_bytes (accepted s) <= u64_max)%Z -> (sum_bytes (queue (inner s)) <= high_water_bytes (inner s))%Z;
  qi_block : policy (inner s) = Block -> acked s = accepted s /\ shed s = [];
  qi_acked : acked s ≡ₚ accepted s ++ shed s
}.

Lemma initial_inv cap pol : queue_inv (initial cap pol).
Proof.
  split; simpl; try done; try lia.
  intros t. split; [done|]. by intros (pc & [=] & _).
Qed.

(** Updates of one thread. *)
Lemma mutex_insert s t pc' (m : option nat) :
  (forall t, mutex s = Some t <-> exists pc, threads s !! t = Some pc /\ holds pc = true) ->
  (if holds pc' then m = Some t /\ (mutex s = None \/ mutex s = Some t)
   else (mutex s = Some t /\ m = None) \/ (mutex s <> Some t /\ m = mutex s)) ->
  forall u, m = Some u <-> exists pc, <[t := pc']> (threads s) !! u = Some pc /\ holds pc = true.
Proof.
  intros Hm Hp u. destruct (decide (t = u)) as [<-|Hne].
  - rewrite lookup_insert_eq. destruct (holds pc') eqn:Eh.
    + destruct Hp as [-> _]. split; [eauto|done].
    + split; [|intros (pc & [= <-] & E); congruence]. intros ->. destruct Hp as [[_ E]|[Hn E]]; congruence.
  - rewrite lookup_insert_ne by done. rewrite <- Hm. destruct (holds pc').
    + destruct Hp as [-> [-> | ->]]; split; intros E; congruence.
    + destruct Hp as [[-> ->]|[_ ->]]; split; intros E; congruence.
Qed.

Lemma pc_insert s t pc' (q : MemoryQueueInner) :
  (forall u pc, u <> t -> threads s !! u = Some pc -> pc_ok q pc) -> pc_ok q pc' ->
  forall u pc, <[t := pc']> (threads s) !! u = Some pc -> pc_ok q pc.
Proof.
  intros Ho Hn u pc. destruct (decide (u = t)) as [->|Hne].
  - rewrite lookup_insert_eq. by intros [= <-].
  - rewrite lookup_insert_ne by done. by apply Ho.
Qed.

(** A thread without the mutex stays where it is right when others enqueue. *)
Lemma pc_ok_enqueue q b pc : holds pc = false -> pc_ok q pc -> pc_ok (enqueue q b) pc.
Proof. destruct pc; simpl; try done. rewrite length_app. naive_solver lia. Qed.

Lemma pc_ok_wake q pc : pc_ok q pc -> pc_ok q (wake pc).
Proof. destruct pc; simpl; naive_solver. Qed.

(** After a wake-up no program counter without the mutex depends on the length. *)
Lemma pc_ok_wake_any q q' pc : holds pc = false -> policy q' = policy q -> pc_ok q pc -> pc_ok q' (wake pc).
Proof. destruct pc; simpl; intros ? E; rewrite ?E; naive_solver. Qed.

Lemma holds_wake pc : holds (wake pc) = holds pc.
Proof. by destruct pc. Qed.

Lemma mutex_wake s : (forall t, mutex s = Some t <-> exists pc, threads s !! t = Some pc /\ holds pc = true) ->
  forall t, mutex s = Some t <-> exists pc, (wake <$> threads s) !! t = Some pc /\ holds pc = true.
Proof.
  intros Hm t. rewrite Hm, lookup_fmap. destruct (threads s !! t) as [pc|]; simpl; [|done].
  split; intros (x & [= <-] & Hh); eexists; (split; [done|]); by rewrite holds_wake in *.
Qed.

Lemma others_free s t u pc pc' : (forall t, mutex s = Some t <-> exists pc, threads s !! t = Some pc /\ holds pc = true) ->
  threads s !! t = Some pc -> holds pc = true -> u <> t -> threads s !! u = Some pc' -> holds pc' = false.
Proof.
  intros Hm Ht Hh Hne Hu. destruct (holds pc') eqn:E; [|done].
  assert (mutex s = Some t) by (apply Hm; eauto). assert (mutex s = Some u) by (apply Hm; eauto). congruence.
Qed.

(** The step of [push] that only moves the program counter. *)
Lemma run_quiet s t pc pc' q' m : queue_inv s -> threads s !! t = Some pc ->
  queue q' = queue (inner s) -> capacity q' = capacity (inner s) -> policy q' = policy (inner s) ->
  pushed q' = pushed (inner s) -> dropped q' = dropped (inner s) -> queued_bytes q' = queued_bytes (inner s) ->
  dropped_bytes q' = dropped_bytes (inner s) -> high_water_bytes q' = high_water_bytes (inner s) ->
  pc_ok q' pc' ->
  (if holds pc' then m = Some t /\ (mutex s = None \/ mutex s = Some t)
   else (mutex s = Some t /\ m = None) \/ (mutex s <> Some t /\ m = mutex s)) ->
  queue_inv (mkSystem q' m (<[t := pc']> (threads s)) (notifies s) (accepted s) (shed s) (popped s) (acked s)).
Proof.
  intros [Im Ip Ib If Iby Ipu Id Idb Ih Ibl Ia] Ht Eq Ec Epol E1 E2 E3 E4 E5 Hpc Hm.
  split; cbn [mutex threads inner accepted shed popped acked]; rewrite ?Eq, ?Ec, ?Epol, ?E1, ?E2, ?E3, ?E4, ?E5; try done.
  - by apply mutex_insert.
  - apply pc_insert; [|done]. intros u x _ Hu. specialize (Ip u x Hu).
    destruct x; simpl in *; by rewrite ?Eq, ?Ec, ?Epol.
Qed.

(** The step of [push] that enqueues. *)
Lemma run_enqueue s t pc b : queue_inv s -> threads s !! t = Some pc -> holds pc = true ->
  length (queue (inner s)) < capacity (inner s) ->
  queue_inv (mkSystem (enqueue (inner s) b) None (<[t := Done (Ok tt)]> (threads s)) (notifies s)
               (accepted s ++ [b]) (shed s) (popped s) (acked s ++ [b])).
Proof.
  intros [Im Ip Ib If Iby Ipu Id Idb Ih Ibl Ia] Ht Hh Hlt.
  split; cbn [mutex threads inner accepted shed popped acked enqueue queue capacity policy pushed dropped
    queued_bytes dropped_bytes high_water_bytes].
  - apply mutex_insert; [done|]. simpl. left. split; [|done]. apply Im. eauto.
  - apply pc_insert; [|done]. intros u x Hne Hu. apply pc_ok_enqueue; [|by eapply Ip].
    eapply (others_free s t u pc); eauto.
  - rewrite length_app; simpl; lia.
  - by rewrite If, app_assoc.
  - unfold add64. rewrite Iby, sum_bytes_app, wrapu_add. simpl. f_equal. lia.
  - unfold add64. rewrite Ipu, wrapu_add, length_app. f_equal. simpl. lia.
  - done.
  - done.
  - rewrite !sum_bytes_app. simpl. intros Hsum. unfold add64. rewrite Iby, wrapu_add.
    pose proof (sum_bytes_nonneg (queue (inner s))). pose proof (sum_bytes_nonneg (popped s)).
    rewrite If, sum_bytes_app in Hsum. unfold byte_len in *.
    rewrite (wrapu_small 64 (_ + _)) by (unfold u64_max in *; lia). lia.
  - intros Hp. by destruct (Ibl Hp) as [-> ->].
  - rewrite Ia, <- !app_assoc. f_equiv. apply Permutation_app_comm.
Qed.

(** The step of [push] that sheds the line. *)
Lemma run_shed s t pc b : queue_inv s -> threads s !! t = Some pc -> holds pc = true ->
  policy (inner s) = Drop ->
  queue_inv (mkSystem (count_drop (inner s) b) None (<[t := Done (Ok tt)]> (threads s)) (notifies s)
               (accepted s) (shed s ++ [b]) (popped s) (acked s ++ [b])).
Proof.
  intros [Im Ip Ib If Iby Ipu Id Idb Ih Ibl Ia] Ht Hh Hp.
  split; cbn [mutex threads inner accepted shed popped acked count_drop queue capacity policy pushed dropped
    queued_bytes dropped_bytes high_water_bytes]; try done.
  - apply mutex_insert; [done|]. simpl. left. split; [|done]. apply Im. eauto.
  - apply pc_insert; [|done]. intros u x Hne Hu. specialize (Ip u x Hu). by destruct x.
  - unfold add64. rewrite Id, wrapu_add, length_app. f_equal. simpl. lia.
  - unfold add64. rewrite Idb, sum_bytes_app, wrapu_add. simpl. f_equal. lia.
  - congruence.
  - by rewrite Ia, app_assoc.
Qed.

Lemma holder_mutex s t pc : queue_inv s -> threads s !! t = Some pc ->
  if holds pc then mutex s = Some t else mutex s <> Some t.
Proof.
  intros I Ht. destruct (holds pc) eqn:E.
  - apply (qi_mutex _ I). eauto.
  - intros (x & Hx & Hh)%(qi_mutex _ I). congruence.
Qed.

(** The history of a step that leaves queue and drops alone and does not return
    [Ok], of one that enqueues, and of one that sheds. *)
Lemma history_quiet s pc pc' q' : queue q' = queue (inner s) -> dropped q' = dropped (inner s) ->
  (forall u, pc' <> Done (Ok u)) -> history s pc pc' q' = (accepted s, shed s, acked s).
Proof.
  intros Eq Ed Hpc. unfold history. rewrite Eq, Ed, drop_all, app_nil_r, Z.eqb_refl.
  destruct pc' as [| | | | | | | | | | |[]]; try done. by destruct (Hpc a).
Qed.

Lemma history_enqueue s pc b : pc_bytes pc = b ->
  history s pc (Done (Ok tt)) (enqueue (inner s) b) = (accepted s ++ [b], shed s, acked s ++ [b]).
Proof. intros <-. unfold history. cbn [enqueue queue dropped]. by rewrite drop_app_length, Z.eqb_refl. Qed.

Lemma history_shed s pc b : pc_bytes pc = b -> dropped (inner s) = wrapu 64 (Z.of_nat (length (shed s))) ->
  history s pc (Done (Ok tt)) (count_drop (inner s) b) = (accepted s, shed s ++ [b], acked s ++ [b]).
Proof.
  intros <- Hd. unfold history. cbn [count_drop queue dropped]. rewrite drop_all, app_nil_r.
  destruct (Z.eqb_spec (add64 (dropped (inner s)) 1) (dropped (inner s))) as [E|_]; [|done]. exfalso.
  rewrite Hd in E. by apply (add64_one_ne (Z.of_nat (length (shed s)))).
Qed.

#[local] Ltac quiet E :=
  rewrite history_quiet in E by done; injection E as <-;
  eapply run_quiet; [eassumption|eassumption|reflexivity..| |]; simpl; eauto.

Lemma run_inv s t s' : queue_inv s -> exec (Run t) s = Some s' -> queue_inv s'.
Proof.
  intros I E. cbn [exec] in E. destruct (threads s !! t) as [pc|] eqn:Ht; [|done].
  pose proof (holder_mutex _ _ _ I Ht) as Hm. pose proof (qi_pc _ I _ _ Ht) as Hpc.
  destruct pc as [b|b|b|b|b|b|b|b|b|b|b|r]; cbn [push_step] in E; simpl holds in *; cbn iota in *; try done.
  - destruct (closed (inner s)); quiet E.
  - destruct (mutex s) as [u|] eqn:Em; [done|]. destruct (policy (inner s)) eqn:Ep; quiet E.
  - destruct (Nat.leb_spec (capacity (inner s)) (length (queue (inner s)))); quiet E.
  - destruct (closed (inner s)); quiet E.
  - quiet E.
  - destruct (mutex s) as [u|] eqn:Em; [done|]. quiet E.
  - destruct (closed (inner s)); quiet E.
  - rewrite (history_enqueue _ _ b) in E by done. injection E as <-. destruct Hpc. by eapply run_enqueue.
  - destruct (closed (inner s)); quiet E.
  - destruct (Nat.leb_spec (capacity (inner s)) (length (queue (inner s)))).
    + rewrite (history_shed _ _ b) in E by (try done; apply I). injection E as <-. by eapply run_shed.
    + rewrite (history_enqueue _ _ b) in E by done. injection E as <-. by eapply run_enqueue.
Qed.

Lemma pop_inv s n s' : queue_inv s -> exec (Pop n) s = Some s' -> queue_inv s'.
Proof.
  intros I E. simpl in E. destruct (mutex s) as [u|] eqn:Em; [done|].
  destruct (pop_batch_spec (inner s) n (qi_bytes _ I)) as (q' & notify & Ep & -> & Hn).
  rewrite Ep in E. injection E as <-. pose proof (qi_mutex _ I) as Im. pose proof (qi_pc _ I) as Ip.
  assert (forall t pc, threads s !! t = Some pc -> holds pc = false) as Hfree.
  { intros t pc Ht. destruct (holds pc) eqn:Eh; [|done]. assert (mutex s = Some t) by (apply Im; eauto). congruence. }
  destruct I as [_ _ Ib If Iby Ipu Id Idb Ih Ibl Ia].
  split; cbn [mutex threads inner accepted shed popped acked queue capacity policy pushed dropped
    queued_bytes dropped_bytes high_water_bytes]; try done.
  - rewrite <- Em. destruct notify; [by apply mutex_wake|done].
  - intros t pc Ht. destruct notify.
    + rewrite lookup_fmap in Ht. destruct (threads s !! t) as [x|] eqn:Ex; simplify_eq/=.
      by eapply (pc_ok_wake_any (inner s)); eauto.
    + assert (take n (queue (inner s)) = []) as Et by (destruct (take n _); [done|]; by destruct Hn as [_ Hn]; discriminate Hn).
      assert (drop n (queue (inner s)) = queue (inner s)) as Ed.
      { rewrite <- (take_drop n (queue (inner s))) at 2. by rewrite Et. }
      specialize (Ip t pc Ht). destruct pc; simpl in *; by rewrite ?Ed.
  - rewrite length_drop. lia.
  - by rewrite <- app_assoc, take_drop.
  - intros Hsum. specialize (Ih Hsum). rewrite <- (take_drop n (queue (inner s))), sum_bytes_app in Ih.
    pose proof (sum_bytes_nonneg (take n (queue (inner s)))). lia.
Qed.

Lemma exec_inv s a s' : queue_inv s -> exec a s = Some s' -> queue_inv s'.
Proof.
  intros I E. destruct a as [t b|t|t|n| |]; [|by eapply run_inv| |by eapply pop_inv|..]; simpl in E.
  - destruct (threads s !! t) as [pc|] eqn:Ht; [destruct pc; try done|]; injection E as <-;
      (destruct I as [Im Ip Ib If Iby Ipu Id Idb Ih Ibl Ia]; split; try done;
       [apply mutex_insert; [done|]; simpl; right; split; [|done]; intros (x & Hx & Hh)%Im; by simplify_eq/=
       |by apply pc_insert; eauto]).
  - destruct (threads s !! t) as [pc|] eqn:Ht; [|done]. destruct pc; try done. injection E as <-.
    destruct I as [Im Ip Ib If Iby Ipu Id Idb Ih Ibl Ia]. split; try done.
    + apply mutex_insert; [done|]. simpl. right. split; [|done]. intros (x & Hx & Hh)%Im. by simplify_eq/=.
    + apply pc_insert; eauto. specialize (Ip _ _ Ht). simpl in *. naive_solver.
  - injection E as <-. destruct I as [Im Ip Ib If Iby Ipu Id Idb Ih Ibl Ia]. split; try done.
  - destruct (notifies s); [done|]. injection E as <-.
    destruct I as [Im Ip Ib If Iby Ipu Id Idb Ih Ibl Ia]. split; try done; [exact (mutex_wake s Im)|].
    intros t pc Ht. simpl in Ht. rewrite lookup_fmap in Ht. destruct (threads s !! t) eqn:Ex; simplify_eq/=.
    by eapply pc_ok_wake, Ip.
Qed.

Lemma reachable_inv cap pol s : reachable cap pol s -> queue_inv s.
Proof. induction 1; [apply initial_inv|by eapply exec_inv]. Qed.


Lemma exec_all_reachable cap pol l : forall s s', reachable cap pol s -> exec_all l s = Some s' ->
  reachable cap pol s'.
Proof.
  induction l as [|a l IH]; intros s s' Hr E; simpl in E; [by simplify_eq|].
  destruct (exec a s) as [s1|] eqn:E1; [|done]. eapply IH; [|exact E]. by eapply reach_step.
Qed.

Lemma exec_config a s s' : exec a s = Some s' ->
  capacity (inner s') = capacity (inner s) /\ policy (inner s') = policy (inner s).
Proof.
  intros E. destruct a as [t b|t|t|n| |]; simpl in E.
  - repeat case_match; by simplify_eq.
  - destruct (threads s !! t) as [pc|]; [|done].
    destruct pc; simpl in E; repeat case_match; by simplify_eq/=.
  - repeat case_match; by simplify_eq.
  - destruct (mutex s); [done|]. unfold pop_batch in E. destruct (queue (inner s)); [by simplify_eq/=|].
    destruct (pop_front_n _ _ _) as [[[|??] ?] ?]; by simplify_eq/=.
  - by simplify_eq/=.
  - repeat case_match; by simplify_eq.
Qed.

Lemma reachable_config cap pol s : reachable cap pol s -> capacity (inner s) = cap /\ policy (inner s) = pol.
Proof. induction 1 as [|s a s' _ [<- <-] E]; [done|]. by apply exec_config in E. Qed.

(** ** Properties *)

(** C7: in every reachable state, whatever the interleaving of producers,
    consumer and [close]: the queue holds at most [capacity] lines; the lines
    enqueued are, in order, those popped followed by those still queued; under
    [Block] the lines whose [push] returned [Ok] are exactly the lines
    enqueued, in the same order, and none is shed; under either policy the lines whose
    [push] returned [Ok] are, up to order, the lines enqueued and the lines shed:
    a call that returned an error has left nothing behind, and a line that was
    neither queued nor counted as shed was never acknowledged. *)
Theorem queue_safety cap pol s : reachable cap pol s ->
  length (queue (inner s)) <= cap /\ accepted s = popped s ++ queue (inner s) /\
  (pol = Block -> acked s = accepted s /\ shed s = []) /\
  acked s ≡ₚ accepted s ++ shed s.
Proof.
  intros Hr. destruct (reachable_config _ _ _ Hr) as [<- <-]. destruct (reachable_inv _ _ _ Hr). done.
Qed.

(** The snapshot of [stats] is consistent in every reachable state: the
    length is that of the queue, the byte gauge is the total size of the
    queued lines, the counters are the numbers and bytes of the lines enqueued
    and shed, all modulo 2^64, and the high-water mark is at least the gauge
    as long as fewer than 2^64 bytes were ever enqueued. *)
Theorem queue_accounting cap pol s : reachable cap pol s ->
  let st := stats (inner s) in
  st_current_len st = length (queue (inner s)) /\
  st_queued_bytes st = wrapu 64 (sum_bytes (queue (inner s))) /\
  st_pushed st = wrapu 64 (Z.of_nat (length (accepted s))) /\
  st_dropped st = wrapu 64 (Z.of_nat (length (shed s))) /\
  st_dropped_bytes st = wrapu 64 (sum_bytes (shed s)) /\
  ((sum_bytes (accepted s) <= u64_max)%Z -> (sum_bytes (queue (inner s)) <= st_high_water_bytes st)%Z).
Proof. intros Hr. by destruct (reachable_inv _ _ _ Hr). Qed.

(** No wake-up of a producer is lost by the consumer: in every reachable
    state a producer is parked only while the queue is full; and when it is
    parked, the queue is open and the mutex is free, one [pop_batch] of at
    least one line and four steps of the producer complete its [push] with its
    line enqueued. *)
Theorem parked_only_while_full cap pol s t b : reachable cap pol s -> threads s !! t = Some (Parked b) ->
  pol = Block /\ length (queue (inner s)) = cap /\
  (0 < cap -> closed (inner s) = false -> mutex s = None -> forall n, exists s',
     exec_all [Pop (S n); Run t; Run t; Run t; Run t] s = Some s' /\
     threads s' !! t = Some (Done (Ok tt)) /\ accepted s' = accepted s ++ [b] /\ mutex s' = None).
Proof.
  intros Hr Ht. destruct (reachable_config _ _ _ Hr) as [Hc Hp]. pose proof (reachable_inv _ _ _ Hr) as I.
  destruct (qi_pc _ I _ _ Ht) as [Hb Hfull]. pose proof (qi_bound _ I) as Hle.
  split_and!; [congruence|lia|]. intros Hcap Hcl Hm n.
  destruct (pop_batch_spec (inner s) (S n) (qi_bytes _ I)) as (q' & notify & Ep & Eq & Hn).
  assert (notify = true) as ->.
  { apply Hn. destruct (queue (inner s)); simpl in *; [lia|done]. }
  assert (policy q' = Block) as Eq1 by (by rewrite Eq). assert (closed q' = false) as Eq2 by (by rewrite Eq).
  assert (capacity q' <=? length (queue q') = false) as Eq3.
  { rewrite Eq. simpl. apply Nat.leb_gt. rewrite length_drop. lia. }
  clear Eq. cbn [exec_all exec]. rewrite Hm, Ep. cbn [exec_all threads mutex inner].
  rewrite lookup_fmap, Ht. cbn [fmap option_fmap option_map wake push_step holds history threads mutex inner].
  rewrite !lookup_insert_eq. cbn [push_step threads mutex inner]. rewrite Eq3.
  cbn [holds history threads mutex inner]. rewrite !lookup_insert_eq. cbn [push_step threads mutex inner].
  rewrite Eq2. cbn [holds history threads mutex inner]. rewrite !lookup_insert_eq.
  cbn [push_step holds history threads mutex inner].
  eexists; split; [reflexivity|]. cbn [threads accepted mutex enqueue queue].
  by rewrite lookup_insert_eq, !drop_all, !app_nil_r, drop_app_length.
Qed.

(** Steps that do not end a wait: those of producers. *)
Definition producer_action (a : Action) : Prop :=
  match a with Call _ _ | Run _ => True | _ => False end.

Lemma parked_stays l : forall s s' t b, Forall producer_action l -> threads s !! t = Some (Parked b) ->
  exec_all l s = Some s' -> threads s' !! t = Some (Parked b).
Proof.
  induction l as [|a l IH]; intros s s' t b HF Ht E; simpl in E; [by simplify_eq|].
  apply Forall_cons in HF as [Ha HF]. destruct (exec a s) as [s1|] eqn:E1; [|done].
  eapply IH; [done| |exact E]. destruct a as [u c|u|u|n| |]; try done; simpl in E1.
  - destruct (decide (u = t)) as [->|Hne]; [by rewrite Ht in E1|].
    repeat case_match; simplify_eq/=; by rewrite lookup_insert_ne.
  - destruct (decide (u = t)) as [->|Hne]; [by rewrite Ht in E1|].
    destruct (threads s !! u) as [pc|]; [|done]. destruct (push_step _ _ _) as [[pc' q']|]; [|done].
    simplify_eq/=. by rewrite lookup_insert_ne.
Qed.

(** [close] runs between the load of the flag and the wait of the second
    producer. *)
Definition closing_schedule (b0 b : string) : list Action :=
  [Call 0 b0; Run 0; Run 0; Run 0; Run 0; Run 0; Call 1 b; Run 1; Run 1; Run 1; Run 1;
   CloseStore; CloseNotify; Run 1].

(** C39: [close] can lose a wake-up: there is a reachable state in which [close]
    has returned, yet a producer is parked on the full queue, because the flag
    was stored and the condition variable notified between the producer's load
    of the flag and its wait; whatever the producers do from there, it stays
    parked until a consumer pops or it wakes for no reason. *)
Theorem close_loses_wakeup : exists s b, reachable 1 Block s /\ closed (inner s) = true /\ notifies s = 0 /\
  mutex s = None /\ threads s !! 1 = Some (Parked b) /\
  forall l s', Forall producer_action l -> exec_all l s = Some s' -> threads s' !! 1 = Some (Parked b).
Proof.
  destruct (exec_all (closing_schedule "first" "second") (initial 1 Block)) as [s|] eqn:E; [|by vm_compute in E].
  exists s, "second".
  assert (closed (inner s) = true /\ notifies s = 0 /\ mutex s = None /\ threads s !! 1 = Some (Parked "second"))
    as (Hc & Hn & Hm & Ht).
  { vm_compute in E. injection E as <-. by vm_compute. }
  assert (reachable 1 Block s) as Hr by (eapply exec_all_reachable; [apply reach_init|exact E]).
  clear E. split_and!; try assumption.
  intros l s' HF E'. exact (parked_stays l s s' 1 "second" HF Ht E').
Qed.

(** ** Witnesses *)

Module QueueDemo.

(** Two producers on a queue of one line; the second one is parked. *)
Definition schedule : list Action :=
  [Call 0 "a"; Run 0; Run 0; Run 0; Run 0; Run 0; Call 1 "bc"; Run 1; Run 1; Run 1; Run 1; Run 1].

Definition state : System := default (initial 1 Block) (exec_all schedule (initial 1 Block)).

Lemma state_reachable : reachable 1 Block state.
Proof. apply (exec_all_reachable 1 Block schedule (initial 1 Block)); [constructor|vm_compute; reflexivity]. Qed.

Lemma queue_safety_witness : length (queue (inner state)) <= 1 /\ accepted state = popped state ++ queue (inner state) /\
  (Block = Block -> acked state = accepted state /\ shed state = []) /\
  acked state ≡ₚ accepted state ++ shed state.
Proof. apply (queue_safety 1 Block state), state_reachable. Defined.

Lemma queue_accounting_witness :
  let st := stats (inner state) in
  st_current_len st = length (queue (inner state)) /\
  st_queued_bytes st = wrapu 64 (sum_bytes (queue (inner state))) /\
  st_pushed st = wrapu 64 (Z.of_nat (length (accepted state))) /\
  st_dropped st = wrapu 64 (Z.of_nat (length (shed state))) /\
  st_dropped_bytes st = wrapu 64 (sum_bytes (shed state)) /\
  ((sum_bytes (accepted state) <= u64_max)%Z -> (sum_bytes (queue (inner state)) <= st_high_water_bytes st)%Z).
Proof. apply (queue_accounting 1 Block state), state_reachable. Defined.

Lemma parked_only_while_full_witness : exists s',
  exec_all [Pop 1; Run 1; Run 1; Run 1; Run 1] state = Some s' /\
  threads s' !! 1 = Some (Done (Ok tt)) /\ accepted s' = accepted state ++ ["bc"] /\ mutex s' = None.
Proof.
  destruct (parked_only_while_full 1 Block state 1 "bc" state_reachable) as (_ & _ & Hw); [vm_compute; reflexivity|].
  apply Hw; [lia|vm_compute; reflexivity|vm_compute; reflexivity].
Defined.

End QueueDemo.
