(* ===== verification/Ocsf.v ===== *)
(** * The event schema ([crates/ulpf-core/src/schema/ocsf.rs])

    The OCSF 1.3 Network Activity event and its constructors.  [HashMap] is a
    [gmap]; integers are [Z] in the range of their Rust type. *)

From S2P Require Export RustStr.

Definition CATEGORY_UID_NETWORK_ACTIVITY : Z := 4.
Definition CLASS_UID_NETWORK_ACTIVITY : Z := 4001.

(** [mod activity_id] *)
Definition OPEN : Z := 1.
Definition CLOSE : Z := 2.
Definition TRAFFIC_FLOW : Z := 3.
Definition OTHER : Z := 99.

(** [mod disposition] *)
Definition ALLOWED : string := "Allowed".
Definition BLOCKED : string := "Blocked".
Definition DROPPED : string := "Dropped".
Definition UNKNOWN : string := "Unknown".

Definition activity_name_from_id (id : Z) : string :=
  if (id =? OPEN)%Z then "Open"
  else if (id =? CLOSE)%Z then "Close"
  else if (id =? TRAFFIC_FLOW)%Z then "Traffic/Flow"
  else if (id =? OTHER)%Z then "Other"
  else "Unknown".

Definition calculate_type_uid (class_uid activity_id : Z) : Z :=
  wrapu 32 (class_uid * 100 + activity_id).

Record Endpoint := mkEndpoint {
  ep_ip : option string;
  ep_port : option Z;
  ep_interface : option string;
  ep_zone : option string
}.

Definition endpoint_default : Endpoint := mkEndpoint None None None None.

Record ConnectionInfo := mkConn {
  ci_protocol_num : option Z;
  ci_protocol_name : option string;
  ci_direction : option string
}.

Definition connection_default : ConnectionInfo := mkConn None None None.

Record Traffic := mkTraffic {
  tf_bytes_in : option Z;
  tf_bytes_out : option Z;
  tf_packets_in : option Z;
  tf_packets_out : option Z
}.

Record Product := mkProduct {
  pr_vendor_name : string;
  pr_name : string;
  pr_version : option string
}.

Record Metadata := mkMetadata {
  md_product : Product;
  md_raw_data : string;
  md_raw_hash : string;
  md_event_id : string;
  md_ingest_time : Z
}.

Record NetworkActivity := mkActivity {
  na_activity_id : Z;
  na_activity_name : string;
  na_category_uid : Z;
  na_class_uid : Z;
  na_type_uid : Z;
  na_time : Z;
  na_disposition : string;
  na_src_endpoint : Endpoint;
  na_dst_endpoint : Endpoint;
  na_connection_info : ConnectionInfo;
  na_traffic : option Traffic;
  na_metadata : Metadata;
  na_unmapped : option (gmap string string)
}.

(** [NetworkActivity::new] *)
Definition activity_new (activity_id time : Z) (disposition : string) (src dst : Endpoint)
    (conn : ConnectionInfo) (traffic : option Traffic) (metadata : Metadata) : NetworkActivity :=
  mkActivity activity_id (activity_name_from_id activity_id) CATEGORY_UID_NETWORK_ACTIVITY
    CLASS_UID_NETWORK_ACTIVITY (calculate_type_uid CLASS_UID_NETWORK_ACTIVITY activity_id)
    time disposition src dst conn traffic metadata None.

Definition set_unmapped (a : NetworkActivity) (m : option (gmap string string)) : NetworkActivity :=
  mkActivity (na_activity_id a) (na_activity_name a) (na_category_uid a) (na_class_uid a) (na_type_uid a)
    (na_time a) (na_disposition a) (na_src_endpoint a) (na_dst_endpoint a) (na_connection_info a)
    (na_traffic a) (na_metadata a) m.

Definition with_unmapped (a : NetworkActivity) (unmapped : gmap string string) : NetworkActivity :=
  if decide (unmapped = ∅) then a else set_unmapped a (Some unmapped).

Definition add_unmapped (a : NetworkActivity) (key value : string) : NetworkActivity :=
  set_unmapped a (Some (<[key := value]> (default ∅ (na_unmapped a)))).

(** The assignments to [metadata] at the end of [UniversalParser::parse]. *)
Definition set_provenance (a : NetworkActivity) (raw raw_hash event_id : string) (ingest_time : Z)
  : NetworkActivity :=
  mkActivity (na_activity_id a) (na_activity_name a) (na_category_uid a) (na_class_uid a) (na_type_uid a)
    (na_time a) (na_disposition a) (na_src_endpoint a) (na_dst_endpoint a) (na_connection_info a)
    (na_traffic a) (mkMetadata (md_product (na_metadata a)) raw raw_hash event_id ingest_time)
    (na_unmapped a).

(** ** Well-formed events

    The values that the schema prescribes, and integers in the range of their
    Rust types. *)

Definition opt_range (max : Z) (o : option Z) : Prop :=
  match o with Some z => (0 <= z <= max)%Z | None => True end.

Record traffic_wf (t : Traffic) : Prop := {
  tw_bytes_in : opt_range u64_max (tf_bytes_in t);
  tw_bytes_out : opt_range u64_max (tf_bytes_out t);
  tw_packets_in : opt_range u64_max (tf_packets_in t);
  tw_packets_out : opt_range u64_max (tf_packets_out t)
}.

Record activity_wf (a : NetworkActivity) : Prop := {
  aw_category : na_category_uid a = 4%Z;
  aw_class : na_class_uid a = 4001%Z;
  aw_type : na_type_uid a = (400100 + na_activity_id a)%Z;
  aw_activity : na_activity_id a ∈ [OPEN; CLOSE; TRAFFIC_FLOW; OTHER];
  aw_name : na_activity_name a = activity_name_from_id (na_activity_id a);
  aw_disposition : na_disposition a ∈ [ALLOWED; BLOCKED; DROPPED; UNKNOWN];
  aw_src_port : opt_range u16_max (ep_port (na_src_endpoint a));
  aw_dst_port : opt_range u16_max (ep_port (na_dst_endpoint a));
  aw_proto : opt_range u8_max (ci_protocol_num (na_connection_info a));
  aw_traffic : match na_traffic a with Some t => traffic_wf t | None => True end
}.

Lemma activity_new_wf id time disp src dst conn traffic md :
  id ∈ [OPEN; CLOSE; TRAFFIC_FLOW; OTHER] -> disp ∈ [ALLOWED; BLOCKED; DROPPED; UNKNOWN] ->
  opt_range u16_max (ep_port src) -> opt_range u16_max (ep_port dst) ->
  opt_range u8_max (ci_protocol_num conn) ->
  match traffic with Some t => traffic_wf t | None => True end ->
  activity_wf (activity_new id time disp src dst conn traffic md).
Proof.
  intros Hid Hd Hs Hdst Hp Ht. split; try done. simpl.
  assert (0 <= id <= 99)%Z by (unfold OPEN, CLOSE, TRAFFIC_FLOW, OTHER in Hid; set_unfold in Hid; lia).
  unfold calculate_type_uid, CLASS_UID_NETWORK_ACTIVITY, wrapu. rewrite Z.mod_small; lia.
Qed.

Lemma with_unmapped_wf a m : activity_wf a -> activity_wf (with_unmapped a m).
Proof. unfold with_unmapped. case_decide; [done|]. by intros []; split. Qed.

Lemma set_provenance_wf a raw h id t : activity_wf a -> activity_wf (set_provenance a raw h id t).
Proof. by intros []; split. Qed.
