(* ===== verification/ExtractCommon.v ===== *)
(** * Helpers of the extractors ([crates/ulpf-core/src/parser/extractors/mod.rs])

    Protocol tables, the CSV tokenizer and the time parsers; the crates
    [chrono], [regex] and [serde_json] as parameters. *)

From S2P Require Export Ocsf External.

(** ** Third-party code *)

(** Crate [chrono]: parsing to epoch milliseconds. *)
Class ChronoLib := {
  (** [NaiveDateTime::parse_from_str(s, fmt)], then [and_utc().timestamp_millis()] *)
  naive_millis : string -> string -> option Z;
  (** [DateTime::parse_from_rfc3339(s)], then [timestamp_millis()] *)
  rfc3339_millis : string -> option Z
}.

(** Crate [regex]: [Regex::new(pattern).captures(text)]: the whole match and the
    groups, each with its text if it took part in the match. *)
Class RegexLib := { re_captures : string -> string -> option (list (option string)) }.

(** [caps.get(i).map(|m| m.as_str())] *)
Definition cap (caps : list (option string)) (i : nat) : option string :=
  match caps !! i with Some (Some s) => Some s | _ => None end.

(** Crate [serde_json]: values; an object has its members in an association
    list with distinct keys. *)
#[warnings="-register-all"]
Inductive JValue :=
| JNull
| JBool (b : bool)
| JInt (z : Z)
| JFloat (text : string)
| JString (s : string)
| JArray (l : list JValue)
| JObject (members : list (string * JValue)).

Class JsonLib := {
  (** [from_str::<Value>(s)], with the text of the error *)
  json_from_str : string -> Result string JValue;
  (** [value.to_string()] *)
  json_to_string : JValue -> string
}.

Fixpoint assoc {A} (k : string) (l : list (string * A)) : option A :=
  match l with
  | [] => None
  | (k', v) :: l' => if String.eqb k k' then Some v else assoc k l'
  end.

(** [Value::get(key)], [as_str], [as_u64], [as_object] *)
Definition json_get (v : JValue) (key : string) : option JValue :=
  match v with JObject m => assoc key m | _ => None end.
Definition as_str (v : JValue) : option string := match v with JString s => Some s | _ => None end.
Definition as_u64 (v : JValue) : option Z :=
  match v with JInt z => if ((0 <=? z) && (z <=? u64_max))%Z then Some z else None | _ => None end.
Definition as_object (v : JValue) : option JValue := match v with JObject _ => Some v | _ => None end.

(** ** Protocols *)

Definition protocol_num_from_name (name : string) : option Z :=
  let u := to_ascii_uppercase name in
  if one_of ["ICMP"] u then Some 1%Z
  else if one_of ["IGMP"] u then Some 2%Z
  else if one_of ["TCP"] u then Some 6%Z
  else if one_of ["UDP"] u then Some 17%Z
  else if one_of ["GRE"] u then Some 47%Z
  else if one_of ["ESP"] u then Some 50%Z
  else if one_of ["AH"] u then Some 51%Z
  else if one_of ["ICMPV6"; "ICMP6"] u then Some 58%Z
  else if one_of ["OSPF"] u then Some 89%Z
  else if one_of ["SCTP"] u then Some 132%Z
  else None.

Definition protocol_name_from_num (num : Z) : string :=
  if (num =? 1)%Z then "ICMP"
  else if (num =? 2)%Z then "IGMP"
  else if (num =? 6)%Z then "TCP"
  else if (num =? 17)%Z then "UDP"
  else if (num =? 47)%Z then "GRE"
  else if (num =? 50)%Z then "ESP"
  else if (num =? 51)%Z then "AH"
  else if (num =? 58)%Z then "ICMPv6"
  else if (num =? 89)%Z then "OSPF"
  else if (num =? 132)%Z then "SCTP"
  else "UNKNOWN".

(** ** CSV *)

Definition finish_csv_field (raw : string) (dirty : bool) : string :=
  if dirty then
    let t := trim raw in
    let t := default t (strip_prefix dquote_str t) in
    let t := default t (strip_suffix_char dquote t) in
    trim (replace (dquote_str +:+ dquote_str) dquote_str t)
  else trim raw.

(** The loop of [split_csv]; [cur] is [input[start..i]]. *)
Fixpoint split_csv_go (in_quotes dirty : bool) (cur s : string) : list string :=
  match s with
  | "" => [finish_csv_field cur dirty]
  | String a s1 =>
      if Ascii.eqb a dquote then
        let toggle := split_csv_go (negb in_quotes) true (cur +:+ dquote_str) s1 in
        match s1 with
        | String b s2 =>
            if in_quotes && Ascii.eqb b dquote
            then split_csv_go in_quotes true (cur +:+ dquote_str +:+ dquote_str) s2
            else toggle
        | "" => toggle
        end
      else if Ascii.eqb a "," && negb in_quotes
      then finish_csv_field cur dirty :: split_csv_go in_quotes false "" s1
      else split_csv_go in_quotes dirty (cur +:+ String a "") s1
  end.

Definition split_csv (input : string) : list string := split_csv_go false false "" input.

(** ** Times *)

Section Times.
Context `{ChronoLib}.

Definition parse_date_time_or_fallback (date time : string) (fallback : Z) : Z :=
  let combined := trim date +:+ " " +:+ trim time in
  default fallback (naive_millis combined "%Y-%m-%d %H:%M:%S").

Definition parse_palo_alto_time_or_fallback (dt_str : string) (fallback : Z) : Z :=
  default fallback (naive_millis (trim dt_str) "%Y/%m/%d %H:%M:%S").

Definition parse_rfc3339_or_fallback (ts_str : string) (fallback : Z) : Z :=
  default fallback (rfc3339_millis (trim ts_str)).

End Times.

(** [o.filter(|p| *p != 0)] *)
Definition nonzero (o : option Z) : option Z :=
  match o with Some z => if (z =? 0)%Z then None else Some z | None => None end.

Definition parse_u8 : string -> option Z := parse_uint u8_max.
Definition parse_u16 : string -> option Z := parse_uint u16_max.
Definition parse_u64 : string -> option Z := parse_uint u64_max.

(** An extractor: [None] is a panic. *)
Definition Extracted : Type := option (Result string NetworkActivity).

(** Inserts a value that is there. *)
Definition insert_some (key : string) (v : option string) (m : gmap string string) : gmap string string :=
  match v with Some s => <[key := s]> m | None => m end.

(** Inserts a value that is not empty. *)
Definition insert_nonempty (key v : string) (m : gmap string string) : gmap string string :=
  if is_empty v then m else <[key := v]> m.
