(* ===== verification/PfSense.v ===== *)
(** * pfSense filterlog ([crates/ulpf-core/src/parser/extractors/pfsense.rs]) *)

From S2P Require Export ExtractCommon.

(** The variables that the two layouts assign. *)
Record Flow := mkFlow {
  fl_src_ip : option string;
  fl_dst_ip : option string;
  fl_src_port : option Z;
  fl_dst_port : option Z;
  fl_proto_num : option Z;
  fl_proto_name : option string
}.

Definition has_ports (proto_num : option Z) : bool :=
  match proto_num with Some n => ((n =? 6) || (n =? 17))%Z | None => false end.

(** The port in a field that is there, never zero. *)
Definition port_field (fields : list string) (i : nat) : option Z := nonzero (fields !! i ≫= parse_u16).

Definition pfsense_ipv4 (fields : list string) : Flow :=
  let proto_num := fields !! 15 ≫= parse_u8 in
  let name := to_ascii_uppercase <$> fields !! 16 in
  let proto_num := match name with
                   | Some n => match proto_num with None => protocol_num_from_name n | Some _ => proto_num end
                   | None => proto_num
                   end in
  let ports := has_ports proto_num in
  mkFlow (fields !! 18) (fields !! 19)
    (if ports then port_field fields 20 else None) (if ports then port_field fields 21 else None)
    proto_num name.

Definition pfsense_ipv6 (fields : list string) : Flow :=
  let name := to_ascii_uppercase <$> fields !! 12 in
  let proto_num := name ≫= protocol_num_from_name in
  let proto_num := match proto_num with None => fields !! 13 ≫= parse_u8 | Some _ => proto_num end in
  let ports := has_ports proto_num in
  mkFlow (fields !! 15) (fields !! 16)
    (if ports then port_field fields 17 else None) (if ports then port_field fields 18 else None)
    proto_num name.

Definition pfsense_csv_part (raw : string) : string :=
  match find "filterlog" raw with
  | Some fl_pos =>
      let sub := str_drop fl_pos raw in
      match find ":" sub with
      | Some colon_pos => trim (str_drop (colon_pos + 1) sub)
      | None => trim raw
      end
  | None => trim raw
  end.

Definition pfsense_disposition (action : string) : string :=
  let a := to_ascii_lowercase action in
  if one_of ["pass"] a then ALLOWED
  else if one_of ["block"; "reject"] a then BLOCKED
  else if one_of ["drop"] a then DROPPED
  else UNKNOWN.

Definition pfsense_parse (now_ms : Z) (raw : string) : Extracted :=
  let fields := split_csv (pfsense_csv_part raw) in
  if (length fields <? 9)%nat
  then Some (Err ("pfSense filterlog has insufficient fields (found " +:+ pretty (length fields) +:+ "): " +:+ raw))
  else
    let field i d := default d (fields !! i) in
    let rule_num := field 0 "" in
    let tracker := field 3 "" in
    let interface := field 4 "" in
    let reason := field 5 "" in
    let action := field 6 "" in
    let direction := field 7 "" in
    let ip_version := field 8 "4" in
    let flow := if String.eqb ip_version "4" then pfsense_ipv4 fields
                else if String.eqb ip_version "6" then pfsense_ipv6 fields
                else mkFlow None None None None None None in
    let disp := pfsense_disposition action in
    let act_id := if String.eqb disp ALLOWED then TRAFFIC_FLOW else OTHER in
    let d := to_ascii_lowercase direction in
    let dir := if one_of ["in"] d then Some "Inbound" else if one_of ["out"] d then Some "Outbound" else None in
    let intf_opt := if is_empty interface then None else Some interface in
    let unmapped :=
      <["ip_version" := ip_version]>
        (insert_nonempty "reason" reason
           (insert_nonempty "tracker" tracker
              (insert_nonempty "rule_number" rule_num ∅))) in
    let product := mkProduct "Netgate" "pfSense filterlog" None in
    let metadata := mkMetadata product raw "" "" now_ms in
    Some (Ok (with_unmapped
      (activity_new act_id now_ms disp
         (mkEndpoint (fl_src_ip flow) (fl_src_port flow) intf_opt None)
         (mkEndpoint (fl_dst_ip flow) (fl_dst_port flow) None None)
         (mkConn (fl_proto_num flow) (fl_proto_name flow) dir) None metadata) unmapped)).
