(* ===== verification/Fortigate.v ===== *)
(** * FortiGate key-value logs ([crates/ulpf-core/src/parser/extractors/fortigate.rs])

    The key-value tokenizer, which the CEF extractor uses too, and the FortiGate
    extractor. *)

From S2P Require Export ExtractCommon.

(** [char::is_alphanumeric] outside ASCII is a Unicode table. *)
Class UnicodeLib := {
  is_alphanumeric : string -> bool;
  is_alphanumeric_ascii : forall a, is_alphanumeric (String a "") = is_ascii_alnum a
}.

Definition backslash : ascii := "092".

(** The search for the closing quote. *)
Fixpoint find_close (escaped : bool) (s : string) : option nat :=
  match s with
  | "" => None
  | String b s' =>
      if escaped then S <$> find_close false s'
      else if Ascii.eqb b backslash then S <$> find_close true s'
      else if Ascii.eqb b dquote then Some 0
      else S <$> find_close false s'
  end.

Section Fortigate.
Context `{UnicodeLib} `{ChronoLib}.

Definition kv_key_junk (c : string) : bool := negb (is_alphanumeric c) && negb (String.eqb c "_").

(** The value after the equals sign, and what follows it. *)
Definition kv_value (after_eq : string) : string * string :=
  match strip_prefix dquote_str after_eq with
  | Some inner =>
      match find_close false inner with
      | Some close_idx => (str_take close_idx inner, str_drop (close_idx + 1) inner)
      | None => (inner, "")
      end
  | None =>
      match find_char is_whitespace after_eq with
      | Some idx => (str_take idx after_eq, str_drop idx after_eq)
      | None => (after_eq, "")
      end
  end.

(** [KvTokenizer::next]: [None] is a panic, [Some None] the end, otherwise the
    pair with the rest of the input. *)
Definition kv_next (s : string) : option (option (string * string * string)) :=
  let s := trim_start s in
  if is_empty s then Some None
  else match find_byte (Ascii.eqb "=") s with
       | None => Some None
       | Some eq_pos =>
           let raw_key := str_take eq_pos s in
           key <-! match rfind_char is_whitespace raw_key with
                   | Some space_pos => slice_from (space_pos + 1) raw_key
                   | None => Some raw_key
                   end;
           let key := trim_start_matches kv_key_junk key in
           let '(val, rest) := kv_value (str_drop (eq_pos + 1) s) in
           Some (Some (key, val, rest))
       end.

(** The pairs of an input; a step consumes at least its equals sign. *)
Fixpoint kv_tokens_fuel (fuel : nat) (s : string) : option (list (string * string)) :=
  match kv_next s with
  | None => None
  | Some None => Some []
  | Some (Some (key, val, rest)) =>
      match fuel with
      | O => None
      | S fuel' => l <-! kv_tokens_fuel fuel' rest; Some ((key, val) :: l)
      end
  end.

(** [for (key, val) in KvTokenizer::new(input)] *)
Definition kv_tokens (input : string) : option (list (string * string)) :=
  kv_tokens_fuel (String.length input) (trim input).

(** The variables of the loop. *)
Record FortiVars := mkForti {
  fv_src_ip : option string; fv_dst_ip : option string;
  fv_src_port : option Z; fv_dst_port : option Z;
  fv_src_intf : option string; fv_dst_intf : option string;
  fv_src_zone : option string; fv_dst_zone : option string;
  fv_proto_num : option Z; fv_proto_name : option string;
  fv_action : option string;
  fv_sent_bytes : option Z; fv_rcvd_bytes : option Z;
  fv_sent_pkts : option Z; fv_rcvd_pkts : option Z;
  fv_date : option string; fv_time : option string;
  fv_devname : option string;
  fv_unmapped : gmap string string
}.

Definition forti_empty : FortiVars :=
  mkForti None None None None None None None None None None None None None None None None None None ∅.

(** [proto]: a number, or a name. *)
Definition parse_proto (val : string) : option Z * string :=
  match parse_u8 val with
  | Some num => (Some num, protocol_name_from_num num)
  | None => let name := to_ascii_uppercase val in (protocol_num_from_name name, name)
  end.

(** The body of the loop. *)
Definition forti_step (v : FortiVars) (kv : string * string) : FortiVars :=
  let '(key, val) := kv in
  let '(mkForti si di sp dp sf df sz dz pn pm ac sb rb sk rk da ti dv um) := v in
  if one_of ["srcip"] key then mkForti (Some val) di sp dp sf df sz dz pn pm ac sb rb sk rk da ti dv um
  else if one_of ["dstip"] key then mkForti si (Some val) sp dp sf df sz dz pn pm ac sb rb sk rk da ti dv um
  else if one_of ["srcport"] key then mkForti si di (parse_u16 val) dp sf df sz dz pn pm ac sb rb sk rk da ti dv um
  else if one_of ["dstport"] key then mkForti si di sp (parse_u16 val) sf df sz dz pn pm ac sb rb sk rk da ti dv um
  else if one_of ["srcintf"] key then mkForti si di sp dp (Some val) df sz dz pn pm ac sb rb sk rk da ti dv um
  else if one_of ["dstintf"] key then mkForti si di sp dp sf (Some val) sz dz pn pm ac sb rb sk rk da ti dv um
  else if one_of ["srcintfrole"; "srczone"] key
       then mkForti si di sp dp sf df (Some val) dz pn pm ac sb rb sk rk da ti dv um
  else if one_of ["dstintfrole"; "dstzone"] key
       then mkForti si di sp dp sf df sz (Some val) pn pm ac sb rb sk rk da ti dv um
  else if one_of ["proto"] key then
    let '(num, name) := parse_proto val in
    mkForti si di sp dp sf df sz dz num (Some name) ac sb rb sk rk da ti dv um
  else if one_of ["action"] key then mkForti si di sp dp sf df sz dz pn pm (Some val) sb rb sk rk da ti dv um
  else if one_of ["sentbyte"] key then mkForti si di sp dp sf df sz dz pn pm ac (parse_u64 val) rb sk rk da ti dv um
  else if one_of ["rcvdbyte"] key then mkForti si di sp dp sf df sz dz pn pm ac sb (parse_u64 val) sk rk da ti dv um
  else if one_of ["sentpkt"] key then mkForti si di sp dp sf df sz dz pn pm ac sb rb (parse_u64 val) rk da ti dv um
  else if one_of ["rcvdpkt"] key then mkForti si di sp dp sf df sz dz pn pm ac sb rb sk (parse_u64 val) da ti dv um
  else if one_of ["date"] key then mkForti si di sp dp sf df sz dz pn pm ac sb rb sk rk (Some val) ti dv um
  else if one_of ["time"] key then mkForti si di sp dp sf df sz dz pn pm ac sb rb sk rk da (Some val) dv um
  else if one_of ["devname"] key then mkForti si di sp dp sf df sz dz pn pm ac sb rb sk rk da ti (Some val) um
  else mkForti si di sp dp sf df sz dz pn pm ac sb rb sk rk da ti dv (<[key := val]> um).

(** No port for ICMP, and no port zero. *)
Definition normalize_port (proto_num port : option Z) : option Z :=
  if bool_decide (proto_num = Some 1%Z) then None else nonzero port.

Definition forti_disposition (action : option string) : string * Z :=
  match to_ascii_lowercase <$> action with
  | None => (UNKNOWN, TRAFFIC_FLOW)
  | Some a =>
      if one_of ["accept"; "allow"; "allowed"] a then (ALLOWED, TRAFFIC_FLOW)
      else if one_of ["deny"; "denied"; "block"; "blocked"] a then (BLOCKED, OTHER)
      else if one_of ["drop"] a then (DROPPED, OTHER)
      else if one_of ["close"; "closed"; "client-rst"; "server-rst"; "timeout"; "reset"] a then (ALLOWED, CLOSE)
      else if one_of ["open"; "start"] a then (ALLOWED, OPEN)
      else (UNKNOWN, TRAFFIC_FLOW)
  end.

Definition is_some {A} (o : option A) : bool := match o with Some _ => true | None => false end.

Definition fortigate_event (now_ms : Z) (raw : string) (v : FortiVars) : NetworkActivity :=
  let src_port := normalize_port (fv_proto_num v) (fv_src_port v) in
  let dst_port := normalize_port (fv_proto_num v) (fv_dst_port v) in
  let event_time := match fv_date v, fv_time v with
                    | Some d, Some t => parse_date_time_or_fallback d t now_ms
                    | _, _ => now_ms
                    end in
  let '(disp, act_id) := forti_disposition (fv_action v) in
  let src_port := if bool_decide (fv_proto_num v = Some 1%Z) then None else src_port in
  let dst_port := if bool_decide (fv_proto_num v = Some 1%Z) then None else dst_port in
  let traffic :=
    if is_some (fv_sent_bytes v) || is_some (fv_rcvd_bytes v) || is_some (fv_sent_pkts v) || is_some (fv_rcvd_pkts v)
    then Some (mkTraffic (fv_rcvd_bytes v) (fv_sent_bytes v) (fv_rcvd_pkts v) (fv_sent_pkts v))
    else None in
  let product := mkProduct "Fortinet" (default "FortiGate" (fv_devname v)) None in
  let metadata := mkMetadata product raw "" "" now_ms in
  with_unmapped
    (activity_new act_id event_time disp
       (mkEndpoint (fv_src_ip v) src_port (fv_src_intf v) (fv_src_zone v))
       (mkEndpoint (fv_dst_ip v) dst_port (fv_dst_intf v) (fv_dst_zone v))
       (mkConn (fv_proto_num v) (fv_proto_name v) None) traffic metadata)
    (fv_unmapped v).

Definition fortigate_parse (now_ms : Z) (raw : string) : Extracted :=
  tokens <-! kv_tokens raw;
  Some (Ok (fortigate_event now_ms raw (foldl forti_step forti_empty tokens))).

End Fortigate.
