(* ===== verification/Cef.v ===== *)
(** * ArcSight CEF ([crates/ulpf-core/src/parser/extractors/cef.rs]) *)

From S2P Require Export Fortigate.

Definition pipe : ascii := "|".
Definition backslash_str : string := String backslash "".

(** The loop of [unescape_cef]. *)
Fixpoint unescape_chars (cs : list string) : string :=
  match cs with
  | [] => ""
  | c :: cs1 =>
      if String.eqb c backslash_str then
        match cs1 with
        | [] => backslash_str
        | x :: cs2 =>
            (if String.eqb x "r" then String carriage_return ""
             else if String.eqb x "n" then String newline ""
             else x) +:+ unescape_chars cs2
        end
      else c +:+ unescape_chars cs1
  end.

Definition unescape_cef (s : string) : string :=
  if contains backslash_str s then unescape_chars (chars s) else s.

(** The loop of [split_cef_header]; [cur] is [input[start..i]]. *)
Fixpoint split_cef_go (splits : nat) (cur s : string) : list string :=
  if (splits <? 7)%nat then
    match s with
    | "" => [cur]
    | String a s1 =>
        if Ascii.eqb a backslash then
          match s1 with
          | "" => [cur +:+ String a ""]
          | String b s2 => split_cef_go splits (cur +:+ String a (String b "")) s2
          end
        else if Ascii.eqb a pipe then unescape_cef cur :: split_cef_go (S splits) "" s1
        else split_cef_go splits (cur +:+ String a "") s1
    end
  else [cur +:+ s].

Definition split_cef_header (input : string) : list string := split_cef_go 0 "" input.

(** The variables of the loop over the extension. *)
Record CefVars := mkCefVars {
  cv_src_ip : option string; cv_dst_ip : option string;
  cv_src_port : option Z; cv_dst_port : option Z;
  cv_proto_num : option Z; cv_proto_name : option string;
  cv_action : option string;
  cv_rcvd_bytes : option Z; cv_sent_bytes : option Z;
  cv_unmapped : gmap string string
}.

Definition cef_empty : CefVars := mkCefVars None None None None None None None None None ∅.

Definition cef_step (v : CefVars) (kv : string * string) : CefVars :=
  let '(key, val) := kv in
  let val := unescape_cef (trim_matches (String.eqb dquote_str) val) in
  let '(mkCefVars si di sp dp pn pm ac rb sb um) := v in
  if one_of ["src"] key then mkCefVars (Some val) di sp dp pn pm ac rb sb um
  else if one_of ["dst"] key then mkCefVars si (Some val) sp dp pn pm ac rb sb um
  else if one_of ["spt"; "sport"] key then mkCefVars si di (parse_u16 val) dp pn pm ac rb sb um
  else if one_of ["dpt"; "dport"] key then mkCefVars si di sp (parse_u16 val) pn pm ac rb sb um
  else if one_of ["proto"] key then
    let '(num, name) := parse_proto val in mkCefVars si di sp dp num (Some name) ac rb sb um
  else if one_of ["act"; "action"] key then mkCefVars si di sp dp pn pm (Some val) rb sb um
  else if one_of ["in"] key then mkCefVars si di sp dp pn pm ac (parse_u64 val) sb um
  else if one_of ["out"] key then mkCefVars si di sp dp pn pm ac rb (parse_u64 val) um
  else mkCefVars si di sp dp pn pm ac rb sb (<[key := val]> um).

Definition cef_disposition (action : option string) : string * Z :=
  match to_ascii_lowercase <$> action with
  | None => (UNKNOWN, TRAFFIC_FLOW)
  | Some a =>
      if one_of ["accept"; "allow"; "allowed"] a then (ALLOWED, TRAFFIC_FLOW)
      else if one_of ["deny"; "denied"; "blocked"; "block"] a then (BLOCKED, OTHER)
      else if one_of ["drop"] a then (DROPPED, OTHER)
      else if one_of ["close"; "closed"; "timeout"; "client-rst"; "server-rst"; "reset"] a then (ALLOWED, CLOSE)
      else (UNKNOWN, TRAFFIC_FLOW)
  end.

(** What [parse] does after the loop. *)
Definition cef_event (now_ms : Z) (raw : string) (header : list string) (v : CefVars) : NetworkActivity :=
  let get i := default "" (header !! i) in
  let vendor := trim (get 1) in
  let product_name := trim (get 2) in
  let device_version := trim (get 3) in
  let signature_id := trim (get 4) in
  let cef_name := trim (get 5) in
  let severity := trim (get 6) in
  let src_port := normalize_port (cv_proto_num v) (cv_src_port v) in
  let dst_port := normalize_port (cv_proto_num v) (cv_dst_port v) in
  let unmapped :=
    insert_nonempty "cef_severity" severity
      (insert_nonempty "cef_name" cef_name
         (insert_nonempty "cef_signature_id" signature_id (cv_unmapped v))) in
  let '(disp, act_id) := cef_disposition (cv_action v) in
  let traffic := if is_some (cv_rcvd_bytes v) || is_some (cv_sent_bytes v)
                 then Some (mkTraffic (cv_rcvd_bytes v) (cv_sent_bytes v) None None) else None in
  let product := mkProduct vendor (if is_empty product_name then "CEF" else product_name)
                   (if is_empty device_version then None else Some device_version) in
  let metadata := mkMetadata product raw "" "" now_ms in
  with_unmapped
    (activity_new act_id now_ms disp
       (mkEndpoint (cv_src_ip v) src_port None None) (mkEndpoint (cv_dst_ip v) dst_port None None)
       (mkConn (cv_proto_num v) (cv_proto_name v) None) traffic metadata) unmapped.

Section Cef.
Context `{UnicodeLib}.

Definition cef_parse (now_ms : Z) (raw : string) : Extracted :=
  match find "CEF:" raw with
  | None => Some (Err ("Not a CEF record (no 'CEF:' header): " +:+ raw))
  | Some cef_pos =>
      let header := split_cef_header (str_drop cef_pos raw) in
      let extension := default "" (header !! 7) in
      tokens <-! kv_tokens extension;
      Some (Ok (cef_event now_ms raw header (foldl cef_step cef_empty tokens)))
  end.

End Cef.
