(* ===== verification/PaloAlto.v ===== *)
(** * PAN-OS traffic logs ([crates/ulpf-core/src/parser/extractors/paloalto.rs]) *)

From S2P Require Export Fortigate.

Definition strip_syslog_prefix (raw : string) : string :=
  let trimmed := trim raw in
  if starts_with "1,20" trimmed then trimmed
  else match find " 1,20" trimmed with
  | Some pos => str_drop (pos + 1) trimmed
  | None =>
  match find ": 1,20" trimmed with
  | Some pos => str_drop (pos + 2) trimmed
  | None =>
  match find ",TRAFFIC," trimmed with
  | Some traffic_pos =>
      let before := str_take traffic_pos trimmed in
      match rfind_char (String.eqb " ") before with
      | Some space_pos => str_drop (space_pos + 1) trimmed
      | None => trimmed
      end
  | None => trimmed
  end end end.

(** The closure [get]: field [idx] of the layout, when it is there and not blank. *)
Definition palo_get (fields : list string) (base idx : Z) : option string :=
  let actual := (idx + base)%Z in
  if ((0 <=? actual) && (actual <? Z.of_nat (length fields)))%Z
  then s <-! fields !! Z.to_nat actual;
       let s := trim s in if is_empty s then None else Some s
  else None.

Definition palo_disposition (action : string) : string :=
  let a := to_ascii_lowercase action in
  if one_of ["allow"] a then ALLOWED
  else if one_of ["deny"] a then BLOCKED
  else if one_of ["drop"] a then DROPPED
  else if one_of ["reset-client"; "reset-server"; "reset-both"] a then BLOCKED
  else UNKNOWN.

Definition palo_activity (subtype disp : string) : Z :=
  let s := to_ascii_lowercase subtype in
  if one_of ["start"] s then OPEN
  else if one_of ["end"] s then CLOSE
  else if one_of ["drop"; "deny"] s then OTHER
  else if String.eqb disp ALLOWED then TRAFFIC_FLOW else OTHER.

Section PaloAlto.
Context `{ChronoLib}.

Definition palo_event (now_ms : Z) (raw : string) (fields : list string) : NetworkActivity :=
  let traffic_idx := default 3 (position (fun f => eq_ignore_ascii_case f "TRAFFIC") fields) in
  let base := (Z.of_nat traffic_idx - 3)%Z in
  let get i := palo_get fields base (Z.of_nat i) in
  let subtype := default "" (get 4) in
  let proto_str := default "" (get 29) in
  let action_str := default "" (get 30) in
  let is_icmp := eq_ignore_ascii_case proto_str "icmp" || eq_ignore_ascii_case proto_str "icmp6"
                 || String.eqb proto_str "1" in
  let src_port := if is_icmp then None else nonzero (get 24 ≫= parse_u16) in
  let dst_port := if is_icmp then None else nonzero (get 25 ≫= parse_u16) in
  let bytes_sent := get 32 ≫= parse_u64 in
  let bytes_rcvd := get 33 ≫= parse_u64 in
  let packets := get 34 ≫= parse_u64 in
  let event_time := match get 1 with
                    | Some rt => parse_palo_alto_time_or_fallback rt now_ms
                    | None => now_ms
                    end in
  let proto_name := if is_empty proto_str then None else Some (to_ascii_uppercase proto_str) in
  let proto_num := proto_name ≫= protocol_num_from_name in
  let disp := palo_disposition action_str in
  let act_id := palo_activity subtype disp in
  let icmp := bool_decide (proto_name = Some "ICMP") || bool_decide (proto_num = Some 1%Z) in
  let final_src_port := if icmp then None else src_port in
  let final_dst_port := if icmp then None else dst_port in
  let traffic := if is_some bytes_sent || is_some bytes_rcvd || is_some packets
                 then Some (mkTraffic bytes_rcvd bytes_sent None packets) else None in
  let unmapped :=
    insert_nonempty "subtype" subtype
      (insert_some "session_id" (get 22)
         (insert_some "serial" (get 2)
            (insert_some "application" (get 14)
               (insert_some "rule" (get 11) ∅)))) in
  let product := mkProduct "Palo Alto Networks" "PAN-OS" None in
  let metadata := mkMetadata product raw "" "" now_ms in
  with_unmapped
    (activity_new act_id event_time disp
       (mkEndpoint (get 7) final_src_port (get 18) (get 16))
       (mkEndpoint (get 8) final_dst_port (get 19) (get 17))
       (mkConn proto_num proto_name None) traffic metadata) unmapped.

Definition palo_parse (now_ms : Z) (raw : string) : Extracted :=
  let fields := split_csv (strip_syslog_prefix raw) in
  if (length fields <? 10)%nat
  then Some (Err ("Palo Alto log does not have enough CSV fields (found " +:+ pretty (length fields) +:+ "): " +:+ raw))
  else Some (Ok (palo_event now_ms raw fields)).

End PaloAlto.
