(* ===== verification/Suricata.v ===== *)
(** * Suricata EVE JSON ([crates/ulpf-core/src/parser/extractors/suricata.rs]) *)

From S2P Require Export Fortigate.

Definition get_string (v : JValue) (key : string) : option string := json_get v key ≫= as_str.
Definition get_u64 (v : JValue) (key : string) : option Z := json_get v key ≫= as_u64.

(** [p as u16] *)
Definition as_u16 (p : Z) : Z := wrapu 16 p.

(** The variables that the flow and alert objects assign. *)
Record EveVars := mkEve {
  ev_traffic : option Traffic;
  ev_disp : string;
  ev_act_id : Z;
  ev_unmapped : gmap string string
}.

Definition eve_flow (flow_obj : JValue) (v : EveVars) : EveVars :=
  let bytes_toserver := get_u64 flow_obj "bytes_toserver" in
  let bytes_toclient := get_u64 flow_obj "bytes_toclient" in
  let pkts_toserver := get_u64 flow_obj "pkts_toserver" in
  let pkts_toclient := get_u64 flow_obj "pkts_toclient" in
  let traffic :=
    if is_some bytes_toserver || is_some bytes_toclient || is_some pkts_toserver || is_some pkts_toclient
    then Some (mkTraffic bytes_toclient bytes_toserver pkts_toclient pkts_toserver)
    else ev_traffic v in
  let disp := match get_string flow_obj "action" with
              | Some flow_action => if eq_ignore_ascii_case flow_action "drop" then DROPPED else ev_disp v
              | None => ev_disp v
              end in
  match get_string flow_obj "state" with
  | Some state =>
      let s := to_ascii_lowercase state in
      let act_id := if one_of ["closed"] s then CLOSE else if one_of ["new"] s then OPEN else ev_act_id v in
      mkEve traffic disp act_id (<["flow_state" := state]> (ev_unmapped v))
  | None => mkEve traffic disp (ev_act_id v) (ev_unmapped v)
  end.

Section Suricata.
Context `{JsonLib} `{ChronoLib}.

Definition eve_alert (alert_obj : JValue) (v : EveVars) : EveVars :=
  let '(disp, um) :=
    match get_string alert_obj "action" with
    | Some action =>
        let a := to_ascii_lowercase action in
        (if one_of ["blocked"; "reject"] a then BLOCKED
         else if one_of ["drop"; "dropped"] a then DROPPED
         else if one_of ["allowed"; "pass"] a then ALLOWED
         else BLOCKED, <["alert_action" := action]> (ev_unmapped v))
    | None => (BLOCKED, ev_unmapped v)
    end in
  let um := insert_some "alert_signature" (get_string alert_obj "signature") um in
  let um := insert_some "alert_category" (get_string alert_obj "category") um in
  let um := insert_some "alert_severity" (json_to_string <$> json_get alert_obj "severity") um in
  mkEve (ev_traffic v) disp OTHER um.

Definition suricata_event (now_ms : Z) (raw : string) (val : JValue) : NetworkActivity :=
  let event_time := match get_string val "timestamp" with
                    | Some ts => parse_rfc3339_or_fallback ts now_ms
                    | None => now_ms
                    end in
  let event_type := default "unknown" (get_string val "event_type") in
  let src_port := as_u16 <$> get_u64 val "src_port" in
  let dst_port := as_u16 <$> get_u64 val "dest_port" in
  let proto_name := to_ascii_uppercase <$> get_string val "proto" in
  let proto_num := proto_name ≫= protocol_num_from_name in
  let unmapped := <["event_type" := event_type]> (∅ : gmap string string) in
  let unmapped := insert_some "flow_id" (json_to_string <$> json_get val "flow_id") unmapped in
  let v := mkEve None ALLOWED TRAFFIC_FLOW unmapped in
  let v := match json_get val "flow" ≫= as_object with Some o => eve_flow o v | None => v end in
  let v := match json_get val "alert" ≫= as_object with Some o => eve_alert o v | None => v end in
  let product := mkProduct "OISF" "Suricata" None in
  let metadata := mkMetadata product raw "" "" now_ms in
  with_unmapped
    (activity_new (ev_act_id v) event_time (ev_disp v)
       (mkEndpoint (get_string val "src_ip") src_port (get_string val "in_iface") None)
       (mkEndpoint (get_string val "dest_ip") dst_port None None)
       (mkConn proto_num proto_name None) (ev_traffic v) metadata)
    (ev_unmapped v).

Definition suricata_parse (now_ms : Z) (raw : string) : Extracted :=
  let json_slice := match find "{" raw with Some pos => str_drop pos raw | None => trim raw end in
  match json_from_str json_slice with
  | Err e => Some (Err ("Failed to parse Suricata JSON: " +:+ e +:+ " in " +:+ raw))
  | Ok val => Some (Ok (suricata_event now_ms raw val))
  end.

End Suricata.
