(* ===== verification/CiscoAsa.v ===== *)
(** * Cisco ASA syslog ([crates/ulpf-core/src/parser/extractors/cisco_asa.rs])

    The regular expressions are those of the source; matching them is the
    [regex] crate's. *)

From S2P Require Export Fortigate.

Definition REGEX_ASA_HEADER : string := "%ASA-(\d+)-(\d+):\s*(.*)".
Definition REGEX_BUILT : string :=
  "Built\s+(inbound|outbound)?\s*([A-Za-z0-9]+)\s+connection\s+(\d+)\s+for\s+([^\s]+)(?:\s+\([^\)]+\))?\s+to\s+([^\s]+)".
Definition REGEX_TEARDOWN : string :=
  "Teardown\s+([A-Za-z0-9]+)\s+connection\s+(\d+)\s+for\s+([^\s]+)\s+to\s+([^\s]+)(?:.*?duration\s+([^\s]+))?(?:.*?bytes\s+(\d+))?".
Definition REGEX_DENY : string :=
  "Deny\s+([A-Za-z0-9]+)\s+src\s+([^\s]+)\s+dst\s+([^\s]+)(?:.*?by\s+access-group\s+([^\s\[]+))?".
Definition REGEX_DENIED_CONN : string :=
  "(?:(Inbound|Outbound)\s+)?([A-Za-z0-9]+)\s+connection\s+denied\s+from\s+([^\s]+)\s+to\s+([^\s]+)(?:.*?interface\s+([^\s]+))?".
Definition REGEX_DROPPED_ACL : string :=
  "(?i)dropped\s+([A-Za-z0-9]+)\s+from\s+([^\s,]+)\s+to\s+([^\s,]+)".
Definition REGEX_SESSION_DISCONNECT : string :=
  "Group\s*=\s*([^,]+),\s*Username\s*=\s*([^,]+),\s*IP\s*=\s*([^,\s]+),\s*Session disconnected\.\s*Session Type:\s*([^,]+),\s*Duration:\s*([^,]+),\s*Bytes xmt:\s*(\d+),\s*Bytes rcv:\s*(\d+),\s*Reason:\s*(.+?)\s*$".

Definition normalize_direction (dir : string) : string :=
  let d := to_ascii_lowercase dir in
  if one_of ["inbound"; "in"] d then "Inbound"
  else if one_of ["outbound"; "out"] d then "Outbound"
  else "Unknown".

Definition is_bracket (c : string) : bool := one_of ["("; ")"; "["; "]"] c.

(** [interface:ip/port], with the interface and the port optional. *)
Definition parse_endpoint_str (text : string) (default_intf : option string)
  : option string * option Z * option string :=
  let clean := trim_matches is_bracket (trim text) in
  let '(intf, rest) := match find ":" clean with
                       | Some colon_pos => (Some (str_take colon_pos clean), str_drop (colon_pos + 1) clean)
                       | None => (default_intf, clean)
                       end in
  let '(ip, port) := match find "/" rest with
                     | Some slash_pos => (Some (str_take slash_pos rest), parse_u16 (str_drop (slash_pos + 1) rest))
                     | None => (Some rest, None)
                     end in
  (ip, port, intf).

Definition asa_endpoint (e : option string * option Z * option string) : Endpoint :=
  let '(ip, port, intf) := e in mkEndpoint ip port intf None.

Definition asa_metadata (raw : string) (now_ms : Z) : Metadata :=
  mkMetadata (mkProduct "Cisco" "ASA" None) raw "" "" now_ms.

(** The construction that the branches with endpoints share. *)
Definition asa_event (now_ms : Z) (raw : string) (act_id : Z) (disp proto_str : string)
    (direction : option string) (src dst : option string * option Z * option string)
    (traffic : option Traffic) (unmapped : gmap string string) : NetworkActivity :=
  let proto_name := to_ascii_uppercase proto_str in
  let proto_num := protocol_num_from_name proto_name in
  with_unmapped
    (activity_new act_id now_ms disp (asa_endpoint src) (asa_endpoint dst)
       (mkConn proto_num (Some proto_name) direction) traffic (asa_metadata raw now_ms)) unmapped.

Definition asa_built (now_ms : Z) (raw : string) (unmapped : gmap string string) (caps : list (option string))
  : NetworkActivity :=
  let dir_str := default "Unknown" (cap caps 1) in
  let proto_str := default "TCP" (cap caps 2) in
  let conn_id := default "" (cap caps 3) in
  asa_event now_ms raw OPEN ALLOWED proto_str (Some (normalize_direction dir_str))
    (parse_endpoint_str (default "" (cap caps 4)) None) (parse_endpoint_str (default "" (cap caps 5)) None)
    None (<["connection_id" := conn_id]> unmapped).

Definition asa_teardown (now_ms : Z) (raw : string) (unmapped : gmap string string) (caps : list (option string))
  : NetworkActivity :=
  let proto_str := default "TCP" (cap caps 1) in
  let conn_id := default "" (cap caps 2) in
  let bytes := cap caps 6 ≫= parse_u64 in
  asa_event now_ms raw CLOSE ALLOWED proto_str None
    (parse_endpoint_str (default "" (cap caps 3)) None) (parse_endpoint_str (default "" (cap caps 4)) None)
    ((fun b => mkTraffic None (Some b) None None) <$> bytes)
    (insert_some "duration" (cap caps 5) (<["connection_id" := conn_id]> unmapped)).

Definition asa_deny (now_ms : Z) (raw : string) (unmapped : gmap string string) (caps : list (option string))
  : NetworkActivity :=
  let proto_str := default "TCP" (cap caps 1) in
  let acl := trim_matches (String.eqb dquote_str) <$> cap caps 4 in
  asa_event now_ms raw OTHER BLOCKED proto_str None
    (parse_endpoint_str (default "" (cap caps 2)) None) (parse_endpoint_str (default "" (cap caps 3)) None)
    None (insert_some "access_group" acl unmapped).

Definition asa_denied_conn (now_ms : Z) (raw : string) (unmapped : gmap string string) (caps : list (option string))
  : NetworkActivity :=
  let dir_str := default "Inbound" (cap caps 1) in
  let proto_str := default "TCP" (cap caps 2) in
  asa_event now_ms raw OTHER DROPPED proto_str (Some (normalize_direction dir_str))
    (parse_endpoint_str (default "" (cap caps 3)) (cap caps 5)) (parse_endpoint_str (default "" (cap caps 4)) None)
    None unmapped.

Definition asa_dropped_acl (now_ms : Z) (raw : string) (unmapped : gmap string string) (caps : list (option string))
  : NetworkActivity :=
  let proto_str := default "UDP" (cap caps 1) in
  asa_event now_ms raw OTHER DROPPED proto_str None
    (parse_endpoint_str (default "" (cap caps 2)) None) (parse_endpoint_str (default "" (cap caps 3)) None)
    None unmapped.

Definition asa_disconnect (now_ms : Z) (raw : string) (unmapped : gmap string string) (caps : list (option string))
  : NetworkActivity :=
  let field i := trim <$> cap caps i in
  let bytes_xmt := cap caps 6 ≫= parse_u64 in
  let bytes_rcv := cap caps 7 ≫= parse_u64 in
  let unmapped :=
    insert_some "disconnect_reason" (field 8)
      (insert_some "duration" (field 5)
         (insert_some "session_type" (field 4)
            (insert_some "username" (field 2)
               (insert_some "vpn_group" (field 1) unmapped)))) in
  let traffic := match bytes_rcv, bytes_xmt with
                 | Some rcv, Some xmt => Some (mkTraffic (Some rcv) (Some xmt) None None)
                 | _, _ => None
                 end in
  with_unmapped
    (activity_new CLOSE now_ms ALLOWED (mkEndpoint (field 3) None None None) endpoint_default
       connection_default traffic (asa_metadata raw now_ms)) unmapped.

Definition asa_fallback_disposition (body : string) : string :=
  let body_lower := to_ascii_lowercase body in
  if contains "authentication failed" body_lower || contains "login failed" body_lower then BLOCKED
  else if contains "Built" body || contains "Teardown" body || contains "successful login" body_lower
          || contains "tunnel established" body_lower || contains "session disconnected" body_lower then ALLOWED
  else if contains "Deny" body || contains "denied" body then BLOCKED
  else if contains "drop" body || contains "dropped" body then DROPPED
  else UNKNOWN.

Definition fallback_parse (raw body : string) (now_ms : Z) (unmapped : gmap string string) : NetworkActivity :=
  let act_id := if contains "Built" body then OPEN else if contains "Teardown" body then CLOSE else OTHER in
  with_unmapped
    (activity_new act_id now_ms (asa_fallback_disposition body) endpoint_default endpoint_default
       connection_default None (asa_metadata raw now_ms)) unmapped.

Section CiscoAsa.
Context `{RegexLib}.

Definition asa_parse (now_ms : Z) (raw : string) : Extracted :=
  match re_captures REGEX_ASA_HEADER raw with
  | None => Some (Err ("Raw log does not contain valid %ASA- header: " +:+ raw))
  | Some captures =>
      let severity := match cap captures 1 with Some s => default 6%Z (parse_u8 s) | None => 6%Z end in
      let message_code := default "" (cap captures 2) in
      let body := default "" (cap captures 3) in
      let unmapped := <["cisco_message_code" := message_code]>
                        (<["cisco_severity" := uint_to_string severity]> (∅ : gmap string string)) in
      let fallback := fallback_parse raw body now_ms unmapped in
      Some (Ok
        (if one_of ["302013"; "302015"; "302020"] message_code then
           match re_captures REGEX_BUILT body with
           | Some caps => asa_built now_ms raw unmapped caps
           | None => fallback
           end
         else if one_of ["302014"; "302016"; "302021"] message_code then
           match re_captures REGEX_TEARDOWN body with
           | Some caps => asa_teardown now_ms raw unmapped caps
           | None => fallback
           end
         else if one_of ["106023"] message_code then
           match re_captures REGEX_DENY body with
           | Some caps => asa_deny now_ms raw unmapped caps
           | None => fallback
           end
         else if one_of ["106001"; "106006"; "106007"] message_code then
           match re_captures REGEX_DENIED_CONN body with
           | Some caps => asa_denied_conn now_ms raw unmapped caps
           | None =>
               match re_captures REGEX_DROPPED_ACL body with
               | Some caps => asa_dropped_acl now_ms raw unmapped caps
               | None => fallback
               end
           end
         else if one_of ["113019"] message_code then
           match re_captures REGEX_SESSION_DISCONNECT body with
           | Some caps => asa_disconnect now_ms raw unmapped caps
           | None => fallback
           end
         else fallback))
  end.

End CiscoAsa.
