(* ===== verification/Classifier.v ===== *)
(** * Format classification ([crates/ulpf-core/src/parser/classifier.rs]) *)

From S2P Require Export RustStrFacts.

Inductive VendorFormat :=
| CiscoAsa | Fortinet | PaloAlto | Suricata | PfSense | Cef | UnknownFormat.

#[global] Instance VendorFormat_eq_dec : EqDecision VendorFormat.
Proof. solve_decision. Defined.

Definition format_as_str (f : VendorFormat) : string :=
  match f with
  | CiscoAsa => "Cisco ASA"
  | Fortinet => "Fortinet FortiGate"
  | PaloAlto => "Palo Alto PAN-OS"
  | Suricata => "Suricata EVE-JSON"
  | PfSense => "pfSense Filterlog"
  | Cef => "ArcSight CEF"
  | UnknownFormat => "Unknown"
  end.

(** ** Crate [aho-corasick]

    [MatchKind::LeftmostFirst]: of the matches that start leftmost, the one of
    the pattern that comes first in the list. *)

Fixpoint first_prefix (pats : list string) (s : string) : option nat :=
  match pats with
  | [] => None
  | p :: pats' => if starts_with p s then Some 0 else S <$> first_prefix pats' s
  end.

Fixpoint leftmost_first (pats : list string) (s : string) : option nat :=
  match first_prefix pats s with
  | Some i => Some i
  | None => match s with "" => None | String _ s' => leftmost_first pats s' end
  end.

Class AhoCorasick := {
  (** [ac.find(s).map(|m| m.pattern())] for the automaton of the patterns *)
  ac_find : list string -> string -> option nat;
  ac_find_spec : forall pats s, ac_find pats s = leftmost_first pats s
}.

(** ** The classifier *)

Definition patterns_with_formats : list (string * VendorFormat) :=
  [ ("%ASA-", CiscoAsa);
    ("CEF:", Cef);
    ("devname=" +:+ dquote_str, Fortinet);
    ("type=" +:+ dquote_str +:+ "traffic" +:+ dquote_str, Fortinet);
    ("logid=" +:+ dquote_str, Fortinet);
    ("type=traffic", Fortinet);
    ("devname=", Fortinet);
    ("filterlog[", PfSense);
    ("filterlog:", PfSense);
    ("{" +:+ dquote_str +:+ "timestamp" +:+ dquote_str +:+ ":", Suricata);
    (dquote_str +:+ "event_type" +:+ dquote_str +:+ ":", Suricata);
    (dquote_str +:+ "flow" +:+ dquote_str +:+ ":", Suricata);
    (dquote_str +:+ "alert" +:+ dquote_str +:+ ":", Suricata);
    (",TRAFFIC,", PaloAlto);
    (",THREAT,", PaloAlto);
    (",SYSTEM,", PaloAlto);
    ("TRAFFIC,drop", PaloAlto);
    ("TRAFFIC,allow", PaloAlto);
    ("TRAFFIC,start", PaloAlto);
    ("TRAFFIC,end", PaloAlto);
    ("PAN-OS", PaloAlto) ].

Definition pattern_to_format : list VendorFormat := patterns_with_formats.*2.

Definition fallback_classify (raw : string) : VendorFormat :=
  let trimmed := trim raw in
  let has p := contains p trimmed in
  if has "%ASA-" then CiscoAsa
  else if has "CEF:" then Cef
  else if has "filterlog" then PfSense
  else if (starts_with "{" trimmed || has ("{" +:+ dquote_str))
          && (has (dquote_str +:+ "timestamp" +:+ dquote_str) || has (dquote_str +:+ "event_type" +:+ dquote_str))
       then Suricata
  else if (has "srcip=" || has "dstip=") && has "proto=" then Fortinet
  else if (15 <=? count_byte "," trimmed)%nat
          && (has "TRAFFIC" || has "THREAT" || has "allow" || has "deny" || has "drop")
       then PaloAlto
  else UnknownFormat.

Section Classifier.
Context `{AhoCorasick}.

Definition classify (raw : string) : VendorFormat :=
  match ac_find (patterns_with_formats.*1) raw with
  | Some idx =>
      match pattern_to_format !! idx with
      | Some f => f
      | None => fallback_classify raw
      end
  | None => fallback_classify raw
  end.

End Classifier.
