(* ===== verification/Lru.v ===== *)
(** * The signature cache ([crates/ulpf-core/src/parser/lru_cache.rs])

    The Fx hash, the shards with their eviction queue, and the signature of a
    line.  The operations are those of one thread at a time: each takes the
    lock of its shard. *)

From S2P Require Export Classifier Float64.

(** ** [FxHasher64] *)

(** [rotate_left(5)] on 64 bits *)
Definition rotl5 (h : Z) : Z := Z.lor (u64 (Z.shiftl h 5)) (Z.shiftr h 59).

Definition FX_SEED : Z := 0x517cc1b727220a95.

Fixpoint fx_write (hash : Z) (bytes : string) : Z :=
  match bytes with
  | "" => hash
  | String b bytes' => fx_write (u64 (Z.lxor (rotl5 hash) (byte_val b) * FX_SEED)) bytes'
  end.

(** ** Shards *)

Record Shard := mkShard {
  sh_capacity : nat;
  sh_entries : gmap Z VendorFormat;
  sh_order : list Z
}.

Definition shard_new (capacity : nat) : Shard := mkShard capacity ∅ [].

Definition shard_get (s : Shard) (key : Z) : option VendorFormat := sh_entries s !! key.

(** The flag tells whether an entry was evicted. *)
Definition shard_insert (s : Shard) (key : Z) (format : VendorFormat) : bool * Shard :=
  match sh_entries s !! key with
  | Some _ => (false, mkShard (sh_capacity s) (<[key := format]> (sh_entries s)) (sh_order s))
  | None =>
      let '(evicted, entries, order) :=
        if (sh_capacity s <=? size (sh_entries s))%nat
        then match sh_order s with
             | oldest :: order' => (true, delete oldest (sh_entries s), order')
             | [] => (false, sh_entries s, [])
             end
        else (false, sh_entries s, sh_order s) in
      (evicted, mkShard (sh_capacity s) (<[key := format]> entries) (order ++ [key]))
  end.

(** ** The cache *)

Record SignatureLruCache := mkCache {
  shards : list Shard;
  shard_mask : Z;
  hits : Z;
  misses : Z;
  evictions : Z
}.

(** [usize::is_power_of_two] *)
Definition is_power_of_two (n : nat) : bool :=
  let z := Z.of_nat n in (0 <? z)%Z && (2 ^ Z.log2 z =? z)%Z.

(** [None] is the failed assertion. *)
Definition with_capacity (num_shards capacity_per_shard : nat) : option SignatureLruCache :=
  if is_power_of_two num_shards
  then Some (mkCache (replicate num_shards (shard_new capacity_per_shard)) (Z.of_nat num_shards - 1) 0 0 0)
  else None.

Definition shard_idx (c : SignatureLruCache) (signature_hash : Z) : nat :=
  Z.to_nat (Z.land signature_hash (shard_mask c)).

(** [None] is the panic of an index out of range. *)
Definition cache_get (c : SignatureLruCache) (signature_hash : Z)
  : option (option VendorFormat * SignatureLruCache) :=
  shard <-! shards c !! shard_idx c signature_hash;
  Some (match shard_get shard signature_hash with
        | Some format => (Some format, mkCache (shards c) (shard_mask c) (u64 (hits c + 1)) (misses c) (evictions c))
        | None => (None, mkCache (shards c) (shard_mask c) (hits c) (u64 (misses c + 1)) (evictions c))
        end).

Definition cache_insert (c : SignatureLruCache) (signature_hash : Z) (format : VendorFormat)
  : option SignatureLruCache :=
  let i := shard_idx c signature_hash in
  shard <-! shards c !! i;
  let '(evicted, shard') := shard_insert shard signature_hash format in
  Some (mkCache (<[i := shard']> (shards c)) (shard_mask c) (hits c) (misses c)
          (if evicted then u64 (evictions c + 1) else evictions c)).

Record LruStats := mkLruStats {
  ls_hits : Z;
  ls_misses : Z;
  ls_evictions : Z;
  ls_hit_ratio : f64;
  ls_total_lookups : Z;
  ls_entries_count : nat
}.

Definition cache_stats (c : SignatureLruCache) : LruStats :=
  let total := u64 (hits c + misses c) in
  let hit_ratio := if (0 <? total)%Z then f64_div (f64_of_Z (hits c)) (f64_of_Z total) else f64_zero in
  mkLruStats (hits c) (misses c) (evictions c) hit_ratio total
    (sum_list ((fun s => size (sh_entries s)) <$> shards c)).

Definition reset_stats (c : SignatureLruCache) : SignatureLruCache := mkCache (shards c) (shard_mask c) 0 0 0.

(** ** Signatures *)

Definition is_token_sep (c : string) : bool := is_whitespace c || String.eqb c "," || String.eqb c ":".

(** [window.split(sep)]: the pieces between separator characters. *)
Fixpoint split_chars (sep : string -> bool) (cs : list string) : list string :=
  match cs with
  | [] => [""]
  | c :: cs' =>
      if sep c then "" :: split_chars sep cs'
      else match split_chars sep cs' with
           | h :: t => (c +:+ h) :: t
           | [] => [c]
           end
  end.

(** The loop over the tokens: at most [n] more are hashed. *)
Fixpoint hash_tokens (n : nat) (hash : Z) (tokens : list string) : Z :=
  match n, tokens with
  | S n', token :: tokens' =>
      if is_empty token || all_bytes is_ascii_digit token then hash_tokens n hash tokens'
      else hash_tokens n' (fx_write hash token) tokens'
  | _, _ => hash
  end.

Definition compute_signature_hash (raw : string) : Z :=
  let len := String.length raw in
  if (len =? 0)%nat then 0%Z
  else
    let window := str_take (floor_char_boundary raw (Nat.min len 96)) raw in
    if contains "CEF:" window then fx_write 0 "cef_format"
    else match find "%ASA-" window with
    | Some pos =>
        let end_ := floor_char_boundary window (Nat.min (String.length window) (pos + 16)) in
        fx_write 0 (str_slice pos end_ window)
    | None =>
        if contains "devname=" window || contains ("type=" +:+ dquote_str +:+ "traffic" +:+ dquote_str) window
           || contains "logid=" window then fx_write 0 "fortigate_traffic"
        else if contains "filterlog[" window || contains "filterlog:" window then fx_write 0 "pfsense_filterlog"
        else if starts_with "{" window || contains (dquote_str +:+ "event_type" +:+ dquote_str) window
             then fx_write 0 "suricata_eve_json"
        else if contains ",TRAFFIC," window || contains ",THREAT," window then fx_write 0 "paloalto_panos_csv"
        else hash_tokens 3 0 (split_chars is_token_sep (chars window))
    end.
