(* ===== verification/Parser.v ===== *)
(** * The universal parser ([crates/ulpf-core/src/parser/mod.rs])

    Classification, extraction and provenance, with and without the signature
    cache.  What a call draws from outside is [ParseEnv]. *)

From S2P Require Export PfSense Fortigate Cef PaloAlto Suricata CiscoAsa.
From S2P Require Export Classifier Lru.

(** The fresh UUID and the clock of the call, the clock that the extractor
    reads, and the UUID and clock of the lossless fallback. *)
Record ParseEnv := mkParseEnv {
  pe_event_id : string;
  pe_ingest_time : Z;
  pe_now_ms : Z;
  pe_fallback_id : string;
  pe_fallback_ms : Z
}.

Section Parser.
Context `{Sha256} `{HexLib} `{UnicodeLib} `{ChronoLib} `{RegexLib} `{JsonLib} `{AhoCorasick}.

Definition compute_sha256 (bytes : string) : string := hex_encode (b32 (sha256 bytes)).

Definition extract (format : VendorFormat) (now_ms : Z) (raw : string) : Extracted :=
  match format with
  | CiscoAsa => asa_parse now_ms raw
  | Fortinet => fortigate_parse now_ms raw
  | PaloAlto => palo_parse now_ms raw
  | Suricata => suricata_parse now_ms raw
  | PfSense => pfsense_parse now_ms raw
  | Cef => cef_parse now_ms raw
  | UnknownFormat => Some (Err ("Unrecognized log format for raw line: " +:+ raw))
  end.

Definition parse_with_format (env : ParseEnv) (raw : string) (format : VendorFormat) : Extracted :=
  let raw_hash := compute_sha256 raw in
  activity <-? extract format (pe_now_ms env) raw;
  Some (Ok (set_provenance activity raw raw_hash (pe_event_id env) (pe_ingest_time env))).

Definition parse (env : ParseEnv) (raw : string) : Extracted :=
  let raw_hash := compute_sha256 raw in
  let format := classify raw in
  activity <-? extract format (pe_now_ms env) raw;
  Some (Ok (set_provenance activity raw raw_hash (pe_event_id env) (pe_ingest_time env))).

(** The event for a line that does not parse. *)
Definition unparsed_event (env : ParseEnv) (raw err : string) : NetworkActivity :=
  let metadata := mkMetadata (mkProduct "Unknown" "Generic / Unparsed" None) raw (compute_sha256 raw)
                    (pe_fallback_id env) (pe_fallback_ms env) in
  with_unmapped
    (activity_new OTHER (pe_fallback_ms env) UNKNOWN endpoint_default endpoint_default connection_default
       None metadata) {["parse_error" := err]}.

Definition parse_lossless (env : ParseEnv) (raw : string) : option NetworkActivity :=
  r <-! parse env raw;
  Some (match r with Ok activity => activity | Err err => unparsed_event env raw err end).

Definition parse_cached (env : ParseEnv) (c : SignatureLruCache) (raw : string)
  : option (Result string NetworkActivity * SignatureLruCache) :=
  let sig_hash := compute_signature_hash raw in
  match cache_get c sig_hash with
  | None => None
  | Some (Some fmt, c1) => r <-! parse_with_format env raw fmt; Some (r, c1)
  | Some (None, c1) =>
      let fmt := classify raw in
      c2 <-! (if decide (fmt = UnknownFormat) then Some c1 else cache_insert c1 sig_hash fmt);
      r <-! parse_with_format env raw fmt;
      Some (r, c2)
  end.

Definition parse_cached_lossless (env : ParseEnv) (c : SignatureLruCache) (raw : string)
  : option (NetworkActivity * SignatureLruCache) :=
  match parse_cached env c raw with
  | None => None
  | Some (Ok activity, c') => Some (activity, c')
  | Some (Err err, c') => Some (unparsed_event env raw err, c')
  end.

End Parser.
