(* ===== verification/Socket.v ===== *)
(** * Syslog listeners ([crates/ulpf-core/src/ingest/socket.rs])

    The batching loops of the UDP and TCP listeners as state machines over the
    events the runtime delivers.  Instants are milliseconds; [accepts n] says
    whether the channel takes the [n]-th batch (it no longer does once its
    receiver is gone). *)

From S2P Require Export Parser.

Record IngestConfig := mkIngest {
  reuse_port : bool;
  batch_size : nat;
  batch_timeout : Z;
  buffer_capacity : nat
}.

(** [IngestConfig::default], less its address *)
Definition ingest_default : IngestConfig := mkIngest true 1000 50 (Z.to_nat 65536).

Section Listeners.
Context (cfg : IngestConfig) (accepts : nat -> bool).

(** The variables of a loop, with the batches sent so far.  [stopped] is the
    return after a send that failed; that batch is lost with it. *)
Record Batching := mkBatching {
  current_batch : list string;
  last_flush : Z;
  sent : list (list string);
  stopped : bool
}.

Definition batching_new (now : Z) : Batching := mkBatching [] now [] false.

(** [mem::replace] of the batch, [tx.send], and the new [last_flush] *)
Definition send_batch (now : Z) (b : Batching) : Batching :=
  if accepts (length (sent b))
  then mkBatching [] now (sent b ++ [current_batch b]) (stopped b)
  else mkBatching [] (last_flush b) (sent b) true.

(** ** UDP *)

(** The body of the loop over the lines of a datagram; [now] is the clock of a
    flush. *)
Definition udp_line (now : Z) (b : Batching) (line : string) : Batching :=
  if stopped b then b
  else
    let trimmed := trim line in
    if is_empty trimmed then b
    else
      let b1 := mkBatching (current_batch b ++ [trimmed]) (last_flush b) (sent b) (stopped b) in
      if (batch_size cfg <=? length (current_batch b1))%nat then send_batch now b1 else b1.

(** The branch of [recv_from]: [None] is an I/O error. *)
Definition udp_recv (now : Z) (payload : option string) (b : Batching) : Batching :=
  match payload with
  | Some bytes =>
      let text := str_take (buffer_capacity cfg) bytes in
      if utf8_valid text then foldl (udp_line now) b (lines text) else b
  | None => b
  end.

(** The branch of [sleep]. *)
Definition udp_timeout (now : Z) (b : Batching) : Batching :=
  if negb (match current_batch b with [] => true | _ => false end)
     && (batch_timeout cfg <=? now - last_flush b)%Z
  then send_batch now b else b.

(** One iteration of the loop, which begins at [start]: [select!] takes a
    datagram when one arrives, or the timer once [batch_timeout] has passed
    since the iteration began, because every iteration makes a new timer. *)
Inductive UdpEvent := Datagram (now : Z) (payload : option string) | Timer (now : Z).

Definition event_time (e : UdpEvent) : Z := match e with Datagram t _ | Timer t => t end.

Definition udp_step (start : Z) (e : UdpEvent) (b : Batching) : option Batching :=
  if stopped b then None
  else match e with
       | Datagram now payload => if (start <=? now)%Z then Some (udp_recv now payload b) else None
       | Timer now => if (start + batch_timeout cfg <=? now)%Z then Some (udp_timeout now b) else None
       end.

Fixpoint udp_run (start : Z) (events : list UdpEvent) (b : Batching) : option Batching :=
  match events with
  | [] => Some b
  | e :: events' =>
      if stopped b then Some b
      else b1 <-! udp_step start e b; udp_run (event_time e) events' b1
  end.

(** ** TCP *)

(** The body of the loop over the lines of a connection; [now] is the clock when
    the line has been read. *)
Definition tcp_line (now : Z) (b : Batching) (line : string) : Batching :=
  let trimmed := trim line in
  if is_empty trimmed then b
  else
    let b1 := mkBatching (current_batch b ++ [trimmed]) (last_flush b) (sent b) (stopped b) in
    if (batch_size cfg <=? length (current_batch b1))%nat || (batch_timeout cfg <=? now - last_flush b)%Z
    then send_batch now b1 else b1.

Fixpoint tcp_lines (input : list (Z * string)) (b : Batching) : Batching :=
  match input with
  | [] => b
  | (now, line) :: input' => if stopped b then b else tcp_lines input' (tcp_line now b line)
  end.

(** The task of a connection, until its end at [close]. *)
Definition tcp_connection (start close : Z) (input : list (Z * string)) : Batching :=
  let b := tcp_lines input (batching_new start) in
  match current_batch b with
  | [] => b
  | _ => send_batch close b
  end.

End Listeners.

(** ** [run_parsed] *)

Section Parsed.
Context `{Sha256} `{HexLib} `{UnicodeLib} `{ChronoLib} `{RegexLib} `{JsonLib} `{AhoCorasick}.

(** A batch of lines into a batch of events; [env i] is what the [i]-th call of
    the parser draws. *)
Fixpoint parse_batch (env : nat -> ParseEnv) (raw_batch : list string) : option (list NetworkActivity) :=
  match raw_batch with
  | [] => Some []
  | raw_line :: rest =>
      activity <-! parse_lossless (env 0) raw_line;
      parsed <-! parse_batch (fun i => env (S i)) rest;
      Some (activity :: parsed)
  end.

End Parsed.
