(* ===== verification/Onboarder.v ===== *)
(** * Parser onboarding ([crates/ulpf-ai/src/onboarder.rs])

    Parser definitions and the events they extract, pattern synthesis and
    sandbox validation, and the registry.  (JSON, YAML and code export are in
    [ParserExport].)  A compiled regex is its pattern. *)

From S2P Require Export Drain IpAddr Fortigate Parser.

(** What depends on Unicode tables: [str::to_lowercase], and the [Debug] text of a
    list of strings. *)
Class UnicodeText := {
  to_lowercase : string -> string;
  debug_strings : list string -> string
}.

Record ValidationReport := mkValidation {
  vr_passed : bool;
  vr_total_samples : nat;
  vr_matched_samples : nat;
  vr_match_percentage : f64;
  vr_errors : list string
}.

Record ParserDefinition := mkDef {
  pd_vendor : string;
  pd_device_model : string;
  pd_regex_pattern : string;
  pd_action_mappings : gmap string string;
  pd_sample_logs : list string;
  pd_confidence_score : f64;
  pd_created_at : Z
}.

(** ** Events *)

Definition raw_disposition (raw_action : string) : string :=
  if one_of ["accept"; "permit"; "allow"; "created"; "passed"; "pass"] raw_action then ALLOWED
  else if one_of ["deny"; "block"; "reject"; "denied"; "blocked"] raw_action then BLOCKED
  else if one_of ["drop"; "dropped"] raw_action then DROPPED
  else if one_of ["closed"; "close"; "teardown"] raw_action then ALLOWED
  else UNKNOWN.

Definition dynamic_activity (raw_action norm_disp : string) : Z :=
  if one_of ["created"; "start"; "open"] raw_action then OPEN
  else if one_of ["closed"; "close"; "teardown"] raw_action then CLOSE
  else if String.eqb norm_disp ALLOWED then TRAFFIC_FLOW else OTHER.

Definition mapped_groups : list string :=
  ["src_ip"; "src_port"; "dst_ip"; "dst_port"; "protocol"; "action"; "action_verb"; "interface"; "src_zone"; "dst_zone"].

Section Onboarder.
Context `{Sha256} `{HexLib} `{RegexEngine} `{UnicodeText}.

(** The event of a match; [id] and [now_ms] are the fresh UUID and the clock. *)
Definition dynamic_event (d : ParserDefinition) (re raw id : string) (now_ms : Z) (caps : ReMatch) : NetworkActivity :=
  let name n := group_name re caps n in
  let src := mkEndpoint (name "src_ip") (name "src_port" ≫= parse_u16) (name "interface") (name "src_zone") in
  let dst := mkEndpoint (name "dst_ip") (name "dst_port" ≫= parse_u16) None (name "dst_zone") in
  let '(proto_num, proto_name) := match name "protocol" with
                                  | Some p => let '(num, nm) := parse_proto (trim p) in (num, Some nm)
                                  | None => (None, None)
                                  end in
  let action := match name "action" with Some a => Some a | None => name "action_verb" end in
  let raw_action := default "unknown" (to_ascii_lowercase <$> action) in
  let norm_disp := default (raw_disposition raw_action) (pd_action_mappings d !! raw_action) in
  let act_id := dynamic_activity raw_action norm_disp in
  let metadata := mkMetadata (mkProduct (pd_vendor d) (pd_device_model d) None) raw (compute_sha256 raw) id now_ms in
  let unmapped := foldl (fun m n => if one_of mapped_groups n then m else insert_some n (name n) m)
                    ∅ (omap (fun o => o) (re_names re)) in
  let event := activity_new act_id now_ms norm_disp src dst (mkConn proto_num proto_name None) None metadata in
  with_unmapped event unmapped.

Definition parse_with_regex (d : ParserDefinition) (re raw id : string) (now_ms : Z) : Result string NetworkActivity :=
  match re_captures_first re raw with
  | None => Err ("Log did not match dynamic parser pattern for vendor '" +:+ pd_vendor d +:+ "': " +:+ raw)
  | Some caps => Ok (dynamic_event d re raw id now_ms caps)
  end.

Definition definition_parse (d : ParserDefinition) (raw id : string) (now_ms : Z) : Result string NetworkActivity :=
  if re_compiles (pd_regex_pattern d) then parse_with_regex d (pd_regex_pattern d) raw id now_ms
  else Err ("Invalid compiled regex in parser definition: " +:+ pd_regex_pattern d).

(** ** Sandbox validation *)

Inductive SampleCheck := Skipped | Failed (error : string) | Matched.

Definition sample_no (idx : nat) : string := "Sample #" +:+ pretty (idx + 1).

(** The test of an address group. *)
Definition check_ip (idx : nat) (name : string) (o : option string) : option string :=
  match o with
  | Some ip => if is_ip_addr ip then None
               else Some (sample_no idx +:+ ": invalid IP for " +:+ name +:+ ": '" +:+ ip +:+ "'")
  | None => Some (sample_no idx +:+ ": missing required capture group '" +:+ name +:+ "'")
  end.

Definition check_port (idx : nat) (name : string) (o : option string) : option string :=
  match o with
  | Some p => match parse_u16 p with
              | Some _ => None
              | None => Some (sample_no idx +:+ ": invalid port for " +:+ name +:+ ": '" +:+ p +:+ "'")
              end
  | None => None
  end.

(** The body of the loop. *)
Definition check_sample (re : string) (idx : nat) (sample : string) : SampleCheck :=
  let line := trim sample in
  if is_empty line then Skipped
  else match re_captures_first re line with
  | None => Failed (sample_no idx +:+ " did not match regex pattern: '" +:+ line +:+ "'")
  | Some caps =>
      let name n := group_name re caps n in
      match check_ip idx "src_ip" (name "src_ip") with Some e => Failed e | None =>
      match check_ip idx "dst_ip" (name "dst_ip") with Some e => Failed e | None =>
      match check_port idx "src_port" (name "src_port") with Some e => Failed e | None =>
      match check_port idx "dst_port" (name "dst_port") with Some e => Failed e | None => Matched
      end end end end
  end.

Definition is_matched (c : SampleCheck) : bool := match c with Matched => true | _ => false end.
Definition check_error (c : SampleCheck) : option string := match c with Failed e => Some e | _ => None end.

Definition validate_parser (d : ParserDefinition) (samples : list string) : Result string ValidationReport :=
  if re_compiles (pd_regex_pattern d) then
    let checks := imap (check_sample (pd_regex_pattern d)) samples in
    let matched := length (List.filter is_matched checks) in
    let errors := omap check_error checks in
    let total := length samples in
    let pct := if (0 <? total)%nat
               then f64_mul (f64_div (f64_of_Z (Z.of_nat matched)) (f64_of_Z (Z.of_nat total))) (f64_of_Z 100)
               else f64_zero in
    Ok (mkValidation ((matched =? total)%nat && is_nil_list errors) total matched pct errors)
  else Err ("Failed to compile regex: " +:+ pd_regex_pattern d).

End Onboarder.

(** ** Pattern synthesis *)

Definition RE_FLOW_SLASH : string :=
  "((?:\d{1,3}\.){3}\d{1,3})/(\d{1,5})->((?:\d{1,3}\.){3}\d{1,3})/(\d{1,5})".
Definition RE_FLOW_COLON : string :=
  "((?:\d{1,3}\.){3}\d{1,3}):(\d{1,5})\s*->\s*((?:\d{1,3}\.){3}\d{1,3}):(\d{1,5})".
Definition RT_FLOW_PATTERN : string :=
  "^RT_FLOW:\s+(?P<event_type>\S+)\s+session\s+(?P<action_verb>\w+)(?:.*?)\s+(?P<src_ip>(?:\d{1,3}\.){3}\d{1,3})/(?P<src_port>\d{1,5})->(?P<dst_ip>(?:\d{1,3}\.){3}\d{1,3})/(?P<dst_port>\d{1,5})\s+\S+\s+\S+\s+(?P<protocol>\d+)\s+(?P<policy>\S+)\s+(?P<src_zone>\S+)\s+(?P<dst_zone>\S+)(?:.*)$".
Definition FLOW_SLASH_PATTERN : string :=
  "^.*?(?P<src_ip>(?:\d{1,3}\.){3}\d{1,3})/(?P<src_port>\d{1,5})->(?P<dst_ip>(?:\d{1,3}\.){3}\d{1,3})/(?P<dst_port>\d{1,5})(?:.*?proto[=:\s]+(?P<protocol>\S+))?(?:.*?action[=:\s]+(?P<action>\w+))?.*$".
Definition FLOW_COLON_PATTERN : string :=
  "^(?:(?P<timestamp>\d{4}-\d{2}-\d{2}\s+\d{2}:\d{2}:\d{2})\s+)?(?P<device>\S+)\s+(?P<action>[a-zA-Z]+)\s+(?P<src_ip>(?:\d{1,3}\.){3}\d{1,3}):(?P<src_port>\d{1,5})\s*->\s*(?P<dst_ip>(?:\d{1,3}\.){3}\d{1,3}):(?P<dst_port>\d{1,5})(?:.*?proto\s+(?P<protocol>[a-zA-Z0-9]+))?(?:.*)$".
Definition RE_COL_IP_PORT : string :=
  "^((?:\d{1,3}\.){3}\d{1,3})[:/](\d{1,5})$".
Definition RE_COL_IP : string :=
  "^(?:\d{1,3}\.){3}\d{1,3}$".
Definition RE_COL_PORT : string :=
  "^\d{1,5}$".
Definition RE_COL_PROTO : string :=
  "^(?i)(TCP|UDP|ICMP|GRE|ESP|AH|IGMP|SCTP)$".
Definition RE_COL_ACTION : string :=
  "^(?i)(accept|deny|drop|permit|block|reject|pass|allow)$".
Definition RE_COL_TIMESTAMP : string :=
  "^\d{4}[-/]\d{2}[-/]\d{2}(?:[T\s]\d{2}:\d{2}:\d{2})?$".

(** Where a key occurs, and how it is captured. *)
Definition key_patterns : list (string * string) :=
  [("\b(?:action|act)=", "(?:action|act)=" +:+ dquote_str +:+ "?(?P<action>[a-zA-Z0-9_-]+)" +:+ dquote_str +:+ "?");
   ("\b(?:src|srcip|saddr)=", "(?:src|srcip|saddr)=(?P<src_ip>(?:\d{1,3}\.){3}\d{1,3})");
   ("\b(?:sport|srcport)=", "(?:sport|srcport)=(?P<src_port>\d{1,5})");
   ("\b(?:dst|dstip|daddr)=", "(?:dst|dstip|daddr)=(?P<dst_ip>(?:\d{1,3}\.){3}\d{1,3})");
   ("\b(?:dport|dstport)=", "(?:dport|dstport)=(?P<dst_port>\d{1,5})");
   ("\b(?:proto|protocol)=", "(?:proto|protocol)=(?P<protocol>[a-zA-Z0-9]+)")].

Section Synthesis.
Context `{RegexEngine}.

(** Insertion by offset, after those with the same offset. *)
Fixpoint insert_offset (x : nat * string) (l : list (nat * string)) : list (nat * string) :=
  match l with
  | [] => [x]
  | y :: l' => if (x.1 <? y.1)%nat then x :: l else y :: insert_offset x l'
  end.

Definition sort_by_offset (l : list (nat * string)) : list (nat * string) := foldl (fun acc x => insert_offset x acc) [] l.

Definition synthesize_kv_regex (first : string) : Result string string :=
  let found := omap (fun kp => (fun m => (m_start m, kp.2)) <$> re_captures_first kp.1 first) key_patterns in
  match sort_by_offset found with
  | [] => Err "No recognizable key-value pairs found in sample"
  | ordered => Ok ("^" +:+ str_concat ((fun p => ".*?\b" +:+ p.2) <$> ordered) +:+ ".*$")
  end.

(** The counters of the loop over the columns. *)
Record ColCounts := mkCounts { ip_count : nat; port_count : nat }.

Definition all_same (col : list string) : bool :=
  match col with [] => true | x :: rest => forallb (String.eqb x) rest end.

(** The body of the loop: the part for a column, and the counters after it. *)
Definition column_part (col : list string) (c : ColCounts) : string * ColCounts :=
  let all_match p := forallb (re_is_match p) col in
  let first := default "" (head col) in
  if all_same col then (re_escape first, c)
  else if all_match RE_COL_IP_PORT then
    let delimiter := if contains ":" first then ":" else "/" in
    match ip_count c with
    | 0 => ("(?P<src_ip>(?:\d{1,3}\.){3}\d{1,3})" +:+ delimiter +:+ "(?P<src_port>\d{1,5})", mkCounts (ip_count c + 1) (port_count c + 1))
    | 1 => ("(?P<dst_ip>(?:\d{1,3}\.){3}\d{1,3})" +:+ delimiter +:+ "(?P<dst_port>\d{1,5})", mkCounts (ip_count c + 1) (port_count c + 1))
    | _ => ("(?:\d{1,3}\.){3}\d{1,3}" +:+ delimiter +:+ "\d{1,5}", c)
    end
  else if all_match RE_COL_IP then
    match ip_count c with
    | 0 => ("(?P<src_ip>(?:\d{1,3}\.){3}\d{1,3})", mkCounts (ip_count c + 1) (port_count c))
    | 1 => ("(?P<dst_ip>(?:\d{1,3}\.){3}\d{1,3})", mkCounts (ip_count c + 1) (port_count c))
    | _ => ("(?:\d{1,3}\.){3}\d{1,3}", c)
    end
  else if all_match RE_COL_PORT then
    match port_count c with
    | 0 => ("(?P<src_port>\d{1,5})", mkCounts (ip_count c) (port_count c + 1))
    | 1 => ("(?P<dst_port>\d{1,5})", mkCounts (ip_count c) (port_count c + 1))
    | _ => ("(?:\d{1,5})", c)
    end
  else if all_match RE_COL_PROTO then ("(?P<protocol>[a-zA-Z0-9]+)", c)
  else if all_match RE_COL_ACTION then ("(?P<action>[a-zA-Z]+)", c)
  else if all_match RE_COL_TIMESTAMP then ("(?P<timestamp>\S+)", c)
  else ("(?:\S+)", c).

Fixpoint column_parts (cols : list (list string)) (c : ColCounts) : list string :=
  match cols with
  | [] => []
  | col :: cols' => let '(part, c') := column_part col c in part :: column_parts cols' c'
  end.

Definition min_len (ls : list (list string)) : nat :=
  match ls with [] => 0 | l :: rest => foldr (fun x n => Nat.min (length x) n) (length l) rest end.

Definition synthesize_positional_regex (samples : list string) : Result string string :=
  let split_lines := split_whitespace <$> samples in
  let n := min_len split_lines in
  if (n =? 0)%nat then Err "Empty sample lines provided"
  else
    let cols := (fun i => omap (fun l => l !! i) split_lines) <$> seq 0 n in
    Ok ("^" +:+ str_join "\s+" (column_parts cols (mkCounts 0 0)) +:+ "(?:.*)$").

Definition synthesize_flow_regex (first : string) (samples : list string) : Result string string :=
  if re_is_match RE_FLOW_SLASH first
  then if starts_with "RT_FLOW" first then Ok RT_FLOW_PATTERN else Ok FLOW_SLASH_PATTERN
  else if re_is_match RE_FLOW_COLON first then Ok FLOW_COLON_PATTERN
  else synthesize_positional_regex samples.

Definition synthesize_regex (first : string) (samples : list string) : Result string string :=
  if contains "->" first || contains "session created" first || contains "session denied" first
  then synthesize_flow_regex first samples
  else if contains "src=" first || contains "srcip=" first || contains "saddr=" first
  then synthesize_kv_regex first
  else synthesize_positional_regex samples.

Definition infer_action_mappings : gmap string string :=
  list_to_map
    [("created", ALLOWED); ("closed", ALLOWED); ("accept", ALLOWED); ("permit", ALLOWED); ("allow", ALLOWED);
     ("passed", ALLOWED); ("pass", ALLOWED); ("deny", BLOCKED); ("denied", BLOCKED); ("block", BLOCKED);
     ("blocked", BLOCKED); ("reject", BLOCKED); ("drop", DROPPED); ("dropped", DROPPED)].

Context `{UnicodeText}.

(** [created_at] is the clock; [None] is the panic of [samples[0]]. *)
Definition generate_parser (vendor device_model : string) (samples : list string) (created_at : Z)
  : option (Result string (ParserDefinition * ValidationReport)) :=
  if (length samples <? 3)%nat
  then Some (Err ("Onboarder requires at least 3 sample log lines, found " +:+ pretty (length samples)))
  else
    first <-! head samples;
    pattern <-? Some (synthesize_regex first samples);
    let d := mkDef vendor device_model pattern infer_action_mappings samples (f64_of_Z 1) created_at in
    report <-? Some (validate_parser d samples);
    Some (if vr_passed report then Ok (d, report)
          else Err ("Sandbox validation failed (match rate: " +:+ fmt_fixed 1 (vr_match_percentage report) +:+ "%): "
                    +:+ debug_strings (vr_errors report))).

End Synthesis.

(** ** The registry *)

Definition REGISTRY_CAPACITY : nat := 256.

Record RegistryEntry := mkRegEntry {
  rg_parser : ParserDefinition;
  rg_regex : option string;
  rg_last_use : Z
}.

(** [BTreeMap<String, RegistryEntry>]: the entries in the order of their keys. *)
Definition Registered : Type := list (string * RegistryEntry).

Fixpoint bt_get (k : string) (l : Registered) : option RegistryEntry :=
  match l with
  | [] => None
  | (k', e) :: l' => if String.eqb k k' then Some e else bt_get k l'
  end.

Fixpoint bt_insert (k : string) (e : RegistryEntry) (l : Registered) : Registered :=
  match l with
  | [] => [(k, e)]
  | (k', e') :: l' =>
      match String.compare k k' with
      | Lt => (k, e) :: l
      | Eq => (k, e) :: l'
      | Gt => (k', e') :: bt_insert k e l'
      end
  end.

Definition bt_remove (k : string) (l : Registered) : Registered :=
  List.filter (fun p => negb (String.eqb k p.1)) l.

Record DynamicParserRegistry := mkRegistry {
  parsers : Registered;
  rg_clock : Z;
  rg_capacity : nat
}.

Definition registry_new : DynamicParserRegistry := mkRegistry [] 0 REGISTRY_CAPACITY.

Definition tick (r : DynamicParserRegistry) : DynamicParserRegistry :=
  mkRegistry (parsers r) (u64 (rg_clock r + 1)) (rg_capacity r).

(** [(a.1.last_use, a.0) < (b.1.last_use, b.0)] *)
Definition older (a b : string * RegistryEntry) : bool :=
  match (rg_last_use a.2 ?= rg_last_use b.2)%Z with
  | Lt => true
  | Gt => false
  | Eq => String.ltb a.1 b.1
  end.

(** [min_by]: the first of the least. *)
Fixpoint min_entry (l : Registered) : option (string * RegistryEntry) :=
  match l with
  | [] => None
  | x :: l' => match min_entry l' with
               | Some y => Some (if older y x then y else x)
               | None => Some x
               end
  end.

Section Registry.
Context `{Sha256} `{HexLib} `{RegexEngine} `{UnicodeText}.

Definition registry_key (d : ParserDefinition) : string := to_lowercase (pd_vendor d) +:+ ":" +:+ pd_device_model d.

Definition register (r : DynamicParserRegistry) (d : ParserDefinition) : string * DynamicParserRegistry :=
  let key := registry_key d in
  let regex := if re_compiles (pd_regex_pattern d) then Some (pd_regex_pattern d) else None in
  let r1 := tick r in
  let now := rg_clock r1 in
  let ps := if negb (match bt_get key (parsers r1) with Some _ => true | None => false end)
               && (rg_capacity r1 <=? length (parsers r1))%nat
            then match min_entry (parsers r1) with
                 | Some (evict_key, _) => bt_remove evict_key (parsers r1)
                 | None => parsers r1
                 end
            else parsers r1 in
  (key, mkRegistry (bt_insert key (mkRegEntry d regex now) ps) now (rg_capacity r1)).

(** [get_mut(key)] and the assignment to [last_use] *)
Fixpoint touch (k : string) (now : Z) (l : Registered) : Registered :=
  match l with
  | [] => []
  | (k', e) :: l' =>
      if String.eqb k k' then (k', mkRegEntry (rg_parser e) (rg_regex e) now) :: l' else (k', e) :: touch k now l'
  end.

Definition parse_key (r : DynamicParserRegistry) (key raw id : string) (now_ms : Z)
  : option NetworkActivity * DynamicParserRegistry :=
  let r1 := tick r in
  match bt_get key (parsers r1) with
  | None => (None, r1)
  | Some e =>
      let r2 := mkRegistry (touch key (rg_clock r1) (parsers r1)) (rg_clock r1) (rg_capacity r1) in
      (re <-! rg_regex e; result_ok (parse_with_regex (rg_parser e) re raw id now_ms), r2)
  end.

(** The loop of [parse_any_keyed]. *)
Fixpoint parse_first (raw id : string) (now_ms : Z) (l : Registered) : option (string * NetworkActivity) :=
  match l with
  | [] => None
  | (k, e) :: l' =>
      match (re <-! rg_regex e; result_ok (parse_with_regex (rg_parser e) re raw id now_ms)) with
      | Some a => Some (k, a)
      | None => parse_first raw id now_ms l'
      end
  end.

Definition parse_any_keyed (r : DynamicParserRegistry) (raw id : string) (now_ms : Z)
  : option (string * NetworkActivity) * DynamicParserRegistry :=
  let r1 := tick r in
  match parse_first raw id now_ms (parsers r1) with
  | Some (k, a) => (Some (k, a), mkRegistry (touch k (rg_clock r1) (parsers r1)) (rg_clock r1) (rg_capacity r1))
  | None => (None, r1)
  end.

Definition parse_any (r : DynamicParserRegistry) (raw id : string) (now_ms : Z)
  : option NetworkActivity * DynamicParserRegistry :=
  let '(o, r') := parse_any_keyed r raw id now_ms in (snd <$> o, r').

(** [DynamicParserRegistry::parse] *)
Definition registry_parse (r : DynamicParserRegistry) (vendor raw id : string) (now_ms : Z)
  : Result string NetworkActivity * DynamicParserRegistry :=
  let vendor_key := to_lowercase vendor in
  let key := match bt_get vendor_key (parsers r) with
             | Some _ => Some vendor_key
             | None => fst <$> List.find (fun p => starts_with (vendor_key +:+ ":") p.1) (parsers r)
             end in
  match key with
  | None => (Err ("No dynamic parser registered for vendor '" +:+ vendor +:+ "'"), r)
  | Some k =>
      let '(o, r') := parse_key r k raw id now_ms in
      (ok_or o ("Log did not match dynamic parser '" +:+ k +:+ "'"), r')
  end.

End Registry.
