(* ===== verification/Pipeline.v ===== *)
(** * The tiered pipeline ([crates/ulpf-ai/src/pipeline.rs])

    [process] and one turn of the triage worker, on the state they share,
    each in one piece ([Threads] has the steps between which other threads run);
    what a call draws from outside (identifiers, clocks) is
    [PipeEnv].  [usize] is 64 bits wide.  The channel is a queue of a given capacity; the
    program makes it with 10000.  (With 0 the crate's channel hands a task over when
    the worker waits for one; here it then takes none.) *)

From S2P Require Export Onboarder Laya.

Record AsyncTriageTask := mkTask {
  tk_cluster_id : Z;
  tk_template : string;
  tk_sample_log : string;
  tk_timestamp_ms : Z
}.

Definition MAX_EXEMPLARS_PER_CLUSTER : Z := 8.
Definition ONBOARD_MIN_SAMPLES : nat := 3.

(** The fields of [TieredPipeline], the channel, and the worker's buffers. *)
Record TieredPipeline := mkPipeline {
  cache : SignatureLruCache;
  drain : DrainMiner;
  dynamic_registry : DynamicParserRegistry;
  channel : list AsyncTriageTask;
  channel_capacity : nat;
  total_events : Z;
  tier2_drain_hits : Z;
  tier3_laya_dispatches : Z;
  tier3_laya_onboarded : Z;
  triage_dispatch_counts : gmap Z Z;
  exemplar_budget_open : Z;
  dynamic_routes : gmap Z string;
  dynamic_routes_open : Z;
  laya_action_flags : Z;
  laya_threat_flags : Z;
  buffers : gmap Z (list string)
}.

(** [SignatureLruCache::new] and [with_ring_buffer_capacity] *)
Definition with_ring_buffer_capacity (cache0 : SignatureLruCache) (capacity : nat) : TieredPipeline :=
  mkPipeline cache0 (miner_new drain_default) registry_new [] capacity 0 0 0 0 ∅ 0 ∅ 0 0 0 ∅.

Definition set_cache (p : TieredPipeline) (c : SignatureLruCache) : TieredPipeline :=
  mkPipeline c (drain p) (dynamic_registry p) (channel p) (channel_capacity p) (total_events p) (tier2_drain_hits p)
    (tier3_laya_dispatches p) (tier3_laya_onboarded p) (triage_dispatch_counts p) (exemplar_budget_open p)
    (dynamic_routes p) (dynamic_routes_open p) (laya_action_flags p) (laya_threat_flags p) (buffers p).

Definition set_drain (p : TieredPipeline) (d : DrainMiner) : TieredPipeline :=
  mkPipeline (cache p) d (dynamic_registry p) (channel p) (channel_capacity p) (total_events p) (tier2_drain_hits p)
    (tier3_laya_dispatches p) (tier3_laya_onboarded p) (triage_dispatch_counts p) (exemplar_budget_open p)
    (dynamic_routes p) (dynamic_routes_open p) (laya_action_flags p) (laya_threat_flags p) (buffers p).

Definition set_registry (p : TieredPipeline) (r : DynamicParserRegistry) : TieredPipeline :=
  mkPipeline (cache p) (drain p) r (channel p) (channel_capacity p) (total_events p) (tier2_drain_hits p)
    (tier3_laya_dispatches p) (tier3_laya_onboarded p) (triage_dispatch_counts p) (exemplar_budget_open p)
    (dynamic_routes p) (dynamic_routes_open p) (laya_action_flags p) (laya_threat_flags p) (buffers p).

Definition set_counts (p : TieredPipeline) (total hits dispatches : Z) : TieredPipeline :=
  mkPipeline (cache p) (drain p) (dynamic_registry p) (channel p) (channel_capacity p) total hits
    dispatches (tier3_laya_onboarded p) (triage_dispatch_counts p) (exemplar_budget_open p)
    (dynamic_routes p) (dynamic_routes_open p) (laya_action_flags p) (laya_threat_flags p) (buffers p).

Definition set_budget (p : TieredPipeline) (counts : gmap Z Z) (open : Z) : TieredPipeline :=
  mkPipeline (cache p) (drain p) (dynamic_registry p) (channel p) (channel_capacity p) (total_events p)
    (tier2_drain_hits p) (tier3_laya_dispatches p) (tier3_laya_onboarded p) counts open
    (dynamic_routes p) (dynamic_routes_open p) (laya_action_flags p) (laya_threat_flags p) (buffers p).

Definition set_routes (p : TieredPipeline) (routes : gmap Z string) (open : Z) : TieredPipeline :=
  mkPipeline (cache p) (drain p) (dynamic_registry p) (channel p) (channel_capacity p) (total_events p)
    (tier2_drain_hits p) (tier3_laya_dispatches p) (tier3_laya_onboarded p) (triage_dispatch_counts p)
    (exemplar_budget_open p) routes open (laya_action_flags p) (laya_threat_flags p) (buffers p).

Definition set_channel (p : TieredPipeline) (ch : list AsyncTriageTask) : TieredPipeline :=
  mkPipeline (cache p) (drain p) (dynamic_registry p) ch (channel_capacity p) (total_events p) (tier2_drain_hits p)
    (tier3_laya_dispatches p) (tier3_laya_onboarded p) (triage_dispatch_counts p) (exemplar_budget_open p)
    (dynamic_routes p) (dynamic_routes_open p) (laya_action_flags p) (laya_threat_flags p) (buffers p).

Definition set_worker (p : TieredPipeline) (onboarded action_flags threat_flags : Z) (bufs : gmap Z (list string))
  : TieredPipeline :=
  mkPipeline (cache p) (drain p) (dynamic_registry p) (channel p) (channel_capacity p) (total_events p)
    (tier2_drain_hits p) (tier3_laya_dispatches p) onboarded (triage_dispatch_counts p) (exemplar_budget_open p)
    (dynamic_routes p) (dynamic_routes_open p) action_flags threat_flags bufs.

(** [routes.insert(k, key)], with the counter when the key is new; and
    [routes.remove(k)]. *)
Definition install_route (p : TieredPipeline) (k : Z) (key : string) : TieredPipeline :=
  set_routes p (<[k := key]> (dynamic_routes p))
    (match dynamic_routes p !! k with Some _ => dynamic_routes_open p | None => u64 (dynamic_routes_open p + 1) end).

Definition drop_route (p : TieredPipeline) (k : Z) : TieredPipeline :=
  match dynamic_routes p !! k with
  | Some _ => set_routes p (delete k (dynamic_routes p)) (u64 (dynamic_routes_open p - 1))
  | None => p
  end.

(** ** Exemplars *)

Definition dispatch_triage_exemplar (p : TieredPipeline) (exemplar_key : Z) (template raw : string) (now_ms : Z)
  : TieredPipeline :=
  let entry := default 0%Z (triage_dispatch_counts p !! exemplar_key) in
  if (MAX_EXEMPLARS_PER_CLUSTER <=? entry)%Z
  then set_budget p (<[exemplar_key := entry]> (triage_dispatch_counts p)) (exemplar_budget_open p)
  else
    let opened := (entry =? 0)%Z in
    let entry' := (entry + 1)%Z in
    let closed := (MAX_EXEMPLARS_PER_CLUSTER <=? entry')%Z in
    let open1 := if opened then u64 (exemplar_budget_open p + 1) else exemplar_budget_open p in
    let open2 := if closed then u64 (open1 - 1) else open1 in
    let p1 := set_budget p (<[exemplar_key := entry']> (triage_dispatch_counts p)) open2 in
    let task := mkTask exemplar_key template raw now_ms in
    let p2 := if (length (channel p1) <? channel_capacity p1)%nat then set_channel p1 (channel p1 ++ [task]) else p1 in
    set_counts p2 (total_events p2) (tier2_drain_hits p2) (u64 (tier3_laya_dispatches p2 + 1)).

(** ** Processing *)

(** The draws of a call: the native parser, the lossless parser, a promoted
    route, the registry scan, the miner, and the clock of the task. *)
Record PipeEnv := mkPipeEnv {
  pv_native : ParseEnv;
  pv_lossless : ParseEnv;
  pv_route_id : string;
  pv_route_ms : Z;
  pv_scan_id : string;
  pv_scan_ms : Z;
  pv_drain_ms : Z;
  pv_drain_latency : Z;
  pv_task_ms : Z
}.

Section Process.
Context `{Sha256} `{HexLib} `{UnicodeLib} `{ChronoLib} `{RegexLib} `{JsonLib} `{AhoCorasick} `{RegexEngine} `{UnicodeText}.

(** [TieredPipeline::parse_with_format] *)
Definition pipeline_parse_with_format (env : PipeEnv) (raw : string) (format : VendorFormat) : option NetworkActivity :=
  r <-! parse_with_format (pv_native env) raw format;
  match r with Ok activity => Some activity | Err _ => parse_lossless (pv_lossless env) raw end.

Definition parse_pinned (env : PipeEnv) (p : TieredPipeline) (raw : string) (sig_hash : Z)
  : option (NetworkActivity * TieredPipeline) :=
  let format := classify raw in
  if decide (format = UnknownFormat)
  then
    match parse_any_keyed (dynamic_registry p) raw (pv_scan_id env) (pv_scan_ms env) with
    | (Some (key, activity), r) => Some (activity, install_route (set_registry p r) sig_hash key)
    | (None, r) => a <-! parse_lossless (pv_lossless env) raw; Some (a, set_registry p r)
    end
  else
    r <-! parse_with_format (pv_native env) raw format;
    match r with
    | Ok activity => c <-! cache_insert (cache p) sig_hash format; Some (activity, set_cache p c)
    | Err _ => a <-! parse_lossless (pv_lossless env) raw; Some (a, p)
    end.

(** Tier 1b: the event of a promoted route, or the state in which to go on. *)
Definition try_route (env : PipeEnv) (p : TieredPipeline) (raw : string) (sig_hash : Z)
  : option NetworkActivity * TieredPipeline :=
  if (0 <? dynamic_routes_open p)%Z
  then match dynamic_routes p !! sig_hash with
       | Some key =>
           if decide (classify raw = UnknownFormat)
           then match parse_key (dynamic_registry p) key raw (pv_route_id env) (pv_route_ms env) with
                | (Some activity, r) => (Some activity, set_registry p r)
                | (None, r) => (None, drop_route (set_registry p r) sig_hash)
                end
           else (None, p)
       | None => (None, p)
       end
  else (None, p).

(** Tiers 2 and 3. *)
Definition mine_and_parse (env : PipeEnv) (p : TieredPipeline) (raw : string) (sig_hash : Z)
  : option (NetworkActivity * TieredPipeline) :=
  match add_log (drain p) (pv_drain_ms env) (pv_drain_latency env) raw with
  | None => None
  | Some (res, d) =>
      let p1 := set_drain p d in
      let p2 := if cr_is_new res then p1
                else set_counts p1 (total_events p1) (u64 (tier2_drain_hits p1 + 1)) (tier3_laya_dispatches p1) in
      let p3 := dispatch_triage_exemplar p2 sig_hash (cr_template res) raw (pv_task_ms env) in
      parse_pinned env p3 raw sig_hash
  end.

Definition process (env : PipeEnv) (p : TieredPipeline) (raw : string) : option (NetworkActivity * TieredPipeline) :=
  let p0 := set_counts p (u64 (total_events p + 1)) (tier2_drain_hits p) (tier3_laya_dispatches p) in
  let sig_hash := compute_signature_hash raw in
  match cache_get (cache p0) sig_hash with
  | None => None
  | Some (Some format, c) =>
      let p1 := set_cache p0 c in
      let p2 := if (0 <? exemplar_budget_open p1)%Z
                then dispatch_triage_exemplar p1 sig_hash "" raw (pv_task_ms env) else p1 in
      a <-! pipeline_parse_with_format env raw format;
      Some (a, p2)
  | Some (None, c) =>
      match try_route env (set_cache p0 c) raw sig_hash with
      | (Some activity, p1) => Some (activity, p1)
      | (None, p1) => mine_and_parse env p1 raw sig_hash
      end
  end.

(** ** The worker *)

Context `{LibM}.

(** One turn of the loop: the task at the front of the channel.  [priors] is the
    order of the action map, [created_at] the clock of the onboarder. *)
Definition worker_step (priors : list (string * list string)) (created_at : Z) (p : TieredPipeline)
  : option TieredPipeline :=
  match channel p with
  | [] => None
  | task :: rest =>
      let p0 := set_channel p rest in
      let laya := laya_new priors in
      let vendor := classify_vendor laya (tk_sample_log task) in
      let action := classify_action laya (tk_sample_log task) in
      let threat := score_threat_risk laya (tk_sample_log task) in
      let af := if f64_le (f64_lit 85 100) (ch_probability action) then u64 (laya_action_flags p0 + 1) else laya_action_flags p0 in
      let tf := if f64_le (f64_lit 50 100) (sc_score threat) then u64 (laya_threat_flags p0 + 1) else laya_threat_flags p0 in
      let p1 := set_worker p0 (tier3_laya_onboarded p0) af tf (buffers p0) in
      if f64_lt (ch_probability vendor) (f64_lit 85 100) then Some p1
      else
        let key := tk_cluster_id task in
        let buf0 := default [] (buffers p1 !! key) in
        let buf := if (length buf0 <? Z.to_nat MAX_EXEMPLARS_PER_CLUSTER)%nat then buf0 ++ [tk_sample_log task] else buf0 in
        let keep := <[key := buf]> (buffers p1) in
        if (length buf <? ONBOARD_MIN_SAMPLES)%nat then Some (set_worker p1 (tier3_laya_onboarded p1) af tf keep)
        else
          let full := (Z.to_nat MAX_EXEMPLARS_PER_CLUSTER <=? length buf)%nat in
          let abandoned := if full then delete key keep else keep in
          outcome <-! generate_parser (ch_label vendor) ("cluster-" +:+ pretty (Z.to_N key)) buf created_at;
          match outcome with
          | Err _ => Some (set_worker p1 (tier3_laya_onboarded p1) af tf abandoned)
          | Ok (def, report) =>
              if vr_passed report && f64_eq (vr_match_percentage report) (f64_of_Z 100)
              then let '(rkey, r) := register (dynamic_registry p1) def in
                   let p2 := install_route (set_registry p1 r) key rkey in
                   Some (set_worker p2 (u64 (tier3_laya_onboarded p2 + 1)) af tf (delete key keep))
              else Some (set_worker p1 (tier3_laya_onboarded p1) af tf abandoned)
          end
  end.

End Process.

(** ** Statistics *)

Record PipelineStats := mkPipeStats {
  ps_total_events : Z;
  ps_tier1_lru_hits : Z;
  ps_tier2_drain_hits : Z;
  ps_tier3_laya_dispatches : Z;
  ps_tier3_laya_onboarded : Z;
  ps_laya_action_flags : Z;
  ps_laya_threat_flags : Z;
  ps_lru_hit_ratio : f64;
  ps_lru_stats : LruStats
}.

Definition pipeline_stats (p : TieredPipeline) : PipelineStats :=
  let lru := cache_stats (cache p) in
  mkPipeStats (total_events p) (ls_hits lru) (tier2_drain_hits p) (tier3_laya_dispatches p) (tier3_laya_onboarded p)
    (laya_action_flags p) (laya_threat_flags p) (ls_hit_ratio lru) lru.

Definition tier2_cluster_count (p : TieredPipeline) : nat := cluster_count (drain p).
