(* ===== verification/ExtractFacts.v ===== *)
(** * What the extractors guarantee

    Every extractor returns events that are well-formed: identifiers and
    dispositions of the schema, numbers within the range of their type. *)

From S2P Require Export RustStrFacts PfSense Fortigate Cef PaloAlto Suricata CiscoAsa.

(** ** Numbers *)

Lemma parse_digits_range max s : forall acc z, (0 <= acc <= max)%Z ->
  parse_digits max acc s = Some z -> (0 <= z <= max)%Z.
Proof.
  induction s as [|a s IH]; simpl; intros acc z Ha; [by intros [= <-]|].
  unfold digit_val. destruct (is_ascii_digit a) eqn:Ed; [|done].
  apply ascii_in_iff in Ed. destruct (Z.ltb_spec max (acc * 10 + (byte_val a - 48))); [done|].
  apply IH. lia.
Qed.

Lemma parse_uint_range max s : (0 <= max)%Z -> opt_range max (parse_uint max s).
Proof.
  intros Hm. assert (parse_uint max s = None \/ exists t, parse_uint max s = parse_digits max 0 t) as [->|[t ->]].
  { unfold parse_uint. repeat case_match; eauto. }
  - done.
  - unfold opt_range. destruct (parse_digits max 0 t) as [z|] eqn:E; [|done].
    by apply (parse_digits_range max t 0 z).
Qed.

Lemma parse_u8_range s : opt_range u8_max (parse_u8 s).
Proof. by apply parse_uint_range. Qed.
Lemma parse_u16_range s : opt_range u16_max (parse_u16 s).
Proof. by apply parse_uint_range. Qed.
Lemma parse_u64_range s : opt_range u64_max (parse_u64 s).
Proof. by apply parse_uint_range. Qed.

Lemma opt_range_bind max (o : option string) f : (forall s, opt_range max (f s)) -> opt_range max (o ≫= f).
Proof. intros Hf. by destruct o as [s|]; [apply Hf|]. Qed.

Lemma opt_range_nonzero max o : opt_range max o -> opt_range max (nonzero o).
Proof. destruct o as [z|]; simpl; [|done]. by destruct (z =? 0)%Z. Qed.

Lemma opt_range_normalize max p o : opt_range max o -> opt_range max (normalize_port p o).
Proof. unfold normalize_port. case_bool_decide; [done|]. apply opt_range_nonzero. Qed.

Lemma protocol_num_range name : opt_range u8_max (protocol_num_from_name name).
Proof. unfold protocol_num_from_name. repeat case_match; unfold opt_range, u8_max; try done; lia. Qed.

Lemma opt_range_if max (b : bool) o : opt_range max o -> opt_range max (if b then None else o).
Proof. by destruct b. Qed.

Lemma opt_range_if' max (b : bool) o : opt_range max o -> opt_range max (if b then o else None).
Proof. by destruct b. Qed.

Lemma opt_range_wrap16 (o : option Z) : opt_range u16_max (as_u16 <$> o).
Proof.
  destruct o as [z|]; simpl; [|done]. unfold as_u16, wrapu, u16_max.
  pose proof (Z.mod_pos_bound z (2 ^ 16)). lia.
Qed.

Lemma as_u64_range v : opt_range u64_max (as_u64 v).
Proof.
  unfold as_u64. destruct v; simpl; try done. destruct (_ && _)%Z eqn:E; [|done].
  bool_hyps. done.
Qed.

Lemma opt_range_get_u64 v k : opt_range u64_max (get_u64 v k).
Proof. unfold get_u64. destruct (json_get v k); simpl; [apply as_u64_range|done]. Qed.

#[global] Arguments one_of : simpl never.

Create HintDb ocsf.
#[export] Hint Resolve parse_u8_range parse_u16_range parse_u64_range opt_range_bind opt_range_nonzero
  opt_range_normalize protocol_num_range opt_range_if opt_range_if' opt_range_wrap16 opt_range_get_u64 : ocsf.
#[export] Hint Extern 1 (opt_range _ None) => exact I : ocsf.

Lemma elem_id id : (id = OPEN \/ id = CLOSE \/ id = TRAFFIC_FLOW \/ id = OTHER) ->
  id ∈ [OPEN; CLOSE; TRAFFIC_FLOW; OTHER].
Proof. set_solver. Qed.

Lemma elem_disp d : (d = ALLOWED \/ d = BLOCKED \/ d = DROPPED \/ d = UNKNOWN) ->
  d ∈ [ALLOWED; BLOCKED; DROPPED; UNKNOWN].
Proof. set_solver. Qed.

(** Splits every condition of a table and picks the constant. *)
Ltac table := repeat case_match; first [apply elem_id|apply elem_disp]; tauto.

(** ** Well-formed events *)

Lemma pfsense_wf now raw a : pfsense_parse now raw = Some (Ok a) -> activity_wf a.
Proof.
  unfold pfsense_parse. destruct (_ <? _)%nat; [done|]. intros [= <-].
  apply with_unmapped_wf, activity_new_wf; simpl; [table| | | | |done].
  - unfold pfsense_disposition. table.
  - unfold pfsense_ipv4, pfsense_ipv6, port_field. repeat case_match; simpl; eauto with ocsf.
  - unfold pfsense_ipv4, pfsense_ipv6, port_field. repeat case_match; simpl; eauto with ocsf.
  - unfold pfsense_ipv4, pfsense_ipv6. destruct (String.eqb _ "4"); [|destruct (String.eqb _ "6")]; simpl; [| |done].
    + match goal with |- context [?l !! 16] => destruct (l !! 16) end; simpl.
      * pose proof (opt_range_bind u8_max (split_csv (pfsense_csv_part raw) !! 15) parse_u8 parse_u8_range) as Hr.
        destruct (split_csv (pfsense_csv_part raw) !! 15 ≫= parse_u8); eauto with ocsf.
      * eauto with ocsf.
    + match goal with |- context [match ?x with Some _ => ?x | None => _ end] => destruct x eqn:E end; [|eauto with ocsf].
      rewrite <- E. eauto with ocsf.
Qed.

Record forti_ok (v : FortiVars) : Prop := {
  fo_sp : opt_range u16_max (fv_src_port v); fo_dp : opt_range u16_max (fv_dst_port v);
  fo_pn : opt_range u8_max (fv_proto_num v);
  fo_sb : opt_range u64_max (fv_sent_bytes v); fo_rb : opt_range u64_max (fv_rcvd_bytes v);
  fo_sk : opt_range u64_max (fv_sent_pkts v); fo_rk : opt_range u64_max (fv_rcvd_pkts v)
}.

Lemma parse_proto_range val : opt_range u8_max (parse_proto val).1.
Proof.
  unfold parse_proto. pose proof (parse_u8_range val) as Hr. destruct (parse_u8 val); simpl; eauto with ocsf.
Qed.

Lemma forti_step_ok v kv : forti_ok v -> forti_ok (forti_step v kv).
Proof.
  intros [H1 H2 H3 H4 H5 H6 H7]. destruct kv as [key val], v; simpl in *. unfold forti_step.
  pose proof (parse_proto_range val) as Hp. destruct (parse_proto val) as [num name]. simpl in Hp.
  repeat match goal with |- context [one_of ?l key] => destruct (one_of l key) end;
    split; simpl; eauto with ocsf.
Qed.

Lemma traffic_some (b : bool) t : traffic_wf t ->
  match (if b then Some t else None) with Some t => traffic_wf t | None => True end.
Proof. by destruct b. Qed.

Lemma fortigate_event_wf `{ChronoLib} now raw v : forti_ok v -> activity_wf (fortigate_event now raw v).
Proof.
  intros [H1 H2 H3 H4 H5 H6 H7]. unfold fortigate_event.
  destruct (forti_disposition (fv_action v)) as [disp act] eqn:E.
  assert (act ∈ [OPEN; CLOSE; TRAFFIC_FLOW; OTHER] /\ disp ∈ [ALLOWED; BLOCKED; DROPPED; UNKNOWN]) as [Ha Hd].
  { unfold forti_disposition in E. repeat case_match; simplify_eq; split; first [apply elem_id|apply elem_disp]; tauto. }
  apply with_unmapped_wf, activity_new_wf; simpl; eauto with ocsf. apply traffic_some. by split.
Qed.

Lemma fortigate_wf `{UnicodeLib} `{ChronoLib} now raw a : fortigate_parse now raw = Some (Ok a) -> activity_wf a.
Proof.
  unfold fortigate_parse. destruct (kv_tokens raw) as [tokens|]; [|done]. intros [= <-].
  apply fortigate_event_wf, foldl_inv; [apply forti_step_ok|]. by split.
Qed.

Record cef_ok (v : CefVars) : Prop := {
  co_sp : opt_range u16_max (cv_src_port v); co_dp : opt_range u16_max (cv_dst_port v);
  co_pn : opt_range u8_max (cv_proto_num v);
  co_rb : opt_range u64_max (cv_rcvd_bytes v); co_sb : opt_range u64_max (cv_sent_bytes v)
}.

Lemma cef_step_ok v kv : cef_ok v -> cef_ok (cef_step v kv).
Proof.
  intros [H1 H2 H3 H4 H5]. destruct kv as [key val], v; simpl in *. unfold cef_step.
  set (val' := unescape_cef _).
  pose proof (parse_proto_range val') as Hp. destruct (parse_proto val') as [num name]. simpl in Hp.
  repeat match goal with |- context [one_of ?l key] => destruct (one_of l key) end;
    split; simpl; eauto with ocsf.
Qed.

Lemma cef_event_wf now raw header v : cef_ok v -> activity_wf (cef_event now raw header v).
Proof.
  intros [H1 H2 H3 H4 H5]. unfold cef_event.
  destruct (cef_disposition (cv_action v)) as [disp act] eqn:E.
  assert (act ∈ [OPEN; CLOSE; TRAFFIC_FLOW; OTHER] /\ disp ∈ [ALLOWED; BLOCKED; DROPPED; UNKNOWN]) as [Ha Hd].
  { unfold cef_disposition in E. repeat case_match; simplify_eq; split; first [apply elem_id|apply elem_disp]; tauto. }
  apply with_unmapped_wf, activity_new_wf; simpl; eauto with ocsf. apply traffic_some. by split.
Qed.

Lemma cef_wf `{UnicodeLib} now raw a : cef_parse now raw = Some (Ok a) -> activity_wf a.
Proof.
  unfold cef_parse. destruct (find "CEF:" raw); [|done]. destruct (kv_tokens _) as [tokens|]; [|done].
  intros [= <-]. apply cef_event_wf, foldl_inv; [apply cef_step_ok|]. by split.
Qed.

Lemma palo_wf `{ChronoLib} now raw a : palo_parse now raw = Some (Ok a) -> activity_wf a.
Proof.
  unfold palo_parse. destruct (_ <? _)%nat; [done|]. intros [= <-]. unfold palo_event.
  cbv zeta. apply with_unmapped_wf, activity_new_wf; cbn [ep_port ci_protocol_num].
  - unfold palo_activity. table.
  - unfold palo_disposition. table.
  - eauto 6 with ocsf.
  - eauto 6 with ocsf.
  - eauto with ocsf.
  - apply traffic_some. split; cbn; eauto with ocsf.
Qed.

Record eve_ok (v : EveVars) : Prop := {
  eo_traffic : match ev_traffic v with Some t => traffic_wf t | None => True end;
  eo_disp : ev_disp v ∈ [ALLOWED; BLOCKED; DROPPED; UNKNOWN];
  eo_act : ev_act_id v ∈ [OPEN; CLOSE; TRAFFIC_FLOW; OTHER]
}.

Lemma eve_flow_ok o v : eve_ok v -> eve_ok (eve_flow o v).
Proof.
  intros [Ht Hd Ha]. unfold eve_flow.
  assert (traffic_wf (mkTraffic (get_u64 o "bytes_toclient") (get_u64 o "bytes_toserver")
    (get_u64 o "pkts_toclient") (get_u64 o "pkts_toserver"))) as Hw by (split; simpl; eauto with ocsf).
  assert (match get_string o "action" with
          | Some a => if eq_ignore_ascii_case a "drop" then DROPPED else ev_disp v | None => ev_disp v end
          ∈ [ALLOWED; BLOCKED; DROPPED; UNKNOWN]) as Hd'.
  { destruct (get_string o "action") as [a|]; [|done].
    destruct (eq_ignore_ascii_case a "drop"); [|done]. apply elem_disp. tauto. }
  destruct (get_string o "state") as [s|]; split; cbn [ev_traffic ev_disp ev_act_id]; try done.
  1,3: by destruct (_ || _).
  destruct (one_of ["closed"] _); [apply elem_id; tauto|].
  destruct (one_of ["new"] _); [apply elem_id; tauto|done].
Qed.

Lemma eve_alert_ok `{JsonLib} o v : eve_ok v -> eve_ok (eve_alert o v).
Proof.
  intros [Ht Hd Ha]. unfold eve_alert. destruct (get_string o "action"); split; simpl; try done.
  all: first [apply elem_id; tauto|table].
Qed.

Lemma suricata_wf `{JsonLib} `{ChronoLib} now raw a : suricata_parse now raw = Some (Ok a) -> activity_wf a.
Proof.
  unfold suricata_parse. destruct (json_from_str _) as [val|]; [|done]. intros [= <-]. unfold suricata_event.
  match goal with |- context [mkEve None ALLOWED TRAFFIC_FLOW ?m] =>
    assert (eve_ok (mkEve None ALLOWED TRAFFIC_FLOW m)) as H0' end.
  { split; simpl; [done|apply elem_disp|apply elem_id]; tauto. }
  cbv zeta. match goal with |- context [mkEve None ALLOWED TRAFFIC_FLOW ?m] =>
    set (v0 := mkEve None ALLOWED TRAFFIC_FLOW m) in * end.
  assert (eve_ok (match json_get val "flow" ≫= as_object with Some o => eve_flow o v0 | None => v0 end)) as H1'
    by (destruct (json_get val "flow" ≫= as_object); [by apply eve_flow_ok|done]).
  set (v1 := match json_get val "flow" ≫= as_object with Some o => eve_flow o v0 | None => v0 end) in *.
  assert (eve_ok (match json_get val "alert" ≫= as_object with Some o => eve_alert o v1 | None => v1 end)) as [Ht Hd Ha]
    by (destruct (json_get val "alert" ≫= as_object); [by apply eve_alert_ok|done]).
  apply with_unmapped_wf, activity_new_wf; simpl; eauto with ocsf.
Qed.

Lemma parse_endpoint_range text d : opt_range u16_max (ep_port (asa_endpoint (parse_endpoint_str text d))).
Proof.
  unfold parse_endpoint_str. repeat case_match; simplify_eq/=; eauto with ocsf.
Qed.

Lemma asa_event_wf now raw act disp proto dir src dst traffic um :
  act ∈ [OPEN; CLOSE; TRAFFIC_FLOW; OTHER] -> disp ∈ [ALLOWED; BLOCKED; DROPPED; UNKNOWN] ->
  opt_range u16_max (ep_port (asa_endpoint src)) -> opt_range u16_max (ep_port (asa_endpoint dst)) ->
  match traffic with Some t => traffic_wf t | None => True end ->
  activity_wf (asa_event now raw act disp proto dir src dst traffic um).
Proof. intros. apply with_unmapped_wf, activity_new_wf; simpl; eauto with ocsf. Qed.

Lemma fallback_wf raw body now um : activity_wf (fallback_parse raw body now um).
Proof.
  apply with_unmapped_wf, activity_new_wf; simpl; try done; [table|unfold asa_fallback_disposition; table].
Qed.

Lemma asa_wf `{RegexLib} now raw a : asa_parse now raw = Some (Ok a) -> activity_wf a.
Proof.
  unfold asa_parse. destruct (re_captures REGEX_ASA_HEADER raw) as [caps|]; [|done]. intros [= <-].
  repeat match goal with
  | |- context [if one_of ?l ?s then _ else _] => destruct (one_of l s)
  | |- context [match re_captures ?p ?s with Some _ => _ | None => _ end] => destruct (re_captures p s) as [c|]
  end; try apply fallback_wf.
  - apply asa_event_wf; try apply parse_endpoint_range; try done; [apply elem_id|apply elem_disp]; tauto.
  - apply asa_event_wf; try apply parse_endpoint_range; [apply elem_id; tauto|apply elem_disp; tauto|].
    pose proof (opt_range_bind u64_max (cap c 6) parse_u64 parse_u64_range) as Hr.
    destruct (cap c 6 ≫= parse_u64); simpl; [|done]. by split.
  - apply asa_event_wf; try apply parse_endpoint_range; try done; [apply elem_id|apply elem_disp]; tauto.
  - apply asa_event_wf; try apply parse_endpoint_range; try done; [apply elem_id|apply elem_disp]; tauto.
  - apply asa_event_wf; try apply parse_endpoint_range; try done; [apply elem_id|apply elem_disp]; tauto.
  - apply with_unmapped_wf, activity_new_wf; simpl; try done; [apply elem_id; tauto|apply elem_disp; tauto|].
    pose proof (opt_range_bind u64_max (cap c 6) parse_u64 parse_u64_range) as Hr6.
    pose proof (opt_range_bind u64_max (cap c 7) parse_u64 parse_u64_range) as Hr7.
    destruct (cap c 7 ≫= parse_u64), (cap c 6 ≫= parse_u64); done.
Qed.
