(* ===== verification/TokenFacts.v ===== *)
(** * The tokenizers

    The key-value iterator of the FortiGate and CEF extractors, the CSV
    tokenizer of the pfSense and PAN-OS extractors, and the CEF header. *)

From S2P Require Export ExtractFacts.

(** ** Key-value pairs *)

Section Kv.
Context `{UnicodeLib}.

(** The iterator as a relation: it ends with these pairs. *)
Inductive kv_yields : string -> list (string * string) -> Prop :=
| kv_end s : kv_next s = Some None -> kv_yields s []
| kv_pair s key val rest l : kv_next s = Some (Some (key, val, rest)) -> kv_yields rest l ->
    kv_yields s ((key, val) :: l).

(** It reaches a call of [next] that panics. *)
Inductive kv_panics : string -> Prop :=
| kv_panic s : kv_next s = None -> kv_panics s
| kv_panic_later s key val rest : kv_next s = Some (Some (key, val, rest)) -> kv_panics rest -> kv_panics s.

Lemma kv_value_length s : String.length (kv_value s).2 <= String.length s.
Proof.
  unfold kv_value. destruct (strip_prefix dquote_str s) as [inner|] eqn:E.
  - apply strip_prefix_app in E as ->. rewrite str_length_app.
    destruct (find_close false inner); simpl; rewrite ?str_drop_length; lia.
  - destruct (find_char is_whitespace s); simpl; rewrite ?str_drop_length; lia.
Qed.

Lemma find_byte_lt p s n : find_byte p s = Some n -> n < String.length s.
Proof.
  revert n; induction s as [|a s IH]; intros n E; simpl in *; [done|].
  destruct (p a); simplify_eq; [lia|]. destruct (find_byte p s) as [m|]; simplify_eq/=.
  specialize (IH m eq_refl). lia.
Qed.

(** Every pair consumes at least its equals sign. *)
Lemma kv_next_length s key val rest : kv_next s = Some (Some (key, val, rest)) ->
  String.length rest < String.length s.
Proof.
  unfold kv_next. intros E. pose proof (trim_start_length s) as Ht.
  destruct (is_empty (trim_start s)); [done|].
  destruct (find_byte _ (trim_start s)) as [eq_pos|] eqn:Ef; [|done].
  destruct (match rfind_char _ _ with Some _ => _ | None => _ end) as [k|]; [|done].
  destruct (kv_value _) as [v r] eqn:Ev. simplify_eq.
  pose proof (kv_value_length (str_drop (eq_pos + 1) (trim_start s))) as Hl.
  rewrite Ev in Hl. simpl in Hl. rewrite str_drop_length in Hl. apply find_byte_lt in Ef. lia.
Qed.

Lemma kv_tokens_fuel_ok fuel : forall s, String.length s <= fuel ->
  (exists l, kv_tokens_fuel fuel s = Some l /\ kv_yields s l) \/
  (kv_tokens_fuel fuel s = None /\ kv_panics s).
Proof.
  induction fuel as [|fuel IH]; intros s Hl; simpl;
    destruct (kv_next s) as [[[[key val] rest]|]|] eqn:E;
    try (by left; eauto using kv_yields); try (by right; eauto using kv_panics).
  - apply kv_next_length in E. lia.
  - pose proof (kv_next_length _ _ _ _ E). destruct (IH rest) as [(l & -> & Hy)|[-> Hp]]; [lia|..].
    + left. eauto using kv_yields.
    + right. eauto using kv_panics.
Qed.

(** The key-value iteration ends on every input: the pairs collected are
    those the iterator yields until its end, or the iteration panics in a
    slice; the bound on the steps (one per byte) is never reached. *)
Theorem kv_tokens_terminates input :
  (exists l, kv_tokens input = Some l /\ kv_yields (trim input) l) \/
  (kv_tokens input = None /\ kv_panics (trim input)).
Proof. apply kv_tokens_fuel_ok, trim_length. Qed.

Lemma ascii_kv_next s : all_bytes is_ascii s = true ->
  match kv_next s with
  | None => False
  | Some None => True
  | Some (Some (_, _, rest)) => all_bytes is_ascii rest = true
  end.
Proof.
  intros Hs. unfold kv_next. assert (all_bytes is_ascii (trim_start s) = true) as Ht by (by apply all_bytes_trim_start).
  destruct (is_empty (trim_start s)); [done|].
  destruct (find_byte _ (trim_start s)) as [eq_pos|] eqn:Ef; [|done].
  assert (all_bytes is_ascii (str_take eq_pos (trim_start s)) = true) as Hk by (by apply all_bytes_take).
  assert (exists k, match rfind_char is_whitespace (str_take eq_pos (trim_start s)) with
    | Some p => slice_from (p + 1) (str_take eq_pos (trim_start s))
    | None => Some (str_take eq_pos (trim_start s)) end = Some k) as [k ->].
  { destruct (rfind_char _ _) as [p|] eqn:Ep; [|eauto]. by apply (slice_after_rfind is_whitespace). }
  destruct (kv_value _) as [v r] eqn:Ev. unfold kv_value in Ev.
  assert (all_bytes is_ascii (str_drop (eq_pos + 1) (trim_start s)) = true) as Hd by (by apply all_bytes_drop).
  destruct (strip_prefix dquote_str _) as [inner|] eqn:Ei.
  - apply strip_prefix_app in Ei. rewrite Ei, all_bytes_app in Hd. apply andb_true_iff in Hd as [_ Hd].
    destruct (find_close false inner); simplify_eq; [by apply all_bytes_drop|done].
  - destruct (find_char is_whitespace _); simplify_eq; [by apply all_bytes_drop|done].
Qed.

Lemma ascii_no_panic s : kv_panics s -> all_bytes is_ascii s = false.
Proof.
  induction 1 as [s E|s key val rest E _ IH]; apply not_true_iff_false; intros Hs;
    pose proof (ascii_kv_next s Hs) as Hn; rewrite E in Hn; [done|congruence].
Qed.

Lemma ascii_kv_tokens s : all_bytes is_ascii s = true -> exists l, kv_tokens s = Some l.
Proof.
  intros Hs. destruct (kv_tokens_fuel_ok (String.length s) (trim s) (trim_length s)) as [(l & E & _)|[_ Hp]]; [eauto|].
  apply ascii_no_panic in Hp. unfold trim in Hp. by rewrite (all_bytes_trim _ _ _ Hs) in Hp.
Qed.

End Kv.

(** ** CSV *)

(** RFC 4180: quotes are doubled, the field is put between quotes. *)
Fixpoint csv_escape (s : string) : string :=
  match s with
  | "" => ""
  | String a s' => if Ascii.eqb a dquote then String dquote (String dquote (csv_escape s'))
                   else String a (csv_escape s')
  end.

Definition csv_quote (s : string) : string := dquote_str +:+ csv_escape s +:+ dquote_str.

Lemma csv_escape_app s t : csv_escape (s +:+ t) = csv_escape s +:+ csv_escape t.
Proof. induction s as [|a s IH]; simpl; [done|]. destruct (Ascii.eqb a dquote); simpl; by rewrite IH. Qed.

Lemma csv_escape_utf8 s : utf8_valid s = true -> utf8_valid (csv_escape s) = true.
Proof.
  apply (utf8_ind (fun s => utf8_valid (csv_escape s) = true)); [done|]. clear s.
  intros c s Hc _ IH. rewrite csv_escape_app. rewrite utf8_valid_app; [done|].
  destruct (utf8_char_bytes c Hc) as [(a & -> & Ha)|Hb].
  - simpl. unfold is_ascii in Ha. destruct (Ascii.eqb_spec a dquote) as [->|]; [done|]. simpl. by rewrite Ha.
  - assert (csv_escape c = c) as ->.
    { clear -Hb. induction c as [|a c IH]; simpl in *; [done|]. apply andb_true_iff in Hb as [Ha Hb].
      destruct (Ascii.eqb_spec a dquote) as [->|]; [done|]. by rewrite (IH Hb). }
    pose proof (proj2 (utf8_char_app c "" Hc)) as E. rewrite str_app_nil_r in E. by rewrite E.
Qed.

(** Collapsing the doubled quotes. *)
Lemma replace_csv_escape s : replace (dquote_str +:+ dquote_str) dquote_str (csv_escape s) = s.
Proof.
  unfold replace. induction s as [|a s IH]; [done|]. cbn [csv_escape].
  destruct (Ascii.eqb_spec a dquote) as [->|Hne].
  - cbn [replace_aux]. change (String.prefix (dquote_str +:+ dquote_str) (String dquote (String dquote (csv_escape s))))
      with (String.prefix "" (csv_escape s)). replace (String.prefix "" (csv_escape s)) with true by (by destruct (csv_escape s)).
    change (Nat.pred (String.length (dquote_str +:+ dquote_str))) with 1. cbn [replace_aux]. by rewrite IH.
  - cbn [replace_aux]. assert (String.prefix (dquote_str +:+ dquote_str) (String a (csv_escape s)) = false) as ->.
    { change (String.prefix (dquote_str +:+ dquote_str) (String a (csv_escape s)))
        with (if ascii_dec dquote a then String.prefix dquote_str (csv_escape s) else false).
      destruct (ascii_dec dquote a) as [E|]; [by destruct Hne|done]. }
    by rewrite IH.
Qed.

Lemma finish_quoted f : utf8_valid f = true -> finish_csv_field (csv_quote f) true = trim f.
Proof.
  intros Hf. unfold finish_csv_field.
  transitivity (trim (replace (dquote_str +:+ dquote_str) dquote_str (csv_escape f))); [|by rewrite replace_csv_escape].
  f_equal. f_equal. unfold csv_quote. assert (trim (dquote_str +:+ csv_escape f +:+ dquote_str) = dquote_str +:+ csv_escape f +:+ dquote_str) as ->.
  { apply trim_id; try done. change (String dquote ?x) with (dquote_str +:+ x).
    rewrite (utf8_valid_app dquote_str) by done. by rewrite utf8_valid_app by (by apply csv_escape_utf8). }
  change (strip_prefix dquote_str (dquote_str +:+ csv_escape f +:+ dquote_str)) with (Some (csv_escape f +:+ dquote_str)).
  cbn [default]. unfold id, dquote_str. by rewrite strip_suffix_char_snoc, Ascii.eqb_refl.
Qed.

(** Inside quotes up to the closing one. *)
Lemma split_csv_inside f : forall cur rest, (forall b t, rest = String b t -> b <> dquote) ->
  split_csv_go true true cur (csv_escape f +:+ String dquote rest) =
  split_csv_go false true (cur +:+ csv_escape f +:+ dquote_str) rest.
Proof.
  induction f as [|a f IH]; intros cur rest Hr.
  - simpl. destruct rest as [|b t]; [done|].
    destruct (Ascii.eqb_spec b dquote) as [->|]; [by destruct (Hr dquote t)|]. done.
  - cbn [csv_escape]. destruct (Ascii.eqb_spec a dquote) as [->|Hne].
    + cbn [String.append split_csv_go]. rewrite Ascii.eqb_refl. cbn [andb].
      rewrite IH by done. f_equal. by rewrite !str_app_assoc.
    + cbn [String.append split_csv_go]. destruct (Ascii.eqb_spec a dquote); [done|].
      rewrite andb_false_r. rewrite IH by done. f_equal. by rewrite !str_app_assoc.
Qed.

Lemma split_csv_quoted f rest : (forall b t, rest = String b t -> b <> dquote) ->
  split_csv_go false false "" (csv_quote f +:+ rest) = split_csv_go false true (csv_quote f) rest.
Proof.
  intros Hr. unfold csv_quote. change dquote_str with (String dquote "") at 1.
  cbn [String.append]. rewrite str_app_assoc. cbn [String.append].
  transitivity (split_csv_go true true dquote_str (csv_escape f +:+ String dquote rest)).
  { cbn [split_csv_go]. rewrite Ascii.eqb_refl. cbn [andb negb String.append].
    change (dquote_str +:+ rest) with (String dquote rest).
    by destruct (csv_escape f +:+ String dquote rest). }
  rewrite split_csv_inside by done. done.
Qed.

(** Quoting is undone: fields of any content (commas, quotes and line
    breaks included), written between quotes with their quotes doubled and
    separated by commas, are split into exactly these fields, each trimmed. *)
Theorem csv_quoted_roundtrip f fs : Forall (fun x => utf8_valid x = true) (f :: fs) ->
  split_csv (str_join "," (csv_quote <$> f :: fs)) = trim <$> f :: fs.
Proof.
  unfold split_csv. revert f. induction fs as [|g fs IH]; intros f HF; apply Forall_cons in HF as [Hf HF].
  - cbn [fmap list_fmap str_join]. rewrite <- (str_app_nil_r (csv_quote f)).
    rewrite split_csv_quoted by done. cbn [split_csv_go]. by rewrite finish_quoted.
  - change (csv_quote <$> f :: g :: fs) with (csv_quote f :: (csv_quote <$> g :: fs)).
    change (str_join "," (csv_quote f :: (csv_quote <$> g :: fs))) with
      (csv_quote f +:+ String "," (str_join "," (csv_quote <$> g :: fs))).
    rewrite split_csv_quoted by (by intros b t [= <- _]).
    cbn [split_csv_go Ascii.eqb]. change (Ascii.eqb "," dquote) with false. cbn [andb negb Ascii.eqb].
    change (Ascii.eqb "," ",") with true. cbn iota. rewrite finish_quoted by done.
    change (trim <$> f :: g :: fs) with (trim f :: (trim <$> g :: fs)). f_equal. by apply IH.
Qed.

(** ** CEF headers *)

(** The escaping that CEF prescribes. *)
Definition cef_escape_byte (a : ascii) : string :=
  if Ascii.eqb a backslash then String backslash (String backslash "")
  else if Ascii.eqb a pipe then String backslash (String pipe "")
  else if Ascii.eqb a carriage_return then String backslash "r"
  else if Ascii.eqb a newline then String backslash "n"
  else String a "".

Fixpoint cef_escape (s : string) : string :=
  match s with
  | "" => ""
  | String a s' => cef_escape_byte a +:+ cef_escape s'
  end.

Lemma cef_escape_app s t : cef_escape (s +:+ t) = cef_escape s +:+ cef_escape t.
Proof. induction s as [|a s IH]; simpl; [done|]. by rewrite IH, str_app_assoc. Qed.

Lemma cef_escape_char c : utf8_char c = true ->
  (exists a, c = String a "" /\ is_ascii a = true /\ cef_escape c = cef_escape_byte a) \/
  (cef_escape c = c /\ c <> backslash_str).
Proof.
  intros Hc. destruct (utf8_char_bytes c Hc) as [(a & -> & Ha)|Hb].
  - left. exists a. split_and!; [done..|]. simpl. by rewrite str_app_nil_r.
  - right. split.
    + clear Hc. induction c as [|a c IH]; simpl in *; [done|]. apply andb_true_iff in Hb as [Ha Hb].
      rewrite (IH Hb). unfold cef_escape_byte.
      destruct (Ascii.eqb_spec a backslash) as [->|]; [done|].
      destruct (Ascii.eqb_spec a pipe) as [->|]; [done|].
      destruct (Ascii.eqb_spec a carriage_return) as [->|]; [done|].
      by destruct (Ascii.eqb_spec a newline) as [->|].
    + intros ->. done.
Qed.

Lemma unescape_chars_plain c cs : c <> backslash_str -> unescape_chars (c :: cs) = c +:+ unescape_chars cs.
Proof. intros Hc. simpl. by destruct (String.eqb_spec c backslash_str). Qed.

Lemma unescape_escaped s : utf8_valid s = true -> unescape_chars (chars (cef_escape s)) = s.
Proof.
  revert s. apply (utf8_ind (fun s => unescape_chars (chars (cef_escape s)) = s)); [done|].
  intros c s Hc Hs IH. rewrite cef_escape_app. destruct (cef_escape_char c Hc) as [(a & -> & Ha & ->)|[-> Hb]].
  - unfold cef_escape_byte. destruct (Ascii.eqb_spec a backslash) as [->|H1]; [by simpl; rewrite IH|].
    destruct (Ascii.eqb_spec a pipe) as [->|H2]; [by simpl; rewrite IH|].
    destruct (Ascii.eqb_spec a carriage_return) as [->|H3]; [by simpl; rewrite IH|].
    destruct (Ascii.eqb_spec a newline) as [->|H4]; [by simpl; rewrite IH|].
    cbn [String.append]. rewrite chars_ascii_cons by done. rewrite unescape_chars_plain, IH; [done|].
    intros [= E]. by rewrite E in H1.
  - by rewrite (proj1 (utf8_char_app c _ Hc)), unescape_chars_plain, IH.
Qed.

Lemma find_byte_str b a s : find (String b "") (String a s) =
  if Ascii.eqb a b then Some 0 else S <$> find (String b "") s.
Proof.
  cbn [find]. change (String.prefix (String b "") (String a s)) with (if ascii_dec b a then String.prefix "" s else false).
  destruct (ascii_dec b a) as [->|Hne].
  - rewrite Ascii.eqb_refl. by destruct s.
  - by destruct (Ascii.eqb_spec a b) as [->|].
Qed.

Lemma no_backslash_escape s : contains backslash_str (cef_escape s) = false -> cef_escape s = s.
Proof.
  unfold contains, backslash_str. induction s as [|a s IH]; [done|]. cbn [cef_escape]. unfold cef_escape_byte.
  destruct (Ascii.eqb a backslash); [by cbn [String.append]; rewrite find_byte_str|].
  destruct (Ascii.eqb a pipe); [by cbn [String.append]; rewrite find_byte_str|].
  destruct (Ascii.eqb a carriage_return); [by cbn [String.append]; rewrite find_byte_str|].
  destruct (Ascii.eqb a newline); [by cbn [String.append]; rewrite find_byte_str|].
  cbn [String.append]. rewrite find_byte_str. destruct (Ascii.eqb a backslash); [done|].
  destruct (find _ (cef_escape s)) as [n|]; [done|]. intros _. by rewrite IH.
Qed.

Lemma unescape_cef_escape s : utf8_valid s = true -> unescape_cef (cef_escape s) = s.
Proof.
  intros Hs. unfold unescape_cef. destruct (contains _ _) eqn:E; [by apply unescape_escaped|].
  by apply no_backslash_escape.
Qed.

Lemma split_cef_field f : forall splits cur rest, splits < 7 ->
  split_cef_go splits cur (cef_escape f +:+ String pipe rest) =
  unescape_cef (cur +:+ cef_escape f) :: split_cef_go (S splits) "" rest.
Proof.
  induction f as [|a f IH]; intros splits cur rest Hs.
  - simpl cef_escape. cbn [String.append]. rewrite str_app_nil_r. cbn [split_cef_go].
    destruct (Nat.ltb_spec splits 7); [|lia]. done.
  - cbn [cef_escape]. rewrite !str_app_assoc.
    assert (forall x, split_cef_go splits cur (String backslash (String x (cef_escape f +:+ String pipe rest))) =
      unescape_cef (cur +:+ String backslash (String x (cef_escape f))) :: split_cef_go (S splits) "" rest) as Hesc.
    { intros x. cbn [split_cef_go]. destruct (Nat.ltb_spec splits 7); [|lia]. rewrite Ascii.eqb_refl.
      rewrite (IH splits) by done. by rewrite str_app_assoc. }
    unfold cef_escape_byte. destruct (Ascii.eqb_spec a backslash) as [->|H1]; [apply Hesc|].
    destruct (Ascii.eqb_spec a pipe) as [->|H2]; [apply Hesc|].
    destruct (Ascii.eqb_spec a carriage_return) as [->|H3]; [apply Hesc|].
    destruct (Ascii.eqb_spec a newline) as [->|H4]; [apply Hesc|].
    cbn [String.append split_cef_go]. destruct (Nat.ltb_spec splits 7); [|lia].
    destruct (Ascii.eqb_spec a backslash); [done|]. destruct (Ascii.eqb_spec a pipe); [done|].
    rewrite (IH splits) by done. by rewrite str_app_assoc.
Qed.

Definition cef_field (f : string) : string := cef_escape f +:+ String pipe "".

Lemma split_cef_fields fs ext : forall splits, splits + length fs = 7 ->
  Forall (fun f => utf8_valid f = true) fs ->
  split_cef_go splits "" (str_concat (cef_field <$> fs) +:+ ext) = fs ++ [ext].
Proof.
  induction fs as [|f fs IH]; intros splits Hl HF.
  - simpl in Hl. replace splits with 7 by lia. simpl. by destruct ext.
  - apply Forall_cons in HF as [Hf HF]. rewrite fmap_cons, str_concat_cons. unfold cef_field at 1.
    rewrite !str_app_assoc. cbn [String.append]. simpl in Hl. rewrite split_cef_field by lia.
    cbn [String.append]. rewrite (unescape_cef_escape _ Hf). cbn [app]. f_equal. apply IH; [lia|done].
Qed.

(** The header of a CEF record is recovered: seven fields of any content
    (pipes, backslashes and line breaks included), escaped as CEF prescribes
    and each followed by a pipe, are split into exactly these fields, and the
    rest is the extension, unchanged. *)
Theorem cef_header_roundtrip fs ext : length fs = 7 -> Forall (fun f => utf8_valid f = true) fs ->
  split_cef_header (str_concat (cef_field <$> fs) +:+ ext) = fs ++ [ext].
Proof. intros Hl HF. by apply (split_cef_fields fs ext 0). Qed.

(** ** Witnesses *)

Module TokenDemo.

#[export] Instance demo_unicode : UnicodeLib := {|
  is_alphanumeric c := match c with String a "" => is_ascii_alnum a | _ => true end;
  is_alphanumeric_ascii a := eq_refl
|}.

Definition fields : list string := ["CEF:0"; "Acme|Corp"; "C:\fw"; "1.0"; "100"; "deny"; "5"].

Lemma csv_quoted_roundtrip_witness :
  split_csv (str_join "," (csv_quote <$> ["a,b"; "say " +:+ dquote_str +:+ "hi" +:+ dquote_str; ""]))
  = trim <$> ["a,b"; "say " +:+ dquote_str +:+ "hi" +:+ dquote_str; ""].
Proof. apply csv_quoted_roundtrip. repeat constructor. Defined.

Lemma cef_header_roundtrip_witness :
  split_cef_header (str_concat (cef_field <$> fields) +:+ "src=10.0.0.1") = fields ++ ["src=10.0.0.1"].
Proof. apply (cef_header_roundtrip fields "src=10.0.0.1"); [reflexivity|repeat constructor]. Defined.

(** The quoted fields of the CSV example come back as they were. *)
Example csv_example :
  split_csv (str_join "," (csv_quote <$> ["a,b"; "say " +:+ dquote_str +:+ "hi" +:+ dquote_str; ""]))
  = ["a,b"; "say " +:+ dquote_str +:+ "hi" +:+ dquote_str; ""].
Proof. vm_compute. reflexivity. Qed.

(** A backslash before a character that needs no escape is dropped. *)
Example unescape_unknown : unescape_cef "C:\windows" = "C:windows".
Proof. vm_compute. reflexivity. Qed.

(** The extension of a CEF line in pairs. *)
Example kv_example : kv_tokens "src=10.0.0.1 spt=53 act=deny" = Some [("src", "10.0.0.1"); ("spt", "53"); ("act", "deny")].
Proof. vm_compute. reflexivity. Qed.

End TokenDemo.
