(* ===== verification/LruFacts.v ===== *)
(** * The signature cache keeps its invariant

    Every shard holds the keys of its eviction queue, each once, and at most as
    many as its capacity (at least one); the operations never index out of
    range; a key just inserted is found, and the entry evicted is the oldest
    one, whether it was looked up in the meantime or not. *)

From S2P Require Export Lru.

Record shard_inv (s : Shard) : Prop := {
  si_nodup : NoDup (sh_order s);
  si_dom : dom (sh_entries s) = list_to_set (sh_order s);
  si_size : size (sh_entries s) <= Nat.max 1 (sh_capacity s)
}.

Record cache_inv (c : SignatureLruCache) : Prop := {
  ci_shards : Forall shard_inv (shards c);
  ci_len : exists k, length (shards c) = 2 ^ k;
  ci_mask : shard_mask c = (Z.of_nat (length (shards c)) - 1)%Z
}.

Lemma shard_size s : shard_inv s -> size (sh_entries s) = length (sh_order s).
Proof. intros [Hn Hd _]. rewrite <- size_dom, Hd. by apply size_list_to_set. Qed.

Lemma shard_insert_inv s key f : shard_inv s -> shard_inv (shard_insert s key f).2.
Proof.
  intros I. pose proof (shard_size s I) as Hsz. destruct I as [Hn Hd Hs]. unfold shard_insert.
  destruct (sh_entries s !! key) as [g|] eqn:Ek.
  - split; simpl; [done| |].
    + rewrite dom_insert_L, Hd. assert (key ∈ dom (sh_entries s)) as Hk by (apply elem_of_dom; eauto).
      rewrite Hd in Hk. set_solver.
    + by rewrite map_size_insert_Some by eauto.
  - assert (key ∉ sh_order s) as Hk.
    { intros Hin. assert (key ∈ dom (sh_entries s)) as Hx by (rewrite Hd; by apply elem_of_list_to_set).
      apply elem_of_dom in Hx as [x Hx]. congruence. }
    destruct (Nat.leb_spec (sh_capacity s) (size (sh_entries s))).
    + destruct (sh_order s) as [|o order] eqn:Eo; simpl in *.
      * assert (sh_entries s = ∅) as -> by (apply map_size_empty_inv; lia).
        split; simpl; [by apply NoDup_singleton|set_solver|]. rewrite insert_empty, map_size_singleton. lia.
      * apply NoDup_cons in Hn as [Ho Hn].
        assert (dom (delete o (sh_entries s)) = list_to_set order) as Hd'.
        { rewrite dom_delete_L, Hd. apply set_eq. intros x. rewrite elem_of_difference, elem_of_union, !elem_of_singleton,
            elem_of_list_to_set. naive_solver. }
        split; simpl.
        -- apply NoDup_app. split_and!; [done| |by apply NoDup_singleton]. set_solver.
        -- rewrite dom_insert_L, Hd', list_to_set_app_L. set_solver.
        -- rewrite map_size_insert_None by (rewrite lookup_delete_ne; set_solver).
           rewrite map_size_delete_Some; [lia|].
           assert (o ∈ dom (sh_entries s)) as Hx by (rewrite Hd; set_solver). by apply elem_of_dom.
    + split; simpl.
      * apply NoDup_app. split_and!; [done| |by apply NoDup_singleton]. set_solver.
      * rewrite dom_insert_L, Hd, list_to_set_app_L. set_solver.
      * rewrite map_size_insert_None by done. lia.
Qed.

Lemma land_mask k h : Z.to_nat (Z.land h (Z.of_nat (2 ^ k) - 1)) < 2 ^ k.
Proof.
  rewrite Nat2Z.inj_pow. change (Z.of_nat 2) with 2%Z.
  replace (2 ^ Z.of_nat k - 1)%Z with (Z.ones (Z.of_nat k)) by (rewrite Z.ones_equiv; lia).
  rewrite Z.land_ones by lia. pose proof (Z.mod_pos_bound h (2 ^ Z.of_nat k) ltac:(lia)).
  apply Nat2Z.inj_lt. rewrite Z2Nat.id by lia. rewrite Nat2Z.inj_pow. change (Z.of_nat 2) with 2%Z. lia.
Qed.

Lemma shard_idx_lookup c h : cache_inv c -> exists s, shards c !! shard_idx c h = Some s /\ shard_inv s.
Proof.
  intros [HF [k Hk] Hm]. destruct (lookup_lt_is_Some_2 (shards c) (shard_idx c h)) as [s Hs].
  { unfold shard_idx. rewrite Hm, Hk. apply land_mask. }
  exists s. split; [done|]. rewrite Forall_lookup in HF. eauto.
Qed.

Lemma with_capacity_inv n cap c : with_capacity n cap = Some c -> cache_inv c.
Proof.
  unfold with_capacity. destruct (is_power_of_two n) eqn:E; [|done]. intros [= <-].
  unfold is_power_of_two in E. apply andb_true_iff in E as [E1 E2]. bool_hyps.
  split; simpl.
  - apply Forall_replicate. split; simpl; [constructor|done|]. rewrite map_size_empty. lia.
  - exists (Z.to_nat (Z.log2 (Z.of_nat n))). rewrite length_replicate. apply Nat2Z.inj.
    rewrite Nat2Z.inj_pow, Z2Nat.id by (apply Z.log2_nonneg). by change (Z.of_nat 2) with 2%Z.
  - by rewrite length_replicate.
Qed.

Lemma cache_get_ok c h : cache_inv c -> exists c',
  cache_get c h = Some (shards c !! shard_idx c h ≫= (fun s => shard_get s h), c') /\ cache_inv c' /\
  shards c' = shards c /\ shard_mask c' = shard_mask c.
Proof.
  intros I. unfold cache_get. destruct (shard_idx_lookup c h I) as (s & -> & _). simpl.
  destruct I as [HF Hl Hm]. destruct (shard_get s h); eexists; (split; [reflexivity|]); done.
Qed.

Lemma cache_insert_ok c h f : cache_inv c -> exists c', cache_insert c h f = Some c' /\ cache_inv c' /\
  shard_mask c' = shard_mask c /\ exists s, shards c !! shard_idx c h = Some s /\
  shards c' = <[shard_idx c h := (shard_insert s h f).2]> (shards c).
Proof.
  intros I. unfold cache_insert. destruct (shard_idx_lookup c h I) as (s & Hs & Is). rewrite Hs.
  pose proof (shard_insert_inv s h f Is) as Is'. destruct (shard_insert s h f) as [ev s'] eqn:E. simpl in *.
  eexists; split_and!; [reflexivity| |done|by exists s; rewrite E].
  destruct I as [HF Hl Hm]. split; simpl; rewrite ?length_insert; try done. by apply Forall_insert.
Qed.

(** What an insertion of a new key into a shard does to the other entries. *)
Lemma shard_insert_lookup s key f : shard_inv s ->
  shard_get (shard_insert s key f).2 key = Some f /\
  forall k, k <> key -> sh_entries s !! k <> None ->
    shard_get (shard_insert s key f).2 k =
      (if (decide (sh_entries s !! key = None)) then
         if (sh_capacity s <=? size (sh_entries s))%nat then
           if decide (head (sh_order s) = Some k) then None else shard_get s k
         else shard_get s k
       else shard_get s k).
Proof.
  intros I. unfold shard_get, shard_insert. destruct (sh_entries s !! key) as [g|] eqn:Ek.
  { simpl. split; [by rewrite lookup_insert_eq|]. intros k Hk _. by rewrite lookup_insert_ne. }
  destruct (sh_capacity s <=? size (sh_entries s))%nat.
  - destruct (sh_order s) as [|o order]; simpl; (split; [by rewrite lookup_insert_eq|]); intros k Hk Hin;
      rewrite lookup_insert_ne by done; [done|].
    destruct (decide (Some o = Some k)) as [[= ->]|Hne]; [by rewrite lookup_delete_eq|].
    rewrite lookup_delete_ne; [done|congruence].
  - simpl. split; [by rewrite lookup_insert_eq|]. intros k Hk _.
    by rewrite lookup_insert_ne.
Qed.

(** ** Runs of the cache *)

Inductive CacheOp := CGet (h : Z) | CInsert (h : Z) (f : VendorFormat) | CReset.

Definition cache_step (c : SignatureLruCache) (op : CacheOp) : option SignatureLruCache :=
  match op with
  | CGet h => match cache_get c h with Some (_, c') => Some c' | None => None end
  | CInsert h f => cache_insert c h f
  | CReset => Some (reset_stats c)
  end.

Fixpoint cache_run (ops : list CacheOp) (c : SignatureLruCache) : option SignatureLruCache :=
  match ops with [] => Some c | op :: ops' => c' <-! cache_step c op; cache_run ops' c' end.

Lemma cache_run_inv ops : forall c, cache_inv c -> exists c', cache_run ops c = Some c' /\ cache_inv c'.
Proof.
  induction ops as [|op ops IH]; intros c I; simpl; [eauto|].
  assert (exists c1, cache_step c op = Some c1 /\ cache_inv c1) as (c1 & -> & I1); [|by apply IH].
  destruct op as [h|h f|]; simpl.
  - destruct (cache_get_ok c h I) as (c1 & -> & I1 & _). eauto.
  - destruct (cache_insert_ok c h f I) as (c1 & -> & I1 & _). eauto.
  - exists (reset_stats c). split; [done|]. by destruct I.
Qed.

(** Every sequence of lookups, insertions and resets on a cache runs without
    an index out of range, and afterwards every shard holds exactly the keys
    of its eviction queue, each once, and at most [max 1 capacity] of them. *)
Theorem cache_invariant n cap c ops : with_capacity n cap = Some c ->
  exists c', cache_run ops c = Some c' /\ cache_inv c'.
Proof. intros E. by apply cache_run_inv, (with_capacity_inv n cap). Qed.

(** Eviction is first-in first-out: a lookup changes no shard, and inserting
    a new key into a full shard removes exactly the key inserted first, also
    when it was the one looked up last; all other keys keep their formats, and
    the new key is found. *)
Theorem eviction_is_fifo s key f o : shard_inv s -> sh_entries s !! key = None ->
  sh_capacity s <= size (sh_entries s) -> head (sh_order s) = Some o ->
  (forall c h r c', cache_get c h = Some (r, c') -> shards c' = shards c) /\
  shard_get (shard_insert s key f).2 o = None /\
  shard_get (shard_insert s key f).2 key = Some f /\
  forall k, k <> key -> k <> o -> sh_entries s !! k <> None ->
    shard_get (shard_insert s key f).2 k = shard_get s k.
Proof.
  intros I Hk Hc Ho. destruct (shard_insert_lookup s key f I) as [H1 H2].
  assert (sh_entries s !! o <> None) as Hin.
  { assert (o ∈ dom (sh_entries s)) as Hx.
    { rewrite (si_dom _ I). destruct (sh_order s); simplify_eq/=. set_solver. }
    apply elem_of_dom in Hx as [x ->]. done. }
  assert (forall k, k <> key -> sh_entries s !! k <> None -> shard_get (shard_insert s key f).2 k =
    if decide (head (sh_order s) = Some k) then None else shard_get s k) as H3.
  { intros k Hne Hkin. rewrite (H2 k Hne Hkin), decide_True by done.
    by destruct (Nat.leb_spec (sh_capacity s) (size (sh_entries s))); [|lia]. }
  split_and!; [|rewrite H3; [by rewrite decide_True|congruence|done]|done|].
  - intros c h r c'. unfold cache_get. destruct (shards c !! _) as [sh|]; [|done].
    by destruct (shard_get sh h); intros [= _ <-].
  - intros k Hne Hno Hkin. rewrite H3 by done. rewrite decide_False; [done|congruence].
Qed.

(** ** Witnesses *)

Module LruDemo.

Definition cache0 : SignatureLruCache := default (mkCache [] 0 0 0 0) (with_capacity 2 1).

Lemma cache_invariant_witness : exists c',
  cache_run [CInsert 4 Fortinet; CGet 4; CInsert 6 PfSense; CReset] cache0 = Some c' /\ cache_inv c'.
Proof. apply (cache_invariant 2 1 cache0). reflexivity. Defined.

(** A full shard of two keys, the first of which was looked up last. *)
Definition shard2 : Shard := (shard_insert (shard_insert (shard_new 2) 4 Fortinet).2 6 PfSense).2.

Lemma shard2_inv : shard_inv shard2.
Proof.
  apply shard_insert_inv, shard_insert_inv. split; simpl; [constructor|done|]. rewrite map_size_empty. lia.
Qed.

Lemma eviction_is_fifo_witness :
  (forall c h r c', cache_get c h = Some (r, c') -> shards c' = shards c) /\
  shard_get (shard_insert shard2 8 Cef).2 4 = None /\
  shard_get (shard_insert shard2 8 Cef).2 8 = Some Cef /\
  forall k, k <> 8%Z -> k <> 4%Z -> sh_entries shard2 !! k <> None ->
    shard_get (shard_insert shard2 8 Cef).2 k = shard_get shard2 k.
Proof.
  apply (eviction_is_fifo shard2 8 Cef 4).
  - apply shard2_inv.
  - vm_compute; reflexivity.
  - vm_compute; lia.
  - vm_compute; reflexivity.
Defined.

End LruDemo.
