(* ===== verification/ParserFacts.v ===== *)
(** * What the universal parser guarantees

    Provenance and well-formedness of every event, totality on ASCII lines,
    the panic on a Unicode space, the classifier's rule, and the effect of
    the signature cache on the result. *)

From S2P Require Export TokenFacts LruFacts Parser.

Section Facts.
Context `{Sha256} `{HexLib} `{UnicodeLib} `{ChronoLib} `{RegexLib} `{JsonLib} `{AhoCorasick}.

Lemma extract_wf f now raw a : extract f now raw = Some (Ok a) -> activity_wf a.
Proof.
  destruct f; simpl.
  - apply asa_wf.
  - apply fortigate_wf.
  - apply palo_wf.
  - apply suricata_wf.
  - apply pfsense_wf.
  - apply cef_wf.
  - done.
Qed.

(** An event that carries the line it came from. *)
Record carries (raw : string) (a : NetworkActivity) : Prop := {
  ca_raw : md_raw_data (na_metadata a) = raw;
  ca_hash : md_raw_hash (na_metadata a) = hex_encode (b32 (sha256 raw))
}.

Lemma parse_with_format_ok env raw f a : parse_with_format env raw f = Some (Ok a) ->
  activity_wf a /\ carries raw a /\ md_event_id (na_metadata a) = pe_event_id env /\
  md_ingest_time (na_metadata a) = pe_ingest_time env.
Proof.
  unfold parse_with_format. destruct (extract f (pe_now_ms env) raw) as [[x|e]|] eqn:E; simpl; try done.
  intros [= <-]. apply extract_wf in E. split; [by apply set_provenance_wf|done].
Qed.

Lemma parse_is_with_format env raw : parse env raw = parse_with_format env raw (classify raw).
Proof. done. Qed.

Lemma unparsed_wf env raw err : activity_wf (unparsed_event env raw err) /\ carries raw (unparsed_event env raw err).
Proof.
  unfold unparsed_event. split.
  - apply with_unmapped_wf, activity_new_wf; simpl; try done; [apply elem_id|apply elem_disp]; tauto.
  - unfold with_unmapped. case_decide; done.
Qed.

Lemma parse_lossless_ok env raw a : parse_lossless env raw = Some a -> activity_wf a /\ carries raw a.
Proof.
  unfold parse_lossless. rewrite parse_is_with_format.
  destruct (parse_with_format env raw (classify raw)) as [[x|e]|] eqn:E; [|intros [= <-]; apply unparsed_wf|done].
  intros [= <-]. by apply parse_with_format_ok in E as (? & ? & _).
Qed.

(** C22: every event that a parse returns, with or without the cache and whether
    the line was recognized or not, carries the raw line and its SHA-256
    digest, and is a well-formed OCSF event: category 4, class 4001, type
    400100 plus the activity, an activity and a disposition of the schema, and
    ports, protocol and counters in the range of their types. *)
Theorem parsed_event_ok env raw :
  (forall a, parse_lossless env raw = Some a -> activity_wf a /\ carries raw a) /\
  (forall c a c', parse_cached_lossless env c raw = Some (a, c') -> activity_wf a /\ carries raw a).
Proof.
  split; [intros a; apply parse_lossless_ok|].
  - intros c a c'. unfold parse_cached_lossless.
    assert (forall x c1, parse_cached env c raw = Some (Ok x, c1) -> activity_wf x /\ carries raw x) as Hc.
    { intros x c1. unfold parse_cached. destruct (cache_get c _) as [[[f|] c2]|]; [| |done].
      - destruct (parse_with_format env raw f) as [r|] eqn:E; [|done]. intros [= -> _].
        by apply parse_with_format_ok in E as (? & ? & _).
      - destruct (if decide _ then _ else _) as [c3|]; [|done].
        destruct (parse_with_format env raw (classify raw)) as [r|] eqn:E; [|done]. intros [= -> _].
        by apply parse_with_format_ok in E as (? & ? & _). }
    destruct (parse_cached env c raw) as [[[x|e] c1]|] eqn:E; [| |done]; intros [= <- _]; [eauto|apply unparsed_wf].
Qed.

(** ** Totality *)

Lemma split_cef_last_ascii q n : forall s splits cur x, String.length s <= n -> splits <= 7 ->
  all_bytes q cur = true -> all_bytes q s = true ->
  split_cef_go splits cur s !! (7 - splits) = Some x -> all_bytes q x = true.
Proof.
  induction n as [|n IH]; intros s splits cur x Hl Hs Hc Hq E.
  all: destruct (decide (splits = 7)) as [->|Hne]; [destruct s; simpl in E; simplify_eq/=;
    by rewrite all_bytes_app, Hc|].
  all: destruct s as [|a s1]; simpl in Hl; [|try lia].
  all: cbn [split_cef_go] in E; destruct (Nat.ltb_spec splits 7); [|lia].
  1,2: replace (7 - splits) with (S (6 - splits)) in E by lia; done.
  simpl in Hq. apply andb_true_iff in Hq as [Ha Hq].
  destruct (Ascii.eqb a backslash).
  - destruct s1 as [|b s2]; [replace (7 - splits) with (S (6 - splits)) in E by lia; done|].
    simpl in Hq, Hl. apply andb_true_iff in Hq as [Hb Hq].
    eapply IH; [..|exact E]; try done; [lia|]. rewrite all_bytes_app, Hc. simpl. by rewrite Ha, Hb.
  - destruct (Ascii.eqb a pipe).
    + replace (7 - splits) with (S (7 - S splits)) in E by lia. simpl in E.
      eapply (IH s1 (S splits) ""); [lia|lia|done|done|]. by replace (7 - S splits) with (6 - splits) in E |- * by lia.
    + eapply IH; [..|exact E]; try done; [lia|]. rewrite all_bytes_app, Hc. simpl. by rewrite Ha.
Qed.

Lemma extract_ascii f now raw : all_bytes is_ascii raw = true -> exists r, extract f now raw = Some r.
Proof.
  intros Hs. destruct f; simpl.
  - unfold asa_parse. destruct (re_captures _ raw); eauto.
  - unfold fortigate_parse. destruct (ascii_kv_tokens raw Hs) as [l ->]. eauto.
  - unfold palo_parse. destruct (_ <? _)%nat; eauto.
  - unfold suricata_parse. destruct (json_from_str _); eauto.
  - unfold pfsense_parse. destruct (_ <? _)%nat; eauto.
  - unfold cef_parse. destruct (find "CEF:" raw) as [pos|]; [|eauto].
    assert (all_bytes is_ascii (default "" (split_cef_header (str_drop pos raw) !! 7)) = true) as Hx.
    { destruct (split_cef_header (str_drop pos raw) !! 7) as [x|] eqn:E; [|done]. simpl.
      apply (split_cef_last_ascii is_ascii (String.length (str_drop pos raw)) (str_drop pos raw) 0 ""); try done;
        [lia|by apply all_bytes_drop]. }
    destruct (ascii_kv_tokens _ Hx) as [l ->]. eauto.
  - eauto.
Qed.

Lemma parse_with_format_ascii env raw f : all_bytes is_ascii raw = true ->
  exists r, parse_with_format env raw f = Some r.
Proof.
  intros Hs. unfold parse_with_format.
  destruct (extract_ascii f (pe_now_ms env) raw Hs) as [[a|e] ->]; simpl; eauto.
Qed.

Lemma parse_lossless_ascii env raw : all_bytes is_ascii raw = true -> exists a, parse_lossless env raw = Some a.
Proof.
  intros Hs. unfold parse_lossless. rewrite parse_is_with_format.
  destruct (parse_with_format_ascii env raw (classify raw) Hs) as [r ->]. eauto.
Qed.

(** C23: no ASCII line is lost: on every line of ASCII bytes, [parse_lossless]
    and, for a cache in its invariant, [parse_cached_lossless] return an event
    (no panic), and the cache keeps its invariant. *)
Theorem lossless_total_on_ascii env raw c : all_bytes is_ascii raw = true -> cache_inv c ->
  (exists a, parse_lossless env raw = Some a) /\
  (exists a c', parse_cached_lossless env c raw = Some (a, c') /\ cache_inv c').
Proof.
  intros Hs I. pose proof (fun f => parse_with_format_ascii env raw f Hs) as Hp. split.
  - by apply parse_lossless_ascii.
  - assert (exists r c', parse_cached env c raw = Some (r, c') /\ cache_inv c') as (r & c' & E & I').
    { unfold parse_cached. destruct (cache_get_ok c (compute_signature_hash raw) I) as (c1 & -> & I1 & _).
      destruct (_ ≫= _) as [f|].
      - destruct (Hp f) as [r ->]. eauto.
      - destruct (Hp (classify raw)) as [r ->]. case_decide; [eauto|].
        destruct (cache_insert_ok c1 (compute_signature_hash raw) (classify raw) I1) as (c2 & -> & I2 & _). eauto. }
    unfold parse_cached_lossless. rewrite E. destruct r; eauto.
Qed.

(** [a], a no-break space, [b=1 devname=x] *)
Definition nbsp_line : string := "a" +:+ bytes_to_str [194; 160]%Z +:+ "b=1 devname=x".

(** The lossless parser panics on a well-formed UTF-8 line: the tokenizer
    takes the byte after the last white-space character before an equals sign
    for the start of the key, which is inside the character when that white
    space is a no-break space. *)
Theorem nbsp_line_panics : utf8_valid nbsp_line = true /\
  forall env, parse env nbsp_line = None /\ parse_lossless env nbsp_line = None.
Proof.
  split; [reflexivity|]. intros env.
  assert (classify nbsp_line = Fortinet) as Hc by (unfold classify; rewrite ac_find_spec; reflexivity).
  assert (kv_tokens nbsp_line = None) as Hk by reflexivity.
  assert (parse env nbsp_line = None) as Hp.
  { rewrite parse_is_with_format, Hc. unfold parse_with_format. cbn [extract]. unfold fortigate_parse. by rewrite Hk. }
  split; [done|]. unfold parse_lossless. by rewrite Hp.
Qed.

(** ** The classifier *)

Lemma first_prefix_spec pats s i : first_prefix pats s = Some i <->
  (exists p, pats !! i = Some p /\ starts_with p s = true) /\
  forall j p, j < i -> pats !! j = Some p -> starts_with p s = false.
Proof.
  revert i; induction pats as [|p pats IH]; intros i; simpl.
  - split; [done|]. by intros [(p & Hp & _) _].
  - destruct (starts_with p s) eqn:E.
    + split.
      * intros [= <-]. split; [by exists p|]. intros j q Hj. lia.
      * intros [_ Hmin]. destruct i as [|i]; [done|]. by rewrite (Hmin 0 p) in E by (done || lia).
    + split.
      * destruct (first_prefix pats s) as [k|]; [|done]. intros [= <-].
        destruct (proj1 (IH k) eq_refl) as [Hp Hmin]. split; [done|].
        intros [|j] q Hj Hq; simplify_eq/=; [done|]. apply (Hmin j); [lia|done].
      * intros [(q & Hq & Hs) Hmin]. destruct i as [|i]; simplify_eq/=; [congruence|].
        rewrite (proj2 (IH i)); [done|]. split; [eauto|].
        intros j r Hj Hr. apply (Hmin (S j)); [lia|done].
Qed.

Lemma first_prefix_none pats s : first_prefix pats s = None <-> Forall (fun p => starts_with p s = false) pats.
Proof.
  induction pats as [|p pats IH]; simpl; [by split|]. rewrite Forall_cons, <- IH.
  destruct (starts_with p s); [naive_solver|]. destruct (first_prefix pats s); naive_solver.
Qed.

(** The rule of the automaton: at some offset the pattern matches, no pattern
    matches before that offset, and no earlier pattern matches at it. *)
Lemma leftmost_first_spec pats s i : leftmost_first pats s = Some i ->
  exists n, first_prefix pats (str_drop n s) = Some i /\
    forall m, m < n -> first_prefix pats (str_drop m s) = None.
Proof.
  induction s as [|a s IH]; simpl; destruct (first_prefix pats _) as [k|] eqn:E; try done.
  - intros [= <-]. exists 0. split; [done|lia].
  - intros [= <-]. exists 0. split; [done|lia].
  - intros El. destruct (IH El) as (n & Hn & Hm). exists (S n). split; [done|].
    intros [|m] Hlt; [done|]. apply Hm. lia.
Qed.

(** The leftmost signature decides: when [classify] answers through the
    automaton, the format is that of the pattern, first in the table, among
    those that occur at the leftmost offset at which any pattern occurs; so a
    pattern of the table never wins over one that occurs further left, however
    early it is listed. *)
Theorem classify_leftmost raw i : ac_find (patterns_with_formats.*1) raw = Some i ->
  exists n p, patterns_with_formats !! i = Some (p, classify raw) /\
    starts_with p (str_drop n raw) = true /\
    (forall m q f, m < n -> (q, f) ∈ patterns_with_formats -> starts_with q (str_drop m raw) = false) /\
    (forall j q f, j < i -> patterns_with_formats !! j = Some (q, f) -> starts_with q (str_drop n raw) = false).
Proof.
  intros E. assert (leftmost_first (patterns_with_formats.*1) raw = Some i) as E' by (by rewrite <- ac_find_spec).
  assert (forall f, pattern_to_format !! i = Some f -> classify raw = f) as Ec
    by (intros f Hf; unfold classify; by rewrite E, Hf).
  clear E.
  apply leftmost_first_spec in E' as (n & Hn & Hm).
  apply first_prefix_spec in Hn as [(p & Hp & Hs) Hmin]. exists n, p.
  rewrite list_lookup_fmap in Hp. destruct (patterns_with_formats !! i) as [[q f]|] eqn:Ei; [|done].
  injection Hp as ->.
  split_and!; [|done| |].
  - rewrite (Ec f); [done|]. unfold pattern_to_format. by rewrite list_lookup_fmap, Ei.
  - intros m q g Hlt Hin. specialize (Hm m Hlt). apply first_prefix_none in Hm. rewrite Forall_fmap, Forall_forall in Hm.
    exact (Hm (q, g) Hin).
  - intros j q g Hj Hq. apply (Hmin j); [done|]. by rewrite list_lookup_fmap, Hq.
Qed.

(** ** The cache *)

(** A header of more than 96 bytes without a signature, as a relay adds it. *)
Definition relay_header : string :=
  "Oct 15 10:20:30 relay-01 forwarded message with a header that is longer than the window of ninety-six bytes: ".

Definition fortinet_line : string := relay_header +:+ "devname=f srcip=10.0.0.1 proto=6 action=accept".
Definition pfsense_line : string := relay_header +:+ "filterlog: 4,,,1,em0,match,block,in,4".

Lemma pfsense_line_blocked now : exists a, pfsense_parse now pfsense_line = Some (Ok a) /\ na_disposition a = BLOCKED.
Proof. eexists; split; [vm_compute; reflexivity|reflexivity]. Qed.

Lemma pfsense_line_as_fortinet now :
  exists a, fortigate_parse now pfsense_line = Some (Ok a) /\ na_disposition a = UNKNOWN.
Proof.
  unfold fortigate_parse. replace (kv_tokens pfsense_line) with (Some (@nil (string * string))) by (vm_compute; reflexivity).
  eexists; split; reflexivity.
Qed.

(** The cache is not transparent: after one FortiGate line with a long
    header, a pfSense line with the same header, which the parser without the
    cache reports as Blocked, is given to the FortiGate extractor and reported
    as Unknown. *)
Theorem cache_changes_verdict env c0 : with_capacity 16 512 = Some c0 ->
  exists r c1 a a' c2, parse_cached env c0 fortinet_line = Some (r, c1) /\
    parse_lossless env pfsense_line = Some a /\ na_disposition a = BLOCKED /\
    parse_cached_lossless env c1 pfsense_line = Some (a', c2) /\ na_disposition a' = UNKNOWN.
Proof.
  intros Hc. pose proof (with_capacity_inv _ _ _ Hc) as I.
  assert (classify fortinet_line = Fortinet) as Ef by (unfold classify; rewrite ac_find_spec; vm_compute; reflexivity).
  assert (classify pfsense_line = PfSense) as Ep by (unfold classify; rewrite ac_find_spec; vm_compute; reflexivity).
  assert (compute_signature_hash pfsense_line = compute_signature_hash fortinet_line) as Eh by (vm_compute; reflexivity).
  set (h := compute_signature_hash fortinet_line) in *.
  destruct (cache_get_ok c0 h I) as (c1 & G1 & I1 & S1 & M1).
  assert (shards c0 !! shard_idx c0 h ≫= (fun s => shard_get s h) = None) as Hn.
  { unfold with_capacity in Hc. simpl is_power_of_two in Hc. injection Hc as <-. vm_compute. reflexivity. }
  rewrite Hn in G1. destruct (cache_insert_ok c1 h Fortinet I1) as (c2 & G2 & I2 & M2 & s & Hs & S2).
  assert (shards c2 !! shard_idx c2 h ≫= (fun s => shard_get s h) = Some Fortinet) as Hf.
  { unfold shard_idx in *. rewrite M2, S2, list_lookup_insert_eq; [|by eapply lookup_lt_Some]. simpl.
    destruct (shard_insert_lookup s h Fortinet) as [E _]; [|exact E].
    pose proof (ci_shards _ I1) as HF. rewrite Forall_lookup in HF. eauto. }
  destruct (cache_get_ok c2 h I2) as (c3 & G3 & _). rewrite Hf in G3.
  destruct (parse_with_format_ascii env fortinet_line Fortinet eq_refl) as [r Er].
  destruct (pfsense_line_blocked (pe_now_ms env)) as (a & Ea & Da).
  destruct (pfsense_line_as_fortinet (pe_now_ms env)) as (a' & Ea' & Da').
  eexists _, c2, _, _, c3. split_and!.
  - unfold parse_cached. fold h. rewrite G1, Ef. rewrite decide_False by done. rewrite G2. cbn [mbind option_bind].
    rewrite Er. reflexivity.
  - unfold parse_lossless. rewrite parse_is_with_format, Ep. unfold parse_with_format. cbn [extract]. rewrite Ea.
    reflexivity.
  - exact Da.
  - unfold parse_cached_lossless, parse_cached. rewrite Eh, G3. unfold parse_with_format. cbn [extract]. rewrite Ea'.
    reflexivity.
  - exact Da'.
Qed.

End Facts.

(** ** Witnesses *)

Module ParserDemo.
Import Demo TokenDemo.

#[export] Instance demo_chrono : ChronoLib := {| naive_millis _ _ := None; rfc3339_millis _ := None |}.
#[export] Instance demo_regex : RegexLib := {| re_captures _ _ := None |}.
#[export] Instance demo_json : JsonLib := {| json_from_str _ := Err "no value"; json_to_string _ := "" |}.
#[export] Instance demo_ac : AhoCorasick := {| ac_find := leftmost_first; ac_find_spec _ _ := eq_refl |}.

Definition env0 : ParseEnv := mkParseEnv "id-1" 1000 1001 "id-2" 1002.
Definition cache16 : SignatureLruCache := default (mkCache [] 0 0 0 0) (with_capacity 16 512).

Lemma cache16_ok : with_capacity 16 512 = Some cache16.
Proof. vm_compute. reflexivity. Qed.

Lemma lossless_total_on_ascii_witness :
  (exists a, parse_lossless env0 fortinet_line = Some a) /\
  (exists a c', parse_cached_lossless env0 cache16 fortinet_line = Some (a, c') /\ cache_inv c').
Proof.
  apply (lossless_total_on_ascii env0 fortinet_line cache16); [vm_compute; reflexivity|].
  exact (with_capacity_inv _ _ _ cache16_ok).
Defined.

(** "PAN-OS" is the last pattern of the table and occurs left of "%ASA-", the first. *)
Definition mixed_line : string := "PAN-OS relay: %ASA-6-302013: Built inbound TCP".

Lemma classify_leftmost_witness : exists n p, patterns_with_formats !! 20 = Some (p, classify mixed_line) /\
  starts_with p (str_drop n mixed_line) = true /\
  (forall m q f, m < n -> (q, f) ∈ patterns_with_formats -> starts_with q (str_drop m mixed_line) = false) /\
  (forall j q f, j < 20 -> patterns_with_formats !! j = Some (q, f) -> starts_with q (str_drop n mixed_line) = false).
Proof. apply (classify_leftmost mixed_line 20). vm_compute. reflexivity. Defined.

Lemma cache_changes_verdict_witness :
  exists r c1 a a' c2, parse_cached env0 cache16 fortinet_line = Some (r, c1) /\
    parse_lossless env0 pfsense_line = Some a /\ na_disposition a = BLOCKED /\
    parse_cached_lossless env0 c1 pfsense_line = Some (a', c2) /\ na_disposition a' = UNKNOWN.
Proof. apply (cache_changes_verdict env0 cache16). vm_compute. reflexivity. Defined.

(** A FortiGate line, end to end. *)
Example fortinet_end_to_end : exists a, parse env0 fortinet_line = Some (Ok a) /\
  ep_ip (na_src_endpoint a) = Some "10.0.0.1" /\ na_disposition a = ALLOWED /\
  md_event_id (na_metadata a) = "id-1".
Proof. eexists. split; [vm_compute; reflexivity|]. split_and!; vm_compute; reflexivity. Qed.

End ParserDemo.
