(* ===== verification/FieldFacts.v ===== *)
(** * Which field of a line ends in which field of the event

    The loops over key-value pairs against a reference definition: the last
    value of a key wins, and a pair whose key has no field is kept with the
    event.  Ports: never zero, and wrapped around for Suricata. *)

From S2P Require Export ParserFacts.

(** The last value of a key of the list. *)
Definition last_value (keys : list string) (l : list (string * string)) : option string :=
  last (omap (fun kv => if one_of keys kv.1 then Some kv.2 else None) l).

Lemma last_value_snoc keys l k x :
  last_value keys (l ++ [(k, x)]) = if one_of keys k then Some x else last_value keys l.
Proof.
  unfold last_value. rewrite omap_app. simpl. destruct (one_of keys k).
  - apply last_snoc.
  - by rewrite app_nil_r.
Qed.

(** The pairs with other keys, the last value of each. *)
Definition other_values (keys : list string) (l : list (string * string)) : gmap string string :=
  foldl (fun m kv => if one_of keys kv.1 then m else <[kv.1 := kv.2]> m) ∅ l.

Lemma other_values_snoc keys l k x :
  other_values keys (l ++ [(k, x)]) =
    if one_of keys k then other_values keys l else <[k := x]> (other_values keys l).
Proof. unfold other_values. by rewrite foldl_snoc. Qed.

Lemma one_of_single k j : one_of [k] j = bool_decide (j = k).
Proof.
  unfold one_of; simpl. rewrite orb_false_r.
  destruct (String.eqb_spec j k); symmetry; [by apply bool_decide_eq_true|by apply bool_decide_eq_false].
Qed.

Lemma other_values_lookup keys l k :
  other_values keys l !! k = if one_of keys k then None else last_value [k] l.
Proof.
  induction l as [|[j x] l IH] using rev_ind.
  - unfold other_values; simpl. rewrite lookup_empty. by destruct (one_of keys k).
  - rewrite other_values_snoc, last_value_snoc, one_of_single. case_bool_decide; subst.
    + destruct (one_of keys k) eqn:E; [by rewrite IH|]. by rewrite lookup_insert_eq.
    + destruct (one_of keys j); [done|]. by rewrite lookup_insert_ne.
Qed.

Lemma one_of_elem keys k : one_of keys k = true <-> k ∈ keys.
Proof.
  unfold one_of. rewrite existsb_exists. split.
  - intros (y & Hy & E). apply String.eqb_eq in E as ->. by apply list_elem_of_In.
  - intros Hk. exists k. split; [by apply list_elem_of_In|apply String.eqb_refl].
Qed.

Lemma one_of_sub keys ks k : one_of keys k = false -> ks ⊆ keys -> one_of ks k = false.
Proof.
  intros E Hs. destruct (one_of ks k) eqn:E2; [|done]. apply one_of_elem, Hs, one_of_elem in E2. congruence.
Qed.

(** ** FortiGate *)

Definition forti_keys : list string :=
  ["srcip"; "dstip"; "srcport"; "dstport"; "srcintf"; "dstintf"; "srcintfrole"; "srczone"; "dstintfrole"; "dstzone";
   "proto"; "action"; "sentbyte"; "rcvdbyte"; "sentpkt"; "rcvdpkt"; "date"; "time"; "devname"].

(** The variables after the loop, read off the pairs. *)
Definition forti_of (l : list (string * string)) : FortiVars :=
  let lv keys := last_value keys l in
  mkForti (lv ["srcip"]) (lv ["dstip"]) (lv ["srcport"] ≫= parse_u16) (lv ["dstport"] ≫= parse_u16)
    (lv ["srcintf"]) (lv ["dstintf"]) (lv ["srcintfrole"; "srczone"]) (lv ["dstintfrole"; "dstzone"])
    (lv ["proto"] ≫= fun v => (parse_proto v).1) ((fun v => (parse_proto v).2) <$> lv ["proto"])
    (lv ["action"]) (lv ["sentbyte"] ≫= parse_u64) (lv ["rcvdbyte"] ≫= parse_u64)
    (lv ["sentpkt"] ≫= parse_u64) (lv ["rcvdpkt"] ≫= parse_u64) (lv ["date"]) (lv ["time"]) (lv ["devname"])
    (other_values forti_keys l).

Lemma forti_step_snoc l k x : forti_step (forti_of l) (k, x) = forti_of (l ++ [(k, x)]).
Proof.
  unfold forti_of at 2. rewrite !last_value_snoc, other_values_snoc. unfold forti_of, forti_step.
  destruct (one_of forti_keys k) eqn:E.
  - apply one_of_elem in E. unfold forti_keys in E.
    repeat (apply elem_of_cons in E as [->|E]; [try reflexivity|]); [|by apply elem_of_nil in E].
    cbv [one_of existsb String.eqb Ascii.eqb Bool.eqb orb mbind option_bind fmap option_fmap option_map].
    by destruct (parse_proto x).
  - rewrite !(one_of_sub forti_keys _ k E) by (unfold forti_keys; set_solver). done.
Qed.

Lemma forti_fold_of l : foldl forti_step forti_empty l = forti_of l.
Proof.
  induction l as [|[k x] l IH] using rev_ind; [done|]. by rewrite foldl_snoc, IH, forti_step_snoc.
Qed.

Section Fields.
Context `{UnicodeLib} `{ChronoLib} `{RegexLib} `{JsonLib}.

Lemma with_unmapped_lookup a m k : na_unmapped a = None -> default ∅ (na_unmapped (with_unmapped a m)) !! k = m !! k.
Proof. intros E. unfold with_unmapped. case_decide as D; [by rewrite E, D|done]. Qed.

(** The fields that [with_unmapped] leaves alone. *)
Lemma with_unmapped_fields a m : na_disposition (with_unmapped a m) = na_disposition a /\
  na_activity_id (with_unmapped a m) = na_activity_id a /\
  na_src_endpoint (with_unmapped a m) = na_src_endpoint a /\ na_dst_endpoint (with_unmapped a m) = na_dst_endpoint a.
Proof. unfold with_unmapped. by case_decide. Qed.

(** A FortiGate line whose tokens are [l] always gives an event; in it the
    addresses and the verdict are those of the last pair with that key, so a
    later [action=] overrides an earlier one, and every pair whose key has no
    field of the schema is kept, with its last value, in the unmapped fields,
    which hold nothing else. *)
Theorem fortigate_fields now raw l : kv_tokens raw = Some l ->
  exists a, fortigate_parse now raw = Some (Ok a) /\
    ep_ip (na_src_endpoint a) = last_value ["srcip"] l /\
    ep_ip (na_dst_endpoint a) = last_value ["dstip"] l /\
    (na_disposition a, na_activity_id a) = forti_disposition (last_value ["action"] l) /\
    forall k, default ∅ (na_unmapped a) !! k = if one_of forti_keys k then None else last_value [k] l.
Proof.
  intros Hl. unfold fortigate_parse. rewrite Hl. cbn [mbind option_bind]. rewrite forti_fold_of.
  eexists. split; [reflexivity|]. unfold fortigate_event.
  destruct (forti_disposition (fv_action (forti_of l))) as [disp act] eqn:Ed. change (fv_action (forti_of l)) with (last_value ["action"] l) in Ed.
  match goal with |- context [with_unmapped ?a ?m] => destruct (with_unmapped_fields a m) as (E1 & E2 & E3 & E4) end.
  rewrite E1, E2, E3, E4. split_and!; try done.
  intros k. rewrite with_unmapped_lookup by done. apply other_values_lookup.
Qed.

(** ** Ports *)

Lemma nonzero_not_zero o : nonzero o <> Some 0%Z.
Proof. destruct o as [z|]; simpl; [|done]. destruct (Z.eqb_spec z 0); congruence. Qed.

Lemma normalize_port_not_zero p o : normalize_port p o <> Some 0%Z.
Proof. unfold normalize_port. case_bool_decide; [done|]. apply nonzero_not_zero. Qed.

Lemma if_none_not_zero (b : bool) (o : option Z) : o <> Some 0%Z -> (if b then None else o) <> Some 0%Z.
Proof. by destruct b. Qed.

Lemma if_some_not_zero (b : bool) (o : option Z) : o <> Some 0%Z -> (if b then o else None) <> Some 0%Z.
Proof. by destruct b. Qed.

Create HintDb ports.
#[local] Hint Resolve nonzero_not_zero normalize_port_not_zero if_none_not_zero if_some_not_zero : ports.

Definition ports_not_zero (a : NetworkActivity) : Prop :=
  ep_port (na_src_endpoint a) <> Some 0%Z /\ ep_port (na_dst_endpoint a) <> Some 0%Z.

Lemma with_unmapped_ports a m : ports_not_zero a -> ports_not_zero (with_unmapped a m).
Proof. unfold ports_not_zero. destruct (with_unmapped_fields a m) as (_ & _ & -> & ->). done. Qed.

Lemma fortigate_ports now raw v : ports_not_zero (fortigate_event now raw v).
Proof.
  unfold fortigate_event. destruct (forti_disposition _). apply with_unmapped_ports. split; simpl; auto with ports.
Qed.

Lemma cef_ports now raw header v : ports_not_zero (cef_event now raw header v).
Proof.
  unfold cef_event. destruct (cef_disposition _). apply with_unmapped_ports. split; simpl; auto with ports.
Qed.

Lemma palo_ports now raw fields : ports_not_zero (palo_event now raw fields).
Proof. unfold palo_event. apply with_unmapped_ports. split; simpl; auto with ports. Qed.

Lemma pfsense_ports now raw a : pfsense_parse now raw = Some (Ok a) -> ports_not_zero a.
Proof.
  unfold pfsense_parse. destruct (_ <? _)%nat; [done|]. intros [= <-]. apply with_unmapped_ports.
  unfold ports_not_zero. simpl. destruct (String.eqb _ "4"); [|destruct (String.eqb _ "6")].
  all: unfold pfsense_ipv4, pfsense_ipv6, port_field; split; simpl; auto with ports.
Qed.

(** The FortiGate, PAN-OS, pfSense and CEF extractors never report port
    zero, which these devices write for a protocol without ports. *)
Theorem ports_never_zero f now raw a : f ∈ [Fortinet; PaloAlto; PfSense; Cef] ->
  extract f now raw = Some (Ok a) -> ports_not_zero a.
Proof.
  rewrite !elem_of_cons, elem_of_nil. intros [->|[->|[->|[->|[]]]]]; cbn [extract].
  - unfold fortigate_parse. destruct (kv_tokens raw); [|done]. intros [= <-]. apply fortigate_ports.
  - unfold palo_parse. destruct (_ <? _)%nat; [done|]. intros [= <-]. apply palo_ports.
  - apply pfsense_ports.
  - unfold cef_parse. destruct (find "CEF:" raw); [|done]. destruct (kv_tokens _); [|done].
    intros [= <-]. apply cef_ports.
Qed.

(** A Suricata port is the number of the record modulo 65536: a record with
    port 65558 is reported as port 22, not rejected. *)
Theorem suricata_port_wraps now raw val p q : get_u64 val "src_port" = Some p -> get_u64 val "dest_port" = Some q ->
  ep_port (na_src_endpoint (suricata_event now raw val)) = Some (p mod 65536)%Z /\
  ep_port (na_dst_endpoint (suricata_event now raw val)) = Some (q mod 65536)%Z.
Proof.
  intros Hp Hq. unfold suricata_event. rewrite Hp, Hq.
  match goal with |- context [with_unmapped ?a ?m] => destruct (with_unmapped_fields a m) as (_ & _ & -> & ->) end.
  done.
Qed.

End Fields.

Module FieldDemo.
Import TokenDemo ParserDemo.

Definition two_actions : string := "srcip=10.0.0.1 action=deny policy=7 action=accept".
Definition two_tokens : list (string * string) :=
  [("srcip", "10.0.0.1"); ("action", "deny"); ("policy", "7"); ("action", "accept")].

Lemma fortigate_fields_witness : exists a, fortigate_parse 5 two_actions = Some (Ok a) /\
  ep_ip (na_src_endpoint a) = last_value ["srcip"] two_tokens /\
  ep_ip (na_dst_endpoint a) = last_value ["dstip"] two_tokens /\
  (na_disposition a, na_activity_id a) = forti_disposition (last_value ["action"] two_tokens) /\
  forall k, default ∅ (na_unmapped a) !! k = if one_of forti_keys k then None else last_value [k] two_tokens.
Proof. apply (fortigate_fields 5 two_actions two_tokens). vm_compute. reflexivity. Defined.

(** The verdict of that line is the second one. *)
Example two_actions_verdict : forti_disposition (last_value ["action"] two_tokens) = (ALLOWED, TRAFFIC_FLOW).
Proof. reflexivity. Qed.

Definition zero_port_event : NetworkActivity := fortigate_event 5 "srcport=0 proto=47" (forti_of [("srcport", "0"); ("proto", "47")]).

Lemma ports_never_zero_witness : ports_not_zero zero_port_event.
Proof.
  apply (ports_never_zero Fortinet 5 "srcport=0 proto=47"); [rewrite !elem_of_cons; tauto|].
  vm_compute. reflexivity.
Defined.

Definition big_port : JValue := JObject [("src_port", JInt 65558); ("dest_port", JInt 443)].

Lemma suricata_port_wraps_witness :
  ep_port (na_src_endpoint (suricata_event 5 "" big_port)) = Some 22%Z /\
  ep_port (na_dst_endpoint (suricata_event 5 "" big_port)) = Some 443%Z.
Proof. apply (suricata_port_wraps 5 "" big_port 65558 443); reflexivity. Defined.

End FieldDemo.
