(* ===== verification/SocketFacts.v ===== *)
(** * What the listeners guarantee

    Lines leave a listener once each and in order, in batches of bounded size;
    every line of ASCII becomes an event; the UDP timer can be starved. *)

From S2P Require Export Socket ParserFacts.

(** The lines that a text contributes. *)
Definition kept (ls : list string) : list string := List.filter (fun l => negb (is_empty l)) (trim <$> ls).

Lemma kept_cons l ls : kept (l :: ls) = if is_empty (trim l) then kept ls else trim l :: kept ls.
Proof. unfold kept. simpl. by destruct (is_empty (trim l)). Qed.

Lemma kept_app l1 l2 : kept (l1 ++ l2) = kept l1 ++ kept l2.
Proof. unfold kept. rewrite fmap_app. apply List.filter_app. Qed.

Section Listeners.
Context (cfg : IngestConfig) (accepts : nat -> bool).

(** Every line handed to the loop so far, those in lost batches excepted. *)
Definition delivered (b : Batching) : list string := concat (sent b) ++ current_batch b.

Definition bound : nat := Nat.max 1 (batch_size cfg).

Record batching_inv (b : Batching) : Prop := {
  bi_current : length (current_batch b) < bound;
  bi_sent : Forall (fun l => l <> [] /\ length l <= bound) (sent b);
  bi_stopped : stopped b = true -> exists n, accepts n = false
}.

Lemma batching_new_inv now : batching_inv (batching_new now).
Proof. split; simpl; [unfold bound; lia|constructor|done]. Qed.

(** A batch that is full or due. *)
Lemma send_batch_inv now b : batching_inv (mkBatching [] (last_flush b) (sent b) (stopped b)) ->
  current_batch b <> [] -> length (current_batch b) <= bound -> batching_inv (send_batch accepts now b).
Proof.
  intros [H1 H2 H3] Hne Hl. unfold send_batch. destruct (accepts (length (sent b))) eqn:E; split; simpl in *; try done.
  - apply Forall_app. split; [done|]. by constructor.
  - intros _. by eexists.
Qed.

Lemma send_batch_delivered now b : stopped (send_batch accepts now b) = false ->
  delivered (send_batch accepts now b) = delivered b /\ stopped b = false.
Proof.
  unfold send_batch, delivered. destruct (accepts _); simpl; [|done]. intros ->. split; [|done].
  by rewrite concat_app, app_nil_r; simpl; rewrite app_nil_r.
Qed.

(** The common part of the two loops: a line, and the test that sends. *)
Lemma push_inv now b x (due : bool) : batching_inv b ->
  let b1 := mkBatching (current_batch b ++ [x]) (last_flush b) (sent b) (stopped b) in
  let b2 := if (batch_size cfg <=? length (current_batch b1))%nat || due then send_batch accepts now b1 else b1 in
  batching_inv b2 /\ (stopped b2 = false -> delivered b2 = delivered b ++ [x]).
Proof.
  intros [H1 H2 H3] b1 b2. assert (delivered b1 = delivered b ++ [x]) as Hd.
  { unfold delivered, b1. simpl. by rewrite app_assoc. }
  assert (length (current_batch b1) <= bound) as Hl by (unfold b1; simpl; rewrite length_app; simpl; lia).
  subst b2. destruct ((_ <=? _)%nat || due) eqn:E.
  - split; [|intros Hs; apply send_batch_delivered in Hs as [-> _]; done].
    apply send_batch_inv; [split; simpl; unfold bound in *; [lia|done|done]| |done].
    unfold b1. simpl. by destruct (current_batch b).
  - split; [|done]. apply orb_false_iff in E as [E _]. apply Nat.leb_gt in E.
    split; [unfold bound; lia|done|done].
Qed.

Lemma udp_lines_ok now ls : forall b, batching_inv b ->
  let b' := foldl (udp_line cfg accepts now) b ls in
  batching_inv b' /\ (stopped b' = false -> delivered b' = delivered b ++ kept ls).
Proof.
  induction ls as [|l ls IH]; intros b I; simpl; [split; [done|]; by rewrite app_nil_r|].
  assert (batching_inv (udp_line cfg accepts now b l) /\
    (stopped (udp_line cfg accepts now b l) = false -> delivered (udp_line cfg accepts now b l) = delivered b ++ kept [l])) as [I1 D1].
  { unfold udp_line. rewrite kept_cons. destruct (stopped b) eqn:Es; [split; [done|congruence]|].
    destruct (is_empty (trim l)); [split; [done|]; intros _; by rewrite app_nil_r|].
    pose proof (push_inv now b (trim l) false I) as Hp. cbv zeta in Hp. by rewrite orb_false_r, Es in Hp. }
  destruct (IH _ I1) as [I2 D2]. split; [done|]. intros Hs. rewrite D2 by done. change (l :: ls) with ([l] ++ ls).
  rewrite kept_app, app_assoc, D1; [done|]. destruct (stopped (udp_line cfg accepts now b l)) eqn:Es; [|done].
  assert (foldl (udp_line cfg accepts now) (udp_line cfg accepts now b l) ls = udp_line cfg accepts now b l) as E.
  { clear -Es. induction ls as [|x ls IH]; [done|]. simpl. unfold udp_line at 2. by rewrite Es. }
  congruence.
Qed.

(** The lines of an event: those of a datagram that is UTF-8 as received. *)
Definition event_lines (e : UdpEvent) : list string :=
  match e with
  | Datagram _ (Some bytes) =>
      let text := str_take (buffer_capacity cfg) bytes in if utf8_valid text then kept (lines text) else []
  | _ => []
  end.

Lemma udp_step_ok start e b b' : batching_inv b -> udp_step cfg accepts start e b = Some b' ->
  batching_inv b' /\ (stopped b' = false -> delivered b' = delivered b ++ event_lines e).
Proof.
  intros I. unfold udp_step. destruct (stopped b) eqn:Es; [done|]. destruct e as [now payload|now].
  - destruct (_ <=? _)%Z; [|done]. intros [= <-]. destruct payload as [bytes|]; simpl.
    + destruct (utf8_valid _); [by apply udp_lines_ok|]. split; [done|]. by rewrite app_nil_r.
    + split; [done|]. by rewrite app_nil_r.
  - destruct (_ <=? _)%Z; [|done]. intros [= <-]. simpl. rewrite app_nil_r. unfold udp_timeout.
    destruct (current_batch b) as [|x l] eqn:Eb; simpl; [done|]. destruct (_ <=? _)%Z; [|done].
    split; [|by intros [-> _]%send_batch_delivered]. destruct I as [H1 H2 H3].
    apply send_batch_inv; [split; simpl; unfold bound in *; [lia|done|done]|congruence|lia].
Qed.

Lemma udp_run_ok events : forall start b b', batching_inv b -> udp_run cfg accepts start events b = Some b' ->
  batching_inv b' /\ (stopped b' = false -> delivered b' = delivered b ++ concat (event_lines <$> events)).
Proof.
  induction events as [|e events IH]; intros start b b' I; simpl; [intros [= <-]; split; [done|]; by rewrite app_nil_r|].
  destruct (stopped b) eqn:Es; [intros [= <-]; split; [done|congruence]|].
  destruct (udp_step cfg accepts start e b) as [b1|] eqn:E; [|done]. intros Hr.
  destruct (udp_step_ok _ _ _ _ I E) as [I1 D1]. destruct (IH _ _ _ I1 Hr) as [I2 D2]. split; [done|].
  intros Hs. rewrite D2 by done. rewrite app_assoc, D1; [done|].
  destruct (stopped b1) eqn:Es1; [|done]. destruct events; simpl in Hr; [|rewrite Es1 in Hr]; congruence.
Qed.

(** Whatever datagrams and timer events a UDP listener sees, while the
    channel takes its batches, the batches sent followed by the pending batch
    are exactly the trimmed, non-empty lines of the datagrams that are valid
    UTF-8, each once and in order; no batch is empty or longer than the batch
    size, and the pending batch is shorter. *)
Theorem udp_batches_lossless start t0 events b : udp_run cfg accepts start events (batching_new t0) = Some b ->
  (forall n, accepts n = true) ->
  concat (sent b) ++ current_batch b = concat (event_lines <$> events) /\
  Forall (fun l => l <> [] /\ length l <= Nat.max 1 (batch_size cfg)) (sent b) /\
  length (current_batch b) < Nat.max 1 (batch_size cfg).
Proof.
  intros Hr Ha. destruct (udp_run_ok events start _ b (batching_new_inv t0) Hr) as [[I1 I2 I3] D].
  split_and!; [|done|done]. apply D. destruct (stopped b); [|done]. destruct (I3 eq_refl) as [n Hn].
  by rewrite Ha in Hn.
Qed.

(** ** TCP *)

Lemma tcp_lines_ok input : forall b, batching_inv b ->
  let b' := tcp_lines cfg accepts input b in
  batching_inv b' /\ (stopped b' = false -> delivered b' = delivered b ++ kept input.*2).
Proof.
  induction input as [|[now l] input IH]; intros b I; [split; [done|]; by rewrite app_nil_r|].
  cbn [tcp_lines]. change (((now, l) :: input).*2) with ([l] ++ input.*2). rewrite kept_app.
  destruct (stopped b) eqn:Es; [split; [done|congruence]|].
  assert (batching_inv (tcp_line cfg accepts now b l) /\
    (stopped (tcp_line cfg accepts now b l) = false -> delivered (tcp_line cfg accepts now b l) = delivered b ++ kept [l])) as [I1 D1].
  { unfold tcp_line. rewrite kept_cons. destruct (is_empty (trim l)); [split; [done|]; intros _; by rewrite app_nil_r|].
    exact (push_inv now b (trim l) (batch_timeout cfg <=? now - last_flush b)%Z I). }
  destruct (IH _ I1) as [I2 D2]. split; [done|]. intros Hs. rewrite D2 by done.
  rewrite app_assoc, D1; [done|]. destruct (stopped (tcp_line cfg accepts now b l)) eqn:Es1; [|done].
  destruct input as [|[now' l'] input]; simpl in Hs; [|rewrite Es1 in Hs]; congruence.
Qed.

(** A TCP connection delivers, by its end, every non-empty line it carried,
    trimmed, once and in order, in non-empty batches of at most the batch size,
    while the channel takes its batches. *)
Theorem tcp_connection_lossless start close input : (forall n, accepts n = true) ->
  let b := tcp_connection cfg accepts start close input in
  concat (sent b) = kept input.*2 /\ current_batch b = [] /\
  Forall (fun l => l <> [] /\ length l <= Nat.max 1 (batch_size cfg)) (sent b).
Proof.
  intros Ha b. destruct (tcp_lines_ok input _ (batching_new_inv start)) as [I D]. cbv zeta in D.
  subst b. unfold tcp_connection. set (b := tcp_lines _ _ _ _) in *.
  assert (stopped b = false) as Hs.
  { destruct (stopped b) eqn:E; [|done]. destruct (bi_stopped _ I E) as [n Hn]. by rewrite Ha in Hn. }
  specialize (D Hs). unfold delivered in D. simpl in D. destruct (current_batch b) as [|x l] eqn:Eb.
  - rewrite app_nil_r in D. split_and!; [done|done|apply (bi_sent _ I)].
  - unfold send_batch. rewrite Ha. simpl. rewrite concat_app, Eb. simpl. rewrite app_nil_r. split_and!; [done|done|].
    apply Forall_app. split; [apply (bi_sent _ I)|]. constructor; [|done]. split; [done|].
    pose proof (bi_current _ I) as Hc. rewrite Eb in Hc. unfold bound in Hc. lia.
Qed.

End Listeners.

(** ** Starvation *)

(** A line, then blank datagrams one millisecond apart. *)
Definition chatter (t0 : Z) (n : nat) : list UdpEvent :=
  (fun i => Datagram (t0 + Z.of_nat i) (Some (String newline ""))) <$> seq 1 n.

Lemma chatter_run cfg accepts n : 1 <= buffer_capacity cfg -> forall t b, stopped b = false ->
  udp_run cfg accepts t (chatter t n) b = Some b.
Proof.
  intros Hc. induction n as [|n IH]; intros t b Hs; [done|].
  unfold chatter. change (seq 1 (S n)) with (1 :: seq 2 n). rewrite fmap_cons. cbn [udp_run]. rewrite Hs. unfold udp_step.
  rewrite Hs, (proj2 (Z.leb_le t (t + Z.of_nat 1))) by lia.
  assert (udp_recv cfg accepts (t + Z.of_nat 1) (Some (String newline "")) b = b) as ->.
  { unfold udp_recv. destruct (buffer_capacity cfg) as [|[|k]]; [lia| |]; simpl; unfold udp_line; by rewrite Hs. }
  cbn [event_time]. etransitivity; [|apply (IH (t + Z.of_nat 1)%Z b Hs)]. f_equal. unfold chatter.
  rewrite <- fmap_S_seq, <- list_fmap_compose. apply list_fmap_ext. intros i x _. simpl. f_equal. lia.
Qed.

Definition starving (t0 : Z) (n : nat) : list UdpEvent := Datagram t0 (Some "x") :: chatter t0 n.

Lemma starving_lookup t0 n i e : starving t0 n !! i = Some e -> event_time e = (t0 + Z.of_nat i)%Z /\ i <= n.
Proof.
  unfold starving, chatter. destruct i as [|i]; simpl; [intros [= <-]; simpl; lia|].
  rewrite list_lookup_fmap. intros (j & Hj & ->)%fmap_Some. apply lookup_seq in Hj as [-> Hlt]. simpl. lia.
Qed.

(** The UDP timeout can be starved: for a batch size above one and a timeout
    above a millisecond there is, for every [n], a run of [n] milliseconds
    without a timer event, in which no timer was due either, because each
    iteration makes a new timer and a datagram arrives before it, and at the
    end of which the line received first is still unsent. *)
Theorem udp_timeout_starved cfg accepts t0 n : 1 < batch_size cfg -> (1 < batch_timeout cfg)%Z ->
  1 <= buffer_capacity cfg ->
  exists b, udp_run cfg accepts t0 (starving t0 n) (batching_new t0) = Some b /\ sent b = [] /\ current_batch b = ["x"] /\
    (forall i e1 e2, starving t0 n !! i = Some e1 -> starving t0 n !! S i = Some e2 ->
       (event_time e2 < event_time e1 + batch_timeout cfg)%Z) /\
    (forall e, last (starving t0 n) = Some e -> event_time e = (t0 + Z.of_nat n)%Z).
Proof.
  intros Hb Ht Hc. exists (mkBatching ["x"] t0 [] false). split_and!; try done.
  - unfold starving. cbn [udp_run stopped batching_new]. unfold udp_step. cbn [stopped batching_new].
    rewrite Z.leb_refl. assert (udp_recv cfg accepts t0 (Some "x") (batching_new t0) = mkBatching ["x"] t0 [] false) as ->.
    { unfold udp_recv. destruct (buffer_capacity cfg) as [|k]; [lia|]. destruct k; simpl.
      all: unfold udp_line; cbn [stopped batching_new]; change (is_empty (trim "x")) with false; simpl.
      all: destruct (batch_size cfg) as [|[|]]; try lia; done. }
    by apply chatter_run.
  - intros i e1 e2 [E1 _]%starving_lookup [E2 _]%starving_lookup. rewrite E1, E2. lia.
  - intros e. rewrite last_lookup. intros [E _]%starving_lookup. rewrite E. unfold starving, chatter. simpl.
    rewrite length_fmap, length_seq. done.
Qed.

(** ** Lines to events *)

Section Parsed.
Context `{Sha256} `{HexLib} `{UnicodeLib} `{ChronoLib} `{RegexLib} `{JsonLib} `{AhoCorasick}.

(** A batch of ASCII lines becomes a batch of events, one per line and in
    order, each of which carries its line and digest and is well-formed. *)
Theorem parse_batch_complete env batch : Forall (fun l => all_bytes is_ascii l = true) batch ->
  exists events, parse_batch env batch = Some events /\ Forall2 (fun l a => carries l a /\ activity_wf a) batch events.
Proof.
  revert env; induction batch as [|l batch IH]; intros env HF; [by exists []|]. apply Forall_cons in HF as [Hl HF].
  simpl. destruct (parse_lossless_ascii (env 0) l Hl) as [a E]. rewrite E.
  destruct (IH (fun i => env (S i)) HF) as (events & -> & HF2). exists (a :: events). split; [done|].
  constructor; [|done]. by apply parse_lossless_ok in E as [? ?].
Qed.

End Parsed.

(** ** Witnesses *)

Module SocketDemo.
Import Demo TokenDemo ParserDemo.

Definition cfg2 : IngestConfig := mkIngest true 2 50 100.
Definition dgram : string := "one" +:+ String newline "" +:+ " two " +:+ String newline "" +:+ "three".
Definition udp_events : list UdpEvent := [Datagram 5 (Some dgram); Timer 70; Datagram 71 None].

Lemma udp_batches_lossless_witness :
  concat [["one"; "two"]; ["three"]] ++ [] = concat (event_lines cfg2 <$> udp_events) /\
  Forall (fun l => l <> [] /\ length l <= Nat.max 1 (batch_size cfg2)) [["one"; "two"]; ["three"]] /\
  0 < Nat.max 1 (batch_size cfg2).
Proof.
  apply (udp_batches_lossless cfg2 (fun _ => true) 0 0 udp_events (mkBatching [] 70 [["one"; "two"]; ["three"]] false));
    [vm_compute; reflexivity|done].
Defined.

Definition tcp_input : list (Z * string) := [(1%Z, "one"); (2%Z, ""); (3%Z, "two"); (60%Z, "three")].

Lemma tcp_connection_lossless_witness :
  let b := tcp_connection cfg2 (fun _ => true) 0 100 tcp_input in
  concat (sent b) = kept tcp_input.*2 /\ current_batch b = [] /\
  Forall (fun l => l <> [] /\ length l <= Nat.max 1 (batch_size cfg2)) (sent b).
Proof. apply (tcp_connection_lossless cfg2 (fun _ => true) 0 100 tcp_input). done. Defined.

Lemma udp_timeout_starved_witness :
  exists b, udp_run cfg2 (fun _ => true) 0 (starving 0 200) (batching_new 0) = Some b /\ sent b = [] /\ current_batch b = ["x"] /\
    (forall i e1 e2, starving 0 200 !! i = Some e1 -> starving 0 200 !! S i = Some e2 ->
       (event_time e2 < event_time e1 + batch_timeout cfg2)%Z) /\
    (forall e, last (starving 0 200) = Some e -> event_time e = (0 + Z.of_nat 200)%Z).
Proof. apply (udp_timeout_starved cfg2 (fun _ => true) 0 200); simpl; lia. Defined.

Lemma parse_batch_complete_witness : exists events, parse_batch (fun _ => env0) ["devname=f action=deny"; "hello"] = Some events /\
  Forall2 (fun l a => carries l a /\ activity_wf a) ["devname=f action=deny"; "hello"] events.
Proof. apply (parse_batch_complete (fun _ => env0)). repeat constructor. Defined.

End SocketDemo.
