(* ===== verification/Listener.v ===== *)
(** * Listeners as tasks ([crates/ulpf-core/src/ingest/socket.rs])

    Setting up the sockets, the acceptor of TCP connections with a task per
    connection, the parsing of UDP batches, and the pool of UDP workers.  The
    loops of the tasks themselves are in [Socket]. *)

From S2P Require Export Socket.

(** ** Sockets *)

Inductive Family := Ipv4 | Ipv6.
Inductive SockType := Dgram | Stream.

(** The calls on a socket, each of which can fail. *)
Inductive SockCall :=
| NewSocket (f : Family) (t : SockType)
| SetReuseAddress
| SetReusePort
| SetNonblocking
| BindTo (addr : string)
| ListenOn (backlog : Z)
| FromStd.

Fixpoint run_calls (fails : SockCall -> option string) (calls : list SockCall) : Result string unit :=
  match calls with
  | [] => Ok tt
  | c :: calls' => match fails c with Some e => Err e | None => run_calls fails calls' end
  end.

Definition udp_socket_calls (f : Family) (addr : string) (reuse_port : bool) : list SockCall :=
  [NewSocket f Dgram; SetReuseAddress] ++ (if reuse_port then [SetReusePort] else []) ++ [SetNonblocking; BindTo addr; FromStd].

Definition create_udp_socket (fails : SockCall -> option string) (f : Family) (addr : string) (reuse_port : bool) : Result string unit :=
  run_calls fails (udp_socket_calls f addr reuse_port).

Definition tcp_listener_calls (f : Family) (addr : string) (reuse_port : bool) (backlog : Z) : list SockCall :=
  [NewSocket f Stream; SetReuseAddress] ++ (if reuse_port then [SetReusePort] else [])
  ++ [SetNonblocking; BindTo addr; ListenOn backlog; FromStd].

Definition create_tcp_listener (fails : SockCall -> option string) (f : Family) (addr : string) (reuse_port : bool) (backlog : Z)
  : Result string unit :=
  run_calls fails (tcp_listener_calls f addr reuse_port backlog).

(** [UdpSyslogListener::bind] and [TcpSyslogListener::bind] *)
Definition udp_bind (fails : SockCall -> option string) (f : Family) (addr : string) (cfg : IngestConfig) : Result string unit :=
  create_udp_socket fails f addr (reuse_port cfg).

Definition tcp_bind (fails : SockCall -> option string) (f : Family) (addr : string) (cfg : IngestConfig) : Result string unit :=
  create_tcp_listener fails f addr (reuse_port cfg) 1024.

(** ** The TCP acceptor *)

(** The task of a connection: its loop runs until [cn_open] is false. *)
Record TcpConn := mkTcpConn { cn_batching : Batching; cn_open : bool }.

(** The connections in the order of their acceptance, everything that was sent
    on the channel with the connection it came from, and whether the receiver is
    still there.  A send into a full channel waits; here it is the moment at
    which it goes through. *)
Record Acceptor := mkAcceptor {
  ac_conns : list TcpConn;
  ac_channel : list (nat * list string);
  ac_receiver : bool
}.

Definition acceptor_new : Acceptor := mkAcceptor [] [] true.

(** A connection, an error of [accept], a line of a connection, the end of one
    (or a read error, or a line that is not UTF-8), the receiver is dropped. *)
Inductive AcceptAction :=
| AcceptOk (now : Z)
| AcceptErr
| ConnLine (i : nat) (now : Z) (line : string)
| ConnEnd (i : nat) (now : Z)
| ReceiverGone.

Section Acceptor.
Context (cfg : IngestConfig).

(** A task that goes from [c] to [b]: what it sent goes to the channel. *)
Definition conn_moves (i : nat) (c : TcpConn) (b : Batching) (open : bool) (s : Acceptor) : Acceptor :=
  mkAcceptor (<[i := mkTcpConn b open]> (ac_conns s))
    (ac_channel s ++ ((fun batch => (i, batch)) <$> drop (length (sent (cn_batching c))) (sent b))) (ac_receiver s).

(** After the loop: a batch that is left is sent, whether or not that works. *)
Definition conn_finish (accepts : nat -> bool) (now : Z) (b : Batching) : Batching :=
  match current_batch b with [] => b | _ => send_batch accepts now b end.

(** One step of a task; [None] when the task is not there to take it. *)
Definition accept_step (a : AcceptAction) (s : Acceptor) : option Acceptor :=
  let accepts (_ : nat) := ac_receiver s in
  match a with
  | AcceptOk now => Some (mkAcceptor (ac_conns s ++ [mkTcpConn (batching_new now) true]) (ac_channel s) (ac_receiver s))
  | AcceptErr => Some s
  | ConnLine i now line =>
      match ac_conns s !! i with
      | Some c =>
          if cn_open c
          then let b := tcp_line cfg accepts now (cn_batching c) line in
               Some (if stopped b then conn_moves i c (conn_finish accepts now b) false s else conn_moves i c b true s)
          else None
      | None => None
      end
  | ConnEnd i now =>
      match ac_conns s !! i with
      | Some c => if cn_open c then Some (conn_moves i c (conn_finish accepts now (cn_batching c)) false s) else None
      | None => None
      end
  | ReceiverGone => Some (mkAcceptor (ac_conns s) (ac_channel s) false)
  end.

Fixpoint accept_run (acts : list AcceptAction) (s : Acceptor) : option Acceptor :=
  match acts with [] => Some s | a :: acts' => s1 <-! accept_step a s; accept_run acts' s1 end.

End Acceptor.

(** ** [UdpSyslogListener::run_parsed] and the pool *)

(** Why the loop over the raw batches ended: there are none left, the receiver
    of the events is gone, or the parser panicked. *)
Inductive ParsedEnd := RawEnd | SinkGone | ParsePanic.

Section Parsed.
Context `{Sha256} `{HexLib} `{UnicodeLib} `{ChronoLib} `{RegexLib} `{JsonLib} `{AhoCorasick}.

(** [env n i]: the draws of the [i]-th call for the [n]-th batch; [accepts n]:
    whether the channel takes the [n]-th batch of events. *)
Fixpoint run_parsed (env : nat -> nat -> ParseEnv) (accepts : nat -> bool) (n : nat) (raw_batches : list (list string))
  : list (list NetworkActivity) * ParsedEnd :=
  match raw_batches with
  | [] => ([], RawEnd)
  | raw_batch :: rest =>
      match parse_batch (env n) raw_batch with
      | None => ([], ParsePanic)
      | Some parsed_batch =>
          if accepts n
          then let '(sent, e) := run_parsed env accepts (S n) rest in (parsed_batch :: sent, e)
          else ([], SinkGone)
      end
  end.

(** [spawn_udp_worker_pool]: the handles, or the error of the first bind that
    fails; the number of tasks that run in either case, for a task goes on when
    its handle is dropped. *)
Fixpoint spawn_from (binds : nat -> Result string unit) (i todo : nat) : Result string nat * nat :=
  match todo with
  | O => (Ok i, i)
  | S todo' => match binds i with Ok _ => spawn_from binds (S i) todo' | Err e => (Err e, i) end
  end.

Definition spawn_udp_worker_pool (binds : nat -> Result string unit) (num_workers : nat) : Result string nat * nat :=
  spawn_from binds 0 num_workers.

End Parsed.
