(* ===== verification/ListenerFacts.v ===== *)
(** * What the listeners guarantee as tasks

    In every interleaving of connections the acceptor keeps the lines of each
    connection, once and in order; every line a UDP listener receives becomes an
    event. *)

From S2P Require Export Listener SocketFacts.

(** The batches of a connection, in the order of the channel, and the lines it
    carried. *)
Definition batches_of (i : nat) (ch : list (nat * list string)) : list (list string) :=
  (List.filter (fun x => (x.1 =? i)%nat) ch).*2.

Definition conn_line (i : nat) (a : AcceptAction) : list string :=
  match a with ConnLine j _ line => if (j =? i)%nat then [line] else [] | _ => [] end.

Definition lines_of_conn (i : nat) (acts : list AcceptAction) : list string := concat (conn_line i <$> acts).

Lemma batches_of_app i ch ch' : batches_of i (ch ++ ch') = batches_of i ch ++ batches_of i ch'.
Proof. unfold batches_of. by rewrite List.filter_app, fmap_app. Qed.

Lemma batches_of_tagged i j (ls : list (list string)) : batches_of i ((fun l => (j, l)) <$> ls) = if (j =? i)%nat then ls else [].
Proof.
  unfold batches_of. induction ls as [|l ls IH]; [by destruct (j =? i)%nat|]. rewrite fmap_cons. cbn [List.filter fst].
  destruct (j =? i)%nat; [|done]. rewrite fmap_cons. by f_equal.
Qed.

Section Acceptor.
Context (cfg : IngestConfig).

(** A task sends by appending to what it has sent. *)
Lemma send_batch_grows accepts now b : exists new, sent (send_batch accepts now b) = sent b ++ new.
Proof. unfold send_batch. destruct (accepts _); simpl; [by eexists|exists []; by rewrite app_nil_r]. Qed.

Lemma tcp_line_grows accepts now b line : exists new, sent (tcp_line cfg accepts now b line) = sent b ++ new.
Proof.
  unfold tcp_line. destruct (is_empty _); [exists []; by rewrite app_nil_r|].
  destruct (_ || _); [|exists []; by rewrite app_nil_r]. exact (send_batch_grows accepts now (mkBatching _ _ _ _)).
Qed.

Lemma conn_finish_grows accepts now b : exists new, sent (conn_finish accepts now b) = sent b ++ new.
Proof. unfold conn_finish. destruct (current_batch b); [exists []; by rewrite app_nil_r|apply send_batch_grows]. Qed.

(** The state of a connection that has carried [ls]. *)
Record conn_ok (alive : bool) (ls : list string) (c : TcpConn) : Prop := {
  co_inv : batching_inv cfg (fun _ => alive) (cn_batching c);
  co_open : cn_open c = true -> stopped (cn_batching c) = false;
  co_lines : stopped (cn_batching c) = false -> delivered (cn_batching c) = kept ls;
  co_prefix : concat (sent (cn_batching c)) `prefix_of` kept ls;
  co_closed : cn_open c = false -> current_batch (cn_batching c) = []
}.

Lemma conn_line_ok alive now line ls c : conn_ok alive ls c -> cn_open c = true ->
  let b := tcp_line cfg (fun _ => alive) now (cn_batching c) line in
  conn_ok alive (ls ++ [line]) (if stopped b then mkTcpConn (conn_finish (fun _ => alive) now b) false else mkTcpConn b true).
Proof.
  intros [I Ho Hl Hp Hc] Hopen b. specialize (Ho Hopen). specialize (Hl Ho).
  destruct (tcp_lines_ok cfg (fun _ => alive) [(now, line)] (cn_batching c) I) as [I' D']. cbn [tcp_lines] in I', D'. rewrite Ho in I', D'.
  fold b in I', D'. change ([(now, line)].*2) with [line] in D'.
  assert (kept (ls ++ [line]) = delivered (cn_batching c) ++ kept [line]) as Hk by (by rewrite kept_app, Hl).
  destruct (stopped b) eqn:Es.
  - assert (current_batch b = [] /\ sent b = sent (cn_batching c)) as [Eb Ese].
    { unfold b, tcp_line in *. destruct (is_empty (trim line)); [congruence|]. destruct (_ || _); [|simpl in Es; congruence].
      unfold send_batch in *. destruct alive; simpl in *; [congruence|done]. }
    unfold conn_finish. rewrite Eb. split; simpl; try done; try congruence. rewrite Ese, kept_app. by apply prefix_app_r.
  - specialize (D' eq_refl). split; simpl; try done; [by rewrite Hk|]. rewrite Hk, <- D'. unfold delivered. by apply prefix_app_r.
Qed.

Lemma conn_end_ok alive now ls c : conn_ok alive ls c -> cn_open c = true ->
  conn_ok alive ls (mkTcpConn (conn_finish (fun _ => alive) now (cn_batching c)) false).
Proof.
  intros [I Ho Hl Hp Hc] Hopen. specialize (Ho Hopen). specialize (Hl Ho). set (b := cn_batching c) in *. unfold conn_finish.
  destruct (current_batch b) as [|x l] eqn:Eb; [split; simpl; try done; by rewrite Eb|].
  assert (batching_inv cfg (fun _ => alive) (send_batch (fun _ => alive) now b)) as I'.
  { apply send_batch_inv; [|by rewrite Eb|pose proof (bi_current _ _ _ I); lia]. destruct I. split; simpl; try done. unfold bound. lia. }
  split; simpl; try done.
  - intros Hs. by destruct (send_batch_delivered _ now b Hs) as [-> _].
  - unfold send_batch. destruct alive; simpl; [|done]. rewrite concat_app. simpl. rewrite app_nil_r. unfold delivered in Hl. by rewrite Hl.
  - intros _. unfold send_batch. by destruct alive.
Qed.

Lemma conn_receiver_gone alive ls c : conn_ok alive ls c -> conn_ok false ls c.
Proof. intros [[I1 I2 I3] Ho Hl Hp Hc]. split; try done. split; try done. intros _. by exists 0. Qed.

(** The acceptor after [acts]. *)
Record acceptor_ok (acts : list AcceptAction) (s : Acceptor) : Prop := {
  ao_conns : forall i c, ac_conns s !! i = Some c -> conn_ok (ac_receiver s) (lines_of_conn i acts) c;
  ao_channel : forall i c, ac_conns s !! i = Some c -> batches_of i (ac_channel s) = sent (cn_batching c);
  ao_known : Forall (fun x => x.1 < length (ac_conns s)) (ac_channel s);
  ao_silent : forall i, length (ac_conns s) <= i -> lines_of_conn i acts = [] /\ batches_of i (ac_channel s) = []
}.

Lemma lines_of_snoc i acts a : lines_of_conn i (acts ++ [a]) = lines_of_conn i acts ++ conn_line i a.
Proof. unfold lines_of_conn. rewrite fmap_app, concat_app. simpl. by rewrite app_nil_r. Qed.

(** A move of one task, which may have read the line of [a]. *)
Lemma conn_moves_ok acts a s i c b open : acceptor_ok acts s -> ac_conns s !! i = Some c ->
  (exists new, sent b = sent (cn_batching c) ++ new) ->
  conn_ok (ac_receiver s) (lines_of_conn i acts ++ conn_line i a) (mkTcpConn b open) ->
  (forall j, j <> i -> conn_line j a = []) -> acceptor_ok (acts ++ [a]) (conn_moves i c b open s).
Proof.
  intros [A1 A2 A3 A4] Hi [new En] Hc Hj. assert (i < length (ac_conns s)) as Hlt by (by eapply lookup_lt_Some).
  unfold conn_moves. rewrite En, drop_app_length. split; simpl.
  - intros k c' Hk. rewrite lines_of_snoc. destruct (decide (k = i)) as [->|Hn].
    + rewrite list_lookup_insert_eq in Hk by done. by injection Hk as <-.
    + rewrite list_lookup_insert_ne in Hk by done. rewrite Hj, app_nil_r by done. by apply A1.
  - intros k c' Hk. rewrite batches_of_app, batches_of_tagged. destruct (decide (k = i)) as [->|Hn].
    + rewrite list_lookup_insert_eq in Hk by done. injection Hk as <-. simpl. by rewrite Nat.eqb_refl, (A2 i c), En.
    + rewrite list_lookup_insert_ne in Hk by done. rewrite (proj2 (Nat.eqb_neq i k)), app_nil_r by done. by apply A2.
  - rewrite length_insert. apply Forall_app. split; [done|]. by apply Forall_fmap, Forall_true.
  - intros k Hk. rewrite length_insert in Hk. rewrite lines_of_snoc, batches_of_app, batches_of_tagged.
    destruct (A4 k Hk) as [-> ->]. rewrite (proj2 (Nat.eqb_neq i k)) by lia. rewrite Hj by lia. done.
Qed.

Lemma accept_step_ok acts a s s' : acceptor_ok acts s -> accept_step cfg a s = Some s' -> acceptor_ok (acts ++ [a]) s'.
Proof.
  intros A. pose proof A as [A1 A2 A3 A4]. destruct a as [now| |i now line|i now|]; cbn [accept_step].
  - intros [= <-]. split; simpl.
    + intros i c. rewrite lines_of_snoc, app_nil_r. intros [Hi|[Hge Hi]]%lookup_app_Some; [by apply A1|].
      apply list_lookup_singleton_Some in Hi as [Hi <-]. rewrite (proj1 (A4 i ltac:(lia))).
      split; simpl; try done; [apply batching_new_inv].
    + intros i c [Hi|[Hge Hi]]%lookup_app_Some; [by apply A2|]. apply list_lookup_singleton_Some in Hi as [Hi <-].
      by rewrite (proj2 (A4 i ltac:(lia))).
    + eapply Forall_impl; [exact A3|]. simpl. intros x Hx. rewrite length_app. lia.
    + intros i Hi. rewrite length_app in Hi. rewrite lines_of_snoc, app_nil_r. apply A4. lia.
  - intros [= <-]. split; intros; rewrite ?lines_of_snoc, ?app_nil_r; auto.
  - destruct (ac_conns s !! i) as [c|] eqn:Ei; [|done]. destruct (cn_open c) eqn:Eo; [|done].
    pose proof (conn_line_ok (ac_receiver s) now line _ c (A1 _ _ Ei) Eo) as Hc. cbv zeta in Hc.
    assert (lines_of_conn i acts ++ [line] = lines_of_conn i acts ++ conn_line i (ConnLine i now line)) as El
      by (simpl; by rewrite Nat.eqb_refl).
    destruct (tcp_line_grows (fun _ => ac_receiver s) now (cn_batching c) line) as [n1 E1].
    set (b := tcp_line _ _ _ _ _) in *. destruct (conn_finish_grows (fun _ => ac_receiver s) now b) as [n2 E2].
    assert (forall j, j <> i -> conn_line j (ConnLine i now line) = []) as Hj by (intros j Hn; simpl; by rewrite (proj2 (Nat.eqb_neq i j))).
    rewrite El in Hc. destruct (stopped b); intros [= <-]; apply conn_moves_ok; try done; [exists (n1 ++ n2)|by exists n1].
    by rewrite E2, E1, app_assoc.
  - destruct (ac_conns s !! i) as [c|] eqn:Ei; [|done]. destruct (cn_open c) eqn:Eo; [|done]. intros [= <-].
    apply conn_moves_ok; try done; [apply conn_finish_grows|]. simpl. rewrite app_nil_r. by apply conn_end_ok; [apply A1|].
  - intros [= <-]. split; simpl; intros; rewrite ?lines_of_snoc, ?app_nil_r; auto. by eapply conn_receiver_gone, A1.
Qed.

Lemma accept_run_ok acts : forall done s s', acceptor_ok done s -> accept_run cfg acts s = Some s' -> acceptor_ok (done ++ acts) s'.
Proof.
  induction acts as [|a acts IH]; intros done s s' A; cbn [accept_run]; [intros [= <-]; by rewrite app_nil_r|].
  destruct (accept_step cfg a s) as [s1|] eqn:E; [|done]. intros Hr. change (a :: acts) with ([a] ++ acts). rewrite app_assoc.
  eapply IH; [by eapply accept_step_ok|done].
Qed.

(** C19: the TCP acceptor loses nothing in any interleaving of accepts, lines and
    ends of any number of connections: while the receiver of the channel is
    there, the batches that came from a connection, in the order of the channel,
    followed by its pending batch, are exactly the trimmed, non-empty lines that
    the connection carried, and nothing is pending once it has ended; also when
    the receiver has gone, what arrived is a prefix of them.  No batch is empty
    or longer than the batch size, and every batch is of an accepted
    connection. *)
Theorem acceptor_lossless acts s : accept_run cfg acts acceptor_new = Some s ->
  Forall (fun x => x.1 < length (ac_conns s)) (ac_channel s) /\
  forall i c, ac_conns s !! i = Some c ->
    let mine := batches_of i (ac_channel s) in
    let carried := kept (lines_of_conn i acts) in
    Forall (fun l => l <> [] /\ length l <= Nat.max 1 (batch_size cfg)) mine /\ concat mine `prefix_of` carried /\
    (ac_receiver s = true -> concat mine ++ current_batch (cn_batching c) = carried /\
       (cn_open c = false -> concat mine = carried)).
Proof.
  intros Hr. assert (acceptor_ok [] acceptor_new) as A0 by (split; [done|done|constructor|done]).
  destruct (accept_run_ok acts [] _ _ A0 Hr) as [A1 A2 A3 A4]. simpl in A1. split; [done|].
  intros i c Hc. cbv zeta. rewrite (A2 _ _ Hc). destruct (A1 _ _ Hc) as [[I1 I2 I3] Ho Hl Hp Hcl]. split_and!; [done|done|].
  intros Ha. assert (stopped (cn_batching c) = false) as Hs.
  { destruct (stopped (cn_batching c)); [|done]. destruct (I3 eq_refl) as [n Hn]. by rewrite Ha in Hn. }
  specialize (Hl Hs). split; [done|]. intros Hop. rewrite <- Hl. unfold delivered. by rewrite (Hcl Hop), app_nil_r.
Qed.

End Acceptor.

(** ** Parsed batches *)

Section Parsed.
Context `{Sha256} `{HexLib} `{UnicodeLib} `{ChronoLib} `{RegexLib} `{JsonLib} `{AhoCorasick}.

Lemma run_parsed_complete env bs : Forall (Forall (fun l => all_bytes is_ascii l = true)) bs -> forall n,
  exists parsed, run_parsed env (fun _ => true) n bs = (parsed, RawEnd) /\
    Forall2 (Forall2 (fun l a => carries l a /\ activity_wf a)) bs parsed.
Proof.
  induction 1 as [|batch bs Hb HF IH]; intros n; [by exists []|]. cbn [run_parsed].
  destruct (parse_batch_complete (env n) batch Hb) as (events & -> & HF2). destruct (IH (S n)) as (parsed & -> & HP).
  exists (events :: parsed). split; [done|]. by constructor.
Qed.

(** Every line that a UDP listener receives in ASCII datagrams becomes one event,
    which carries it, in order: the events forwarded are those of the batches
    sent so far, and only the lines of the pending batch are still to come. *)
Theorem udp_events_complete cfg start t0 evs b env : udp_run cfg (fun _ => true) start evs (batching_new t0) = Some b ->
  Forall (fun l => all_bytes is_ascii l = true) (concat (event_lines cfg <$> evs)) ->
  exists parsed, run_parsed env (fun _ => true) 0 (sent b) = (parsed, RawEnd) /\
    exists done, done ++ current_batch b = concat (event_lines cfg <$> evs) /\
      Forall2 (fun l a => carries l a /\ activity_wf a) done (concat parsed).
Proof.
  intros Hr HA. destruct (udp_batches_lossless cfg (fun _ => true) start t0 evs b Hr (fun _ => eq_refl)) as (E & _ & _).
  rewrite <- E in HA. apply Forall_app in HA as [HA _].
  assert (Forall (Forall (fun l => all_bytes is_ascii l = true)) (sent b)) as HF.
  { clear -HA. induction (sent b) as [|x xs IH]; [constructor|]. simpl in HA. apply Forall_app in HA as [? ?]. constructor; auto. }
  destruct (run_parsed_complete env (sent b) HF 0) as (parsed & -> & HP). exists parsed. split; [done|].
  exists (concat (sent b)). split; [done|]. clear -HP. induction HP; simpl; [constructor|]. by apply Forall2_app.
Qed.

(** A failed bind does not stop the workers that were spawned before it. *)
Lemma failed_pool_keeps_running binds n k e : k < n -> (forall i, i < k -> binds i = Ok tt) -> binds k = Err e ->
  spawn_udp_worker_pool binds n = (Err e, k).
Proof.
  intros Hk Ho He. unfold spawn_udp_worker_pool.
  assert (forall j todo, j <= k -> k < j + todo -> spawn_from binds j todo = (Err e, k)) as Hs; [|apply Hs; lia].
  intros j todo. revert j. induction todo as [|todo IH]; intros j H1' H2'; [lia|]. cbn [spawn_from].
  destruct (decide (j = k)) as [->|Hn]; [by rewrite He|]. rewrite Ho by lia. apply IH; lia.
Qed.

Lemma pool_spawned binds n : (forall i, i < n -> binds i = Ok tt) -> spawn_udp_worker_pool binds n = (Ok n, n).
Proof.
  intros Ho. unfold spawn_udp_worker_pool.
  assert (forall todo j, j + todo = n -> spawn_from binds j todo = (Ok n, n)) as Hs; [|by apply Hs].
  induction todo as [|todo IH]; intros j Hj; cbn [spawn_from]; [by rewrite Nat.add_0_r in Hj; subst|]. rewrite Ho by lia. apply IH. lia.
Qed.

End Parsed.

(** ** Witnesses *)

Module ListenerDemo.
Import Demo TokenDemo ParserDemo SocketDemo.

(** Two connections at once. *)
Definition tcp_acts : list AcceptAction :=
  [ AcceptOk 0; AcceptOk 1; ConnLine 1 2 "b1"; ConnLine 0 3 " a1 "; AcceptErr; ConnLine 1 4 ""; ConnLine 0 5 "a2"; ConnLine 1 60 "b2";
    ConnLine 0 61 "a3"; ConnEnd 0 70 ].

Definition tcp_end : Acceptor := default acceptor_new (accept_run cfg2 tcp_acts acceptor_new).

Lemma acceptor_lossless_witness : concat (batches_of 0 (ac_channel tcp_end)) = ["a1"; "a2"; "a3"] /\
  concat (batches_of 1 (ac_channel tcp_end)) `prefix_of` ["b1"; "b2"].
Proof.
  destruct (acceptor_lossless cfg2 tcp_acts tcp_end) as [_ Hc]; [vm_compute; reflexivity|].
  destruct (Hc 0 (default (mkTcpConn (batching_new 0) true) (ac_conns tcp_end !! 0))) as (_ & _ & Ha); [vm_compute; reflexivity|].
  destruct (Hc 1 (default (mkTcpConn (batching_new 0) true) (ac_conns tcp_end !! 1))) as (_ & Hp & _); [vm_compute; reflexivity|].
  split; [|exact Hp]. destruct Ha as [_ Ha]; [vm_compute; reflexivity|]. exact (Ha ltac:(vm_compute; reflexivity)).
Defined.

Lemma udp_events_complete_witness : exists parsed, run_parsed (fun _ _ => env0) (fun _ => true) 0 [["one"; "two"]; ["three"]] = (parsed, RawEnd).
Proof.
  destruct (udp_events_complete cfg2 0 0 udp_events (mkBatching [] 70 [["one"; "two"]; ["three"]] false) (fun _ _ => env0))
    as (parsed & E & _); [vm_compute; reflexivity|vm_compute; repeat constructor|].
  exists parsed. exact E.
Defined.

End ListenerDemo.
