(* ===== verification/OnboarderFacts.v ===== *)
(** * What onboarding and the registry guarantee

    The registry is bounded, ordered and evicts the least recently used parser;
    a parser that passes the sandbox extracts valid addresses from every
    sample, trimmed; dynamic events are well-formed and carry their line. *)

From S2P Require Export Onboarder ParserFacts FieldFacts.
From Stdlib Require Import Sorting.Sorted.

(** ** Ordered keys *)

Definition key_lt (k k' : string) : Prop := String.compare k k' = Lt.

Lemma compare_refl k : String.compare k k = Eq.
Proof.
  destruct (String.compare k k) eqn:E; [done| |]; pose proof (String.compare_antisym k k) as A; rewrite E in A; done.
Qed.

Lemma ascii_compare_trans a b c : Ascii.compare a b = Lt -> Ascii.compare b c = Lt -> Ascii.compare a c = Lt.
Proof. unfold Ascii.compare. rewrite !N.compare_lt_iff. lia. Qed.

#[global] Instance key_lt_trans : Transitive key_lt.
Proof.
  unfold key_lt. intros x; induction x as [|a x IH]; intros [|b y] [|c z]; simpl; try done.
  destruct (Ascii.compare a b) eqn:E1, (Ascii.compare b c) eqn:E2; try done; intros H1 H2.
  - apply Ascii.compare_eq_iff in E1, E2. subst. rewrite (N.compare_refl _ : Ascii.compare c c = Eq). by apply (IH y).
  - apply Ascii.compare_eq_iff in E1. subst. by rewrite E2.
  - apply Ascii.compare_eq_iff in E2. subst. by rewrite E1.
  - by rewrite (ascii_compare_trans a b c).
Qed.

Lemma key_lt_irrefl k : ~ key_lt k k.
Proof. unfold key_lt. by rewrite compare_refl. Qed.

Lemma compare_gt k k' : String.compare k k' = Gt -> key_lt k' k.
Proof. unfold key_lt. rewrite (String.compare_antisym k' k). by intros ->. Qed.

Definition sorted_keys (l : Registered) : Prop := StronglySorted key_lt l.*1.

Lemma bt_get_none k l : bt_get k l = None <-> k ∉ l.*1.
Proof.
  induction l as [|[k' e] l IH]; simpl; [set_solver|]. rewrite elem_of_cons.
  destruct (String.eqb_spec k k'); [naive_solver|]. rewrite IH. naive_solver.
Qed.

Lemma bt_insert_keys k e l x : x ∈ (bt_insert k e l).*1 <-> x = k \/ x ∈ l.*1.
Proof.
  induction l as [|[k' e'] l IH]; simpl; [set_solver|].
  destruct (String.compare k k') eqn:E; simpl; rewrite ?elem_of_cons; [|set_solver|rewrite IH; set_solver].
  apply String.compare_eq_iff in E. subst. set_solver.
Qed.

Lemma bt_insert_sorted k e l : sorted_keys l -> sorted_keys (bt_insert k e l).
Proof.
  unfold sorted_keys. induction l as [|[k' e'] l IH]; simpl; [by repeat constructor|]. intros S.
  apply StronglySorted_inv in S as [S F]. destruct (String.compare k k') eqn:E; simpl.
  - apply String.compare_eq_iff in E. subst. by constructor.
  - constructor; [by constructor|]. constructor; [done|]. eapply Forall_impl; [exact F|].
    intros y Hy. by transitivity k'.
  - constructor; [by apply IH|]. apply List.Forall_forall. intros x Hx. apply list_elem_of_In, bt_insert_keys in Hx as [->|Hx].
    + by apply compare_gt.
    + rewrite List.Forall_forall in F. by apply F, list_elem_of_In.
Qed.

Lemma bt_insert_get k e l k' : bt_get k' (bt_insert k e l) = if String.eqb k' k then Some e else bt_get k' l.
Proof.
  induction l as [|[k0 e0] l IH]; simpl; [by destruct (String.eqb k' k)|].
  destruct (String.compare k k0) eqn:E; simpl; [| by destruct (String.eqb k' k)|].
  - apply String.compare_eq_iff in E. subst. by destruct (String.eqb k' k0).
  - rewrite IH. destruct (String.eqb_spec k' k0), (String.eqb_spec k' k); subst; try done.
    by rewrite compare_refl in E.
Qed.

Lemma bt_insert_length k e l : sorted_keys l ->
  length (bt_insert k e l) = length l + match bt_get k l with Some _ => 0 | None => 1 end.
Proof.
  unfold sorted_keys. induction l as [|[k0 e0] l IH]; simpl; [done|]. intros S. apply StronglySorted_inv in S as [S F].
  destruct (String.compare k k0) eqn:E; simpl.
  - apply String.compare_eq_iff in E. subst. rewrite String.eqb_refl. lia.
  - destruct (String.eqb_spec k k0) as [->|]; [by rewrite compare_refl in E|].
    assert (bt_get k l = None) as ->; [|lia]. apply bt_get_none. intros Hin. rewrite List.Forall_forall in F.
    apply (key_lt_irrefl k). transitivity k0; [done|]. by apply F, list_elem_of_In.
  - destruct (String.eqb_spec k k0) as [->|]; [by rewrite compare_refl in E|]. rewrite IH by done. lia.
Qed.

(** ** Removal and touching *)

Lemma bt_remove_sorted k l : sorted_keys l -> sorted_keys (bt_remove k l).
Proof.
  unfold sorted_keys, bt_remove. induction l as [|[k' e] l IH]; simpl; [done|]. intros S.
  apply StronglySorted_inv in S as [S F]. destruct (negb _); simpl; [|by apply IH]. constructor; [by apply IH|].
  apply List.Forall_forall. intros x Hx. rewrite List.Forall_forall in F. apply F.
  apply list_elem_of_In, list_elem_of_fmap in Hx as ([k1 e1] & -> & Hx). apply list_elem_of_In, filter_In in Hx as [Hx _].
  apply list_elem_of_In, list_elem_of_fmap. exists (k1, e1). split; [done|by apply list_elem_of_In].
Qed.

Lemma bt_remove_get k l k' : bt_get k' (bt_remove k l) = if String.eqb k k' then None else bt_get k' l.
Proof.
  unfold bt_remove. induction l as [|[k0 e] l IH]; simpl; [by destruct (String.eqb k k')|].
  destruct (String.eqb_spec k k0) as [->|]; simpl.
  - rewrite IH. destruct (String.eqb_spec k0 k') as [->|]; [done|]. by destruct (String.eqb_spec k' k0).
  - rewrite IH. destruct (String.eqb_spec k' k0) as [->|]; [by destruct (String.eqb_spec k k0)|done].
Qed.

Lemma bt_remove_length k l : sorted_keys l -> bt_get k l <> None -> S (length (bt_remove k l)) = length l.
Proof.
  unfold sorted_keys, bt_remove. induction l as [|[k0 e] l IH]; simpl; [done|]. intros S.
  apply StronglySorted_inv in S as [S F]. destruct (String.eqb_spec k k0) as [->|]; simpl.
  - intros _. f_equal. rewrite (List.forallb_filter_id _ l); [done|]. apply forallb_forall. intros [k1 e1] H1. simpl.
    destruct (String.eqb_spec k0 k1) as [->|]; [|done]. rewrite List.Forall_forall in F. destruct (key_lt_irrefl k1). apply F.
    apply list_elem_of_In, list_elem_of_fmap. exists (k1, e1). split; [done|by apply list_elem_of_In].
  - intros Hg. by rewrite <- IH.
Qed.

Lemma touch_keys k now l : (touch k now l).*1 = l.*1.
Proof. induction l as [|[k' e] l IH]; simpl; [done|]. destruct (String.eqb k k'); simpl; [done|]. f_equal. apply IH. Qed.

Lemma touch_get k now l k' : bt_get k' (touch k now l) =
  (fun e => if String.eqb k k' then mkRegEntry (rg_parser e) (rg_regex e) now else e) <$> bt_get k' l.
Proof.
  induction l as [|[k0 e] l IH]; simpl; [done|].
  destruct (String.eqb_spec k k0) as [->|]; simpl; destruct (String.eqb_spec k' k0) as [->|]; simpl.
  - by rewrite String.eqb_refl.
  - destruct (bt_get k' l); simpl; [|done]. destruct (String.eqb_spec k0 k') as [->|]; done.
  - by destruct (String.eqb_spec k k0).
  - apply IH.
Qed.

(** ** The least recently used entry *)

Definition less_used (a b : string * RegistryEntry) : Prop := older b a = false.

Lemma older_trans a b c : older a b = true -> older b c = true -> older a c = true.
Proof.
  unfold older. destruct (Z.compare_spec (rg_last_use a.2) (rg_last_use b.2)) as [E1|E1|E1],
    (Z.compare_spec (rg_last_use b.2) (rg_last_use c.2)) as [E2|E2|E2]; try done; intros H1 H2.
  - rewrite E1, E2, Z.compare_refl. unfold String.ltb in *.
    destruct (String.compare a.1 b.1) eqn:F1; try done. destruct (String.compare b.1 c.1) eqn:F2; try done.
    by rewrite (key_lt_trans _ _ _ F1 F2).
  - by rewrite E1, (proj2 (Z.compare_lt_iff _ _) E2).
  - by rewrite <- E2, (proj2 (Z.compare_lt_iff _ _) E1).
  - by rewrite (proj2 (Z.compare_lt_iff (rg_last_use a.2) (rg_last_use c.2))) by lia.
Qed.

Lemma older_total a b : older a b = false -> older b a = true \/ (a.1 = b.1 /\ rg_last_use a.2 = rg_last_use b.2).
Proof.
  unfold older. destruct (Z.compare_spec (rg_last_use a.2) (rg_last_use b.2)) as [E1|E1|E1]; try done; intros H1.
  - rewrite E1, Z.compare_refl. unfold String.ltb in *. rewrite (String.compare_antisym b.1 a.1).
    destruct (String.compare a.1 b.1) eqn:F1; simpl; [right|done|by left]. by apply String.compare_eq_iff in F1.
  - left. by rewrite (proj2 (Z.compare_lt_iff (rg_last_use b.2) (rg_last_use a.2))).
Qed.

Lemma older_irrefl a : older a a = false.
Proof. unfold older. rewrite Z.compare_refl. unfold String.ltb. by rewrite compare_refl. Qed.

Lemma older_asym a b : older a b = true -> older b a = false.
Proof. intros E. destruct (older b a) eqn:E2; [|done]. by rewrite <- (older_irrefl a), (older_trans a b a). Qed.

Lemma min_entry_spec l x : min_entry l = Some x -> x ∈ l /\ forall y, y ∈ l -> older y x = false.
Proof.
  revert x; induction l as [|z l IH]; intros x; simpl; [done|].
  destruct (min_entry l) as [w|] eqn:E.
  - destruct (IH w eq_refl) as [Hw Hmin]. destruct (older w z) eqn:Eo; intros [= <-].
    + split; [by right|]. intros y [->|Hy]%elem_of_cons; [by apply older_asym|by apply Hmin].
    + split; [by left|]. intros y [->|Hy]%elem_of_cons; [apply older_irrefl|].
      destruct (older y z) eqn:Ez; [|done]. specialize (Hmin y Hy). apply older_total in Hmin as [Hm|[H1 H2]].
      * by rewrite (older_trans w y z) in Eo.
      * unfold older in Ez, Eo. rewrite H1, H2 in Ez. congruence.
  - intros [= <-]. split; [by left|]. intros y [->|Hy]%elem_of_cons; [apply older_irrefl|].
    destruct l as [|u l]; [by apply elem_of_nil in Hy|]. simpl in E. by destruct (min_entry l).
Qed.

Lemma min_entry_some l : l <> [] -> exists x, min_entry l = Some x.
Proof. destruct l as [|z l]; [done|]. intros _. simpl. destruct (min_entry l); eauto. Qed.

Lemma sorted_get l x : sorted_keys l -> x ∈ l -> bt_get x.1 l = Some x.2.
Proof.
  unfold sorted_keys. induction l as [|[k e] l IH]; simpl; [by intros _ ?%elem_of_nil|]. intros S.
  apply StronglySorted_inv in S as [S F]. intros [->|Hx]%elem_of_cons; simpl; [by rewrite String.eqb_refl|].
  destruct (String.eqb_spec x.1 k) as [E|]; [|by apply IH]. rewrite List.Forall_forall in F.
  destruct (key_lt_irrefl k). apply F. rewrite <- E. apply list_elem_of_In, list_elem_of_fmap. eauto.
Qed.

Lemma get_elem l k e : bt_get k l = Some e -> (k, e) ∈ l.
Proof.
  induction l as [|[k' e'] l IH]; simpl; [done|]. destruct (String.eqb_spec k k') as [->|]; [intros [= ->]; by left|].
  intros E. right. by apply IH.
Qed.

(** ** The registry *)

Record registry_inv (r : DynamicParserRegistry) : Prop := {
  ri_sorted : sorted_keys (parsers r);
  ri_bound : length (parsers r) <= rg_capacity r
}.

Section Registry.
Context `{Sha256} `{HexLib} `{RegexEngine} `{UnicodeText}.

Inductive RegistryOp :=
| ORegister (d : ParserDefinition)
| OParseKey (key raw id : string) (now : Z)
| OParseAny (raw id : string) (now : Z)
| OParse (vendor raw id : string) (now : Z).

Definition registry_step (r : DynamicParserRegistry) (op : RegistryOp) : DynamicParserRegistry :=
  match op with
  | ORegister d => (register r d).2
  | OParseKey key raw id now => (parse_key r key raw id now).2
  | OParseAny raw id now => (parse_any r raw id now).2
  | OParse vendor raw id now => (registry_parse r vendor raw id now).2
  end.

Lemma touch_inv r key now : registry_inv r -> registry_inv (mkRegistry (touch key now (parsers r)) now (rg_capacity r)).
Proof.
  intros [S B]. split; simpl; [unfold sorted_keys; by rewrite touch_keys|].
  pose proof (f_equal length (touch_keys key now (parsers r))) as E. rewrite !length_fmap in E. by rewrite E.
Qed.

Lemma tick_inv r : registry_inv r -> registry_inv (tick r).
Proof. by intros [S B]. Qed.

Lemma parse_key_inv r key raw id now : registry_inv r -> registry_inv (parse_key r key raw id now).2.
Proof.
  intros I%tick_inv. unfold parse_key. destruct (bt_get key (parsers (tick r))); simpl; [by apply (touch_inv (tick r))|done].
Qed.

Lemma register_inv r d : 0 < rg_capacity r -> registry_inv r ->
  registry_inv (register r d).2 /\ rg_capacity (register r d).2 = rg_capacity r.
Proof.
  intros Hc [S B]. unfold register. simpl. split; [|done]. set (key := registry_key d).
  destruct (bt_get key (parsers r)) as [e|] eqn:Eg; simpl.
  - split; simpl; [by apply bt_insert_sorted|]. rewrite bt_insert_length, Eg by done. lia.
  - destruct (Nat.leb_spec (rg_capacity r) (length (parsers r))).
    + destruct (min_entry_some (parsers r)) as [[ek ee] Em]; [intros E; rewrite E in *; simpl in *; lia|]. rewrite Em.
      destruct (min_entry_spec _ _ Em) as [Hin _]. pose proof (sorted_get _ _ S Hin) as Hg. simpl in Hg.
      pose proof (bt_remove_length ek (parsers r) S ltac:(congruence)). pose proof (bt_remove_sorted ek _ S).
      split; simpl; [by apply bt_insert_sorted|]. rewrite bt_insert_length by done. destruct (bt_get key (bt_remove ek (parsers r))); lia.
    + split; simpl; [by apply bt_insert_sorted|]. rewrite bt_insert_length, Eg by done. lia.
Qed.

Lemma parse_any_keyed_inv r raw id now : registry_inv r -> registry_inv (parse_any_keyed r raw id now).2.
Proof.
  intros I%tick_inv. unfold parse_any_keyed. destruct (parse_first _ _ _ _) as [[k a]|]; simpl; [by apply (touch_inv (tick r))|done].
Qed.

Lemma parse_keeps_capacity r op : rg_capacity (registry_step r op) = rg_capacity r.
Proof.
  destruct op; simpl; [done| | |].
  - unfold parse_key. by destruct (bt_get _ _).
  - unfold parse_any, parse_any_keyed. by destruct (parse_first _ _ _ _) as [[k a]|].
  - unfold registry_parse, parse_key. repeat case_match; by simplify_eq.
Qed.

Lemma registry_step_inv r op : 0 < rg_capacity r -> registry_inv r -> registry_inv (registry_step r op).
Proof.
  intros Hc I. destruct op; simpl.
  - by apply register_inv.
  - by apply parse_key_inv.
  - unfold parse_any. pose proof (parse_any_keyed_inv r raw id now I). by destruct (parse_any_keyed r raw id now).
  - unfold registry_parse. destruct (match bt_get _ _ with Some _ => _ | None => _ end) as [k|]; [|done].
    pose proof (parse_key_inv r k raw id now I). by destruct (parse_key r k raw id now).
Qed.

(** After every sequence of registrations and parses the registry holds at
    most its capacity of 256 parsers, under distinct keys in increasing order. *)
Theorem registry_bounded ops : let r := foldl registry_step registry_new ops in
  length (parsers r) <= 256 /\ sorted_keys (parsers r).
Proof.
  assert (forall r, rg_capacity r = REGISTRY_CAPACITY -> registry_inv r ->
    rg_capacity (foldl registry_step r ops) = REGISTRY_CAPACITY /\ registry_inv (foldl registry_step r ops)) as Hr.
  { induction ops as [|op ops IH]; intros r Hc I; [done|]. simpl.
    apply IH; [by rewrite parse_keeps_capacity|]. apply registry_step_inv; [rewrite Hc; unfold REGISTRY_CAPACITY; lia|done]. }
  destruct (Hr registry_new) as [Hc [S B]]; [done|split; simpl; [constructor|lia]|]. rewrite Hc in B. done.
Qed.

(** Registering a parser makes it the one found under its key; when the key
    is new and the registry full, exactly one other parser is evicted, that
    which was used longest ago (of those used at the same time the one with
    the least key), and all others stay as they were. *)
Theorem register_evicts_least_used r d : registry_inv r -> 0 < rg_capacity r ->
  let '(key, r') := register r d in
  bt_get key (parsers r') =
    Some (mkRegEntry d (if re_compiles (pd_regex_pattern d) then Some (pd_regex_pattern d) else None) (rg_clock r')) /\
  ((bt_get key (parsers r) <> None \/ length (parsers r) < rg_capacity r) ->
     forall k, k <> key -> bt_get k (parsers r') = bt_get k (parsers r)) /\
  (bt_get key (parsers r) = None -> length (parsers r) = rg_capacity r ->
     exists ek ee, bt_get ek (parsers r) = Some ee /\
       (forall k e, bt_get k (parsers r) = Some e -> older (k, e) (ek, ee) = false) /\
       bt_get ek (parsers r') = None /\
       forall k, k <> key -> k <> ek -> bt_get k (parsers r') = bt_get k (parsers r)).
Proof.
  intros [S B] Hc. unfold register. simpl. set (key := registry_key d). split_and!.
  - by rewrite bt_insert_get, String.eqb_refl.
  - intros Hcase k Hk. rewrite bt_insert_get. apply String.eqb_neq in Hk as ->.
    destruct (bt_get key (parsers r)) as [e|]; [done|]. destruct Hcase as [|Hlt]; [done|].
    by destruct (Nat.leb_spec (rg_capacity r) (length (parsers r))); [lia|].
  - intros En Hfull. rewrite En, (proj2 (Nat.leb_le _ _)) by lia. simpl.
    destruct (min_entry_some (parsers r)) as [[ek ee] Em]; [intros E; rewrite E in *; simpl in *; lia|]. rewrite Em.
    destruct (min_entry_spec _ _ Em) as [Hin Hmin]. pose proof (sorted_get _ _ S Hin) as Hg. simpl in Hg.
    exists ek, ee. split_and!; [done| | |].
    + intros k e Hk. by apply Hmin, get_elem.
    + rewrite bt_insert_get, bt_remove_get, String.eqb_refl. by destruct (String.eqb_spec ek key) as [->|]; [congruence|].
    + intros k Hk Hek. rewrite bt_insert_get, bt_remove_get. apply String.eqb_neq in Hk as ->.
      by destruct (String.eqb_spec ek k).
Qed.

(** ** Events *)

Definition mapping_ok (d : ParserDefinition) : Prop :=
  map_Forall (fun _ disp => disp ∈ [ALLOWED; BLOCKED; DROPPED; UNKNOWN]) (pd_action_mappings d).

Lemma infer_mapping_ok : map_Forall (fun _ disp => disp ∈ [ALLOWED; BLOCKED; DROPPED; UNKNOWN]) infer_action_mappings.
Proof.
  unfold infer_action_mappings. simpl. repeat (apply map_Forall_insert_2; [apply elem_disp; tauto|]). apply map_Forall_empty.
Qed.

Lemma dynamic_event_wf d re raw id now caps : mapping_ok d ->
  activity_wf (dynamic_event d re raw id now caps) /\ carries raw (dynamic_event d re raw id now caps).
Proof.
  intros Hm. unfold dynamic_event.
  set (proto := match group_name re caps "protocol" with Some p => _ | None => _ end).
  assert (opt_range u8_max proto.1) as Hp.
  { unfold proto. destruct (group_name re caps "protocol") as [p|]; [|done].
    pose proof (parse_proto_range (trim p)) as Hr. by destruct (parse_proto (trim p)). }
  destruct proto as [pn pm]. simpl in Hp. set (ra := default "unknown" _).
  split; [|unfold with_unmapped; by case_decide].
  apply with_unmapped_wf, activity_new_wf; simpl; eauto with ocsf.
  - unfold dynamic_activity. table.
  - destruct (pd_action_mappings d !! ra) as [v|] eqn:E; simpl; [by apply Hm in E|]. unfold raw_disposition. table.
Qed.

Lemma dynamic_event_ips d re raw id now caps :
  ep_ip (na_src_endpoint (dynamic_event d re raw id now caps)) = group_name re caps "src_ip" /\
  ep_ip (na_dst_endpoint (dynamic_event d re raw id now caps)) = group_name re caps "dst_ip".
Proof.
  unfold dynamic_event. destruct (match group_name re caps "protocol" with Some p => _ | None => _ end) as [pn pm].
  match goal with |- context [with_unmapped ?a ?m] => destruct (with_unmapped_fields a m) as (_ & _ & -> & ->) end. done.
Qed.

(** ** The sandbox *)

Lemma check_sample_matched re idx s : check_sample re idx s = Matched ->
  exists caps src dst, re_captures_first re (trim s) = Some caps /\
    group_name re caps "src_ip" = Some src /\ is_ip_addr src = true /\
    group_name re caps "dst_ip" = Some dst /\ is_ip_addr dst = true.
Proof.
  unfold check_sample. destruct (is_empty (trim s)); [done|]. destruct (re_captures_first re (trim s)) as [caps|]; [|done].
  unfold check_ip at 1. destruct (group_name re caps "src_ip") as [src|] eqn:G1; [|done]. destruct (is_ip_addr src) eqn:E1; [|done].
  unfold check_ip at 1. destruct (group_name re caps "dst_ip") as [dst|] eqn:G2; [|done]. destruct (is_ip_addr dst) eqn:E2; [|done].
  intros _. exists caps, src, dst. done.
Qed.

Lemma validate_passed d samples rep : validate_parser d samples = Ok rep -> vr_passed rep = true ->
  re_compiles (pd_regex_pattern d) = true /\ vr_total_samples rep = length samples /\
  vr_matched_samples rep = length samples /\
  forall s, s ∈ samples -> exists idx, check_sample (pd_regex_pattern d) idx s = Matched.
Proof.
  unfold validate_parser. destruct (re_compiles _) eqn:Ec; [|done]. intros [= <-]. cbn [vr_passed vr_total_samples vr_matched_samples].
  intros [Hl _]%andb_true_iff. bool_hyps. split_and!; try done.
  intros s Hs. apply list_elem_of_lookup_1 in Hs as [i Hi].
  assert (length (imap (check_sample (pd_regex_pattern d)) samples) = length samples) as Hli by apply length_imap.
  rewrite <- Hli in Hl. apply filter_full in Hl. rewrite Forall_lookup in Hl. exists i.
  specialize (Hl i (check_sample (pd_regex_pattern d) i s)).
  rewrite list_lookup_imap, Hi in Hl. specialize (Hl eq_refl). by destruct (check_sample _ _ _).
Qed.

Lemma generate_sound vendor model samples created d rep :
  generate_parser vendor model samples created = Some (Ok (d, rep)) ->
  3 <= length samples /\ vr_matched_samples rep = length samples /\
  re_compiles (pd_regex_pattern d) = true /\
  d = mkDef vendor model (pd_regex_pattern d) infer_action_mappings samples (f64_of_Z 1) created /\
  forall s id now, s ∈ samples -> exists a src dst, definition_parse d (trim s) id now = Ok a /\
    activity_wf a /\ carries (trim s) a /\
    ep_ip (na_src_endpoint a) = Some src /\ is_ip_addr src = true /\
    ep_ip (na_dst_endpoint a) = Some dst /\ is_ip_addr dst = true.
Proof.
  unfold generate_parser. destruct (Nat.ltb_spec (length samples) 3); [done|].
  destruct (head samples) as [first|]; [|done]. destruct (synthesize_regex first samples) as [pattern|e]; cbn [xbind]; [|done].
  set (d0 := mkDef vendor model pattern infer_action_mappings samples (f64_of_Z 1) created).
  destruct (validate_parser d0 samples) as [rep0|e] eqn:Ev; cbn [xbind]; [|done]. destruct (vr_passed rep0) eqn:Ep; [|done].
  intros [= <- <-]. destruct (validate_passed _ _ _ Ev Ep) as (Hc & Ht & Hm & Hall). split_and!; try done.
  intros s id now Hs. destruct (Hall s Hs) as [idx E]. apply check_sample_matched in E as (caps & src & dst & Hcap & E1 & V1 & E2 & V2).
  exists (dynamic_event d0 pattern (trim s) id now caps), src, dst. unfold definition_parse, parse_with_regex.
  rewrite Hc. simpl in Hcap |- *. rewrite Hcap. destruct (dynamic_event_ips d0 pattern (trim s) id now caps) as [-> ->].
  destruct (dynamic_event_wf d0 pattern (trim s) id now caps) as [W C]; [apply infer_mapping_ok|]. done.
Qed.

(** A line that a definition parses: the event is well-formed, carries the line and
    has valid addresses as source and destination. *)
Definition parses (d : ParserDefinition) (line : string) : Prop :=
  forall id now, exists a src dst, definition_parse d line id now = Ok a /\
    activity_wf a /\ carries line a /\
    ep_ip (na_src_endpoint a) = Some src /\ is_ip_addr src = true /\
    ep_ip (na_dst_endpoint a) = Some dst /\ is_ip_addr dst = true.

(** C34: a parser that onboarding returns has compiled and matched all its samples, at
    least three; it parses every sample once that is trimmed, and so every sample
    without white space at its ends as it is, into a well-formed event that carries
    the line, with valid IP addresses as source and destination. *)
Theorem onboarded_parser_sound vendor model samples created d rep :
  generate_parser vendor model samples created = Some (Ok (d, rep)) ->
  3 <= length samples /\ vr_matched_samples rep = length samples /\ pd_sample_logs d = samples /\
  (forall s, s ∈ samples -> parses d (trim s)) /\ (forall s, s ∈ samples -> trim s = s -> parses d s).
Proof.
  intros E. destruct (generate_sound _ _ _ _ _ _ E) as (Hl & Hm & _ & Hd & Hall).
  assert (forall s, s ∈ samples -> parses d (trim s)) as Hp by (intros s Hs id now; by apply Hall).
  split_and!; [done|done|by rewrite Hd at 1|done|]. intros s Hs Et. rewrite <- Et. by apply Hp.
Qed.

End Registry.

(** ** Witnesses *)

Module OnboarderDemo.
Import Demo.

#[export] Instance demo_text : UnicodeText := {|
  to_lowercase := to_ascii_lowercase;
  debug_strings := str_join ", "
|}.

(** An engine whose patterns match a line that begins with two addresses. *)
#[export] Instance address_engine : RegexEngine := {|
  re_compiles _ := true;
  re_matches _ text :=
    match split_whitespace text with
    | a :: b :: _ => if is_ip_addr a && is_ip_addr b
                     then [mkMatch 0 (String.length text) [Some text; Some a; Some b]] else []
    | _ => []
    end;
  re_names _ := [None; Some "src_ip"; Some "dst_ip"];
  re_escape s := s
|}.

Definition samples3 : list string := ["10.0.0.1 10.0.0.2 up"; " 10.0.0.3 10.0.0.4 down"; "10.0.0.5 2001:db8::1 up"].
Definition onboarded : ParserDefinition * ValidationReport :=
  match generate_parser "Acme" "cluster-7" samples3 9 with
  | Some (Ok r) => r
  | _ => (mkDef "" "" "" ∅ [] f64_zero 0, mkValidation false 0 0 f64_zero [])
  end.

Lemma onboarded_parser_sound_witness :
  3 <= length samples3 /\ vr_matched_samples onboarded.2 = length samples3 /\ pd_sample_logs onboarded.1 = samples3 /\
  (forall s, s ∈ samples3 -> parses onboarded.1 (trim s)) /\ (forall s, s ∈ samples3 -> trim s = s -> parses onboarded.1 s).
Proof. apply (onboarded_parser_sound "Acme" "cluster-7" samples3 9). vm_compute. reflexivity. Defined.

Definition small_def (model : string) : ParserDefinition := mkDef "Acme" model "^x$" ∅ [] f64_zero 0.
Definition full_registry : DynamicParserRegistry :=
  mkRegistry [("acme:a", mkRegEntry (small_def "a") None 4); ("acme:b", mkRegEntry (small_def "b") None 2)] 5 2.

Lemma register_evicts_least_used_witness :
  let '(key, r') := register full_registry (small_def "c") in
  bt_get key (parsers r') =
    Some (mkRegEntry (small_def "c") (if re_compiles (pd_regex_pattern (small_def "c")) then Some (pd_regex_pattern (small_def "c")) else None) (rg_clock r')) /\
  ((bt_get key (parsers full_registry) <> None \/ length (parsers full_registry) < rg_capacity full_registry) ->
     forall k, k <> key -> bt_get k (parsers r') = bt_get k (parsers full_registry)) /\
  (bt_get key (parsers full_registry) = None -> length (parsers full_registry) = rg_capacity full_registry ->
     exists ek ee, bt_get ek (parsers full_registry) = Some ee /\
       (forall k e, bt_get k (parsers full_registry) = Some e -> older (k, e) (ek, ee) = false) /\
       bt_get ek (parsers r') = None /\
       forall k, k <> key -> k <> ek -> bt_get k (parsers r') = bt_get k (parsers full_registry)).
Proof.
  apply (register_evicts_least_used full_registry (small_def "c")); [split; [repeat constructor|]|]; simpl; lia.
Defined.

(** In that registry the parser of model [b] goes. *)
Example evicted_b : (parsers (register full_registry (small_def "c")).2).*1 = ["acme:a"; "acme:c"].
Proof. vm_compute. reflexivity. Qed.

End OnboarderDemo.

(** The validation trims its samples and [parse] does not: with an engine whose
    patterns are anchored, a padded sample is counted as matched, and the parser
    refuses it. *)
Module PaddedDemo.
Import Demo.

#[local] Existing Instance OnboarderDemo.demo_text.

#[local] Instance anchored_engine : RegexEngine := {|
  re_compiles _ := true;
  re_matches _ text := if starts_with " " text then [] else @re_matches OnboarderDemo.address_engine "" text;
  re_names _ := [None; Some "src_ip"; Some "dst_ip"];
  re_escape s := s
|}.

Example padded_sample_refused :
  match generate_parser "Acme" "cluster-7" OnboarderDemo.samples3 9 with
  | Some (Ok (d, rep)) => (vr_matched_samples rep, result_ok (definition_parse d " 10.0.0.3 10.0.0.4 down" "id" 5))
  | _ => (0, None)
  end = (3, None).
Proof. vm_compute. reflexivity. Qed.

End PaddedDemo.
