(* ===== verification/PipelineFacts.v ===== *)
(** * What the pipeline guarantees

    Every line gets one event that carries it; the exemplar budget and the
    route counter agree with their maps; dynamic parsers never touch the lines
    of known formats. *)

From S2P Require Export Pipeline OnboarderFacts DrainFacts.

(** ** Counters *)

(** The exemplar keys that may still send. *)
Definition open_keys (counts : gmap Z Z) : gmap Z Z := filter (fun kv => (kv.2 < MAX_EXEMPLARS_PER_CLUSTER)%Z) counts.

Definition zsize {A} (m : gmap Z A) : Z := Z.of_nat (size m).

Lemma open_keys_insert_open counts k v : (v < MAX_EXEMPLARS_PER_CLUSTER)%Z ->
  open_keys (<[k := v]> counts) = <[k := v]> (open_keys counts).
Proof. intros Hv. unfold open_keys. by apply map_filter_insert_True. Qed.

Lemma open_keys_insert_closed counts k v : (MAX_EXEMPLARS_PER_CLUSTER <= v)%Z ->
  open_keys (<[k := v]> counts) = delete k (open_keys counts).
Proof.
  intros Hv. unfold open_keys. rewrite map_filter_insert_False by (simpl; lia). by rewrite map_filter_delete.
Qed.

Lemma zsize_insert {A} (m : gmap Z A) k v : zsize (<[k := v]> m) = (zsize m + match m !! k with Some _ => 0 | None => 1 end)%Z.
Proof. unfold zsize. rewrite map_size_insert. destruct (m !! k); simpl; lia. Qed.

Lemma zsize_delete {A} (m : gmap Z A) k : zsize (delete k m) = (zsize m - match m !! k with Some _ => 1 | None => 0 end)%Z.
Proof.
  unfold zsize. rewrite map_size_delete. destruct (m !! k) eqn:E; simpl; [|lia].
  assert (size m <> 0); [|lia]. intros Hz. apply map_size_empty_inv in Hz. subst. by rewrite lookup_empty in E.
Qed.

(** ** The invariant *)

Record pipe_inv (p : TieredPipeline) : Prop := {
  pi_cache : cache_inv (cache p);
  pi_registry : registry_inv (dynamic_registry p);
  pi_capacity : rg_capacity (dynamic_registry p) = REGISTRY_CAPACITY;
  pi_mappings : forall k e, bt_get k (parsers (dynamic_registry p)) = Some e -> mapping_ok (rg_parser e);
  pi_counts : map_Forall (fun _ n => (0 < n <= MAX_EXEMPLARS_PER_CLUSTER)%Z) (triage_dispatch_counts p);
  pi_open : exemplar_budget_open p = wrapu 64 (zsize (open_keys (triage_dispatch_counts p)));
  pi_routes : dynamic_routes_open p = wrapu 64 (zsize (dynamic_routes p));
  pi_channel : length (channel p) <= channel_capacity p;
  pi_buffers : map_Forall (fun _ b => length b <= 8) (buffers p)
}.

Lemma set_cache_inv p c : pipe_inv p -> cache_inv c -> pipe_inv (set_cache p c).
Proof. by intros [] ?; split. Qed.

Lemma set_counts_inv p a b c : pipe_inv p -> pipe_inv (set_counts p a b c).
Proof. by intros []; split. Qed.

Lemma set_drain_inv p d : pipe_inv p -> pipe_inv (set_drain p d).
Proof. by intros []; split. Qed.

Lemma set_registry_inv p r : pipe_inv p -> registry_inv r -> rg_capacity r = REGISTRY_CAPACITY ->
  (forall k e, bt_get k (parsers r) = Some e -> mapping_ok (rg_parser e)) -> pipe_inv (set_registry p r).
Proof. by intros [] ???; split. Qed.

Lemma install_route_inv p k key : pipe_inv p -> pipe_inv (install_route p k key).
Proof.
  intros []. split; simpl; try done. rewrite zsize_insert. destruct (dynamic_routes p !! k).
  - by rewrite Z.add_0_r.
  - rewrite pi_routes0. by wrap_simpl.
Qed.

Lemma drop_route_inv p k : pipe_inv p -> pipe_inv (drop_route p k).
Proof.
  intros I. unfold drop_route. destruct (dynamic_routes p !! k) eqn:E; [|done]. destruct I. split; simpl; try done.
  rewrite zsize_delete, E, pi_routes0. by wrap_simpl.
Qed.

(** The keys that are open after one more exemplar. *)
Lemma open_keys_step counts k n : map_Forall (fun _ n => (0 < n <= MAX_EXEMPLARS_PER_CLUSTER)%Z) counts ->
  default 0%Z (counts !! k) = n -> (n < MAX_EXEMPLARS_PER_CLUSTER)%Z ->
  (0 <= n)%Z /\ zsize (open_keys (<[k := (n + 1)%Z]> counts))
    = (zsize (open_keys counts) + (if n =? 0 then 1 else 0) - (if MAX_EXEMPLARS_PER_CLUSTER <=? n + 1 then 1 else 0))%Z.
Proof.
  intros Hc Hn Hlt. unfold MAX_EXEMPLARS_PER_CLUSTER in *.
  assert (open_keys counts !! k = counts !! k /\ (0 <= n)%Z /\ (counts !! k = None <-> n = 0%Z)) as (Ek & Hpos & H0).
  { unfold open_keys. destruct (counts !! k) as [x|] eqn:E; simpl in Hn; subst.
    - apply Hc in E as Hx. split; [by apply map_lookup_filter_Some|]. split; [lia|]. split; [done|lia].
    - split; [apply map_lookup_filter_None; by left|]. done. }
  split; [done|]. destruct (Z.leb_spec 8 (n + 1)).
  - rewrite open_keys_insert_closed, zsize_delete, Ek by (unfold MAX_EXEMPLARS_PER_CLUSTER; lia).
    destruct (Z.eqb_spec n 0); [lia|]. destruct (counts !! k); [lia|tauto].
  - rewrite open_keys_insert_open, zsize_insert, Ek by (unfold MAX_EXEMPLARS_PER_CLUSTER; lia).
    destruct (Z.eqb_spec n 0) as [E0|E0]; [rewrite (proj2 H0 E0); lia|]. destruct (counts !! k); [lia|tauto].
Qed.

(** The count of a key, and the counter of open keys, after one more exemplar. *)
Lemma budget_step p k n : pipe_inv p -> default 0%Z (triage_dispatch_counts p !! k) = n ->
  (n < MAX_EXEMPLARS_PER_CLUSTER)%Z ->
  let open1 := if (n =? 0)%Z then u64 (exemplar_budget_open p + 1) else exemplar_budget_open p in
  let open2 := if (MAX_EXEMPLARS_PER_CLUSTER <=? n + 1)%Z then u64 (open1 - 1) else open1 in
  pipe_inv (set_budget p (<[k := (n + 1)%Z]> (triage_dispatch_counts p)) open2).
Proof.
  intros I Hn Hlt open1 open2. destruct I as [? ? ? ? Hc Ho ? ? ?].
  destruct (open_keys_step _ k n Hc Hn Hlt) as [Hpos Hz].
  split; simpl; try done; [apply map_Forall_insert_2; [lia|done]|]. rewrite Hz. subst open2 open1.
  destruct (_ =? 0)%Z, (_ <=? n + 1)%Z; rewrite Ho; wrap_lia.
Qed.

Lemma set_channel_inv p ch : pipe_inv p -> length ch <= channel_capacity p -> pipe_inv (set_channel p ch).
Proof. by intros [] ?; split. Qed.

Lemma dispatch_inv p k template raw now : pipe_inv p -> pipe_inv (dispatch_triage_exemplar p k template raw now).
Proof.
  intros I. unfold dispatch_triage_exemplar. set (n := default 0%Z (triage_dispatch_counts p !! k)).
  destruct (Z.leb_spec MAX_EXEMPLARS_PER_CLUSTER n) as [Hle|Hlt].
  - assert (<[k := n]> (triage_dispatch_counts p) = triage_dispatch_counts p) as E.
    { apply insert_id. unfold n, MAX_EXEMPLARS_PER_CLUSTER in *. destruct (triage_dispatch_counts p !! k); simpl in *; [done|lia]. }
    unfold set_budget. rewrite E. by destruct I; split.
  - pose proof (budget_step p k n I eq_refl Hlt) as Ib. cbv zeta in Ib. apply set_counts_inv.
    match type of Ib with pipe_inv ?q => set (p1 := q) in * end.
    destruct (Nat.ltb_spec (length (channel p1)) (channel_capacity p1)); [|done].
    apply set_channel_inv; [done|]. rewrite length_app. simpl in *. lia.
Qed.

(** ** Dynamic events *)

Section Facts.
Context `{Sha256} `{HexLib} `{UnicodeLib} `{ChronoLib} `{RegexLib} `{JsonLib} `{AhoCorasick} `{RegexEngine} `{UnicodeText}.

Definition event_ok (raw : string) (a : NetworkActivity) : Prop := activity_wf a /\ carries raw a.

Lemma parse_with_regex_ok d re raw id now a : mapping_ok d -> parse_with_regex d re raw id now = Ok a -> event_ok raw a.
Proof.
  intros Hm. unfold parse_with_regex. destruct (re_captures_first re raw); [|done]. intros [= <-]. by apply dynamic_event_wf.
Qed.

Lemma entry_parse_ok (e : RegistryEntry) raw id now a : mapping_ok (rg_parser e) ->
  (re <-! rg_regex e; result_ok (parse_with_regex (rg_parser e) re raw id now)) = Some a -> event_ok raw a.
Proof.
  intros Hm. destruct (rg_regex e) as [re|]; [|done]. destruct (parse_with_regex _ _ _ _ _) eqn:E; [|done].
  intros [= <-]. by eapply parse_with_regex_ok.
Qed.

Lemma parse_first_ok l raw id now k a : Forall (fun p => mapping_ok (rg_parser p.2)) l ->
  parse_first raw id now l = Some (k, a) -> event_ok raw a.
Proof.
  induction l as [|[k' e] l IH]; simpl; [done|]. intros [Hm HF]%Forall_cons. simpl in Hm.
  destruct (re <-! rg_regex e; result_ok _) eqn:E; [intros [= <- <-]; by eapply entry_parse_ok|by apply IH].
Qed.

Lemma registry_forall r : registry_inv r ->
  (forall k e, bt_get k (parsers r) = Some e -> mapping_ok (rg_parser e)) ->
  Forall (fun p => mapping_ok (rg_parser p.2)) (parsers r).
Proof.
  intros [S _] Hm. apply Forall_forall. intros [k e] Hin. apply (Hm k). by apply (sorted_get _ (k, e)).
Qed.

Lemma touch_mappings r k now : (forall k e, bt_get k (parsers r) = Some e -> mapping_ok (rg_parser e)) ->
  forall k' e, bt_get k' (touch k now (parsers r)) = Some e -> mapping_ok (rg_parser e).
Proof.
  intros Hm k' e. rewrite touch_get. intros (e0 & E & ->)%fmap_Some. apply Hm in E. by destruct (String.eqb k k').
Qed.

Lemma parse_any_keyed_ok p raw id now : pipe_inv p ->
  pipe_inv (set_registry p (parse_any_keyed (dynamic_registry p) raw id now).2) /\
  forall k a, (parse_any_keyed (dynamic_registry p) raw id now).1 = Some (k, a) -> event_ok raw a.
Proof.
  intros I. pose proof I as [? Ir Ic Im ? ? ? ? ?]. split.
  - apply set_registry_inv; [done|by apply parse_any_keyed_inv| |].
    + rewrite <- Ic. unfold parse_any_keyed. by destruct (parse_first _ _ _ _) as [[? ?]|].
    + unfold parse_any_keyed. destruct (parse_first _ _ _ _) as [[k a]|]; simpl; [by apply touch_mappings|done].
  - intros k a. unfold parse_any_keyed. destruct (parse_first _ _ _ _) as [[k' a']|] eqn:E; simpl; [|done].
    intros [= <- <-]. eapply parse_first_ok; [|exact E]. by apply (registry_forall (dynamic_registry p)).
Qed.

Lemma parse_key_ok p key raw id now : pipe_inv p ->
  pipe_inv (set_registry p (parse_key (dynamic_registry p) key raw id now).2) /\
  forall a, (parse_key (dynamic_registry p) key raw id now).1 = Some a -> event_ok raw a.
Proof.
  intros I. pose proof I as [? Ir Ic Im ? ? ? ? ?]. split.
  - apply set_registry_inv; [done|by apply parse_key_inv| |].
    + rewrite <- Ic. unfold parse_key. by destruct (bt_get _ _).
    + unfold parse_key. destruct (bt_get key _); simpl; [by apply touch_mappings|done].
  - intros a. unfold parse_key. destruct (bt_get key _) as [e|] eqn:E; simpl; [|done]. apply Im in E. by apply entry_parse_ok.
Qed.

(** ** One line *)

Lemma parse_pinned_ok env p raw h : all_bytes is_ascii raw = true -> pipe_inv p ->
  exists a p', parse_pinned env p raw h = Some (a, p') /\ event_ok raw a /\ pipe_inv p'.
Proof.
  intros Hs I. destruct (parse_lossless_ascii (pv_lossless env) raw Hs) as [al El].
  pose proof (parse_lossless_ok _ _ _ El) as Wl. unfold parse_pinned. case_decide.
  - destruct (parse_any_keyed_ok p raw (pv_scan_id env) (pv_scan_ms env) I) as [I1 Hev].
    destruct (parse_any_keyed _ _ _ _) as [[[key a]|] r]; simpl in *.
    + eexists _, _. split; [reflexivity|]. split; [by eapply Hev|]. by apply install_route_inv.
    + rewrite El. eauto.
  - destruct (parse_with_format_ascii (pv_native env) raw (classify raw) Hs) as [[a|e] E]; rewrite E.
    + destruct (cache_insert_ok (cache p) h (classify raw) (pi_cache _ I)) as (c & -> & Ic & _).
      eexists _, _. split; [reflexivity|]. apply parse_with_format_ok in E as (W & C & _). split; [done|by apply set_cache_inv].
    + rewrite El. eauto.
Qed.

Lemma try_route_ok env p raw h : pipe_inv p ->
  pipe_inv (try_route env p raw h).2 /\ forall a, (try_route env p raw h).1 = Some a -> event_ok raw a.
Proof.
  intros I. unfold try_route. destruct (_ <? _)%Z; [|done]. destruct (dynamic_routes p !! h) as [key|]; [|done].
  case_decide; [|done]. destruct (parse_key_ok p key raw (pv_route_id env) (pv_route_ms env) I) as [I1 Hev].
  destruct (parse_key _ _ _ _ _) as [[a|] r]; simpl in *; [split; [done|by intros ? [= <-]; apply Hev]|].
  split; [by apply drop_route_inv|done].
Qed.

Lemma process_ok env p raw : all_bytes is_ascii raw = true -> pipe_inv p ->
  exists a p', process env p raw = Some (a, p') /\ event_ok raw a /\ pipe_inv p'.
Proof.
  intros Hs I. unfold process. set (h := compute_signature_hash raw).
  pose proof (set_counts_inv p (u64 (total_events p + 1)) (tier2_drain_hits p) (tier3_laya_dispatches p) I) as I0.
  set (p0 := set_counts _ _ _ _) in *. destruct (cache_get_ok (cache p0) h (pi_cache _ I0)) as (c & -> & Ic & _).
  pose proof (set_cache_inv p0 c I0 Ic) as I1. destruct (_ ≫= _) as [f|].
  - unfold pipeline_parse_with_format. destruct (parse_with_format_ascii (pv_native env) raw f Hs) as [[a|e] E]; rewrite E.
    + eexists _, _. split; [reflexivity|]. apply parse_with_format_ok in E as (W & C & _). split; [done|].
      destruct (_ <? _)%Z; [by apply dispatch_inv|done].
    + destruct (parse_lossless_ascii (pv_lossless env) raw Hs) as [al El]. rewrite El. eexists _, _. split; [reflexivity|].
      split; [by eapply parse_lossless_ok|]. destruct (_ <? _)%Z; [by apply dispatch_inv|done].
  - destruct (try_route_ok env (set_cache p0 c) raw h I1) as [I2 Hev].
    destruct (try_route env (set_cache p0 c) raw h) as [[a|] p1]; simpl in *; [eauto 10|].
    unfold mine_and_parse. destruct (drain_total (drain p1) (pv_drain_ms env) (pv_drain_latency env) raw) as (res & d & ->).
    apply parse_pinned_ok; [done|]. apply dispatch_inv. destruct (cr_is_new res); [|apply set_counts_inv]; by apply set_drain_inv.
Qed.

(** ** The worker *)

Lemma set_worker_inv p a b c bufs : pipe_inv p -> map_Forall (fun _ b => length b <= 8) bufs -> pipe_inv (set_worker p a b c bufs).
Proof. by intros [] ?; split. Qed.

Lemma generate_parser_some vendor model samples created : exists r, generate_parser vendor model samples created = Some r.
Proof.
  unfold generate_parser. destruct (Nat.ltb_spec (length samples) 3); [eauto|]. destruct samples as [|s samples]; [simpl in *; lia|].
  cbn [head]. destruct (synthesize_regex s (s :: samples)); cbn [xbind]; [|eauto].
  match goal with |- context [validate_parser ?d ?l] => destruct (validate_parser d l) end; cbn [xbind]; eauto.
Qed.

Lemma generate_parser_mapping vendor model samples created d rep :
  generate_parser vendor model samples created = Some (Ok (d, rep)) -> mapping_ok d.
Proof.
  unfold generate_parser. destruct (_ <? _)%nat; [done|]. destruct (head samples) as [first|]; [|done].
  destruct (synthesize_regex first samples); cbn [xbind]; [|done].
  match goal with |- context [validate_parser ?d0 ?l] => destruct (validate_parser d0 l) as [rep0|] end; cbn [xbind]; [|done].
  destruct (vr_passed rep0); [|done]. intros [= <- _]. apply infer_mapping_ok.
Qed.

Lemma register_registry_inv p d : pipe_inv p -> mapping_ok d -> pipe_inv (set_registry p (register (dynamic_registry p) d).2).
Proof.
  intros I Hd. pose proof I as [? Ir Ic Im ? ? ? ? ?].
  destruct (register_inv (dynamic_registry p) d) as [Ir' Ic']; [rewrite Ic; unfold REGISTRY_CAPACITY; lia|done|].
  apply set_registry_inv; [done|done|congruence|]. intros k e. unfold register. simpl. rewrite bt_insert_get.
  destruct (String.eqb _ _); [by intros [= <-]|]. destruct (negb _ && _); [|apply Im].
  destruct (min_entry _) as [[ek ee]|]; [|apply Im]. rewrite bt_remove_get. destruct (String.eqb _ _); [done|apply Im].
Qed.

Context `{LibM}.

Lemma worker_step_ok priors created p : pipe_inv p -> channel p <> [] ->
  exists p', worker_step priors created p = Some p' /\ pipe_inv p'.
Proof.
  intros I Hne. unfold worker_step. destruct (channel p) as [|task rest] eqn:Ech; [done|].
  assert (pipe_inv (set_channel p rest)) as I0.
  { apply set_channel_inv; [done|]. pose proof (pi_channel _ I) as Hc. rewrite Ech in Hc. simpl in Hc. lia. }
  set (af := if f64_le _ _ then _ else _). set (tf := if f64_le _ (sc_score _) then _ else _).
  assert (pipe_inv (set_worker (set_channel p rest) (tier3_laya_onboarded (set_channel p rest)) af tf (buffers (set_channel p rest)))) as I1
    by (apply set_worker_inv; [done|apply (pi_buffers _ I)]).
  set (p1 := set_worker _ _ _ _ _) in *. destruct (f64_lt _ _); [eauto|].
  set (key := tk_cluster_id task). set (buf0 := default [] (buffers p1 !! key)).
  set (buf := if (length buf0 <? _)%nat then _ else _).
  assert (length buf <= 8) as Hbuf.
  { assert (length buf0 <= 8) as Hb0.
    { unfold buf0. destruct (buffers p1 !! key) eqn:E; simpl; [|lia]. by apply (pi_buffers _ I1) in E. }
    unfold buf. change (Z.to_nat MAX_EXEMPLARS_PER_CLUSTER) with 8. destruct (Nat.ltb_spec (length buf0) 8); [|done].
    rewrite length_app. simpl in *. lia. }
  assert (map_Forall (fun _ b => length b <= 8) (<[key := buf]> (buffers p1))) as Hk
    by (apply map_Forall_insert_2; [done|apply (pi_buffers _ I1)]).
  assert (map_Forall (fun _ b => length b <= 8) (delete key (<[key := buf]> (buffers p1)))) as Hd by (by apply map_Forall_delete).
  destruct (length buf <? ONBOARD_MIN_SAMPLES)%nat; [eexists; split; [reflexivity|]; by apply set_worker_inv|].
  destruct (generate_parser_some (ch_label (classify_vendor (laya_new priors) (tk_sample_log task))) ("cluster-" +:+ pretty (Z.to_N key)) buf created)
    as [[[d rep]|e] E]; rewrite E.
  - destruct (vr_passed rep && _).
    + apply generate_parser_mapping in E. pose proof (register_registry_inv p1 d I1 E) as Ir.
      destruct (register (dynamic_registry p1) d) as [rkey r]. eexists. split; [reflexivity|].
      apply set_worker_inv; [by apply install_route_inv|done].
    + eexists. split; [reflexivity|]. apply set_worker_inv; [done|]. by destruct (_ <=? _)%nat.
  - eexists. split; [reflexivity|]. apply set_worker_inv; [done|]. by destruct (_ <=? _)%nat.
Qed.

(** ** Runs *)

(** A line that a caller processes, or a turn of the worker, which waits while
    the channel is empty. *)
Inductive PipeOp := Line (env : PipeEnv) (raw : string) | Work (priors : list (string * list string)) (created_at : Z).

Fixpoint pipe_run (ops : list PipeOp) (p : TieredPipeline) : option (list NetworkActivity * TieredPipeline) :=
  match ops with
  | [] => Some ([], p)
  | Line env raw :: ops' =>
      match process env p raw with
      | None => None
      | Some (a, p1) => match pipe_run ops' p1 with None => None | Some (l, p2) => Some (a :: l, p2) end
      end
  | Work priors created :: ops' =>
      if is_nil_list (channel p) then pipe_run ops' p
      else match worker_step priors created p with None => None | Some p1 => pipe_run ops' p1 end
  end.

Definition lines_of_run (ops : list PipeOp) : list string :=
  omap (fun op => match op with Line _ raw => Some raw | Work _ _ => None end) ops.

Lemma pipe_run_ok ops : forall p, Forall (fun l => all_bytes is_ascii l = true) (lines_of_run ops) -> pipe_inv p ->
  exists l p', pipe_run ops p = Some (l, p') /\ Forall2 event_ok (lines_of_run ops) l /\ pipe_inv p'.
Proof.
  induction ops as [|[env raw|priors created] ops IH]; intros p HF I.
  - exists [], p. by split_and!.
  - change (lines_of_run (Line env raw :: ops)) with (raw :: lines_of_run ops) in *. apply Forall_cons in HF as [Hr HF]. simpl.
    destruct (process_ok env p raw Hr I) as (a & p1 & -> & Ha & I1). destruct (IH p1 HF I1) as (l & p2 & -> & Hl & I2).
    eexists _, _. split; [reflexivity|]. split; [by constructor|done].
  - change (lines_of_run (Work priors created :: ops)) with (lines_of_run ops) in *. simpl.
    destruct (is_nil_list (channel p)) eqn:E; [by apply IH|].
    destruct (worker_step_ok priors created p I) as (p1 & -> & I1); [by destruct (channel p)|]. by apply IH.
Qed.

Lemma pipeline_new_inv c cap : cache_inv c -> pipe_inv (with_ring_buffer_capacity c cap).
Proof.
  intros Ic. split; simpl; try done; try lia; try apply map_Forall_empty.
  split; simpl; [constructor|lia].
Qed.

(** The pipeline loses no line: in every interleaving of lines and turns of
    the triage worker, each ASCII line gets exactly one event, in order, which
    is well-formed and carries the line and its digest, whichever of the
    cache, a promoted route, the native extractors, the registry or the
    lossless fallback made it; and the worker never panics. *)
Theorem pipeline_lossless n cap c ring ops : with_capacity n cap = Some c ->
  Forall (fun l => all_bytes is_ascii l = true) (lines_of_run ops) ->
  exists l p, pipe_run ops (with_ring_buffer_capacity c ring) = Some (l, p) /\
    Forall2 (fun raw a => activity_wf a /\ carries raw a) (lines_of_run ops) l.
Proof.
  intros Hc HF. destruct (pipe_run_ok ops _ HF (pipeline_new_inv c ring (with_capacity_inv _ _ _ Hc))) as (l & p & E & Hl & _).
  eauto.
Qed.

(** The books of the pipeline balance: after every such run no exemplar key
    was dispatched more than eight times, the counter that gates the fast path
    is the number of keys with budget left and the counter that gates the
    routes is the number of routes (modulo 2^64), the channel and the worker's
    buffers are within their bounds, and at most 256 parsers are registered. *)
Theorem pipeline_books n cap c ring ops l p : with_capacity n cap = Some c ->
  Forall (fun l => all_bytes is_ascii l = true) (lines_of_run ops) ->
  pipe_run ops (with_ring_buffer_capacity c ring) = Some (l, p) ->
  (forall k x, triage_dispatch_counts p !! k = Some x -> (0 < x <= 8)%Z) /\
  exemplar_budget_open p = wrapu 64 (zsize (open_keys (triage_dispatch_counts p))) /\
  dynamic_routes_open p = wrapu 64 (zsize (dynamic_routes p)) /\
  length (channel p) <= channel_capacity p /\
  (forall k b, buffers p !! k = Some b -> length b <= 8) /\
  length (parsers (dynamic_registry p)) <= 256.
Proof.
  intros Hc HF E.
  destruct (pipe_run_ok ops _ HF (pipeline_new_inv c ring (with_capacity_inv _ _ _ Hc))) as (l' & p' & E' & _ & I). simplify_eq.
  destruct I as [? [? Hb] Hcap ? Hcounts ? ? ? Hbuf]. rewrite Hcap in Hb. split_and!; try done.
Qed.

(** ** Native formats *)

Lemma dispatch_cache p k t raw now : cache (dispatch_triage_exemplar p k t raw now) = cache p.
Proof. unfold dispatch_triage_exemplar. destruct (_ <=? _)%Z; [done|]. simpl. by destruct (_ <? _)%nat. Qed.

Lemma parse_pinned_native env p raw h : classify raw <> UnknownFormat ->
  fst <$> parse_pinned env p raw h =
    (r <-! parse_with_format (pv_native env) raw (classify raw);
     match r with
     | Ok a => if cache_insert (cache p) h (classify raw) then Some a else None
     | Err _ => parse_lossless (pv_lossless env) raw
     end).
Proof.
  intros Hf. unfold parse_pinned. rewrite decide_False by done. destruct (parse_with_format _ _ _) as [[a|e]|]; [| |done].
  - by destruct (cache_insert _ _ _).
  - by destruct (parse_lossless _ _).
Qed.

Lemma process_native env p raw : classify raw <> UnknownFormat -> forall r routes open,
  fst <$> process env (set_routes (set_registry p r) routes open) raw = fst <$> process env p raw.
Proof.
  intros Hf r routes open. unfold process. simpl. destruct (cache_get (cache p) _) as [[[f|] c]|]; [| |done].
  - by destruct (pipeline_parse_with_format env raw f).
  - set (h := compute_signature_hash raw).
    assert (forall q, try_route env q raw h = (None, q)) as Hr.
    { intros q. unfold try_route. destruct (_ <? _)%Z; [|done]. destruct (dynamic_routes q !! h); [|done].
      by rewrite decide_False. }
    rewrite !Hr. unfold mine_and_parse. simpl. destruct (add_log _ _ _ _) as [[res d]|]; [|done].
    rewrite !parse_pinned_native, !dispatch_cache by done. by destruct (cr_is_new res).
Qed.

(** Native formats are never hijacked: the event of a line that the
    classifier recognizes is the same whatever parsers are registered and
    whatever routes are installed. *)
Theorem native_never_hijacked env p raw : classify raw <> UnknownFormat -> forall r routes open,
  fst <$> process env (set_routes (set_registry p r) routes open) raw = fst <$> process env p raw.
Proof. apply process_native. Qed.

End Facts.

(** ** Witnesses *)

Module PipelineDemo.
Import Demo TokenDemo ParserDemo OnboarderDemo.

#[export] Instance demo_libm : LibM := {| f64_exp x := f64_add (f64_of_Z 1) (f64_mul x x) |}.

Definition penv : PipeEnv := mkPipeEnv env0 env0 "r" 1 "s" 2 3 4 5.

(** Lines of a format that no extractor knows, with turns of the worker between
    them, and a FortiGate line: the third one is enough to onboard a parser, and
    the fourth goes through the route. *)
Definition demo_ops : list PipeOp :=
  [Line penv "10.0.0.1 10.0.0.2 RT_FLOW: session created one"; Work action_token_priors 1;
   Line penv "10.0.0.1 10.0.0.2 RT_FLOW: session created two"; Work action_token_priors 2;
   Line penv fortinet_line;
   Line penv "10.0.0.1 10.0.0.2 RT_FLOW: session created three"; Work action_token_priors 3; Work action_token_priors 4;
   Line penv "10.0.0.1 10.0.0.2 RT_FLOW: session created four"].

Lemma pipeline_lossless_witness :
  exists l p, pipe_run demo_ops (with_ring_buffer_capacity cache16 4) = Some (l, p) /\
    Forall2 (fun raw a => activity_wf a /\ carries raw a) (lines_of_run demo_ops) l.
Proof. apply (pipeline_lossless 16 512 cache16 4 demo_ops); [exact cache16_ok|repeat constructor]. Defined.

Definition demo_run : list NetworkActivity * TieredPipeline :=
  default ([], with_ring_buffer_capacity cache16 4) (pipe_run demo_ops (with_ring_buffer_capacity cache16 4)).

Lemma pipeline_books_witness : let p := demo_run.2 in
  (forall k x, triage_dispatch_counts p !! k = Some x -> (0 < x <= 8)%Z) /\
  exemplar_budget_open p = wrapu 64 (zsize (open_keys (triage_dispatch_counts p))) /\
  dynamic_routes_open p = wrapu 64 (zsize (dynamic_routes p)) /\
  length (channel p) <= channel_capacity p /\
  (forall k b, buffers p !! k = Some b -> length b <= 8) /\
  length (parsers (dynamic_registry p)) <= 256.
Proof.
  apply (pipeline_books 16 512 cache16 4 demo_ops demo_run.1); [exact cache16_ok|repeat constructor|].
  vm_compute. reflexivity.
Defined.

Lemma native_never_hijacked_witness :
  fst <$> process penv (set_routes (set_registry (with_ring_buffer_capacity cache16 4) full_registry) {[ 7%Z := "acme:a" ]} 1) fortinet_line
  = fst <$> process penv (with_ring_buffer_capacity cache16 4) fortinet_line.
Proof. apply (native_never_hijacked penv (with_ring_buffer_capacity cache16 4) fortinet_line). vm_compute. discriminate. Defined.

(** One parser is onboarded and one route installed; the first event of the
    unknown format is unparsed, the last one is from the new parser. *)
Example demo_stats : (tier3_laya_onboarded demo_run.2, zsize (dynamic_routes demo_run.2),
    (fun a => pr_vendor_name (md_product (na_metadata a))) <$> demo_run.1)
  = (1%Z, 1%Z, ["Unknown"; "Unknown"; "Fortinet"; "Unknown"; "juniper_srx"]).
Proof. vm_compute. reflexivity. Qed.

End PipelineDemo.
