(* ===== verification/Threads.v ===== *)
(** * The pipeline under many threads ([crates/ulpf-ai/src/pipeline.rs])

    [TieredPipeline] is shared: any number of threads call [process] while the
    triage worker runs.  Here a call is a program counter; a step is what a thread
    does between two points where another can act: one load or update of an
    atomic, one critical section of one mutex, one operation of the cache or of
    the channel.  Work on local data is part of the step after it.  The counter
    of routes is updated while their lock is held, when no other thread sees the
    map, so map and counter change in one step.

    [lock().unwrap()] and the [Err] arms of [lock()] differ only after a panic
    inside a critical section; the operations made there are total. *)

From S2P Require Export Pipeline.

(** What follows the dispatch of an exemplar. *)
Inductive After := ThenFormat (format : VendorFormat) | ThenPinned.

Inductive CallPc :=
| AtEnter                                                  (** [total_events.fetch_add] *)
| AtLookup                                                 (** [cache.get] *)
| AtFastGate (format : VendorFormat)                       (** [exemplar_budget_open.load] *)
| AtCount (template : string) (k : After)                  (** [triage_dispatch_counts.lock] *)
| AtOpen (closes : bool) (template : string) (k : After)   (** [exemplar_budget_open.fetch_add] *)
| AtClose (template : string) (k : After)                  (** [exemplar_budget_open.fetch_sub] *)
| AtSend (template : string) (k : After)                   (** [laya_sender.try_send] *)
| AtTally (k : After)                                      (** [tier3_laya_dispatches.fetch_add] *)
| AtFormat (format : VendorFormat)                         (** [parse_with_format] *)
| AtRouteGate                                              (** [dynamic_routes_open.load] *)
| AtRouteGet                                               (** [dynamic_routes.lock], to read *)
| AtRouteParse (key : string)                              (** [dynamic_registry.lock], [parse_key] *)
| AtRouteDrop                                              (** [dynamic_routes.lock], to remove *)
| AtMine                                                   (** [drain.lock] *)
| AtHit (template : string)                                (** [tier2_drain_hits.fetch_add] *)
| AtPinned                                                 (** native parse, or the scan of the registry *)
| AtPromote (format : VendorFormat) (a : NetworkActivity)  (** [cache.insert] *)
| AtInstall (key : string) (a : NetworkActivity)           (** [dynamic_routes.lock], to insert *)
| AtLossless                                               (** [parse_lossless] *)
| Returned (a : NetworkActivity)
| CallPanicked.

Definition then_pc (k : After) : CallPc := match k with ThenFormat f => AtFormat f | ThenPinned => AtPinned end.

(** The critical section of [dispatch_triage_exemplar], and where it leads. *)
Definition count_exemplar (p : TieredPipeline) (key : Z) (template : string) (k : After) : CallPc * TieredPipeline :=
  let entry := default 0%Z (triage_dispatch_counts p !! key) in
  if (MAX_EXEMPLARS_PER_CLUSTER <=? entry)%Z
  then (then_pc k, set_budget p (<[key := entry]> (triage_dispatch_counts p)) (exemplar_budget_open p))
  else
    let entry' := (entry + 1)%Z in
    let closed := (MAX_EXEMPLARS_PER_CLUSTER <=? entry')%Z in
    ((if (entry =? 0)%Z then AtOpen closed template k else if closed then AtClose template k else AtSend template k),
     set_budget p (<[key := entry']> (triage_dispatch_counts p)) (exemplar_budget_open p)).

Section Threads.
Context `{Sha256} `{HexLib} `{UnicodeLib} `{ChronoLib} `{RegexLib} `{JsonLib} `{AhoCorasick} `{RegexEngine} `{UnicodeText}.

(** One step of a call of [process(raw)]; [None] when it has returned. *)
Definition call_step (env : PipeEnv) (raw : string) (pc : CallPc) (p : TieredPipeline) : option (CallPc * TieredPipeline) :=
  let sig_hash := compute_signature_hash raw in
  match pc with
  | AtEnter => Some (AtLookup, set_counts p (u64 (total_events p + 1)) (tier2_drain_hits p) (tier3_laya_dispatches p))
  | AtLookup =>
      Some match cache_get (cache p) sig_hash with
           | None => (CallPanicked, p)
           | Some (Some format, c) => (AtFastGate format, set_cache p c)
           | Some (None, c) => (AtRouteGate, set_cache p c)
           end
  | AtFastGate format =>
      Some (if (0 <? exemplar_budget_open p)%Z then AtCount "" (ThenFormat format) else AtFormat format, p)
  | AtCount template k => Some (count_exemplar p sig_hash template k)
  | AtOpen closes template k =>
      Some (if closes then AtClose template k else AtSend template k,
            set_budget p (triage_dispatch_counts p) (u64 (exemplar_budget_open p + 1)))
  | AtClose template k =>
      Some (AtSend template k, set_budget p (triage_dispatch_counts p) (u64 (exemplar_budget_open p - 1)))
  | AtSend template k =>
      let task := mkTask sig_hash template raw (pv_task_ms env) in
      Some (AtTally k, if (length (channel p) <? channel_capacity p)%nat then set_channel p (channel p ++ [task]) else p)
  | AtTally k => Some (then_pc k, set_counts p (total_events p) (tier2_drain_hits p) (u64 (tier3_laya_dispatches p + 1)))
  | AtFormat format =>
      Some match parse_with_format (pv_native env) raw format with
           | None => (CallPanicked, p)
           | Some (Ok a) => (Returned a, p)
           | Some (Err _) => (AtLossless, p)
           end
  | AtRouteGate => Some (if (0 <? dynamic_routes_open p)%Z then AtRouteGet else AtMine, p)
  | AtRouteGet =>
      Some (match dynamic_routes p !! sig_hash with
            | Some key => if decide (classify raw = UnknownFormat) then AtRouteParse key else AtMine
            | None => AtMine
            end, p)
  | AtRouteParse key =>
      Some match parse_key (dynamic_registry p) key raw (pv_route_id env) (pv_route_ms env) with
           | (Some a, r) => (Returned a, set_registry p r)
           | (None, r) => (AtRouteDrop, set_registry p r)
           end
  | AtRouteDrop => Some (AtMine, drop_route p sig_hash)
  | AtMine =>
      Some match add_log (drain p) (pv_drain_ms env) (pv_drain_latency env) raw with
           | None => (CallPanicked, p)
           | Some (res, d) => (if cr_is_new res then AtCount (cr_template res) ThenPinned else AtHit (cr_template res), set_drain p d)
           end
  | AtHit template =>
      Some (AtCount template ThenPinned, set_counts p (total_events p) (u64 (tier2_drain_hits p + 1)) (tier3_laya_dispatches p))
  | AtPinned =>
      let format := classify raw in
      Some (if decide (format = UnknownFormat)
            then match parse_any_keyed (dynamic_registry p) raw (pv_scan_id env) (pv_scan_ms env) with
                 | (Some (key, a), r) => (AtInstall key a, set_registry p r)
                 | (None, r) => (AtLossless, set_registry p r)
                 end
            else match parse_with_format (pv_native env) raw format with
                 | None => (CallPanicked, p)
                 | Some (Ok a) => (AtPromote format a, p)
                 | Some (Err _) => (AtLossless, p)
                 end)
  | AtPromote format a =>
      Some match cache_insert (cache p) sig_hash format with
           | None => (CallPanicked, p)
           | Some c => (Returned a, set_cache p c)
           end
  | AtInstall key a => Some (Returned a, install_route p sig_hash key)
  | AtLossless =>
      Some match parse_lossless (pv_lossless env) raw with None => (CallPanicked, p) | Some a => (Returned a, p) end
  | Returned _ | CallPanicked => None
  end.

(** A call that no other thread disturbs, for [n] steps. *)
Fixpoint alone (env : PipeEnv) (raw : string) (n : nat) (pc : CallPc) (p : TieredPipeline) : CallPc * TieredPipeline :=
  match n with
  | O => (pc, p)
  | S n' => match call_step env raw pc p with None => (pc, p) | Some (pc1, p1) => alone env raw n' pc1 p1 end
  end.

(** ** The worker *)

Context `{LibM}.

Inductive WorkerPc :=
| AtRecv                                    (** [receiver.recv] *)
| AtAction (task : AsyncTriageTask)         (** [action_flags.fetch_add] *)
| AtThreat (task : AsyncTriageTask)         (** [threat_flags.fetch_add] *)
| AtTriage (task : AsyncTriageTask)         (** buffers and synthesis; [registry.lock], [register] *)
| AtRoute (key : Z) (rkey : string)         (** [routes.lock], to insert *)
| AtOnboarded (key : Z)                     (** [onboarded.fetch_add] *)
| WorkerPanicked.

(** One step of the worker; [None] while it waits for a task.  [priors] is the
    order of the engine's action map, [created_at] the clock of the onboarder. *)
Definition work_step (priors : list (string * list string)) (created_at : Z) (pc : WorkerPc) (p : TieredPipeline)
  : option (WorkerPc * TieredPipeline) :=
  let laya := laya_new priors in
  match pc with
  | AtRecv => match channel p with [] => None | task :: rest => Some (AtAction task, set_channel p rest) end
  | AtAction task =>
      let flag := f64_le (f64_lit 85 100) (ch_probability (classify_action laya (tk_sample_log task))) in
      Some (AtThreat task, set_worker p (tier3_laya_onboarded p)
              (if flag then u64 (laya_action_flags p + 1) else laya_action_flags p) (laya_threat_flags p) (buffers p))
  | AtThreat task =>
      let flag := f64_le (f64_lit 50 100) (sc_score (score_threat_risk laya (tk_sample_log task))) in
      Some (AtTriage task, set_worker p (tier3_laya_onboarded p) (laya_action_flags p)
              (if flag then u64 (laya_threat_flags p + 1) else laya_threat_flags p) (buffers p))
  | AtTriage task =>
      let vendor := classify_vendor laya (tk_sample_log task) in
      let set_buffers b := set_worker p (tier3_laya_onboarded p) (laya_action_flags p) (laya_threat_flags p) b in
      if f64_lt (ch_probability vendor) (f64_lit 85 100) then Some (AtRecv, p)
      else
        let key := tk_cluster_id task in
        let buf0 := default [] (buffers p !! key) in
        let buf := if (length buf0 <? Z.to_nat MAX_EXEMPLARS_PER_CLUSTER)%nat then buf0 ++ [tk_sample_log task] else buf0 in
        let keep := <[key := buf]> (buffers p) in
        if (length buf <? ONBOARD_MIN_SAMPLES)%nat then Some (AtRecv, set_buffers keep)
        else
          let abandoned := if (Z.to_nat MAX_EXEMPLARS_PER_CLUSTER <=? length buf)%nat then delete key keep else keep in
          match generate_parser (ch_label vendor) ("cluster-" +:+ pretty (Z.to_N key)) buf created_at with
          | None => Some (WorkerPanicked, p)
          | Some (Err _) => Some (AtRecv, set_buffers abandoned)
          | Some (Ok (def, report)) =>
              if vr_passed report && f64_eq (vr_match_percentage report) (f64_of_Z 100)
              then let '(rkey, r) := register (dynamic_registry p) def in Some (AtRoute key rkey, set_registry (set_buffers keep) r)
              else Some (AtRecv, set_buffers abandoned)
          end
  | AtRoute key rkey => Some (AtOnboarded key, install_route p key rkey)
  | AtOnboarded key =>
      Some (AtRecv, set_worker p (u64 (tier3_laya_onboarded p + 1)) (laya_action_flags p) (laya_threat_flags p)
              (delete key (buffers p)))
  | WorkerPanicked => None
  end.

(** A turn of the worker that no call disturbs: from the receipt of a task to the
    next. *)
Fixpoint work_alone (priors : list (string * list string)) (created_at : Z) (n : nat) (pc : WorkerPc) (p : TieredPipeline)
  : option (WorkerPc * TieredPipeline) :=
  match n with
  | O => None
  | S n' =>
      match work_step priors created_at pc p with
      | None => None
      | Some (AtRecv, p1) => Some (AtRecv, p1)
      | Some (WorkerPanicked, p1) => Some (WorkerPanicked, p1)
      | Some (pc1, p1) => work_alone priors created_at n' pc1 p1
      end
  end.

(** ** Interleavings *)

Record Call := mkCall { cl_env : PipeEnv; cl_raw : string; cl_pc : CallPc }.

(** The pipeline, the calls made so far and the worker. *)
Record Threads := mkThreads { ts_pipe : TieredPipeline; ts_calls : list Call; ts_worker : WorkerPc }.

Inductive ThreadAction :=
| BeginCall (env : PipeEnv) (raw : string)
| StepCall (t : nat)
| StepWorker (priors : list (string * list string)) (created_at : Z).

Definition threads_new (p : TieredPipeline) : Threads := mkThreads p [] AtRecv.

Definition threads_exec (a : ThreadAction) (s : Threads) : option Threads :=
  match a with
  | BeginCall env raw => Some (mkThreads (ts_pipe s) (ts_calls s ++ [mkCall env raw AtEnter]) (ts_worker s))
  | StepCall t =>
      c <-! ts_calls s !! t;
      match call_step (cl_env c) (cl_raw c) (cl_pc c) (ts_pipe s) with
      | None => None
      | Some (pc, p) => Some (mkThreads p (<[t := mkCall (cl_env c) (cl_raw c) pc]> (ts_calls s)) (ts_worker s))
      end
  | StepWorker priors created_at =>
      match work_step priors created_at (ts_worker s) (ts_pipe s) with
      | None => None
      | Some (pc, p) => Some (mkThreads p (ts_calls s) pc)
      end
  end.

Fixpoint threads_run (acts : list ThreadAction) (s : Threads) : option Threads :=
  match acts with
  | [] => Some s
  | a :: acts' => s1 <-! threads_exec a s; threads_run acts' s1
  end.

End Threads.
