(* ===== verification/ThreadsFacts.v ===== *)
(** * What the pipeline guarantees under any interleaving

    Calls of [process] from any number of threads and the triage worker, mixed at
    every lock and atomic: no call panics or waits for ever, every call returns an
    event of its own line, dynamic parsers never touch lines of known formats,
    and the counters agree with the maps up to the updates still under way. *)

From S2P Require Import Threads PipelineFacts.

(** ** A bound on the steps of a call *)

Definition rank (pc : CallPc) : nat :=
  match pc with
  | AtEnter => 15 | AtLookup => 14 | AtFastGate _ => 13
  | AtRouteGate => 13 | AtRouteGet => 12 | AtRouteParse _ => 11 | AtRouteDrop => 10 | AtMine => 9 | AtHit _ => 8
  | AtCount _ _ => 7 | AtOpen _ _ _ => 6 | AtClose _ _ => 5 | AtSend _ _ => 4 | AtTally _ => 3
  | AtFormat _ | AtPinned => 2 | AtPromote _ _ | AtInstall _ _ | AtLossless => 1
  | Returned _ | CallPanicked => 0
  end.

Lemma rank_then k : rank (then_pc k) = 2.
Proof. by destruct k. Qed.

Lemma count_exemplar_rank p key template k : rank (count_exemplar p key template k).1 < 7.
Proof. unfold count_exemplar. repeat case_match; simpl; rewrite ?rank_then; lia. Qed.

Section Alone.
Context `{Sha256} `{HexLib} `{UnicodeLib} `{ChronoLib} `{RegexLib} `{JsonLib} `{AhoCorasick} `{RegexEngine} `{UnicodeText}.
Context (env : PipeEnv) (raw : string).

Lemma call_step_rank pc p pc' p' : call_step env raw pc p = Some (pc', p') -> rank pc' < rank pc.
Proof.
  destruct pc; cbn [call_step]; try done.
  4: { intros [= E]. pose proof (count_exemplar_rank p (compute_signature_hash raw) template k) as Hr. rewrite E in Hr. exact Hr. }
  all: intros; simplify_eq/=; repeat (case_match; simplify_eq/=); rewrite ?rank_then; simpl; lia.
Qed.

Lemma call_step_done pc p : call_step env raw pc p = None <-> rank pc = 0.
Proof. destruct pc; simpl; split; try done. Qed.

(** Where a call ends that is left alone. *)
Definition ends (pc : CallPc) (p : TieredPipeline) : CallPc * TieredPipeline := alone env raw (rank pc) pc p.

Lemma alone_enough n : forall pc p, rank pc <= n -> alone env raw n pc p = ends pc p.
Proof.
  unfold ends. induction n as [n IH] using lt_wf_ind. intros pc p Hn.
  destruct (call_step env raw pc p) as [[pc1 p1]|] eqn:E.
  - pose proof (call_step_rank _ _ _ _ E) as Hr. destruct n as [|n]; [lia|]. destruct (rank pc) as [|m] eqn:Em; [lia|].
    simpl. rewrite E. rewrite (IH n) by lia. destruct (decide (m < S n)); [by rewrite (IH m) by lia|lia].
  - apply call_step_done in E as E0. rewrite E0. destruct n; simpl; [done|]. by rewrite E.
Qed.

Lemma ends_step pc p pc1 p1 : call_step env raw pc p = Some (pc1, p1) -> ends pc p = ends pc1 p1.
Proof.
  intros E. pose proof (call_step_rank _ _ _ _ E). unfold ends at 1. destruct (rank pc) as [|m] eqn:Em; [lia|].
  simpl. rewrite E. apply alone_enough. lia.
Qed.

(** The call ends with the result of a function of the state. *)
Definition ends_as (pc : CallPc) (p : TieredPipeline) (o : option (NetworkActivity * TieredPipeline)) : Prop :=
  match o with Some (a, p') => ends pc p = (Returned a, p') | None => (ends pc p).1 = CallPanicked end.

Lemma ends_as_step pc p x o : call_step env raw pc p = Some x -> ends_as x.1 x.2 o -> ends_as pc p o.
Proof. destruct x. intros E. unfold ends_as. by rewrite (ends_step _ _ _ _ E). Qed.

Ltac step := eapply ends_as_step; [reflexivity|]; cbn [fst snd].

Lemma lossless_alone p : ends_as AtLossless p (a <-! parse_lossless (pv_lossless env) raw; Some (a, p)).
Proof. step. by destruct (parse_lossless _ raw). Qed.

Lemma pinned_alone p : ends_as AtPinned p (parse_pinned env p raw (compute_signature_hash raw)).
Proof.
  step. unfold parse_pinned. case_decide.
  - destruct (parse_any_keyed _ _ _ _) as [[[key a]|] r]; [|apply lossless_alone]. by step.
  - destruct (parse_with_format _ _ _) as [[a|e]|]; [|apply lossless_alone|done].
    step. by destruct (cache_insert _ _ _).
Qed.

Lemma format_alone format p : ends_as (AtFormat format) p (a <-! pipeline_parse_with_format env raw format; Some (a, p)).
Proof.
  step. unfold pipeline_parse_with_format.
  destruct (parse_with_format _ _ _) as [[a|e]|]; [done|apply lossless_alone|done].
Qed.

Lemma dispatch_alone template k p o :
  ends_as (then_pc k) (dispatch_triage_exemplar p (compute_signature_hash raw) template raw (pv_task_ms env)) o ->
  ends_as (AtCount template k) p o.
Proof.
  intros Ho. step.
  unfold count_exemplar, dispatch_triage_exemplar in *. set (entry := default 0%Z _) in *.
  destruct (MAX_EXEMPLARS_PER_CLUSTER <=? entry)%Z; [exact Ho|]. cbv zeta in Ho |- *.
  destruct (entry =? 0)%Z, (MAX_EXEMPLARS_PER_CLUSTER <=? entry + 1)%Z; cbn [fst snd];
    repeat step; simpl in *; destruct (_ <? _)%nat; exact Ho.
Qed.

Lemma mine_alone p : ends_as AtMine p (mine_and_parse env p raw (compute_signature_hash raw)).
Proof.
  step. unfold mine_and_parse.
  destruct (add_log _ _ _ _) as [[res d]|]; [|done]. destruct (cr_is_new res).
  - apply dispatch_alone, pinned_alone.
  - step. apply dispatch_alone, pinned_alone.
Qed.

Lemma process_alone p : ends_as AtEnter p (process env p raw).
Proof.
  step. step. unfold process.
  destruct (cache_get _ _) as [[[f|] c]|]; [| |done].
  - step. destruct (0 <? _)%Z; [apply dispatch_alone|]; apply format_alone.
  - step. unfold try_route. destruct (0 <? _)%Z; [|apply mine_alone].
    step. destruct (dynamic_routes _ !! _) as [key|]; [|apply mine_alone].
    case_decide; [|apply mine_alone]. step.
    destruct (parse_key _ _ _ _ _) as [[a|] r]; [done|]. step. apply mine_alone.
Qed.

Lemma ends_as_iff pc p o a p' : ends_as pc p o -> o = Some (a, p') <-> ends pc p = (Returned a, p').
Proof.
  unfold ends_as. destruct o as [[a1 p1]|]; intros E; [rewrite E; naive_solver|].
  split; [done|]. intros E2. by rewrite E2 in E.
Qed.
End Alone.

(** ** Sums over threads and over counts *)

Definition zsum {A} (f : A -> Z) (l : list A) : Z := foldr (fun x acc => f x + acc)%Z 0%Z l.

Lemma zsum_app {A} (f : A -> Z) l l' : zsum f (l ++ l') = (zsum f l + zsum f l')%Z.
Proof. induction l; simpl; lia. Qed.

Lemma zsum_insert {A} (f : A -> Z) l i x y : l !! i = Some x -> zsum f (<[i := y]> l) = (zsum f l - f x + f y)%Z.
Proof. revert i. induction l as [|z l IH]; intros [|i]; simpl; intros; simplify_eq; [lia|]. rewrite (IH i) by done. lia. Qed.

Lemma zsum_ext {A} (f : A -> Z) (c : Z) l : Forall (fun x => f x = c) l -> zsum f l = (c * Z.of_nat (length l))%Z.
Proof. induction 1; simpl; [lia|]. rewrite IHForall. lia. Qed.

(** All exemplars ever counted. *)
Definition counted (m : gmap Z Z) : Z := map_fold (fun _ n acc => n + acc)%Z 0%Z m.

Lemma counted_insert m k n : counted (<[k := n]> m) = (counted m - default 0 (m !! k) + n)%Z.
Proof.
  unfold counted. assert (forall m' : gmap Z Z, m' !! k = None ->
    forall v, map_fold (fun _ n acc => n + acc)%Z 0%Z (<[k := v]> m') = (v + map_fold (fun _ n acc => n + acc)%Z 0%Z m')%Z) as Hi.
  { intros m' Hm v. apply map_fold_insert_L; [intros; lia|done]. }
  rewrite <- (insert_delete_eq m k n), Hi by apply lookup_delete_eq. destruct (m !! k) as [v|] eqn:E; simpl.
  - rewrite <- (insert_delete_id m k v E) at 2. rewrite Hi by apply lookup_delete_eq. lia.
  - rewrite delete_id by done. lia.
Qed.

(** ** The invariant *)

(** The pipeline as it will be when the calls under way have updated the counter of
    open keys. *)
Definition balanced (p : TieredPipeline) : TieredPipeline :=
  set_budget p (triage_dispatch_counts p) (wrapu 64 (zsize (open_keys (triage_dispatch_counts p)))).

(** What a call still has to add to the counter of open keys, whether it has still
    to count its exemplar, and whether it has counted itself. *)
Definition pending (pc : CallPc) : Z :=
  match pc with AtOpen closes _ _ => if closes then 0 else 1 | AtClose _ _ => -1 | _ => 0 end.

Definition untallied (pc : CallPc) : Z :=
  match pc with AtOpen _ _ _ | AtClose _ _ | AtSend _ _ | AtTally _ => 1 | _ => 0 end.

Definition entered (pc : CallPc) : Z := match pc with AtEnter => 0 | _ => 1 end.

(** The counters, when calls other than one at [pc] account for [r]. *)
Record books (r : Z * Z * Z) (pc : CallPc) (p : TieredPipeline) : Prop := {
  bk_open : exemplar_budget_open p = wrapu 64 (zsize (open_keys (triage_dispatch_counts p)) - (r.1.1 + pending pc));
  bk_tally : tier3_laya_dispatches p = wrapu 64 (counted (triage_dispatch_counts p) - (r.1.2 + untallied pc));
  bk_total : total_events p = wrapu 64 (r.2 + entered pc)
}.

Section Concurrent.
Context `{Sha256} `{HexLib} `{UnicodeLib} `{ChronoLib} `{RegexLib} `{JsonLib} `{AhoCorasick} `{RegexEngine} `{UnicodeText}.

(** An event that a native extractor or the lossless fallback made. *)
Definition native_event (env : PipeEnv) (raw : string) (a : NetworkActivity) : Prop :=
  (exists f, parse_with_format (pv_native env) raw f = Some (Ok a)) \/ parse_lossless (pv_lossless env) raw = Some a.

Definition pc_ok (env : PipeEnv) (raw : string) (pc : CallPc) : Prop :=
  match pc with
  | AtRouteParse _ | AtRouteDrop => classify raw = UnknownFormat
  | AtPromote _ a => event_ok raw a /\ native_event env raw a
  | AtInstall _ a => classify raw = UnknownFormat /\ event_ok raw a
  | Returned a => event_ok raw a /\ (classify raw <> UnknownFormat -> native_event env raw a)
  | CallPanicked => False
  | _ => True
  end.

Lemma pc_ok_then env raw k : pc_ok env raw (then_pc k).
Proof. by destruct k. Qed.

Lemma then_pc_books k : pending (then_pc k) = 0%Z /\ untallied (then_pc k) = 0%Z /\ entered (then_pc k) = 1%Z.
Proof. by destruct k. Qed.

(** The critical section of the budget. *)
Lemma count_ok r env raw p key template k pc' p' : pipe_inv (balanced p) -> books r (AtCount template k) p ->
  count_exemplar p key template k = (pc', p') -> pipe_inv (balanced p') /\ pc_ok env raw pc' /\ books r pc' p'.
Proof.
  intros I [B1 B2 B3]. simpl in B1, B2, B3. unfold count_exemplar. set (n := default 0%Z _). pose proof (pi_counts _ I) as Hc. simpl in Hc.
  destruct (then_pc_books k) as (T1 & T2 & T3). destruct (Z.leb_spec MAX_EXEMPLARS_PER_CLUSTER n) as [Hle|Hlt]; intros [= <- <-].
  - assert (<[key := n]> (triage_dispatch_counts p) = triage_dispatch_counts p) as E.
    { apply insert_id. unfold n, MAX_EXEMPLARS_PER_CLUSTER in *. destruct (triage_dispatch_counts p !! key); simpl in *; [done|lia]. }
    rewrite E. split; [exact I|]. split; [apply pc_ok_then|]. split; simpl; rewrite ?T1, ?T2, ?T3; done.
  - destruct (open_keys_step _ key n Hc eq_refl Hlt) as [Hpos Hz].
    split; [destruct I; split; simpl; try done; apply map_Forall_insert_2; [lia|done]|].
    split; [by repeat case_match|].
    split; cbn [exemplar_budget_open triage_dispatch_counts tier3_laya_dispatches total_events set_budget];
      rewrite ?Hz, ?counted_insert, ?B1, ?B2, ?B3; fold n;
      destruct (n =? 0)%Z eqn:E0, (MAX_EXEMPLARS_PER_CLUSTER <=? n + 1)%Z; simpl; apply (f_equal (wrapu 64)); lia.
Qed.
(** A step that leaves the counters alone. *)
Lemma books_same r pc p pc' p' : books r pc p ->
  (exemplar_budget_open p', triage_dispatch_counts p', tier3_laya_dispatches p', total_events p')
  = (exemplar_budget_open p, triage_dispatch_counts p, tier3_laya_dispatches p, total_events p) ->
  (pending pc', untallied pc', entered pc') = (pending pc, untallied pc, entered pc) -> books r pc' p'.
Proof. intros [B1 B2 B3] [= E1 E2 E3 E4] [= E5 E6 E7]. split; rewrite ?E1, ?E2, ?E3, ?E4, ?E5, ?E6, ?E7; done. Qed.

Lemma native_ok env raw f a : parse_with_format (pv_native env) raw f = Some (Ok a) -> event_ok raw a /\ native_event env raw a.
Proof. intros E. split; [by apply parse_with_format_ok in E as (W & C & _)|left; eauto]. Qed.

(** The invariant of one call, and that a step keeps it whatever the others account
    for. *)
Definition call_inv (r : Z * Z * Z) (env : PipeEnv) (raw : string) (pc : CallPc) (p : TieredPipeline) : Prop :=
  pipe_inv (balanced p) /\ pc_ok env raw pc /\ books r pc p.

(** The steps of [dispatch_triage_exemplar]. *)
Definition dispatch_pc (pc : CallPc) : bool :=
  match pc with AtCount _ _ | AtOpen _ _ _ | AtClose _ _ | AtSend _ _ | AtTally _ => true | _ => false end.

Lemma dispatch_step_ok r env raw pc p pc' p' : dispatch_pc pc = true -> all_bytes is_ascii raw = true -> call_inv r env raw pc p ->
  call_step env raw pc p = Some (pc', p') -> call_inv r env raw pc' p'.
Proof.
  intros Hg Ha (I & Hpc & B). unfold call_inv. destruct pc; try discriminate Hg; cbn [call_step].
  - intros [= E]. by eapply count_ok.
  - intros [= <- <-]. split; [exact I|]. split; [by destruct closes|].
    destruct B as [B1 B2 B3]. split; simpl in *; [|by rewrite B2; destruct closes|by rewrite B3; destruct closes].
    rewrite B1. destruct closes; simpl; wrap_lia.
  - intros [= <- <-]. split; [exact I|]. split; [done|].
    destruct B as [B1 B2 B3]. split; simpl in *; [|done|done]. rewrite B1. wrap_lia.
  - intros [= <- <-]. split; [|split; [done|]].
    + destruct (Nat.ltb_spec (length (channel p)) (channel_capacity p)); [|done].
      apply (set_channel_inv (balanced p) (channel p ++ [_]) I). rewrite length_app. simpl. lia.
    + eapply books_same; [exact B|by destruct (_ <? _)%nat|done].
  - intros [= <- <-]. split; [exact (set_counts_inv (balanced p) _ _ _ I)|]. split; [apply pc_ok_then|].
    destruct (then_pc_books k) as (T1 & T2 & T3). destruct B as [B1 B2 B3]. split; simpl in *; rewrite ?T1, ?T2, ?T3; [done| |done].
    rewrite B2. wrap_lia.
Qed.

(** The steps on promoted routes. *)
Definition route_pc (pc : CallPc) : bool :=
  match pc with AtRouteGate | AtRouteGet | AtRouteParse _ | AtRouteDrop | AtInstall _ _ => true | _ => false end.

Lemma route_step_ok r env raw pc p pc' p' : route_pc pc = true -> all_bytes is_ascii raw = true -> call_inv r env raw pc p ->
  call_step env raw pc p = Some (pc', p') -> call_inv r env raw pc' p'.
Proof.
  intros Hg Ha (I & Hpc & B). unfold call_inv. destruct pc; try discriminate Hg; cbn [call_step].
  - intros [= <- <-]. split; [done|]. split; [by destruct (_ <? _)%Z|]. eapply books_same; [exact B|done|]. by destruct (_ <? _)%Z.
  - intros [= <- <-]. split; [done|].
    destruct (dynamic_routes p !! _); [case_decide|]; (split; [done|by eapply books_same]).
  - destruct (parse_key_ok (balanced p) key raw (pv_route_id env) (pv_route_ms env) I) as [I1 Hev].
    simpl in I1, Hev. destruct (parse_key _ _ _ _ _) as [[a|] r0]; intros [= <- <-]; (split; [exact I1|]).
    + split; [|by eapply books_same]. split; [by apply Hev|]. intros Hn. by destruct Hn.
    + split; [exact Hpc|by eapply books_same].
  - intros [= <- <-]. split; [|split; [done|]].
    + pose proof (drop_route_inv (balanced p) (compute_signature_hash raw) I) as I1. unfold drop_route in *.
      simpl in I1. by destruct (dynamic_routes p !! _).
    + eapply books_same; [exact B| |done]. unfold drop_route. by destruct (dynamic_routes p !! _).
  - intros [= <- <-]. split; [exact (install_route_inv (balanced p) _ _ I)|]. destruct Hpc as [? ?].
    split; [split; [done|]; intros Hn; by destruct Hn|]. by eapply books_same.
Qed.

(** The steps that parse. *)
Definition parse_pc (pc : CallPc) : bool :=
  match pc with AtFormat _ | AtPinned | AtPromote _ _ | AtLossless => true | _ => false end.

Lemma parse_step_ok r env raw pc p pc' p' : parse_pc pc = true -> all_bytes is_ascii raw = true -> call_inv r env raw pc p ->
  call_step env raw pc p = Some (pc', p') -> call_inv r env raw pc' p'.
Proof.
  intros Hg Ha (I & Hpc & B). unfold call_inv. destruct pc; try discriminate Hg; cbn [call_step].
  - destruct (parse_with_format_ascii (pv_native env) raw format Ha) as [[a|e] E]; rewrite E; intros [= <- <-].
    + apply native_ok in E as [? ?]. split; [done|]. split; [done|]. by eapply books_same.
    + split; [done|]. split; [done|]. by eapply books_same.
  - case_decide.
    + destruct (parse_any_keyed_ok (balanced p) raw (pv_scan_id env) (pv_scan_ms env) I) as [I1 Hev]. simpl in I1, Hev.
      destruct (parse_any_keyed _ _ _ _) as [[[key a]|] r0]; intros [= <- <-]; (split; [exact I1|]).
      * split; [|by eapply books_same]. split; [done|by eapply Hev].
      * split; [done|by eapply books_same].
    + destruct (parse_with_format_ascii (pv_native env) raw (classify raw) Ha) as [[a|e] E]; rewrite E; intros [= <- <-].
      * apply native_ok in E. split; [done|]. split; [done|]. by eapply books_same.
      * split; [done|]. split; [done|]. by eapply books_same.
  - destruct (cache_insert_ok (cache p) (compute_signature_hash raw) format (pi_cache _ I)) as (c & -> & Ic & _). intros [= <- <-].
    split; [exact (set_cache_inv (balanced p) c I Ic)|]. destruct Hpc as [? ?]. split; [done|]. by eapply books_same.
  - destruct (parse_lossless_ascii (pv_lossless env) raw Ha) as [a E]. rewrite E. intros [= <- <-]. split; [done|].
    split; [|by eapply books_same]. split; [by eapply parse_lossless_ok|]. intros _. by right.
Qed.

Lemma call_step_ok r env raw pc p pc' p' : all_bytes is_ascii raw = true -> call_inv r env raw pc p ->
  call_step env raw pc p = Some (pc', p') -> call_inv r env raw pc' p'.
Proof.
  intros Ha Hi. destruct (dispatch_pc pc) eqn:E1; [by apply dispatch_step_ok|]. destruct (route_pc pc) eqn:E2; [by apply route_step_ok|].
  destruct (parse_pc pc) eqn:E3; [by apply parse_step_ok|]. destruct Hi as (I & Hpc & B). unfold call_inv.
  destruct pc; try discriminate; cbn [call_step].
  - intros [= <- <-]. split; [exact (set_counts_inv (balanced p) _ _ _ I)|]. split; [done|].
    destruct B as [B1 B2 B3]. split; simpl in *; [done|done|]. rewrite B3. wrap_lia.
  - destruct (cache_get_ok (cache p) (compute_signature_hash raw) (pi_cache _ I)) as (c & -> & Ic & _).
    intros E. assert (p' = set_cache p c /\ (pc' = AtRouteGate \/ exists f, pc' = AtFastGate f)) as [-> Hpc'].
    { destruct (_ ≫= _); simplify_eq; eauto. }
    split; [exact (set_cache_inv (balanced p) c I Ic)|]. split; [by destruct Hpc' as [->|[f ->]]|].
    eapply books_same; [exact B|done|]. by destruct Hpc' as [->|[f ->]].
  - intros [= <- <-]. split; [done|]. split; [by destruct (_ <? _)%Z|]. eapply books_same; [exact B|done|]. by destruct (_ <? _)%Z.
  - destruct (drain_total (drain p) (pv_drain_ms env) (pv_drain_latency env) raw) as (res & d & ->). intros [= <- <-].
    split; [exact (set_drain_inv (balanced p) d I)|]. split; [by destruct (cr_is_new res)|].
    eapply books_same; [exact B|done|by destruct (cr_is_new res)].
  - intros [= <- <-]. split; [exact (set_counts_inv (balanced p) _ _ _ I)|]. split; [done|]. by eapply books_same.
Qed.
(** ** The worker *)

Context `{LibM}.

(** Every turn of the worker, step by step, is the turn as one step. *)
Lemma work_turn priors created p p' :
  worker_step priors created p = Some p' <-> work_alone priors created 6 AtRecv p = Some (AtRecv, p').
Proof.
  unfold worker_step. cbn [work_alone work_step]. destruct (channel p) as [|task rest]; [done|].
  cbn [work_alone work_step]. generalize (f64_le (f64_lit 85 100) (ch_probability (classify_action (laya_new priors) (tk_sample_log task)))).
  generalize (f64_le (f64_lit 50 100) (sc_score (score_threat_risk (laya_new priors) (tk_sample_log task)))). intros threat action.
  generalize (classify_vendor (laya_new priors) (tk_sample_log task)) as vendor. intros vendor.
  generalize (f64_lt (ch_probability vendor) (f64_lit 85 100)). intros []; [by split; intros [= <-]|].
  cbn [buffers set_worker set_channel tier3_laya_onboarded laya_action_flags laya_threat_flags dynamic_registry].
  destruct (length _ <? ONBOARD_MIN_SAMPLES)%nat; [by split; intros [= <-]|].
  destruct (generate_parser _ _ _ _) as [[[d rep]|e]|]; [|by split; intros [= <-]|done].
  destruct (vr_passed rep && _); [|by split; intros [= <-]]. destruct (register _ d) as [rkey r].
  cbn [work_alone work_step]. by split; intros [= <-].
Qed.

(** What the worker leaves alone. *)
Definition same_books (p p' : TieredPipeline) : Prop :=
  (exemplar_budget_open p', triage_dispatch_counts p', tier3_laya_dispatches p', total_events p')
  = (exemplar_budget_open p, triage_dispatch_counts p, tier3_laya_dispatches p, total_events p).

Definition buffers_ok (b : gmap Z (list string)) : Prop := map_Forall (fun _ l => length l <= 8) b.

Lemma buffer_ok (b : gmap Z (list string)) key line : buffers_ok b -> let buf0 := default [] (b !! key) in
  let buf := if (length buf0 <? Z.to_nat MAX_EXEMPLARS_PER_CLUSTER)%nat then buf0 ++ [line] else buf0 in
  buffers_ok (<[key := buf]> b) /\ buffers_ok (delete key (<[key := buf]> b)).
Proof.
  intros Hb buf0 buf. assert (length buf0 <= 8) as Hl0.
  { unfold buf0. destruct (b !! key) eqn:E; simpl; [by apply Hb in E|lia]. }
  assert (buffers_ok (<[key := buf]> b)) as Hk; [|split; [done|by apply map_Forall_delete]].
  apply map_Forall_insert_2; [|done]. unfold buf. change (Z.to_nat MAX_EXEMPLARS_PER_CLUSTER) with 8.
  destruct (Nat.ltb_spec (length buf0) 8); [rewrite length_app; simpl; lia|done].
Qed.

(** Triage: a line that is buffered, and a parser that is registered. *)
Lemma triage_ok priors created task p pc' p' : pipe_inv (balanced p) ->
  work_step priors created (AtTriage task) p = Some (pc', p') -> pipe_inv (balanced p') /\ pc' <> WorkerPanicked /\ same_books p p'.
Proof.
  intros I. pose proof (pi_buffers _ I) as Hb. cbn [work_step].
  destruct (f64_lt _ _); [intros [= <- <-]; done|].
  destruct (buffer_ok (buffers p) (tk_cluster_id task) (tk_sample_log task) Hb) as [Hk Hd]. cbv zeta in Hk, Hd.
  set (keep := <[_ := _]> _) in *. set (buf := if (_ <? _)%nat then _ else _) in *.
  destruct (length buf <? ONBOARD_MIN_SAMPLES)%nat;
    [intros [= <- <-]; split_and!; [by apply (set_worker_inv (balanced p))|done|done]|].
  set (abandoned := if (_ <=? _)%nat then _ else _).
  assert (buffers_ok abandoned) as Hab by (unfold abandoned; by destruct (_ <=? _)%nat).
  destruct (generate_parser_some (ch_label (classify_vendor (laya_new priors) (tk_sample_log task)))
    ("cluster-" +:+ pretty (Z.to_N (tk_cluster_id task))) buf created) as [[[d rep]|e] E]; rewrite E;
    [|intros [= <- <-]; split_and!; [by apply (set_worker_inv (balanced p))|done|done]].
  destruct (vr_passed rep && _); [|intros [= <- <-]; split_and!; [by apply (set_worker_inv (balanced p))|done|done]].
  apply generate_parser_mapping in E.
  pose proof (register_registry_inv _ d (set_worker_inv (balanced p) (tier3_laya_onboarded p) (laya_action_flags p)
    (laya_threat_flags p) keep I Hk) E) as Ir.
  change (dynamic_registry (set_worker (balanced p) _ _ _ keep)) with (dynamic_registry p) in Ir.
  destruct (register (dynamic_registry p) d) as [rkey r]. intros [= <- <-]. split_and!; [exact Ir|done|done].
Qed.

Lemma work_step_ok priors created pc p pc' p' : pipe_inv (balanced p) -> pc <> WorkerPanicked ->
  work_step priors created pc p = Some (pc', p') -> pipe_inv (balanced p') /\ pc' <> WorkerPanicked /\ same_books p p'.
Proof.
  intros I Hpc. pose proof (pi_buffers _ I) as Hb. destruct pc; cbn [work_step].
  - destruct (channel p) as [|task rest] eqn:E; [done|]. intros [= <- <-]. split_and!; [|done|done].
    apply (set_channel_inv (balanced p) rest I). pose proof (pi_channel _ I) as Hc. simpl in *. rewrite E in Hc. simpl in Hc. lia.
  - intros [= <- <-]. split_and!; [exact (set_worker_inv (balanced p) _ _ _ _ I Hb)|done|done].
  - intros [= <- <-]. split_and!; [exact (set_worker_inv (balanced p) _ _ _ _ I Hb)|done|done].
  - by apply triage_ok.
  - intros [= <- <-]. split_and!; [exact (install_route_inv (balanced p) _ _ I)|done|done].
  - intros [= <- <-]. split_and!; [|done|done].
    exact (set_worker_inv (balanced p) _ _ _ _ I (map_Forall_delete _ _ _ Hb)).
  - done.
Qed.

(** ** Any interleaving *)

Record threads_inv (s : Threads) : Prop := {
  ti_pipe : pipe_inv (balanced (ts_pipe s));
  ti_calls : Forall (fun c => all_bytes is_ascii (cl_raw c) = true /\ pc_ok (cl_env c) (cl_raw c) (cl_pc c)) (ts_calls s);
  ti_worker : ts_worker s <> WorkerPanicked;
  ti_open : exemplar_budget_open (ts_pipe s)
    = wrapu 64 (zsize (open_keys (triage_dispatch_counts (ts_pipe s))) - zsum (pending ∘ cl_pc) (ts_calls s));
  ti_tally : tier3_laya_dispatches (ts_pipe s)
    = wrapu 64 (counted (triage_dispatch_counts (ts_pipe s)) - zsum (untallied ∘ cl_pc) (ts_calls s));
  ti_total : total_events (ts_pipe s) = wrapu 64 (zsum (entered ∘ cl_pc) (ts_calls s))
}.

Definition action_ascii (a : ThreadAction) : Prop := match a with BeginCall _ raw => all_bytes is_ascii raw = true | _ => True end.

Lemma step_call_inv t s s' : threads_inv s -> threads_exec (StepCall t) s = Some s' -> threads_inv s'.
Proof.
  intros [Ip Ic Iw Io It Ie]. cbn [threads_exec]. destruct (ts_calls s !! t) as [c|] eqn:Ec; [|done].
  destruct (call_step _ _ _ _) as [[pc p]|] eqn:E; [|done]. intros [= <-].
  pose proof (proj1 (Forall_lookup _ _) Ic _ _ Ec) as [Ha Hpc].
  destruct (call_step_ok (zsum (pending ∘ cl_pc) (ts_calls s) - pending (cl_pc c), zsum (untallied ∘ cl_pc) (ts_calls s) - untallied (cl_pc c),
    zsum (entered ∘ cl_pc) (ts_calls s) - entered (cl_pc c))%Z (cl_env c) (cl_raw c) (cl_pc c) (ts_pipe s) pc p Ha) as (Ip' & Hpc' & [B1 B2 B3]); [|done|].
  { split; [done|]. split; [done|]. split; simpl; [rewrite Io|rewrite It|rewrite Ie]; apply (f_equal (wrapu 64)); lia. }
  split; cbn [ts_pipe ts_calls ts_worker]; [done|by apply Forall_insert|done|..];
    rewrite (zsum_insert _ _ _ _ _ Ec); cbn [compose cl_pc]; [rewrite B1|rewrite B2|rewrite B3]; simpl; apply (f_equal (wrapu 64)); unfold compose; lia.
Qed.

Lemma threads_exec_inv a s s' : threads_inv s -> action_ascii a -> threads_exec a s = Some s' -> threads_inv s'.
Proof.
  intros I Ha. destruct a as [env raw|t|priors created]; [|by apply step_call_inv|]; destruct I as [Ip Ic Iw Io It Ie]; cbn [threads_exec].
  - intros [= <-]. split; cbn [ts_pipe ts_calls ts_worker]; rewrite ?zsum_app, ?Io, ?It, ?Ie; try done; try (apply (f_equal (wrapu 64)); simpl; lia).
    apply Forall_app. split; [done|]. by repeat constructor.
  - destruct (work_step _ _ _ _) as [[pc p]|] eqn:E; [|done]. intros [= <-].
    destruct (work_step_ok _ _ _ _ _ _ Ip Iw E) as (Ip' & Hw & [= E1 E2 E3 E4]).
    split; cbn [ts_pipe ts_calls ts_worker]; rewrite ?E1, ?E2, ?E3, ?E4; done.
Qed.
Lemma threads_run_inv acts : forall s s', threads_inv s -> Forall action_ascii acts -> threads_run acts s = Some s' -> threads_inv s'.
Proof.
  induction acts as [|a acts IH]; intros s s' I HF; cbn [threads_run]; [by intros [= <-]|].
  apply Forall_cons in HF as [Ha HF]. destruct (threads_exec a s) as [s1|] eqn:E; [|done]. apply IH; [|done]. by eapply threads_exec_inv.
Qed.

Lemma threads_new_inv p : pipe_inv p -> (exemplar_budget_open p, tier3_laya_dispatches p, total_events p) = (0, 0, 0)%Z ->
  triage_dispatch_counts p = ∅ -> threads_inv (threads_new p).
Proof.
  intros I [= E1 E2 E3] E4. split; simpl; [|constructor|done|..]; rewrite ?E1, ?E2, ?E3, ?E4; try done.
  destruct I. split; simpl; done.
Qed.

(** ** How long a call takes *)

Definition is_step (t : nat) (a : ThreadAction) : nat := match a with StepCall t' => if decide (t = t') then 1 else 0 | _ => 0 end.

Definition steps_of (t : nat) (acts : list ThreadAction) : nat := sum_list_with (is_step t) acts.

Definition rank_of (t : nat) (s : Threads) : nat := match ts_calls s !! t with Some c => rank (cl_pc c) | None => 15 end.

Lemma exec_rank t a s s' : threads_exec a s = Some s' -> is_step t a + rank_of t s' <= rank_of t s.
Proof.
  unfold rank_of. destruct a as [env raw|u|priors created]; cbn [threads_exec is_step].
  - intros [= <-]. simpl. destruct (ts_calls s !! t) as [c|] eqn:E; [by rewrite (lookup_app_l_Some _ _ _ _ E)|].
    destruct ((ts_calls s ++ _) !! t) as [c|] eqn:E2; [|done]. apply lookup_app_Some in E2 as [E2|[_ E2]]; [congruence|].
    by apply list_lookup_singleton_Some in E2 as [_ <-].
  - destruct (ts_calls s !! u) as [c|] eqn:Ec; [|done]. destruct (call_step _ _ _ _) as [[pc p]|] eqn:E; [|done].
    intros [= <-]. apply call_step_rank in E. simpl. case_decide as Ht; [subst u|].
    + rewrite list_lookup_insert_eq by (by eapply lookup_lt_Some). rewrite Ec. simpl. lia.
    + by rewrite list_lookup_insert_ne.
  - destruct (work_step _ _ _ _) as [[pc p]|]; [|done]. by intros [= <-].
Qed.

Lemma run_rank t acts : forall s s', threads_run acts s = Some s' -> steps_of t acts + rank_of t s' <= rank_of t s.
Proof.
  induction acts as [|a acts IH]; intros s s'; cbn [threads_run]; [by intros [= <-]|].
  destruct (threads_exec a s) as [s1|] eqn:E; [|done]. intros Hr%IH. pose proof (exec_rank t _ _ _ E).
  unfold steps_of in *. simpl. lia.
Qed.

(** ** The properties *)

Definition started_calls (acts : list ThreadAction) : list string :=
  omap (fun a => match a with BeginCall _ raw => Some raw | _ => None end) acts.

Lemma run_calls acts : forall s s', threads_run acts s = Some s' -> cl_raw <$> ts_calls s' = (cl_raw <$> ts_calls s) ++ started_calls acts.
Proof.
  induction acts as [|a acts IH]; intros s s'; cbn [threads_run]; [intros [= <-]; by rewrite app_nil_r|].
  destruct (threads_exec a s) as [s1|] eqn:E; [|done]. intros Hr%IH. rewrite Hr. destruct a as [env raw|t|priors created]; cbn [threads_exec] in E.
  - injection E as <-. simpl. by rewrite fmap_app, <- app_assoc.
  - destruct (ts_calls s !! t) as [c|] eqn:Ec; [|done]. destruct (call_step _ _ _ _) as [[pc p]|]; [|done]. injection E as <-. simpl.
    rewrite list_fmap_insert. simpl. rewrite list_insert_id; [done|]. by rewrite list_lookup_fmap, Ec.
  - destruct (work_step _ _ _ _) as [[pc p]|]; [|done]. by injection E as <-.
Qed.

Lemma pipeline_threads_inv n cap c ring acts s : with_capacity n cap = Some c -> Forall action_ascii acts ->
  threads_run acts (threads_new (with_ring_buffer_capacity c ring)) = Some s -> threads_inv s.
Proof.
  intros Hc. apply threads_run_inv, threads_new_inv; [|done|done]. by apply pipeline_new_inv, (with_capacity_inv _ _ _ Hc).
Qed.

(** C5: the pipeline serves any number of threads: in every interleaving of calls of
    [process] with ASCII lines and of the triage worker, at every lock and every
    atomic, nothing panics; the calls are those made, each with its own line; a
    call that has not returned can take its next step whatever the others do,
    and has returned after at most fifteen steps of its own; and what it returns
    is a well-formed event that carries its line and the line's digest, made by a
    native extractor or by the lossless fallback if the classifier knows the line,
    never by a learned parser. *)
Theorem concurrent_calls_return n cap c ring acts s : with_capacity n cap = Some c -> Forall action_ascii acts ->
  threads_run acts (threads_new (with_ring_buffer_capacity c ring)) = Some s ->
  cl_raw <$> ts_calls s = started_calls acts /\ ts_worker s <> WorkerPanicked /\
  forall t call, ts_calls s !! t = Some call ->
    cl_pc call <> CallPanicked /\
    ((exists a, cl_pc call = Returned a) \/ is_Some (threads_exec (StepCall t) s)) /\
    steps_of t acts <= 15 /\ (steps_of t acts = 15 -> exists a, cl_pc call = Returned a) /\
    (forall a, cl_pc call = Returned a -> activity_wf a /\ carries (cl_raw call) a /\
       (classify (cl_raw call) <> UnknownFormat -> native_event (cl_env call) (cl_raw call) a)).
Proof.
  intros Hc HF E. pose proof (pipeline_threads_inv _ _ _ _ _ _ Hc HF E) as [Ip Ic Iw _ _ _].
  split; [exact (run_calls _ _ _ E)|]. split; [done|]. intros t call Ht. pose proof (proj1 (Forall_lookup _ _) Ic _ _ Ht) as [Ha Hpc].
  pose proof (run_rank t _ _ _ E) as Hr. unfold rank_of in Hr. simpl in Hr. rewrite Ht in Hr.
  assert (rank (cl_pc call) = 0 -> exists a, cl_pc call = Returned a) as Hret by (destruct (cl_pc call); try done; eauto).
  split_and!.
  - by destruct (cl_pc call).
  - destruct (call_step (cl_env call) (cl_raw call) (cl_pc call) (ts_pipe s)) as [[pc p]|] eqn:Es.
    + right. cbn [threads_exec]. rewrite Ht, Es. eauto.
    + left. apply Hret. by apply call_step_done in Es.
  - lia.
  - intros. apply Hret. lia.
  - intros a Er. rewrite Er in Hpc. destruct Hpc as [[? ?] ?]. done.
Qed.

(** C25: the books of the pipeline under any interleaving: no key is given more than
    eight exemplars; channel, buffers and registry keep their bounds; the counter of
    routes is their number; the counters of open keys, of exemplars and of events
    are, modulo 2^64, the true numbers less what the calls under way have still to
    add; so once every call has returned they are exact. *)
Theorem concurrent_books n cap c ring acts s : with_capacity n cap = Some c -> Forall action_ascii acts ->
  threads_run acts (threads_new (with_ring_buffer_capacity c ring)) = Some s -> let p := ts_pipe s in
  (forall k x, triage_dispatch_counts p !! k = Some x -> (0 < x <= 8)%Z) /\
  length (channel p) <= channel_capacity p /\ (forall k b, buffers p !! k = Some b -> length b <= 8) /\
  length (parsers (dynamic_registry p)) <= 256 /\ dynamic_routes_open p = wrapu 64 (zsize (dynamic_routes p)) /\
  exemplar_budget_open p = wrapu 64 (zsize (open_keys (triage_dispatch_counts p)) - zsum (pending ∘ cl_pc) (ts_calls s)) /\
  tier3_laya_dispatches p = wrapu 64 (counted (triage_dispatch_counts p) - zsum (untallied ∘ cl_pc) (ts_calls s)) /\
  (Forall (fun call => exists a, cl_pc call = Returned a) (ts_calls s) ->
     exemplar_budget_open p = wrapu 64 (zsize (open_keys (triage_dispatch_counts p))) /\
     tier3_laya_dispatches p = wrapu 64 (counted (triage_dispatch_counts p)) /\
     total_events p = wrapu 64 (Z.of_nat (length (started_calls acts)))).
Proof.
  intros Hc HF E p. pose proof (pipeline_threads_inv _ _ _ _ _ _ Hc HF E) as [[? [? Hb] Hcap ? Hcounts ? ? ? Hbuf] _ _ Io It Ie].
  rewrite Hcap in Hb. split_and!; try done. intros HR.
  assert (forall (f : CallPc -> Z) v, (forall a, f (Returned a) = v) -> zsum (f ∘ cl_pc) (ts_calls s) = (v * Z.of_nat (length (ts_calls s)))%Z) as Hz.
  { intros f v Hf. apply zsum_ext. eapply Forall_impl; [exact HR|]. intros call [a Ea]. unfold compose. by rewrite Ea. }
  unfold p. rewrite Io, It, Ie, (Hz pending 0%Z), (Hz untallied 0%Z), (Hz entered 1%Z) by done.
  pose proof (f_equal length (run_calls _ _ _ E)) as Hl. rewrite length_fmap in Hl. simpl in Hl.
  split_and!; apply (f_equal (wrapu 64)); lia.
Qed.

(** The steps are those of the code as written in one piece: a call that nothing
    disturbs ends with the event and the state of [process], and panics where
    [process] does; and a turn of the worker that nothing disturbs is
    [worker_step]. *)
Theorem process_is_its_steps env raw priors created p :
  (forall a p', process env p raw = Some (a, p') <-> alone env raw 15 AtEnter p = (Returned a, p')) /\
  (process env p raw = None <-> (alone env raw 15 AtEnter p).1 = CallPanicked) /\
  (forall p', worker_step priors created p = Some p' <-> work_alone priors created 6 AtRecv p = Some (AtRecv, p')).
Proof.
  change (alone env raw 15 AtEnter p) with (ends env raw AtEnter p). pose proof (process_alone env raw p) as Ha.
  split; [intros; by apply ends_as_iff|]. split; [|intros; apply work_turn].
  unfold ends_as in Ha. destruct (process env p raw) as [[a p1]|]; [rewrite Ha|]; by split.
Qed.
End Concurrent.

(** ** Witnesses *)

Module ThreadsDemo.
Import Demo TokenDemo ParserDemo OnboarderDemo PipelineDemo.

Definition unknown_line (tail : string) : string := "10.0.0.1 10.0.0.2 RT_FLOW: session created " +:+ tail.

(** Two calls that take turns, a third after them, and the worker in between. *)
Definition demo_acts : list ThreadAction :=
  [BeginCall penv (unknown_line "one"); BeginCall penv fortinet_line]
  ++ concat (replicate 12 [StepCall 0; StepCall 1])
  ++ replicate 4 (StepWorker action_token_priors 1) ++ [BeginCall penv (unknown_line "two")] ++ replicate 5 (StepCall 2).

Definition pipe0 : TieredPipeline := with_ring_buffer_capacity cache16 4.

Fixpoint enabled_run (acts : list ThreadAction) (s : Threads) : list ThreadAction * Threads :=
  match acts with
  | [] => ([], s)
  | a :: acts' =>
      match threads_exec a s with
      | Some s1 => let '(l, s2) := enabled_run acts' s1 in (a :: l, s2)
      | None => enabled_run acts' s
      end
  end.

(** The actions that were possible, and where they lead. *)
Definition demo : list ThreadAction * Threads := enabled_run demo_acts (threads_new pipe0).

Lemma enabled_run_ok acts : forall s, threads_run (enabled_run acts s).1 s = Some (enabled_run acts s).2.
Proof.
  induction acts as [|a acts IH]; intros s; simpl; [done|]. destruct (threads_exec a s) as [s1|] eqn:E; [|apply IH].
  specialize (IH s1). destruct (enabled_run acts s1) as [l s2]. simpl in *. by rewrite E.
Qed.

(** Two calls have returned, the third has still to send its exemplar. *)
Example demo_states : ((rank ∘ cl_pc) <$> ts_calls demo.2, length (channel (ts_pipe demo.2)), total_events (ts_pipe demo.2)) = ([0; 0; 4], 1, 3%Z).
Proof. vm_compute. reflexivity. Qed.

Lemma demo_ascii : Forall action_ascii demo.1.
Proof. vm_compute. repeat constructor. Qed.

Lemma concurrent_calls_return_witness : exists call a, ts_calls demo.2 !! 1 = Some call /\ cl_raw call = fortinet_line /\
  cl_pc call = Returned a /\ activity_wf a /\ carries fortinet_line a /\ native_event penv fortinet_line a.
Proof.
  destruct (concurrent_calls_return 16 512 cache16 4 demo.1 demo.2 cache16_ok demo_ascii) as (Hc & _ & Ht);
    [exact (enabled_run_ok demo_acts (threads_new pipe0))|].
  destruct (ts_calls demo.2 !! 1) as [call|] eqn:E; [|vm_compute in E; discriminate E].
  destruct (Ht 1 call E) as (_ & _ & _ & _ & Hr).
  assert (cl_raw call = fortinet_line /\ cl_env call = penv /\ rank (cl_pc call) = 0 /\ cl_pc call <> CallPanicked) as (Er & Ee & E0 & Hn).
  { vm_compute in E. injection E as <-. split; [reflexivity|]. split; [reflexivity|]. split; [reflexivity|discriminate]. }
  destruct (cl_pc call) as [| | | | | | | | | | | | | | | | | | |a|] eqn:Ep; try discriminate E0; [|by destruct Hn].
  destruct (Hr a eq_refl) as (W & C & N). rewrite Er in C. rewrite Er, Ee in N. exists call, a.
  split; [reflexivity|]. split; [exact Er|]. split; [exact Ep|]. split; [exact W|]. split; [exact C|].
  apply N. vm_compute. discriminate.
Defined.

Lemma concurrent_books_witness : let p := ts_pipe demo.2 in
  length (channel p) <= channel_capacity p /\
  exemplar_budget_open p = wrapu 64 (zsize (open_keys (triage_dispatch_counts p)) - zsum (pending ∘ cl_pc) (ts_calls demo.2)).
Proof.
  destruct (concurrent_books 16 512 cache16 4 demo.1 demo.2 cache16_ok demo_ascii) as (_ & Hc & _ & _ & _ & Ho & _);
    [exact (enabled_run_ok demo_acts (threads_new pipe0))|]. split; [exact Hc|exact Ho].
Defined.

(** Eight calls with lines of one shape: the first has counted its exemplar and not
    yet opened the key when the eighth closes it, and the counter that gates the fast
    path goes below zero. *)
Definition race : list ThreadAction :=
  replicate 8 (BeginCall penv (unknown_line "one")) ++ replicate 5 (StepCall 0) ++ (i ← seq 1 7; replicate 6 (StepCall i)) ++ [StepCall 7].

Example gate_wraps :
  exemplar_budget_open ∘ ts_pipe <$> threads_run race (threads_new pipe0) = Some u64_max.
Proof. vm_compute. reflexivity. Qed.

End ThreadsDemo.
