(* ===== verification/GroundTruth.v ===== *)
(** * Ground truth ([crates/ulpf-ai/src/evaluator.rs], the scanners)

    What the evaluator derives from a raw line: the vendor, the tag of the
    template and the expected disposition; and the markers that decide whether
    a field that the engine left out could have been filled.  The scanners work
    on byte offsets, as in the source; a scan that jumps ahead by a match counts
    the bytes still to be passed over ([skip]). *)

From S2P Require Export Drain ExtractCommon Lru Fortigate.

(** [b[i]], where it is in range *)
Definition byte_at (s : string) (i : nat) : option ascii :=
  match str_drop i s with String a _ => Some a | "" => None end.

(** [i < b.len() && p(b[i])] *)
Definition byte_is (p : ascii -> bool) (s : string) (i : nat) : bool :=
  match byte_at s i with Some a => p a | None => false end.

(** [&s[a..b]] with its checks. *)
Definition slice_checked (a b : nat) (s : string) : option string :=
  if (a <=? b)%nat && (b <=? String.length s)%nat && is_char_boundary s a && is_char_boundary s b
  then Some (str_slice a b s) else None.

(** [s.splitn(n, c)] for an ASCII separator *)
Fixpoint splitn (n : nat) (c : ascii) (s : string) : list string :=
  match n with
  | O => []
  | S O => [s]
  | S n' => match find_byte (Ascii.eqb c) s with
            | Some p => str_take p s :: splitn n' c (str_drop (p + 1) s)
            | None => [s]
            end
  end.

Definition in_quotes (s : string) : string := dquote_str +:+ s +:+ dquote_str.

(** ** Dispositions *)

Definition kv_verdict (value : string) : option string :=
  if one_of ["accept"; "allow"; "allowed"] value then Some "Allowed"
  else if one_of ["deny"; "denied"; "blocked"; "block"] value then Some "Blocked"
  else if one_of ["drop"] value then Some "Dropped"
  else if one_of ["close"; "closed"; "timeout"; "client-rst"; "server-rst"; "reset"] value then Some "Allowed"
  else None.

(** The first token that starts with [key], without the key. *)
Fixpoint first_stripped (key : string) (tokens : list string) : option string :=
  match tokens with
  | [] => None
  | token :: tokens' =>
      match strip_prefix key token with Some value => Some value | None => first_stripped key tokens' end
  end.

Definition action_from_kv_token (text key : string) : option string :=
  match first_stripped key (split_whitespace text) with
  | Some value => kv_verdict (trim_matches (String.eqb ",") (trim_matches (String.eqb dquote_str) value))
  | None => None
  end.

Definition kv_value_word (raw key : string) : option string :=
  match first_stripped key (split_whitespace raw) with
  | Some value => let value := trim_matches is_anchor_junk value in
                  if is_empty value then None else Some value
  | None => None
  end.

Definition eve_action_value (raw : string) : option string :=
  p <-! find (in_quotes "action") raw;
  let after := str_drop (p + String.length (in_quotes "action")) raw in
  q1 <-! find dquote_str after;
  q2 <-! find dquote_str (str_drop (q1 + 1) after);
  Some (str_slice (q1 + 1) (q1 + 1 + q2) after).

Definition is_row_kind (f : string) : bool := eq_ignore_ascii_case f "TRAFFIC" || eq_ignore_ascii_case f "THREAT".

Definition panos_markers (raw : string) : option string :=
  if contains ",drop," raw then Some "Dropped"
  else if contains ",deny," raw then Some "Blocked"
  else if contains ",allow," raw then Some "Allowed"
  else None.

Definition panos_action_field (raw : string) : option string :=
  let fields := split_csv raw in
  match position is_row_kind fields with
  | Some tp =>
      match fields !! (tp + 27)%nat with
      | Some action =>
          let a := to_ascii_lowercase action in
          if one_of ["allow"] a then Some "Allowed"
          else if one_of ["deny"] a then Some "Blocked"
          else if one_of ["drop"] a then Some "Dropped"
          else panos_markers raw
      | None => panos_markers raw
      end
  | None => panos_markers raw
  end.

(** ** Vendor, tag and disposition of a line *)

Definition asa_verdict (raw : string) : option string :=
  let lower := to_ascii_lowercase raw in
  if contains "authentication failed" lower || contains "login failed" lower then Some "Blocked"
  else if contains "Built" raw || contains "permit" raw || contains "successful login" lower
          || contains "tunnel established" lower || contains "session disconnected" lower then Some "Allowed"
  else if contains "Deny" raw || contains "drop" raw then Some "Blocked"
  else if contains "Teardown" raw then Some "Allowed"
  else None.

(** [None] is the panic of a slice out of range. *)
Definition asa_tag (raw : string) : option string :=
  match find "%ASA-" raw with
  | Some pos =>
      let end_ := default 15 (find ":" (str_drop pos raw)) in
      tag <-! slice_checked pos (pos + end_) raw;
      Some (trim tag)
  | None => Some "%ASA"
  end.

Definition fortigate_tag (raw : string) : string :=
  match kv_value_word raw "type=" with
  | Some w => if String.eqb w "dns" then "fortigate_dns"
              else if String.eqb w "utm" then "fortigate_utm"
              else if String.eqb w "app-ctrl" then "fortigate_appctrl"
              else "fortigate_traffic"
  | None => "fortigate_traffic"
  end.

Definition eve_verdict (raw : string) : string :=
  let by_kind := if contains (in_quotes "alert") raw then "Blocked" else "Allowed" in
  match eve_action_value raw with
  | Some w => if one_of ["blocked"; "reject"] w then "Blocked"
              else if one_of ["drop"; "dropped"] w then "Dropped"
              else if one_of ["allowed"; "pass"] w then "Allowed"
              else by_kind
  | None => by_kind
  end.

Definition extract_ground_truth (raw : string) : option (string * string * option string) :=
  match find "CEF:" raw with
  | Some cef_pos =>
      let parts := splitn 8 "|" (str_drop cef_pos raw) in
      let vendor := trim (default "Unknown" (parts !! 1)) in
      let extension := default "" (parts !! 7) in
      Some (vendor, "cef", action_from_kv_token extension "act=")
  | None =>
      if contains "%ASA-" raw
      then tag <-! asa_tag raw; Some ("Cisco", tag, asa_verdict raw)
      else if contains "devname=" raw || contains ("type=" +:+ in_quotes "traffic") raw || contains "logid=" raw
      then Some ("Fortinet", fortigate_tag raw, action_from_kv_token raw "action=")
      else if contains ",TRAFFIC," raw || contains ",THREAT," raw
      then Some ("Palo Alto", if contains ",THREAT," raw then "panos_threat" else "panos_traffic",
                 panos_action_field raw)
      else if starts_with "{" raw || contains (in_quotes "event_type") raw
      then Some ("Suricata", if contains (in_quotes "alert") raw then "suricata_alert" else "suricata_flow",
                 Some (eve_verdict raw))
      else if contains "filterlog[" raw || contains "filterlog:" raw
      then Some ("pfSense", "pfsense_filterlog",
                 if contains ",pass," raw then Some "Allowed"
                 else if contains ",block," raw then Some "Blocked" else None)
      else Some ("Unknown", "unknown_template", None)
  end.

Definition map_audit_vendor (vendor_lower : string) : string :=
  if String.eqb vendor_lower "oisf" then "suricata"
  else if String.eqb vendor_lower "netgate" then "pfsense"
  else vendor_lower.

(** ** Markers *)

Definition raw_contains_numeric `{UnicodeLib} (raw : string) (num : Z) : bool :=
  let target := uint_to_string num in
  existsb (String.eqb target) (split_chars (fun c => negb (is_alphanumeric c)) (chars raw)).

(** The loop over the digits of a group, of which it takes at most [n]. *)
Fixpoint scan_digits (n : nat) (s : string) (j : nat) : nat :=
  match n with
  | O => j
  | S n' => if byte_is is_ascii_digit s j then scan_digits n' s (S j) else j
  end.

(** The loop over the groups; [more] groups follow this one. *)
Fixpoint scan_groups (s : string) (more j : nat) : option nat :=
  let gs := j in
  let j := scan_digits 3 s gs in
  if (j =? gs)%nat || byte_is is_ascii_digit s j then None
  else match parse_uint u16_max (str_slice gs j s) with
       | Some v =>
           if (v <=? 255)%Z
           then match more with
                | O => Some j
                | S more' => if byte_is (Ascii.eqb ".") s j then scan_groups s more' (S j) else None
                end
           else None
       | None => None
       end.

Definition joins_address (a : ascii) : bool := is_ascii_alnum a || Ascii.eqb "." a.

Definition ipv4_len_at (s : string) (i : nat) : option nat :=
  if negb (byte_is is_ascii_digit s i) then None
  else if (0 <? i)%nat && byte_is joins_address s (i - 1) then None
  else j <-! scan_groups s 3 i;
       if byte_is joins_address s j then None else Some (j - i).

(** The loop of [distinct_ipv4_count] at offset [i] of [raw], whose rest is
    [rest]; it stops at the second address. *)
Fixpoint distinct_from (raw : string) (found : list string) (i skip : nat) (rest : string) : nat :=
  match rest with
  | "" => length found
  | String _ rest' =>
      match skip with
      | S k => distinct_from raw found (S i) k rest'
      | O =>
          match ipv4_len_at raw i with
          | Some len =>
              let cand := str_slice i (i + len) raw in
              if existsb (String.eqb cand) found then distinct_from raw found (S i) (len - 1) rest'
              else let found' := found ++ [cand] in
                   if (length found' =? 2)%nat then 2 else distinct_from raw found' (S i) (len - 1) rest'
          | None => distinct_from raw found (S i) 0 rest'
          end
      end
  end.

Definition distinct_ipv4_count (raw : string) : nat := distinct_from raw [] 0 0 raw.

Definition SRC_IP_KEYS : list string :=
  ["src="; "srcip="; "src_ip="; "saddr="; "srcaddr="; "source_ip=";
   in_quotes "src_ip"; in_quotes "srcip"; in_quotes "source_ip"].

Definition DST_IP_KEYS : list string :=
  ["dst="; "dstip="; "dst_ip="; "daddr="; "dstaddr="; "dest_ip=";
   in_quotes "dst_ip"; in_quotes "dstip"; in_quotes "dst"].

Definition raw_has_src_ip_marker (raw : string) : bool :=
  existsb (fun k => contains k raw) SRC_IP_KEYS || (2 <=? distinct_ipv4_count raw)%nat.

Definition raw_has_dst_ip_marker (raw : string) : bool :=
  existsb (fun k => contains k raw) DST_IP_KEYS || (2 <=? distinct_ipv4_count raw)%nat.

Definition PORT_KEYS : list string :=
  ["spt="; "dpt="; "sport="; "dport="; "srcport="; "dstport="; "src_port="; "dst_port="; "port="; "srcPort="; "dstPort="].

Definition digits_in_range (b : string) (from : nat) : bool :=
  let e := scan_digits 5 b from in
  if (e =? from)%nat || byte_is is_ascii_digit b e then false
  else match parse_uint u32_max (str_slice from e b) with
       | Some v => ((1 <=? v) && (v <=? 65535))%Z
       | None => false
       end.

(** The loop over the occurrences of a port key. *)
Fixpoint port_after_key (key raw : string) (i skip : nat) (rest : string) : bool :=
  match rest with
  | "" => false
  | String _ rest' =>
      match skip with
      | S k => port_after_key key raw (S i) k rest'
      | O => if starts_with key rest
             then digits_in_range raw (i + String.length key)
                  || port_after_key key raw (S i) (String.length key - 1) rest'
             else port_after_key key raw (S i) 0 rest'
      end
  end.

(** [interface:IPv4/PORT] with its colon at [i] *)
Definition port_after_address (raw : string) (i : nat) : bool :=
  byte_is (Ascii.eqb ":") raw i
  && match ipv4_len_at raw (i + 1) with
     | Some len => let slash := (i + 1 + len)%nat in
                   byte_is (Ascii.eqb "/") raw slash && digits_in_range raw (slash + 1)
     | None => false
     end.

Definition raw_has_port_marker (raw : string) : bool :=
  existsb (fun key => port_after_key key raw 0 0 raw) PORT_KEYS
  || existsb (port_after_address raw) (seq 0 (String.length raw))
  || match find "]:" raw with Some p => digits_in_range raw (p + 2) | None => false end.

Definition PROTO_KEYS : list string :=
  ["proto="; "protocol="; "ip_proto="; "ipprotocol="; in_quotes "proto"; in_quotes "protocol"].

Definition PROTO_NAMES : list string :=
  ["TCP"; "UDP"; "ICMP"; "ICMPV6"; "GRE"; "ESP"; "SCTP"; "OSPF"; "IGMP"; "AH"].

Definition is_ascii_alphabetic (a : ascii) : bool := ascii_in 65 90 a || ascii_in 97 122 a.

Definition ends_value (c : string) : bool := is_whitespace c || one_of [","; "}"; "]"] c.

Definition proto_key_value (raw key : string) : bool :=
  match find key raw with
  | Some p =>
      let rest := trim_start (trim_start_matches (String.eqb dquote_str)
                    (trim_start_matches (String.eqb ":") (str_drop (p + String.length key) raw))) in
      match chars rest with c :: _ => negb (ends_value c) | [] => false end
  | None => false
  end.

(** The loop over the occurrences of a name, which may overlap. *)
Fixpoint whole_word (name up : string) (abs : nat) (rest : string) : bool :=
  match rest with
  | "" => false
  | String _ rest' =>
      (starts_with name rest
       && ((abs =? 0)%nat || negb (byte_is is_ascii_alphabetic up (abs - 1)))
       && negb (byte_is is_ascii_alphabetic up (abs + String.length name)))
      || whole_word name up (S abs) rest'
  end.

Definition raw_has_protocol_marker (raw : string) : bool :=
  existsb (proto_key_value raw) PROTO_KEYS
  || let up := to_ascii_uppercase raw in existsb (fun name => whole_word name up 0 up) PROTO_NAMES.

(** ** Templates *)

Definition template_is_valid `{RegexEngine} (raw template gt_template : string) : bool :=
  if is_empty template then false
  else
    let masked_tokens := tokenize (Drain.mask raw) in
    let tmpl_tokens := tokenize template in
    if negb (length tmpl_tokens =? length masked_tokens)%nat then false
    else if negb (forallb (fun p => String.eqb p.1 wildcard || String.eqb p.1 p.2) (zip tmpl_tokens masked_tokens))
    then false
    else negb (starts_with "%" gt_template && negb (contains gt_template template)).
