(* ===== verification/GroundTruthFacts.v ===== *)
(** * The scanners of the evaluator

    The address scanner stays in its line, and the count of distinct addresses
    that stops early and jumps over matches is that of all addresses at all
    offsets, cut at two. *)

From S2P Require Export GroundTruth RustStrFacts.

(** ** The scanners stay in the line *)

Lemma byte_is_range p s i : byte_is p s i = true -> i < String.length s.
Proof.
  unfold byte_is, byte_at. destruct (str_drop i s) as [|a r] eqn:E; [done|]. intros _.
  assert (String.length (str_drop i s) = String.length s - i) as Hl.
  { clear E. revert i. induction s as [|b s IH]; intros [|i]; simpl; auto. }
  rewrite E in Hl. simpl in Hl. lia.
Qed.

Lemma scan_digits_range n : forall s j, j <= scan_digits n s j <= j + n /\
  (scan_digits n s j <= String.length s \/ scan_digits n s j = j).
Proof.
  induction n as [|n IH]; intros s j; simpl; [lia|].
  destruct (byte_is is_ascii_digit s j) eqn:E; [|lia].
  apply byte_is_range in E. pose proof (IH s (S j)). lia.
Qed.

(** One group: where its digits end, and what follows. *)
Lemma scan_groups_step s more j e : scan_groups s more j = Some e ->
  let k := scan_digits 3 s j in
  j < k /\ match more with
          | O => e = k
          | S more' => byte_is (Ascii.eqb ".") s k = true /\ scan_groups s more' (S k) = Some e
          end.
Proof.
  destruct more; cbn [scan_groups]; cbv zeta; pose proof (scan_digits_range 3 s j) as Hd;
    set (k := scan_digits 3 s j) in *; destruct ((k =? j)%nat) eqn:E0; cbn [orb];
    try discriminate; destruct (byte_is is_ascii_digit s k); try discriminate;
    destruct (parse_uint u16_max _) as [v|]; try discriminate; destruct (v <=? 255)%Z; try discriminate;
    apply Nat.eqb_neq in E0.
  - intros [= <-]. split; [lia|done].
  - destruct (byte_is (Ascii.eqb ".") s k); [|discriminate]. intros He. split; [lia|done].
Qed.

Lemma scan_groups_range s more : forall j e, scan_groups s more j = Some e ->
  j + 2 * more + 1 <= e <= j + 4 * more + 3 /\ e <= String.length s.
Proof.
  induction more as [|more IH]; intros j e [Hk Hm]%scan_groups_step; pose proof (scan_digits_range 3 s j) as Hd.
  - subst e. lia.
  - destruct Hm as [Hdot%byte_is_range He%IH]. lia.
Qed.

(** An address found is 7 to 15 bytes long and inside the line. *)
Lemma ipv4_len_range s i len : ipv4_len_at s i = Some len -> 7 <= len <= 15 /\ i + len <= String.length s.
Proof.
  unfold ipv4_len_at. destruct (negb _); [done|]. destruct (_ && _); [done|].
  destruct (scan_groups s 3 i) as [j|] eqn:E; [|done]. destruct (byte_is joins_address s j); [done|].
  intros [= <-]. apply scan_groups_range in E. lia.
Qed.

Lemma distinct_from_range raw rest : forall found i skip, length found <= 1 ->
  distinct_from raw found i skip rest <= 2.
Proof.
  induction rest as [|a rest IH]; intros found i [|k] Hf; simpl; [lia..| |by apply IH].
  destruct (ipv4_len_at raw i) as [len|]; [|by apply IH].
  destruct (existsb _ found); [by apply IH|]. rewrite length_app. simpl.
  destruct (length found + 1 =? 2)%nat eqn:E; [lia|]. apply Nat.eqb_neq in E.
  apply IH. rewrite length_app. simpl. lia.
Qed.

(** ** Jumping over a match misses nothing *)

Lemma byte_is_impl (p q : ascii -> bool) s i : (forall a, p a = true -> q a = true) ->
  byte_is p s i = true -> byte_is q s i = true.
Proof. intros Hpq. unfold byte_is. destruct (byte_at s i); auto. Qed.

Lemma digit_joins a : is_ascii_digit a = true -> joins_address a = true.
Proof. unfold joins_address, is_ascii_alnum, is_ascii_digit. by intros ->. Qed.

Lemma dot_joins a : Ascii.eqb "." a = true -> joins_address a = true.
Proof. unfold joins_address. intros ->. apply orb_true_r. Qed.

Lemma scan_digits_bytes n s : forall j k, j <= k < scan_digits n s j -> byte_is is_ascii_digit s k = true.
Proof.
  induction n as [|n IH]; intros j k Hk; simpl in Hk; [lia|].
  destruct (byte_is is_ascii_digit s j) eqn:E; [|lia]. destruct (decide (k = j)) as [->|]; [done|].
  apply (IH (S j)). lia.
Qed.

Lemma scan_groups_bytes s more : forall j e, scan_groups s more j = Some e ->
  forall k, j <= k < e -> byte_is joins_address s k = true.
Proof.
  induction more as [|more IH]; intros j e [Hj Hm]%scan_groups_step k Hk; set (d := scan_digits 3 s j) in *.
  - subst e. apply (byte_is_impl is_ascii_digit); [apply digit_joins|]. by apply (scan_digits_bytes 3 s j k).
  - destruct Hm as [Hdot He]. destruct (decide (k < d)).
    + apply (byte_is_impl is_ascii_digit); [apply digit_joins|]. apply (scan_digits_bytes 3 s j k). lia.
    + destruct (decide (k = d)) as [Ek|Ek].
      { apply (byte_is_impl (Ascii.eqb ".")); [apply dot_joins|]. by rewrite Ek. }
      apply (IH _ _ He). lia.
Qed.

Lemma no_address_inside s i len k : ipv4_len_at s i = Some len -> i < k < i + len -> ipv4_len_at s k = None.
Proof.
  intros Hl Hk. apply ipv4_len_range in Hl as Hr. unfold ipv4_len_at in Hl. destruct (negb _); [done|].
  destruct (_ && _); [done|]. destruct (scan_groups s 3 i) as [j|] eqn:E; [|done].
  destruct (byte_is joins_address s j); [done|]. injection Hl as Hl.
  assert (byte_is joins_address s (k - 1) = true) as Hb by (apply (scan_groups_bytes _ _ _ _ E); lia).
  unfold ipv4_len_at. destruct (negb _); [done|]. rewrite Hb. destruct (Nat.ltb_spec 0 k); [done|lia].
Qed.

(** ** All addresses *)

Definition address_at (s : string) (i : nat) : option string :=
  (fun len => str_slice i (i + len) s) <$> ipv4_len_at s i.

(** The addresses at the [n] offsets from [i] on. *)
Definition addresses_from (s : string) (i n : nat) : gset string := list_to_set (omap (address_at s) (seq i n)).

Definition addresses (s : string) : gset string := addresses_from s 0 (String.length s).

Lemma addresses_from_S s i n : addresses_from s i (S n) =
  match address_at s i with Some a => {[a]} ∪ addresses_from s (S i) n | None => addresses_from s (S i) n end.
Proof.
  unfold addresses_from. cbn [seq]. cbn [omap list_omap]. by destruct (address_at s i).
Qed.

Lemma existsb_eqb_false c (l : list string) : existsb (String.eqb c) l = false -> c ∉ l.
Proof.
  intros E Hin. assert (existsb (String.eqb c) l = true); [|congruence].
  apply existsb_exists. exists c. split; [by apply list_elem_of_In|apply String.eqb_refl].
Qed.

Lemma existsb_eqb_true c (l : list string) : existsb (String.eqb c) l = true -> c ∈ l.
Proof. intros (x & Hx & ->%String.eqb_eq)%existsb_exists. by apply list_elem_of_In. Qed.

Lemma distinct_from_spec raw rest : forall found i skip, NoDup found -> length found <= 1 ->
  (forall k, i <= k < i + skip -> ipv4_len_at raw k = None) ->
  distinct_from raw found i skip rest =
    Nat.min 2 (size (list_to_set found ∪ addresses_from raw i (String.length rest) : gset string)).
Proof.
  induction rest as [|a rest IH]; intros found i skip Hd Hf Hk; cbn [distinct_from String.length].
  { replace (addresses_from raw i 0) with (∅ : gset string) by done.
    rewrite union_empty_r_L, size_list_to_set by done. destruct skip; lia. }
  rewrite addresses_from_S. unfold address_at. destruct skip as [|k].
  - destruct (ipv4_len_at raw i) as [len|] eqn:E; cbn [fmap option_fmap option_map].
    + set (cand := str_slice i (i + len) raw).
      assert (forall k, S i <= k < S i + (len - 1) -> ipv4_len_at raw k = None) as Hin.
      { intros k Hk'. apply (no_address_inside raw i len); [done|]. lia. }
      destruct (existsb (String.eqb cand) found) eqn:Ex.
      * apply existsb_eqb_true in Ex. rewrite IH by done. do 2 f_equal. set_solver.
      * apply existsb_eqb_false in Ex. rewrite length_app. cbn [length].
        assert (NoDup (found ++ [cand])) as Hd' by (apply NoDup_app; split_and!; [done|set_solver|apply NoDup_singleton]).
        destruct (Nat.eqb_spec (length found + 1) 2) as [E2|E2].
        -- assert (2 <= size (list_to_set (found ++ [cand]) : gset string)) as H2.
           { rewrite size_list_to_set, length_app by done. simpl. lia. }
           assert (list_to_set (found ++ [cand]) ⊆ (list_to_set found ∪ ({[cand]} ∪ addresses_from raw (S i) (String.length rest)) : gset string))
             as Hsub by set_solver.
           apply subseteq_size in Hsub. lia.
        -- rewrite IH; [|done|rewrite length_app; simpl; lia|done]. do 2 f_equal. set_solver.
    + apply IH; [done..|lia].
  - rewrite (Hk i) by lia. cbn [fmap option_fmap option_map]. apply IH; [done..|]. intros k' Hk'. apply Hk. lia.
Qed.

(** C30: the scan for endpoint evidence is the naive one: the loop that jumps
    over every match and stops at the second distinct address counts the
    distinct addresses at all offsets of the line, cut at two; and an address
    found is 7 to 15 bytes long and lies inside the line. *)
Theorem distinct_ipv4_count_naive raw :
  distinct_ipv4_count raw = Nat.min 2 (size (addresses raw)) /\
  forall i len, ipv4_len_at raw i = Some len -> 7 <= len <= 15 /\ i + len <= String.length raw.
Proof.
  split; [|intros i len; apply ipv4_len_range]. unfold distinct_ipv4_count, addresses.
  rewrite distinct_from_spec; [|constructor|simpl; lia|lia]. do 2 f_equal. set_solver.
Qed.
