(* ===== verification/Evaluator.v ===== *)
(** * The evaluator ([crates/ulpf-ai/src/evaluator.rs])

    The accuracy audit of a corpus against its ground truth, the latency
    distribution, and the benchmark passes over worker threads.  The closures
    that the audit gets are functions with a state; a parse that panics returns
    no event, since the audit catches the panic.  Clocks, draws and the order of
    hash maps are arguments. *)

From Stdlib Require Import Floats.SpecFloat.
From stdpp Require Export functions.
From S2P Require Export GroundTruth Pipeline.

(** ** Sidecar ground truth *)

Record SidecarGroundTruth := mkSidecar {
  sg_raw : string;
  sg_vendor : string;
  sg_template_tag : string;
  sg_fields : JValue;
  sg_disposition : option string;
  sg_protocol : option string;
  sg_difficulty : string;
  sg_origin : string
}.

Notation GtOverrides := (gmap string SidecarGroundTruth).

(** [serde_json::from_str::<SidecarGroundTruth>], with the text of the error *)
Class SidecarJson := { sidecar_from_str : string -> Result string SidecarGroundTruth }.

Fixpoint sidecar_lines `{SidecarJson} (path : string) (i : nat) (ls : list string) (m : GtOverrides)
  : Result string GtOverrides :=
  match ls with
  | [] => Ok m
  | line :: ls' =>
      if is_empty (trim line) then sidecar_lines path (S i) ls' m
      else match sidecar_from_str line with
           | Err e => Err (path +:+ ":" +:+ pretty (i + 1)%nat +:+ ": " +:+ e)
           | Ok rec => sidecar_lines path (S i) ls' (<[sg_raw rec := rec]> m)
           end
  end.

(** [read] is [std::fs::read_to_string]. *)
Definition load_sidecar_gt `{SidecarJson} (read : string -> Result string string) (path : string)
  : Result string GtOverrides :=
  match read path with
  | Err e => Err e
  | Ok text => sidecar_lines path 0 (lines text) ∅
  end.

(** ** What the audit reports *)

Record AuditFailure := mkFailure {
  af_metric : string;
  af_corpus_index : nat;
  af_raw : string;
  af_expected : string;
  af_observed : string;
  af_cluster_id : Z
}.

(** [gt_wrong_by_key] is a [BTreeMap]. *)
Record RobustnessSummary := mkRob {
  lines_total : nat;
  format_recognized : nat;
  no_panic : nat;
  lossless_ok : nat;
  gt_fields_total : nat;
  gt_fields_correct : nat;
  gt_fields_wrong : nat;
  gt_fields_null : nat;
  gt_wrong_by_key : gmap string nat
}.

Definition rob_default : RobustnessSummary := mkRob 0 0 0 0 0 0 0 0 ∅.

Record AccuracyAuditSummary := mkAccuracy {
  total_audited : nat;
  vendor_classification_accuracy_pct : f64;
  grouping_accuracy_ga_pct : f64;
  template_accuracy_ta_pct : f64;
  mean_field_accuracy_pct : f64;
  src_ip_accuracy_pct : f64;
  dst_ip_accuracy_pct : f64;
  src_port_accuracy_pct : f64;
  dst_port_accuracy_pct : f64;
  protocol_accuracy_pct : f64;
  disposition_accuracy_pct : f64;
  action_inviolability_pct : f64;
  lossless_sha256_match_pct : f64;
  valid_uuid_v7_pct : f64;
  oracle_ga_pct : f64;
  unique_clusters : nat
}.

(** ** Sidecar grading *)

Definition str_value (o : option string) : JValue := match o with Some s => JString s | None => JNull end.
Definition int_value (o : option Z) : JValue := match o with Some z => JInt z | None => JNull end.

Definition engine_field_value (a : NetworkActivity) (key : string) : JValue :=
  if String.eqb key "src_ip" then str_value (ep_ip (na_src_endpoint a))
  else if String.eqb key "dst_ip" then str_value (ep_ip (na_dst_endpoint a))
  else if String.eqb key "src_port" then int_value (ep_port (na_src_endpoint a))
  else if String.eqb key "dst_port" then int_value (ep_port (na_dst_endpoint a))
  else str_value (ci_protocol_name (na_connection_info a)).

(** [==] on values; the keys of an object are distinct and their order does not
    count.  A float is its text. *)
Fixpoint jvalue_eqb (x y : JValue) : bool :=
  match x, y with
  | JNull, JNull => true
  | JBool a, JBool b => Bool.eqb a b
  | JInt a, JInt b => (a =? b)%Z
  | JFloat a, JFloat b => String.eqb a b
  | JString a, JString b => String.eqb a b
  | JArray l, JArray l' =>
      (fix go l l' := match l, l' with
                      | [], [] => true
                      | a :: l, b :: l' => jvalue_eqb a b && go l l'
                      | _, _ => false
                      end) l l'
  | JObject m, JObject m' =>
      (length m =? length m')%nat
      && (fix go m := match m with
                      | [] => true
                      | (k, a) :: m => match ExtractCommon.assoc k m' with Some b => jvalue_eqb a b | None => false end && go m
                      end) m
  | _, _ => false
  end.

Definition gt_value_matches (expected observed : JValue) : bool :=
  match expected, observed with
  | JString a, JString b => eq_ignore_ascii_case a b
  | _, _ => jvalue_eqb expected observed
  end.

Definition GT_KEYS : list string := ["src_ip"; "dst_ip"; "src_port"; "dst_port"; "protocol"].

(** An expectation that is not null: [gt_fields_total], and right or wrong. *)
Definition count_field (key : string) (matched : bool) (r : RobustnessSummary) : RobustnessSummary :=
  if matched
  then mkRob (lines_total r) (format_recognized r) (no_panic r) (lossless_ok r) (gt_fields_total r + 1)
         (gt_fields_correct r + 1) (gt_fields_wrong r) (gt_fields_null r) (gt_wrong_by_key r)
  else mkRob (lines_total r) (format_recognized r) (no_panic r) (lossless_ok r) (gt_fields_total r + 1)
         (gt_fields_correct r) (gt_fields_wrong r + 1) (gt_fields_null r)
         (<[key := default 0 (gt_wrong_by_key r !! key) + 1]> (gt_wrong_by_key r)).

(** The body of the loop over the keys. *)
Definition grade_gt_field (gt_fields : JValue) (activity : option NetworkActivity) (r : RobustnessSummary)
    (key : string) : RobustnessSummary :=
  match json_get gt_fields key with
  | None | Some JNull =>
      mkRob (lines_total r) (format_recognized r) (no_panic r) (lossless_ok r) (gt_fields_total r)
        (gt_fields_correct r) (gt_fields_wrong r) (gt_fields_null r + 1) (gt_wrong_by_key r)
  | Some expected =>
      let observed := match activity with Some a => engine_field_value a key | None => JNull end in
      count_field key (gt_value_matches expected observed) r
  end.

Definition grade_gt_fields (gt_fields : JValue) (activity : option NetworkActivity) (r : RobustnessSummary)
  : RobustnessSummary :=
  foldl (grade_gt_field gt_fields activity) r GT_KEYS.

(** ** Checks of one event

    The metrics with a counter of their own.  A check gives the expected and
    the observed text of a failure. *)

Inductive Metric := MTemplate | MVendor | MSrcIp | MDstIp | MSrcPort | MDstPort | MProtocol | MDisposition.

#[global] Instance metric_eq_dec : EqDecision Metric.
Proof. solve_decision. Defined.

Definition metric_name (m : Metric) : string :=
  match m with
  | MTemplate => "template" | MVendor => "vendor" | MSrcIp => "src_ip" | MDstIp => "dst_ip"
  | MSrcPort => "src_port" | MDstPort => "dst_port" | MProtocol => "protocol" | MDisposition => "disposition"
  end.

Definition audit_vendor (gt_vendor : string) (a : NetworkActivity) : option (string * string) :=
  let parsed_vendor := map_audit_vendor (to_ascii_lowercase (pr_vendor_name (md_product (na_metadata a)))) in
  let expected_vendor := to_ascii_lowercase gt_vendor in
  if contains expected_vendor parsed_vendor || contains parsed_vendor expected_vendor then None
  else Some (expected_vendor, parsed_vendor).

Definition audit_ip (marker : string -> bool) (raw : string) (ip : option string) : option (string * string) :=
  match ip with
  | Some ip => if contains ip raw then None else Some ("ip embedded in raw", ip)
  | None => if negb (marker raw) then None else Some ("ip embedded in raw", "null")
  end.

Definition audit_port (raw : string) (port : option Z) : option (string * string) :=
  match port with
  | Some p => if ((1 <=? p) && (p <=? 65535))%Z && contains (uint_to_string p) raw then None
              else Some ("valid 1-65535 port present in raw", uint_to_string p)
  | None => if negb (raw_has_port_marker raw) then None
            else Some ("valid 1-65535 port present in raw", "null")
  end.

Definition audit_protocol `{UnicodeLib} (raw : string) (c : ConnectionInfo) : option (string * string) :=
  match ci_protocol_name c with
  | Some proto =>
      let proto_upper := to_ascii_uppercase proto in
      let name_ok := contains proto_upper (to_ascii_uppercase raw) || String.eqb proto_upper "IP" in
      let num_ok := match ci_protocol_num c with Some n => raw_contains_numeric raw n | None => false end in
      if name_ok || num_ok then None else Some (proto_upper, "no name or numeric match in raw")
  | None => if negb (raw_has_protocol_marker raw) then None else Some ("protocol present", "null")
  end.

Definition audit_disposition (gt_action : option string) (disposition : string) : option (string * string) :=
  match gt_action with
  | Some expected_act => if String.eqb disposition expected_act then None else Some (expected_act, disposition)
  | None => if negb (is_empty disposition) && negb (String.eqb disposition "Unknown") then None
            else Some ("non-Unknown disposition", disposition)
  end.

(** ** Groupings *)

(** [map[cluster][tag] += 1] *)
Notation Grouping := (gmap Z (gmap string nat)).

Definition count_tag (g : Grouping) (cluster : Z) (tag : string) : Grouping :=
  let counts := default ∅ (g !! cluster) in
  <[cluster := <[tag := default 0 (counts !! tag) + 1]> counts]> g.

(** [counts.values().max().copied().unwrap_or(0)] *)
Definition max_count (counts : gmap string nat) : nat := map_fold (fun _ n acc => Nat.max n acc) 0 counts.

(** [values().map(..).sum()] *)
Definition majority_total (g : Grouping) : nat := map_fold (fun _ counts acc => max_count counts + acc) 0 g.

(** [max_by_key(|(_, c)| c)]: the last of the greatest *)
Fixpoint max_by_count (best : string * nat) (l : list (string * nat)) : string * nat :=
  match l with
  | [] => best
  | x :: l' => max_by_count (if (best.2 <=? x.2)%nat then x else best) l'
  end.

(** The tag of the majority; [iter] lists the entries of a map in its order. *)
Definition majority_tag (iter : gmap string nat -> list (string * nat)) (counts : gmap string nat) : option string :=
  match iter counts with
  | [] => None
  | x :: l => Some (max_by_count x l).1
  end.

Definition grouping_failures (iter : gmap string nat -> list (string * nat)) (g : Grouping)
    (records : list (nat * string * Z * string)) : list AuditFailure :=
  omap (fun '(idx, raw, cid, gt_tag) =>
          match g !! cid ≫= majority_tag iter with
          | Some m => if String.eqb m gt_tag then None
                      else Some (mkFailure "grouping" idx raw gt_tag ("cluster " +:+ pretty (Z.to_N cid)) cid)
          | None => None
          end) records.

(** ** The audit *)

(** The counters and lists of [audit_accuracy]: a counter per metric, those of
    digests and identifiers, the groupings and the records, which keep the line
    of the corpus beside its index. *)
Record Audit := mkAudit {
  au_rob : RobustnessSummary;
  au_correct : Metric -> nat;
  au_sha_matches : nat;
  au_uuid_valid : nat;
  au_failures : list AuditFailure;
  au_clusters : Grouping;
  au_oracle : Grouping;
  au_records : list (nat * string * Z * string)
}.

Definition audit_new : Audit := mkAudit rob_default (fun _ => 0) 0 0 [] ∅ ∅ [].

Definition set_rob (r : RobustnessSummary) (a : Audit) : Audit :=
  mkAudit r (au_correct a) (au_sha_matches a) (au_uuid_valid a) (au_failures a) (au_clusters a) (au_oracle a) (au_records a).

Definition add_failure (f : AuditFailure) (a : Audit) : Audit :=
  mkAudit (au_rob a) (au_correct a) (au_sha_matches a) (au_uuid_valid a) (au_failures a ++ [f]) (au_clusters a)
    (au_oracle a) (au_records a).

(** A check that passes counts, one that fails is listed. *)
Definition record_check (idx : nat) (raw : string) (cid : Z) (m : Metric) (v : option (string * string)) (a : Audit)
  : Audit :=
  match v with
  | None => mkAudit (au_rob a) (<[m := S (au_correct a m)]> (au_correct a)) (au_sha_matches a) (au_uuid_valid a)
              (au_failures a) (au_clusters a) (au_oracle a) (au_records a)
  | Some (expected, observed) => add_failure (mkFailure (metric_name m) idx raw expected observed cid) a
  end.

Definition bump_total (r : RobustnessSummary) : RobustnessSummary :=
  mkRob (lines_total r + 1) (format_recognized r) (no_panic r) (lossless_ok r) (gt_fields_total r)
    (gt_fields_correct r) (gt_fields_wrong r) (gt_fields_null r) (gt_wrong_by_key r).

(** The counters of an event that was parsed. *)
Definition bump_parsed (recognized lossless : bool) (r : RobustnessSummary) : RobustnessSummary :=
  mkRob (lines_total r) (format_recognized r + Nat.b2n recognized) (no_panic r + 1) (lossless_ok r + Nat.b2n lossless)
    (gt_fields_total r) (gt_fields_correct r) (gt_fields_wrong r) (gt_fields_null r) (gt_wrong_by_key r).

(** The digest and the identifier. *)
Definition add_provenance (sha_ok uuid_ok : bool) (a : Audit) : Audit :=
  mkAudit (au_rob a) (au_correct a) (au_sha_matches a + Nat.b2n sha_ok) (au_uuid_valid a + Nat.b2n uuid_ok)
    (au_failures a) (au_clusters a) (au_oracle a) (au_records a).

(** [Uuid::parse_str(s).is_ok()] *)
Class UuidLib := { uuid_parses : string -> bool }.

Section Audit.
Context `{Sha256} `{HexLib} `{UnicodeLib} `{RegexEngine} `{UuidLib}.

(** Identity, template and oracle of a line. *)
Definition audit_cluster (idx : nat) (raw : string) (cid : Z) (template gt_template : string) (a : Audit) : Audit :=
  record_check idx raw cid MTemplate
    (if template_is_valid raw template gt_template then None else Some (gt_template, template))
    (mkAudit (bump_total (au_rob a)) (au_correct a) (au_sha_matches a) (au_uuid_valid a) (au_failures a)
       (count_tag (au_clusters a) cid gt_template)
       (count_tag (au_oracle a) (compute_signature_hash gt_template) gt_template)
       (au_records a ++ [(idx, raw, cid, gt_template)])).

(** The checks of a parsed event, in the order of the source. *)
Definition audit_event (idx : nat) (raw : string) (cid : Z) (gt_vendor : string) (gt_action : option string)
    (e : NetworkActivity) (a : Audit) : Audit :=
  let check m v a := record_check idx raw cid m v a in
  let parsed_vendor := map_audit_vendor (to_ascii_lowercase (pr_vendor_name (md_product (na_metadata e)))) in
  let sha_ok := String.eqb (md_raw_hash (na_metadata e)) (compute_sha256 raw) in
  let uuid_ok := uuid_parses (md_event_id (na_metadata e)) in
  let a1 := check MVendor (audit_vendor gt_vendor e)
              (set_rob (bump_parsed (negb (String.eqb parsed_vendor "unknown")) sha_ok (au_rob a)) a) in
  let a2 := add_provenance sha_ok uuid_ok a1 in
  let a3 := check MSrcIp (audit_ip raw_has_src_ip_marker raw (ep_ip (na_src_endpoint e))) a2 in
  let a4 := check MDstIp (audit_ip raw_has_dst_ip_marker raw (ep_ip (na_dst_endpoint e))) a3 in
  let a5 := check MSrcPort (audit_port raw (ep_port (na_src_endpoint e))) a4 in
  let a6 := check MDstPort (audit_port raw (ep_port (na_dst_endpoint e))) a5 in
  let a7 := check MProtocol (audit_protocol raw (na_connection_info e)) a6 in
  check MDisposition (audit_disposition gt_action (na_disposition e)) a7.

Context {P C : Type}.
Variable parse_fn : P -> string -> option NetworkActivity * P.
Variable cluster_fn : C -> string -> option ((Z * string) * C).
Variable gt_overrides : GtOverrides.

Definition ground_truth (raw : string) : option (string * string * option string) :=
  match gt_overrides !! raw with
  | Some sc => Some (sg_vendor sc, sg_template_tag sc, sg_disposition sc)
  | None => extract_ground_truth raw
  end.

Definition grade_sidecar (raw : string) (e : option NetworkActivity) (a : Audit) : Audit :=
  match gt_overrides !! raw with
  | Some sc => set_rob (grade_gt_fields (sg_fields sc) e (au_rob a)) a
  | None => a
  end.

(** The body of the loop; [None] is a panic outside of the parse. *)
Definition audit_line (idx : nat) (raw : string) (p : P) (c : C) (a : Audit) : option (Audit * P * C) :=
  match ground_truth raw with
  | None => None
  | Some (gt_vendor, gt_template, gt_action) =>
      match cluster_fn c raw with
      | None => None
      | Some ((cluster_id, template_str), c1) =>
          let a1 := audit_cluster idx raw cluster_id template_str gt_template a in
          match parse_fn p raw with
          | (Some e, p1) =>
              Some (grade_sidecar raw (Some e) (audit_event idx raw cluster_id gt_vendor gt_action e a1), p1, c1)
          | (None, p1) =>
              Some (add_failure (mkFailure "panic" idx raw "parse without panic" "panicked" cluster_id)
                      (grade_sidecar raw None a1), p1, c1)
          end
      end
  end.

Fixpoint audit_loop (idx : nat) (corpus : list string) (p : P) (c : C) (a : Audit) : option (Audit * P * C) :=
  match corpus with
  | [] => Some (a, p, c)
  | raw :: corpus' =>
      match audit_line idx raw p c a with
      | None => None
      | Some (a1, p1, c1) => audit_loop (S idx) corpus' p1 c1 a1
      end
  end.

Definition pct (correct total : nat) : f64 :=
  f64_mul (f64_div (f64_of_Z (Z.of_nat correct)) (f64_of_Z (Z.of_nat total))) (f64_of_Z 100).

(** [clocks] are the times and latencies of the two calls of the miner. *)
Definition verify_action_preservation (clocks : (Z * Z) * (Z * Z)) : option bool :=
  let miner := miner_new drain_default in
  let log_allow := "FW_ACTION: traffic ALLOW proto=TCP src=10.0.0.1 dst=10.0.0.2" in
  let log_deny := "FW_ACTION: traffic DENY proto=TCP src=10.0.0.1 dst=10.0.0.2" in
  match add_log miner clocks.1.1 clocks.1.2 log_allow with
  | None => None
  | Some (res_allow, miner1) =>
      match add_log miner1 clocks.2.1 clocks.2.2 log_deny with
      | None => None
      | Some (res_deny, _) => Some (negb (cr_cluster_id res_allow =? cr_cluster_id res_deny)%nat)
      end
  end.

Definition summarise (audit_count : nat) (inviolable : bool) (a : Audit) : AccuracyAuditSummary :=
  let p m := pct (au_correct a m) audit_count in
  let mean := f64_div (f64_add (f64_add (f64_add (f64_add (p MSrcIp) (p MDstIp)) (p MSrcPort)) (p MDstPort)) (p MProtocol))
                (f64_of_Z 5) in
  mkAccuracy audit_count (p MVendor) (pct (majority_total (au_clusters a)) audit_count) (p MTemplate) mean
    (p MSrcIp) (p MDstIp) (p MSrcPort) (p MDstPort) (p MProtocol) (p MDisposition)
    (if inviolable then f64_of_Z 100 else f64_zero) (pct (au_sha_matches a) audit_count)
    (pct (au_uuid_valid a) audit_count) (pct (majority_total (au_oracle a)) audit_count) (size (au_clusters a)).

Definition audit_accuracy (iter : gmap string nat -> list (string * nat)) (clocks : (Z * Z) * (Z * Z))
    (corpus : list string) (p : P) (c : C)
  : option (AccuracyAuditSummary * RobustnessSummary * list AuditFailure * P * C) :=
  match audit_loop 0 corpus p c audit_new with
  | None => None
  | Some (a, p1, c1) =>
      match verify_action_preservation clocks with
      | None => None
      | Some inviolable =>
          Some (summarise (length corpus) inviolable a, au_rob a,
                au_failures a ++ grouping_failures iter (au_clusters a) (au_records a), p1, c1)
      end
  end.

End Audit.
