(* ===== verification/Benchmark.v ===== *)
(** * Benchmark passes ([crates/ulpf-ai/src/evaluator.rs], the engine)

    Worker threads that count the lines they process, the latency distribution,
    and the two isolated passes that the evaluation compares.  A run of the
    threads is a schedule: the sequence of the workers that take a turn.  The
    triage thread of the pipeline runs between the calls. *)

From Stdlib Require Import Floats.SpecFloat.
From S2P Require Export Evaluator.

Definition f64_sqrt : f64 -> f64 := SFsqrt 53 1024.

(** ** Latency *)

Record LatencySummary := mkLatency {
  min_micros : f64;
  p1_micros : f64;
  p5_micros : f64;
  p25_micros : f64;
  p50_micros : f64;
  p75_micros : f64;
  p90_micros : f64;
  p95_micros : f64;
  p99_micros : f64;
  p999_micros : f64;
  p9999_micros : f64;
  max_micros : f64;
  mean_micros : f64;
  std_dev_micros : f64;
  samples_count : nat
}.

(** The stable [sort_by(partial_cmp)]; numbers that do not compare are equal. *)
Fixpoint insert_f64 (x : f64) (l : list f64) : list f64 :=
  match l with
  | [] => [x]
  | y :: l' => if f64_lt y x then y :: insert_f64 x l' else x :: l
  end.

Definition sort_f64 (l : list f64) : list f64 := foldr insert_f64 [] l.

Definition sum_f64 (l : list f64) : f64 := foldl f64_add f64_zero l.

Definition len_f64 {A} (l : list A) : f64 := f64_of_Z (Z.of_nat (length l)).

(** [len * num / den]; the product wraps *)
Definition scaled_index (num den : Z) (len : nat) : nat := Z.to_nat (u64 (Z.of_nat len * num) / den).

(** The statistics of sorted samples; [None] is an index out of range. *)
Definition latency_summary (latencies : list f64) : option LatencySummary :=
  let len := length latencies in
  let mean := f64_div (sum_f64 latencies) (len_f64 latencies) in
  let var := f64_div (sum_f64 ((fun x => let d := f64_sub x mean in f64_mul d d) <$> latencies)) (len_f64 latencies) in
  min <-! latencies !! 0;
  p1 <-! latencies !! (len / 100);
  p5 <-! latencies !! scaled_index 5 100 len;
  p25 <-! latencies !! scaled_index 25 100 len;
  p50 <-! latencies !! scaled_index 50 100 len;
  p75 <-! latencies !! scaled_index 75 100 len;
  p90 <-! latencies !! scaled_index 90 100 len;
  p95 <-! latencies !! scaled_index 95 100 len;
  p99 <-! latencies !! scaled_index 99 100 len;
  p999 <-! latencies !! Nat.min (scaled_index 999 1000 len) (len - 1);
  p9999 <-! latencies !! Nat.min (scaled_index 9999 10000 len) (len - 1);
  Some (mkLatency min p1 p5 p25 p50 p75 p90 p95 p99 p999 p9999 (default f64_zero (last latencies)) mean
          (f64_sqrt var) len).

Section Calls.
Context {P : Type}.
(** A call on a line, with the state of the engine; [None] is a panic. *)
Variable call : P -> string -> option P.
Variable corpus : list string.

(** [corpus[i % corpus.len()]], which panics on an empty corpus *)
Definition line_at (i : nat) : option string := corpus !! (i mod length corpus)%nat.

(** [n] samples from the [i]-th on; [nanos i] is what the clock measures. *)
Fixpoint sample_from (nanos : nat -> Z) (n i : nat) (p : P) : option (list f64 * P) :=
  match n with
  | O => Some ([], p)
  | S n' =>
      raw <-! line_at i;
      p1 <-! call p raw;
      match sample_from nanos n' (S i) p1 with
      | None => None
      | Some (l, p2) => Some (f64_div (f64_of_Z (nanos i)) (f64_of_Z 1000) :: l, p2)
      end
  end.

(** [Vec::<f64>::with_capacity(count)] panics above [isize::MAX] bytes. *)
Definition capacity_ok (count : nat) : bool := (8 * Z.of_nat count <=? 2 ^ 63 - 1)%Z.

Definition sample_latency_distribution (nanos : nat -> Z) (target_samples : nat) (p : P)
  : option (LatencySummary * P) :=
  let count := Nat.max target_samples 100 in
  if capacity_ok count
  then match sample_from nanos count 0 p with
       | None => None
       | Some (latencies, p1) => s <-! latency_summary (sort_f64 latencies); Some (s, p1)
       end
  else None.

(** [for i in 0..1000.min(corpus.len())] *)
Fixpoint warm_up (ls : list string) (p : P) : option P :=
  match ls with
  | [] => Some p
  | raw :: ls' => p1 <-! call p raw; warm_up ls' p1
  end.

(** ** Workers *)

Record Worker := mkWorker { w_idx : nat; w_local_count : Z; w_local_bytes : Z }.

(** The threads (gone after a panic), the shared counters and the engine. *)
Record Bench := mkBench {
  bn_workers : list (option Worker);
  bn_count : Z;
  bn_bytes : Z;
  bn_state : P
}.

Definition bench_start (threads : nat) (p : P) : Bench :=
  mkBench ((fun worker_id => Some (mkWorker worker_id 0 0)) <$> seq 0 threads) 0 0 p.

(** A turn of the loop of worker [i]. *)
Definition bench_turn (b : Bench) (i : nat) : Bench :=
  match bn_workers b !! i with
  | Some (Some w) =>
      match (raw <-! line_at (w_idx w); p1 <-! call (bn_state b) raw; Some (raw, p1)) with
      | None => mkBench (<[i := None]> (bn_workers b)) (bn_count b) (bn_bytes b) (bn_state b)
      | Some (raw, p1) =>
          let local_count := (w_local_count w + 1)%Z in
          let local_bytes := (w_local_bytes w + Z.of_nat (String.length raw))%Z in
          if (local_count mod 1024 =? 0)%Z
          then mkBench (<[i := Some (mkWorker (S (w_idx w)) local_count 0)]> (bn_workers b))
                 (u64 (bn_count b + 1024)) (u64 (bn_bytes b + local_bytes)) p1
          else mkBench (<[i := Some (mkWorker (S (w_idx w)) local_count local_bytes)]> (bn_workers b))
                 (bn_count b) (bn_bytes b) p1
      end
  | _ => b
  end.

(** What a worker adds when it sees the stop signal. *)
Definition worker_stop (b : Bench) (w : option Worker) : Bench :=
  match w with
  | Some w => mkBench (bn_workers b) (u64 (bn_count b + w_local_count w mod 1024)) (u64 (bn_bytes b + w_local_bytes w))
                (bn_state b)
  | None => b
  end.

Definition run_workers (threads : nat) (schedule : list nat) (p : P) : Bench :=
  let b := foldl bench_turn (bench_start threads p) schedule in
  foldl worker_stop b (bn_workers b).

End Calls.

Arguments mkBench {P}.
Arguments bn_workers {P}.
Arguments bn_count {P}.
Arguments bn_bytes {P}.
Arguments bn_state {P}.

(** ** Results of a pass *)

Record HardwareThroughputSummary := mkThroughput {
  events_per_sec : f64;
  megabytes_per_sec : f64;
  events_per_ms_per_core : f64;
  per_core_eps : f64;
  total_processed : Z;
  total_bytes_processed : Z;
  ht_duration_secs : f64
}.

Definition throughput_of (elapsed : f64) (threads : nat) (total bytes : Z) : HardwareThroughputSummary :=
  let eps := f64_div (f64_of_Z total) elapsed in
  let mbps := f64_div (f64_of_Z bytes) (f64_mul (f64_mul (f64_of_Z 1024) (f64_of_Z 1024)) elapsed) in
  let t := f64_of_Z (Z.of_nat threads) in
  mkThroughput eps mbps (f64_div eps (f64_mul t (f64_of_Z 1000))) (f64_div eps t) total bytes elapsed.

Record TierDiagnosticsSummary := mkDiagnostics {
  tier1_lru_hit_rate : f64;
  tier1_lookups : Z;
  tier1_hits : Z;
  tier1_misses : Z;
  tier1_evictions : Z;
  tier1_entries_count : nat;
  tier2_clusters_count : nat;
  tier2_cluster_matches : Z;
  tier2_unique_anchor_enforced : bool;
  td_laya_dispatches : Z;
  tier3_ai_deduplication_pct : f64;
  tier3_auto_onboarded_count : Z
}.

Record BenchmarkTierResult := mkTierResult {
  bt_name : string;
  bt_throughput : HardwareThroughputSummary;
  bt_latency : LatencySummary;
  bt_accuracy : AccuracyAuditSummary;
  bt_tier_diagnostics : option TierDiagnosticsSummary;
  bt_failures : list AuditFailure;
  bt_robustness : RobustnessSummary
}.

(** What a pass draws from outside: the schedule of its workers, the time they
    ran, the samples of the clock, the clocks of the two probe lines, and the
    order of the hash maps. *)
Record BenchEnv := mkBenchEnv {
  be_schedule : list nat;
  be_elapsed : f64;
  be_nanos : nat -> Z;
  be_clocks : (Z * Z) * (Z * Z);
  be_iter : gmap string nat -> list (string * nat)
}.

(** [DefaultHasher] over the bytes of a string; its algorithm is not specified. *)
Class DefaultHasher := { default_hash : string -> Z }.

Section Passes.
Context `{Sha256} `{HexLib} `{UnicodeLib} `{ChronoLib} `{RegexLib} `{JsonLib} `{AhoCorasick} `{RegexEngine} `{UnicodeText}
  `{LibM} `{UuidLib} `{DefaultHasher}.

(** ** Baseline *)

(** The [n]-th call of a parser draws [envs n]. *)
Definition baseline_parse (envs : nat -> ParseEnv) (n : nat) (raw : string) : option NetworkActivity * nat :=
  (parse_lossless (envs n) raw, S n).

Definition baseline_call (envs : nat -> ParseEnv) (n : nat) (raw : string) : option nat :=
  match baseline_parse envs n raw with (Some _, n') => Some n' | (None, _) => None end.

Definition baseline_cluster (c : unit) (raw : string) : option ((Z * string) * unit) :=
  let masked := Drain.mask raw in Some ((default_hash masked, masked), c).

Definition benchmark_baseline_isolated (envs : nat -> ParseEnv) (be : BenchEnv) (corpus : list string)
    (threads latency_samples : nat) (gt_overrides : GtOverrides) : option BenchmarkTierResult :=
  n0 <-! warm_up (baseline_call envs) (take 1000 corpus) 0;
  let b := run_workers (baseline_call envs) corpus threads (be_schedule be) n0 in
  let throughput := throughput_of (be_elapsed be) threads (bn_count b) (bn_bytes b) in
  match sample_latency_distribution (baseline_call envs) corpus (be_nanos be) latency_samples (bn_state b) with
  | None => None
  | Some (latency, n1) =>
      match audit_accuracy (baseline_parse envs) baseline_cluster gt_overrides (be_iter be) (be_clocks be) corpus n1 tt with
      | None => None
      | Some (accuracy, robustness, failures, _, _) =>
          Some (mkTierResult "Baseline (UniversalParser)" throughput latency accuracy None failures robustness)
      end
  end.

(** ** Tiered *)

(** Before its [n]-th call the triage thread takes the turns [te_turns n]; the
    call draws [te_pipe n]. *)
Record TieredEnv := mkTieredEnv {
  te_pipe : nat -> PipeEnv;
  te_turns : nat -> list (list (string * list string) * Z)
}.

(** A turn of the triage thread, which waits while the channel is empty. *)
Definition triage_turn (p : TieredPipeline) (t : list (string * list string) * Z) : TieredPipeline :=
  default p (worker_step t.1 t.2 p).

(** A panic is caught by the caller; it leaves the shared state as it was. *)
Definition tiered_process (te : TieredEnv) (s : nat * TieredPipeline) (raw : string)
  : option NetworkActivity * (nat * TieredPipeline) :=
  let '(n, p) := s in
  let p0 := foldl triage_turn p (te_turns te n) in
  match process (te_pipe te n) p0 raw with
  | Some (a, p1) => (Some a, (S n, p1))
  | None => (None, (S n, p0))
  end.

Definition tiered_call (te : TieredEnv) (s : nat * TieredPipeline) (raw : string) : option (nat * TieredPipeline) :=
  match tiered_process te s raw with (Some _, s') => Some s' | (None, _) => None end.

(** [clocks n] are the time and the latency of the [n]-th call of the miner. *)
Definition miner_cluster (clocks : nat -> Z * Z) (s : nat * DrainMiner) (raw : string)
  : option ((Z * string) * (nat * DrainMiner)) :=
  let '(n, m) := s in
  match add_log m (clocks n).1 (clocks n).2 raw with
  | None => None
  | Some (res, m1) => Some ((Z.of_nat (cr_cluster_id res), cr_template res), (S n, m1))
  end.

Definition dedupe_pct (total dispatches : Z) : f64 :=
  if (0 <? total)%Z
  then f64_mul (f64_div (f64_of_Z (Z.max 0 (total - dispatches))) (f64_of_Z total)) (f64_of_Z 100)
  else f64_of_Z 100.

(** The statistics are read when the workers have stopped; the number of
    clusters is read at the end. *)
Definition tier_diagnostics (stats : PipelineStats) (clusters : nat) (total : Z) : TierDiagnosticsSummary :=
  let lru := ps_lru_stats stats in
  mkDiagnostics (ps_lru_hit_ratio stats) (ls_total_lookups lru) (ps_tier1_lru_hits stats) (ls_misses lru)
    (ls_evictions lru) (ls_entries_count lru) clusters (ps_tier2_drain_hits stats)
    (negb (is_nil_list (unique_anchor_tokens drain_default))) (ps_tier3_laya_dispatches stats)
    (dedupe_pct total (ps_tier3_laya_dispatches stats)) (ps_tier3_laya_onboarded stats).

Definition benchmark_tiered_isolated (te : TieredEnv) (mclocks : nat -> Z * Z) (be : BenchEnv) (corpus : list string)
    (threads latency_samples : nat) (gt_overrides : GtOverrides) : option BenchmarkTierResult :=
  cache0 <-! with_capacity 16 512;
  s0 <-! warm_up (tiered_call te) (take 1000 corpus) (0, with_ring_buffer_capacity cache0 (Z.to_nat 10000));
  let b := run_workers (tiered_call te) corpus threads (be_schedule be) s0 in
  let total := bn_count b in
  let stats := pipeline_stats (bn_state b).2 in
  let throughput := throughput_of (be_elapsed be) threads total (bn_bytes b) in
  match sample_latency_distribution (tiered_call te) corpus (be_nanos be) latency_samples (bn_state b) with
  | None => None
  | Some (latency, s1) =>
      match audit_accuracy (tiered_process te) (miner_cluster mclocks) gt_overrides (be_iter be) (be_clocks be) corpus
              s1 (0, miner_new drain_default) with
      | None => None
      | Some (accuracy, robustness, failures, s2, _) =>
          Some (mkTierResult "3-Tier (LRU+DrainDotNet+Laya)" throughput latency accuracy
                  (Some (tier_diagnostics stats (tier2_cluster_count s2.2) total)) failures robustness)
      end
  end.

(** ** The evaluation *)

Definition calc_diff (baseline tiered : f64) : f64 :=
  if f64_lt f64_zero baseline
  then f64_clamp (f64_mul (f64_div (f64_sub baseline tiered) baseline) (f64_of_Z 100)) (f64_of_Z (-999)) (f64_lit 999 10)
  else f64_zero.

Record EvaluationReport := mkReport {
  er_timestamp : string;
  er_mode : string;
  er_threads : nat;
  er_duration_secs : Z;
  er_corpus_size : nat;
  er_corpus_total_bytes : nat;
  er_baseline : option BenchmarkTierResult;
  er_tiered_pipeline : option BenchmarkTierResult;
  throughput_speedup_factor : option f64;
  bandwidth_speedup_factor : option f64;
  latency_reduction_p50_pct : option f64;
  latency_reduction_p99_pct : option f64;
  er_corpus_kind : string
}.

(** The ratios, when both passes ran. *)
Definition compare_passes (b t : option BenchmarkTierResult) (f : BenchmarkTierResult -> BenchmarkTierResult -> f64)
  : option f64 :=
  match b, t with Some b, Some t => Some (f b t) | _, _ => None end.

(** [now] is the text of the clock at the end. *)
Definition evaluate_with_mode (envs : nat -> ParseEnv) (te : TieredEnv) (mclocks : nat -> Z * Z) (be1 be2 : BenchEnv)
    (now mode : string) (corpus : list string) (duration_secs : Z) (threads latency_samples : nat)
    (gt_overrides : GtOverrides) : option EvaluationReport :=
  let total_bytes := sum_list (String.length <$> corpus) in
  let all := String.eqb mode "all" in
  baseline_res <-! (if all || String.eqb mode "baseline"
                    then r <-! benchmark_baseline_isolated envs be1 corpus threads latency_samples gt_overrides; Some (Some r)
                    else Some None);
  tiered_res <-! (if all || String.eqb mode "tiered"
                  then r <-! benchmark_tiered_isolated te mclocks be2 corpus threads latency_samples gt_overrides; Some (Some r)
                  else Some None);
  let ratio f := compare_passes baseline_res tiered_res f in
  Some (mkReport now mode threads duration_secs (length corpus) total_bytes baseline_res tiered_res
          (ratio (fun b t => f64_div (events_per_sec (bt_throughput t)) (events_per_sec (bt_throughput b))))
          (ratio (fun b t => f64_div (megabytes_per_sec (bt_throughput t)) (megabytes_per_sec (bt_throughput b))))
          (ratio (fun b t => calc_diff (p50_micros (bt_latency b)) (p50_micros (bt_latency t))))
          (ratio (fun b t => calc_diff (p99_micros (bt_latency b)) (p99_micros (bt_latency t))))
          "core").

End Passes.
