(* ===== verification/EvaluatorFacts.v ===== *)
(** * The audit keeps its books

    Every line of the corpus is either counted as correct or listed as a
    failure, metric by metric; sidecar expectations are graded exactly once;
    and the grouping failures are the lines outside the majorities that the
    grouping accuracy counts. *)

From S2P Require Export Evaluator.

(** ** Sums over maps *)

Section Weight.
Context `{Countable K} {A : Type}.

Definition weight (f : K -> A -> nat) (m : gmap K A) : nat := map_fold (fun k x acc => f k x + acc) 0 m.

Lemma weight_empty f : weight f ∅ = 0.
Proof. apply map_fold_empty. Qed.

Lemma weight_fresh f m k x : m !! k = None -> weight f (<[k := x]> m) = f k x + weight f m.
Proof. intros Hk. unfold weight. rewrite map_fold_insert_L; [done|intros; lia|done]. Qed.

Lemma weight_insert f m k x : weight f (<[k := x]> m) + default 0 (f k <$> m !! k) = weight f m + f k x.
Proof.
  destruct (m !! k) as [y|] eqn:E; simpl.
  - rewrite <- (insert_id m k y E) at 2. rewrite <- (insert_delete_eq m k x), <- (insert_delete_eq m k y).
    rewrite !weight_fresh by apply lookup_delete_eq. lia.
  - rewrite weight_fresh by done. lia.
Qed.

Lemma weight_ext f g m : (forall k x, m !! k = Some x -> f k x = g k x) -> weight f m = weight g m.
Proof.
  induction m as [|k x m Hk IH] using map_ind; intros Hfg; [by rewrite !weight_empty|].
  rewrite !weight_fresh by done. f_equal; [apply Hfg, lookup_insert_eq|].
  apply IH. intros k' x' Hk'. apply Hfg. rewrite lookup_insert_ne; [done|congruence].
Qed.

End Weight.

(** ** Groupings *)

(** The grouping of a list of cluster ids and tags. *)
Definition grouping_of (l : list (Z * string)) : Grouping := foldl (fun g p => count_tag g p.1 p.2) ∅ l.

(** For any choice of a tag per cluster, the sizes of the chosen classes add up
    to the number of lines in them. *)
Definition chosen (choice : Z -> string) (c : Z) (counts : gmap string nat) : nat := default 0 (counts !! choice c).

Definition in_choice (choice : Z -> string) (p : Z * string) : bool := String.eqb (choice p.1) p.2.

Lemma count_tag_weight choice g c t :
  weight (chosen choice) (count_tag g c t) = weight (chosen choice) g + Nat.b2n (in_choice choice (c, t)).
Proof.
  unfold count_tag. set (counts := default ∅ (g !! c)).
  pose proof (weight_insert (chosen choice) g c (<[t := default 0 (counts !! t) + 1]> counts)) as E.
  assert (default 0 (chosen choice c <$> g !! c) = chosen choice c counts) as E1.
  { subst counts. by destruct (g !! c). }
  assert (chosen choice c (<[t := default 0 (counts !! t) + 1]> counts)
          = chosen choice c counts + Nat.b2n (in_choice choice (c, t))) as E2.
  2: { rewrite E1, E2 in E. lia. }
  unfold chosen, in_choice. simpl. destruct (String.eqb_spec (choice c) t) as [->|Hn].
  - rewrite lookup_insert_eq. simpl. lia.
  - rewrite lookup_insert_ne by congruence. simpl. lia.
Qed.

Lemma grouping_weight choice l : forall g,
  weight (chosen choice) (foldl (fun g p => count_tag g p.1 p.2) g l)
  = weight (chosen choice) g + length (List.filter (in_choice choice) l).
Proof.
  induction l as [|[c t] l IH]; intros g; simpl; [lia|]. rewrite IH, count_tag_weight.
  destruct (in_choice choice (c, t)); simpl; lia.
Qed.

(** No cluster without lines, and no tag without a line. *)
Definition grouping_wf (g : Grouping) : Prop :=
  forall c counts, g !! c = Some counts -> counts <> ∅.

Lemma grouping_of_wf l : grouping_wf (grouping_of l).
Proof.
  unfold grouping_of. apply (foldl_inv grouping_wf); [|by intros ??; rewrite lookup_empty].
  intros g [c t] Hg c' counts. unfold count_tag. simpl.
  destruct (decide (c = c')) as [->|Hn]; [rewrite lookup_insert_eq|rewrite lookup_insert_ne by done; apply Hg].
  intros [= <-]. apply insert_non_empty.
Qed.

Lemma grouping_of_mem l c t : (c, t) ∈ l -> is_Some (grouping_of l !! c).
Proof.
  unfold grouping_of. assert (forall g, (c, t) ∈ l \/ is_Some (g !! c) ->
    is_Some (foldl (fun g p => count_tag g p.1 p.2) g l !! c)) as Hi; [|by auto].
  induction l as [|[c' t'] l IH]; intros g Hg; simpl.
  - destruct Hg as [Hg|Hg]; [by apply elem_of_nil in Hg|done].
  - apply IH. rewrite elem_of_cons in Hg. unfold count_tag.
    destruct (decide (c' = c)) as [->|Hn]; [right; rewrite lookup_insert_eq; by eexists|].
    rewrite lookup_insert_ne by done. destruct Hg as [[Hg|Hg]|Hg]; [congruence|by left|by right].
Qed.

(** ** The majority *)

Lemma max_count_spec counts : counts <> ∅ ->
  (exists t, counts !! t = Some (max_count counts)) /\ forall t n, counts !! t = Some n -> n <= max_count counts.
Proof.
  unfold max_count. induction counts as [|t n counts Ht IH] using map_ind; [done|]. intros _.
  rewrite map_fold_insert_L; [|intros; lia|done].
  destruct (decide (counts = ∅)) as [->|Hne].
  - rewrite map_fold_empty, Nat.max_0_r. split; [exists t; apply lookup_insert_eq|].
    intros t' n'. destruct (decide (t = t')) as [->|]; [rewrite lookup_insert_eq; intros [= ->]; lia|].
    by rewrite lookup_insert_ne, lookup_empty.
  - destruct (IH Hne) as [[t0 H0] Hm]. set (mx := map_fold _ 0 counts) in *. split.
    + destruct (Nat.max_spec n mx) as [[_ ->]|[_ ->]]; [exists t0|exists t; apply lookup_insert_eq].
      rewrite lookup_insert_ne; [done|congruence].
    + intros t' n'. destruct (decide (t = t')) as [->|]; [rewrite lookup_insert_eq; intros [= ->]; lia|].
      rewrite lookup_insert_ne by done. intros ?%Hm. lia.
Qed.

Lemma max_by_count_spec l : forall best, max_by_count best l ∈ best :: l /\
  Forall (fun x => x.2 <= (max_by_count best l).2) (best :: l).
Proof.
  induction l as [|x l IH]; intros best; simpl; [split; [set_solver|by repeat constructor]|].
  destruct (best.2 <=? x.2)%nat eqn:E; [apply Nat.leb_le in E|apply Nat.leb_gt in E].
  - destruct (IH x) as [Hin HF]. apply Forall_cons in HF as [Hx HF].
    split; [set_solver|]. repeat constructor; [lia|done|done].
  - destruct (IH best) as [Hin HF]. apply Forall_cons in HF as [Hx HF].
    split; [set_solver|]. repeat constructor; [done|lia|done].
Qed.

Section Majority.
Variable iter : gmap string nat -> list (string * nat).
Hypothesis iter_perm : forall m, iter m ≡ₚ map_to_list m.

Lemma majority_tag_spec counts : counts <> ∅ ->
  exists t, majority_tag iter counts = Some t /\ counts !! t = Some (max_count counts).
Proof.
  intros Hne. unfold majority_tag. pose proof (iter_perm counts) as HP.
  destruct (iter counts) as [|x l] eqn:E.
  { apply Permutation_nil in HP. by apply map_to_list_empty_iff in HP. }
  exists (max_by_count x l).1. split; [done|].
  destruct (max_by_count_spec l x) as [Hin HF]. rewrite Forall_forall in HF. setoid_rewrite HP in HF.
  destruct (max_by_count x l) as [t n]. rewrite HP in Hin. apply elem_of_map_to_list in Hin. simpl in *.
  destruct (max_count_spec counts Hne) as [[t0 H0] Hm]. rewrite Hin. f_equal.
  apply Nat.le_antisymm; [by eapply Hm|]. apply elem_of_map_to_list in H0. apply (HF _ H0).
Qed.

Definition majority_choice (g : Grouping) (c : Z) : string := default "" (g !! c ≫= majority_tag iter).

(** The grouping accuracy counts the lines that are in the majority of their cluster. *)
Lemma majority_total_spec l :
  majority_total (grouping_of l) = length (List.filter (in_choice (majority_choice (grouping_of l))) l).
Proof.
  change (majority_total (grouping_of l)) with (weight (fun _ counts => max_count counts) (grouping_of l)).
  rewrite (weight_ext _ (chosen (majority_choice (grouping_of l)))).
  - unfold grouping_of at 2. by rewrite grouping_weight, weight_empty.
  - intros c counts Hc. unfold chosen, majority_choice. rewrite Hc. simpl.
    destruct (majority_tag_spec counts) as (t & -> & Ht); [by eapply grouping_of_wf|]. simpl. by rewrite Ht.
Qed.

Definition pair_of (r : nat * string * Z * string) : Z * string := let '(_, _, c, t) := r in (c, t).

Lemma grouping_failures_length records :
  length (grouping_failures iter (grouping_of (pair_of <$> records)) records)
  + majority_total (grouping_of (pair_of <$> records)) = length records.
Proof.
  rewrite majority_total_spec. set (g := grouping_of (pair_of <$> records)).
  assert (forall l, l ⊆ records -> length (grouping_failures iter g l)
    + length (List.filter (in_choice (majority_choice g)) (pair_of <$> l)) = length l) as Hl; [|by apply Hl].
  induction l as [|[[[idx raw] c] t] l IH]; intros Hs; [done|].
  assert (is_Some (g !! c)) as [counts Hc].
  { apply (grouping_of_mem _ c t). apply list_elem_of_fmap. exists (idx, raw, c, t). split; [done|]. set_solver. }
  destruct (majority_tag_spec counts) as (m & Hm & _); [by eapply grouping_of_wf|].
  unfold grouping_failures in *. rewrite fmap_cons. cbn [omap list_omap pair_of List.filter].
  assert (majority_choice g c = m) as Ech by (unfold majority_choice; rewrite Hc; simpl; by rewrite Hm).
  rewrite Hc. cbn [mbind option_bind]. rewrite Hm. unfold in_choice at 1. cbn [fst snd]. rewrite Ech.
  specialize (IH ltac:(set_solver)). destruct (String.eqb m t); cbn [length]; lia.
Qed.

End Majority.

(** ** Sidecar grading *)

Record gt_ok (r : RobustnessSummary) : Prop := {
  go_total : gt_fields_total r = gt_fields_correct r + gt_fields_wrong r;
  go_by_key : weight (fun _ n => n) (gt_wrong_by_key r) = gt_fields_wrong r;
  go_keys : map_Forall (fun key _ => key ∈ GT_KEYS) (gt_wrong_by_key r)
}.

(** What grading leaves alone. *)
Definition same_lines (r r' : RobustnessSummary) : Prop :=
  lines_total r' = lines_total r /\ format_recognized r' = format_recognized r
  /\ no_panic r' = no_panic r /\ lossless_ok r' = lossless_ok r.

Definition graded_fields (r : RobustnessSummary) : nat := gt_fields_total r + gt_fields_null r.

Lemma count_field_ok key ok r : key ∈ GT_KEYS -> gt_ok r ->
  let r' := count_field key ok r in gt_ok r' /\ same_lines r r' /\ graded_fields r' = graded_fields r + 1.
Proof.
  intros Hin [Ht Hk Hkeys]. unfold count_field, same_lines, graded_fields.
  destruct ok; simpl; split_and!; try done; try lia; split; simpl; try lia; try done; [|by apply map_Forall_insert_2].
  pose proof (weight_insert (fun _ n => n) (gt_wrong_by_key r) key (default 0 (gt_wrong_by_key r !! key) + 1)) as E.
  destruct (gt_wrong_by_key r !! key); simpl in *; lia.
Qed.

Lemma grade_gt_field_ok f a r key : key ∈ GT_KEYS -> gt_ok r ->
  let r' := grade_gt_field f a r key in
  gt_ok r' /\ same_lines r r' /\ graded_fields r' = graded_fields r + 1.
Proof.
  intros Hin Hr. unfold grade_gt_field.
  assert (gt_ok (mkRob (lines_total r) (format_recognized r) (no_panic r) (lossless_ok r) (gt_fields_total r)
    (gt_fields_correct r) (gt_fields_wrong r) (gt_fields_null r + 1) (gt_wrong_by_key r))) as Hn
    by (destruct Hr; by split).
  destruct (json_get f key) as [[]|]; try (by apply count_field_ok);
    (split; [exact Hn|]; unfold same_lines, graded_fields; simpl; split_and!; try done; lia).
Qed.

Lemma grade_gt_fields_ok f a r : gt_ok r ->
  let r' := grade_gt_fields f a r in
  gt_ok r' /\ same_lines r r' /\ graded_fields r' = graded_fields r + 5.
Proof.
  intros Hr. unfold grade_gt_fields.
  assert (forall r1 k n, k ∈ GT_KEYS -> gt_ok r1 /\ same_lines r r1 /\ graded_fields r1 = graded_fields r + n ->
    gt_ok (grade_gt_field f a r1 k) /\ same_lines r (grade_gt_field f a r1 k)
    /\ graded_fields (grade_gt_field f a r1 k) = graded_fields r + S n) as Hstep.
  { intros r1 k n Hk (H1 & Hs & Hg). destruct (grade_gt_field_ok f a r1 k Hk H1) as (H2 & Hs2 & Hg2).
    unfold same_lines in *. split_and!; try done; try (destruct_and!; congruence). lia. }
  cbn [foldl GT_KEYS]. do 5 (apply Hstep; [unfold GT_KEYS; set_solver|]). unfold same_lines. split_and!; auto with lia.
Qed.

(** ** Checks *)

Definition failures_of (name : string) (fs : list AuditFailure) : nat :=
  length (List.filter (fun f => String.eqb (af_metric f) name) fs).

Lemma failures_of_app name l l' : failures_of name (l ++ l') = failures_of name l + failures_of name l'.
Proof. unfold failures_of. by rewrite List.filter_app, length_app. Qed.

(** The lines that metric [m] has judged. *)
Definition judged (a : Audit) (m : Metric) : nat := au_correct a m + failures_of (metric_name m) (au_failures a).

Definition is_metric (name : string) : bool :=
  one_of ["template"; "vendor"; "src_ip"; "dst_ip"; "src_port"; "dst_port"; "protocol"; "disposition"] name.

(** Everything but the counter and the failures of the metric is kept. *)
Lemma rc_rob idx raw cid m v a : au_rob (record_check idx raw cid m v a) = au_rob a.
Proof. by destruct v as [[]|]. Qed.

Lemma rc_sha idx raw cid m v a : au_sha_matches (record_check idx raw cid m v a) = au_sha_matches a.
Proof. by destruct v as [[]|]. Qed.

Lemma rc_clusters idx raw cid m v a : au_clusters (record_check idx raw cid m v a) = au_clusters a.
Proof. by destruct v as [[]|]. Qed.

Lemma rc_oracle idx raw cid m v a : au_oracle (record_check idx raw cid m v a) = au_oracle a.
Proof. by destruct v as [[]|]. Qed.

Lemma rc_records idx raw cid m v a : au_records (record_check idx raw cid m v a) = au_records a.
Proof. by destruct v as [[]|]. Qed.

Lemma rc_others idx raw cid m v a name : is_metric name = false ->
  failures_of name (au_failures (record_check idx raw cid m v a)) = failures_of name (au_failures a).
Proof.
  unfold record_check. destruct v as [[e o]|]; [|done]. intros Hn. simpl.
  rewrite failures_of_app. unfold failures_of at 2. simpl.
  destruct (String.eqb_spec (metric_name m) name) as [<-|_]; [by destruct m|simpl; lia].
Qed.

Create HintDb audit discriminated.
#[export] Hint Rewrite rc_rob rc_sha rc_clusters rc_oracle rc_records : audit.
#[export] Hint Rewrite rc_others using done : audit.

Lemma record_check_judged idx raw cid m v a m' :
  judged (record_check idx raw cid m v a) m' = judged a m' + if decide (m' = m) then 1 else 0.
Proof.
  unfold judged, record_check. destruct v as [[e o]|]; simpl.
  - rewrite failures_of_app. unfold failures_of at 2. simpl.
    case_decide as E; [subst m'; rewrite String.eqb_refl; simpl; lia|].
    destruct (String.eqb_spec (metric_name m) (metric_name m')) as [En|_]; [|simpl; lia].
    destruct m, m'; done.
  - case_decide as E; [subst m'; rewrite fn_lookup_insert; lia|].
    rewrite fn_lookup_insert_ne by congruence. lia.
Qed.

(** ** The loop *)

Section Books.
Context `{Sha256} `{HexLib} `{UnicodeLib} `{RegexEngine} `{UuidLib}.

Lemma judged_set_rob r a m : judged (set_rob r a) m = judged a m.
Proof. done. Qed.

Lemma judged_provenance s u a m : judged (add_provenance s u a) m = judged a m.
Proof. done. Qed.

Lemma audit_event_judged idx raw cid v act e a m :
  judged (audit_event idx raw cid v act e a) m = judged a m + if decide (m = MTemplate) then 0 else 1.
Proof.
  unfold audit_event. cbv zeta.
  rewrite !record_check_judged, judged_provenance, record_check_judged, judged_set_rob. destruct m; simpl; lia.
Qed.

(** The parsed event changes, beside the checks, the counters of parsed lines. *)
Lemma audit_event_rob idx raw cid v act e a : let a' := audit_event idx raw cid v act e a in
  let sha_ok := String.eqb (md_raw_hash (na_metadata e)) (compute_sha256 raw) in
  (exists known, au_rob a' = bump_parsed known sha_ok (au_rob a)) /\
  au_sha_matches a' = au_sha_matches a + Nat.b2n sha_ok /\
  au_clusters a' = au_clusters a /\ au_oracle a' = au_oracle a /\ au_records a' = au_records a /\
  forall name, is_metric name = false -> failures_of name (au_failures a') = failures_of name (au_failures a).
Proof.
  cbv zeta. unfold audit_event. cbv zeta. autorewrite with audit. simpl. autorewrite with audit.
  split_and!; try done; [by eexists|]. intros name Hn. autorewrite with audit. simpl. by autorewrite with audit.
Qed.

(** The books after [n] lines are clustered, [k] parsed or given up and [s]
    graded against a sidecar. *)
Record books (n k s : nat) (a : Audit) : Prop := {
  bk_lines : lines_total (au_rob a) = n;
  bk_template : judged a MTemplate = n;
  bk_checks : forall m, m <> MTemplate -> judged a m + failures_of "panic" (au_failures a) = k;
  bk_panic : no_panic (au_rob a) + failures_of "panic" (au_failures a) = k;
  bk_grouping : failures_of "grouping" (au_failures a) = 0;
  bk_gt : gt_ok (au_rob a);
  bk_graded : graded_fields (au_rob a) = 5 * s;
  bk_lossless : lossless_ok (au_rob a) = au_sha_matches a /\ lossless_ok (au_rob a) <= no_panic (au_rob a);
  bk_format : format_recognized (au_rob a) <= no_panic (au_rob a);
  bk_records : length (au_records a) = n;
  bk_clusters : au_clusters a = grouping_of (pair_of <$> au_records a)
}.

Lemma books_new : books 0 0 0 audit_new.
Proof. by split. Qed.

Lemma grouping_of_snoc l c t : grouping_of (l ++ [(c, t)]) = count_tag (grouping_of l) c t.
Proof. unfold grouping_of. by rewrite foldl_app. Qed.

Lemma audit_cluster_books n k s idx raw cid tmpl gt a : books n k s a -> books (S n) k s (audit_cluster idx raw cid tmpl gt a).
Proof.
  intros B. destruct B. unfold audit_cluster. split; autorewrite with audit; simpl; try done.
  - lia.
  - rewrite record_check_judged. unfold judged in *. simpl in *. lia.
  - intros m Hm. rewrite record_check_judged. specialize (bk_checks0 m Hm).
    rewrite decide_False by done. unfold judged in *. simpl in *. lia.
  - destruct bk_gt0; by split.
  - rewrite length_app. simpl. lia.
  - by rewrite fmap_app, bk_clusters0, <- grouping_of_snoc.
Qed.

Lemma audit_event_books n k s idx raw cid v act e a : books n k s a -> books n (S k) s (audit_event idx raw cid v act e a).
Proof.
  intros B. destruct B. pose proof (audit_event_judged idx raw cid v act e a) as Hj.
  destruct (audit_event_rob idx raw cid v act e a) as ([known Er] & Es & Ec & Eo & El & Ef).
  destruct bk_lossless0 as [Hl Hle].
  split; rewrite ?Er, ?Es, ?Ec, ?El, ?Ef by done; unfold bump_parsed; simpl; try done.
  - rewrite Hj. simpl. lia.
  - intros m Hm. rewrite Hj, decide_False, <- (bk_checks0 m Hm) by done. lia.
  - lia.
  - destruct bk_gt0; by split.
  - split; [lia|]. destruct (String.eqb _ _); simpl; lia.
  - destruct known; simpl; lia.
Qed.

Lemma panic_books n k s idx raw e o cid a : books n k s a -> books n (S k) s (add_failure (mkFailure "panic" idx raw e o cid) a).
Proof.
  intros B. destruct B. split; simpl; try done; rewrite ?failures_of_app; try (unfold failures_of in *; simpl; lia).
  - unfold judged in *. simpl in *. rewrite failures_of_app. unfold failures_of in *. simpl. lia.
  - intros m Hm. specialize (bk_checks0 m Hm). unfold judged in *. simpl. rewrite !failures_of_app.
    unfold failures_of at 2 4. simpl. destruct m; simpl in *; lia.
Qed.

Lemma grade_books n k s r a : books n k s a -> gt_ok r -> same_lines (au_rob a) r ->
  graded_fields r = graded_fields (au_rob a) + 5 -> books n k (S s) (set_rob r a).
Proof.
  intros [] Hr (E1 & E2 & E3 & E4) Hg. split; simpl; rewrite ?E1, ?E2, ?E3, ?E4; try done. lia.
Qed.

(** The failures of the loop and those of the groupings. *)
Lemma grouping_failures_metric iter g l : Forall (fun f => af_metric f = "grouping") (grouping_failures iter g l).
Proof.
  unfold grouping_failures. induction l as [|[[[idx raw] cid] t] l IH]; cbn [omap list_omap]; [constructor|].
  destruct (g !! cid ≫= majority_tag iter) as [m|]; [|done]. destruct (String.eqb m t); [done|by constructor].
Qed.

Lemma failures_of_all name l : Forall (fun f => af_metric f = name) l -> failures_of name l = length l.
Proof.
  unfold failures_of. induction 1 as [|f l Hf HF IH]; [done|]. simpl. rewrite Hf, String.eqb_refl. simpl. by f_equal.
Qed.

Lemma failures_of_none name name' l : name' <> name -> Forall (fun f => af_metric f = name) l -> failures_of name' l = 0.
Proof.
  intros Hn. unfold failures_of. induction 1 as [|f l Hf HF IH]; [done|]. simpl. rewrite Hf.
  destruct (String.eqb_spec name name') as [->|]; [done|exact IH].
Qed.

Lemma books_failures iter n k s a : (forall m, iter m ≡ₚ map_to_list m) -> books n k s a ->
  let fs := au_failures a ++ grouping_failures iter (au_clusters a) (au_records a) in
  majority_total (au_clusters a) + failures_of "grouping" fs = n /\
  forall name, name <> "grouping" -> failures_of name fs = failures_of name (au_failures a).
Proof.
  intros Hiter B fs. subst fs. pose proof (grouping_failures_metric iter (au_clusters a) (au_records a)) as HF. split.
  - rewrite failures_of_app, (failures_of_all _ _ HF). destruct B. rewrite bk_grouping0, bk_clusters0.
    pose proof (grouping_failures_length iter Hiter (au_records a)). lia.
  - intros name Hn. rewrite failures_of_app, (failures_of_none "grouping" name _ Hn HF). lia.
Qed.

Context {P C : Type}.
Variable parse_fn : P -> string -> option NetworkActivity * P.
Variable cluster_fn : C -> string -> option ((Z * string) * C).
Variable gt_overrides : GtOverrides.

Definition has_sidecar (raw : string) : bool := match gt_overrides !! raw with Some _ => true | None => false end.

Lemma grade_sidecar_books n k s raw e a : books n k s a ->
  books n k (s + Nat.b2n (has_sidecar raw)) (grade_sidecar gt_overrides raw e a).
Proof.
  intros B. unfold grade_sidecar, has_sidecar. destruct (gt_overrides !! raw) as [sc|]; simpl; [|by rewrite Nat.add_0_r].
  destruct (grade_gt_fields_ok (sg_fields sc) e (au_rob a) (bk_gt _ _ _ _ B)) as (Hg & Hs & Hn).
  rewrite Nat.add_1_r. by apply grade_books.
Qed.

Lemma audit_line_books n s idx raw p c a a' p' c' : books n n s a ->
  audit_line parse_fn cluster_fn gt_overrides idx raw p c a = Some (a', p', c') ->
  books (S n) (S n) (s + Nat.b2n (has_sidecar raw)) a'.
Proof.
  intros B. unfold audit_line. destruct (ground_truth _ raw) as [[[v t] act]|]; [|done].
  destruct (cluster_fn c raw) as [[[cid tmpl] c1]|]; [|done].
  apply (audit_cluster_books _ _ _ idx raw cid tmpl t) in B. destruct (parse_fn p raw) as [[e|] p1]; intros [= <- <- <-].
  - by apply grade_sidecar_books, audit_event_books.
  - by apply panic_books, grade_sidecar_books.
Qed.

Definition sidecar_count (corpus : list string) : nat := length (List.filter has_sidecar corpus).

Lemma audit_loop_books corpus : forall n s idx p c a a' p' c', books n n s a ->
  audit_loop parse_fn cluster_fn gt_overrides idx corpus p c a = Some (a', p', c') ->
  books (n + length corpus) (n + length corpus) (s + sidecar_count corpus) a'.
Proof.
  induction corpus as [|raw corpus IH]; intros n s idx p c a a' p' c' B; cbn [audit_loop].
  - intros [= <- <- <-]. by rewrite !Nat.add_0_r.
  - destruct (audit_line _ _ _ idx raw p c a) as [[[a1 p1] c1]|] eqn:E; [|done]. intros EL.
    pose proof (IH _ _ _ _ _ _ _ _ _ (audit_line_books _ _ _ _ _ _ _ _ _ _ B E) EL) as B2.
    replace (n + length (raw :: corpus)) with (S n + length corpus) by (simpl; lia).
    replace (s + sidecar_count (raw :: corpus)) with (s + Nat.b2n (has_sidecar raw) + sidecar_count corpus); [done|].
    unfold sidecar_count. simpl. destruct (has_sidecar raw); simpl; lia.
Qed.

(** C16: the audit of any engine (a parser with a state, which may panic, and a
    clustering with a state) that runs through keeps complete books: every line
    is judged once by every metric (counted as correct, listed as a failure of
    that metric, or, for the metrics that need an event, listed as a panic);
    every sidecar expectation is graded right, wrong or null exactly once and
    the wrong ones add up by field; and the listed grouping failures are exactly
    the lines that the grouping accuracy does not count, whatever the order of
    the hash maps. *)
Theorem audit_books iter clocks corpus p c summary rob failures p' c' :
  (forall m, iter m ≡ₚ map_to_list m) ->
  audit_accuracy parse_fn cluster_fn gt_overrides iter clocks corpus p c = Some (summary, rob, failures, p', c') ->
  let total := length corpus in
  let failed name := failures_of name failures in
  exists (correct : Metric -> nat) (ga : nat),
    grouping_accuracy_ga_pct summary = pct ga total /\ ga + failed "grouping" = total /\
    template_accuracy_ta_pct summary = pct (correct MTemplate) total /\ correct MTemplate + failed "template" = total /\
    vendor_classification_accuracy_pct summary = pct (correct MVendor) total /\
    src_ip_accuracy_pct summary = pct (correct MSrcIp) total /\
    dst_ip_accuracy_pct summary = pct (correct MDstIp) total /\
    src_port_accuracy_pct summary = pct (correct MSrcPort) total /\
    dst_port_accuracy_pct summary = pct (correct MDstPort) total /\
    protocol_accuracy_pct summary = pct (correct MProtocol) total /\
    disposition_accuracy_pct summary = pct (correct MDisposition) total /\
    (forall m, m <> MTemplate -> correct m + failed (metric_name m) + failed "panic" = total) /\
    lines_total rob = total /\ no_panic rob + failed "panic" = total /\
    lossless_sha256_match_pct summary = pct (lossless_ok rob) total /\ lossless_ok rob <= no_panic rob /\
    gt_fields_total rob = gt_fields_correct rob + gt_fields_wrong rob /\
    gt_fields_total rob + gt_fields_null rob = 5 * sidecar_count corpus /\
    weight (fun _ n => n) (gt_wrong_by_key rob) = gt_fields_wrong rob.
Proof.
  intros Hiter. unfold audit_accuracy. destruct (audit_loop _ _ _ 0 corpus p c audit_new) as [[[a p1] c1]|] eqn:E; [|done].
  apply (audit_loop_books corpus 0 0) in E as B; [|apply books_new]. simpl in B. clear E.
  destruct (verify_action_preservation clocks) as [inv|]; [|done]. intros [= <- <- <- <- <-].
  destruct (books_failures iter _ _ _ _ Hiter B) as [Hg Hn].
  destruct B. destruct bk_gt0, bk_lossless0 as [Hl Hle].
  exists (au_correct a), (majority_total (au_clusters a)). cbv zeta. simpl.
  rewrite Hl. split_and!; try done; rewrite ?Hn by done; try lia.
  - unfold judged in bk_template0. simpl in *. lia.
  - intros m Hm. rewrite !Hn by (by destruct m). specialize (bk_checks0 m Hm). unfold judged in *. lia.
Qed.

(** A line without a ground truth stops the audit. *)
Lemma audit_loop_stops corpus raw : raw ∈ corpus -> ground_truth gt_overrides raw = None -> forall idx p c a,
  audit_loop parse_fn cluster_fn gt_overrides idx corpus p c a = None.
Proof.
  intros Hin Hg. induction corpus as [|raw' corpus IH]; intros idx p c a; [by apply elem_of_nil in Hin|].
  cbn [audit_loop]. apply elem_of_cons in Hin as [<-|Hin].
  - unfold audit_line. by rewrite Hg.
  - destruct (audit_line _ _ _ idx raw' p c a) as [[[a1 p1] c1]|]; [|done]. by apply IH.
Qed.

(** One truncated ASA line aborts the whole audit, whatever the engine: a
    line with the tag [%ASA-], no colon after it and fewer than 15 bytes from it
    on, and with no sidecar record, makes the evaluator slice past the end of the line
    while it derives the ground truth, outside of the guard that catches the
    panics of the parser. *)
Theorem truncated_asa_aborts_audit iter clocks corpus raw pos p c :
  raw ∈ corpus -> gt_overrides !! raw = None -> find "CEF:" raw = None -> find "%ASA-" raw = Some pos ->
  find ":" (str_drop pos raw) = None -> String.length raw < pos + 15 ->
  audit_accuracy parse_fn cluster_fn gt_overrides iter clocks corpus p c = None.
Proof.
  intros Hin Hs Hc Ha Hn Hl. unfold audit_accuracy. rewrite (audit_loop_stops corpus raw); [done|done|].
  unfold ground_truth, extract_ground_truth, asa_tag, contains. rewrite Hs, Hc, Ha, Hn. cbn [from_option id].
  unfold slice_checked. destruct (Nat.leb_spec (pos + 15) (String.length raw)); [lia|]. by rewrite andb_false_r.
Qed.

End Books.
