(* ===== verification/BenchmarkFacts.v ===== *)
(** * The benchmark passes count and measure what they ran

    The percentiles of the latency distribution exist and are in order; the
    counters that the workers add up in pieces of 1024 give the number of lines
    and bytes processed, in every schedule; an empty corpus panics. *)

From Stdlib Require Import Sorting.Sorted ZifyNat.
From S2P Require Export Benchmark Float64Facts EvaluatorFacts PipelineFacts.

Ltac Zify.zify_post_hook ::= Z.to_euclidean_division_equations.

(** ** Sorting *)

Definition le_f64 (x y : f64) : Prop := f64_le x y = true.

Lemma insert_f64_perm x l : insert_f64 x l ≡ₚ x :: l.
Proof.
  induction l as [|y l IH]; simpl; [done|]. destruct (f64_lt y x); [|done].
  rewrite IH. by apply Permutation_swap.
Qed.

Lemma sort_f64_perm l : sort_f64 l ≡ₚ l.
Proof. induction l as [|x l IH]; simpl; [done|]. by rewrite insert_f64_perm, IH. Qed.

Lemma insert_f64_sorted x l : f64_count x -> Forall f64_count l -> StronglySorted le_f64 l ->
  StronglySorted le_f64 (insert_f64 x l).
Proof.
  intros Hx HF. induction 1 as [|y l Hs IH Hy]; simpl; [by repeat constructor|]. apply Forall_cons in HF as [Hcy HF].
  destruct (f64_lt y x) eqn:E.
  - constructor; [by apply IH|]. rewrite insert_f64_perm. constructor; [by apply count_lt_le|done].
  - constructor; [by constructor|]. pose proof (count_le_total y x Hcy Hx E) as Hxy. constructor; [done|].
    rewrite Forall_forall in *. intros z Hz. apply (count_le_trans x y z); [done|done|by apply HF|done|by apply Hy].
Qed.

Lemma sort_f64_sorted l : Forall f64_count l -> StronglySorted le_f64 (sort_f64 l).
Proof.
  induction 1 as [|x l Hx HF IH]; simpl; [constructor|]. apply insert_f64_sorted; [done| |done].
  by rewrite sort_f64_perm.
Qed.

Lemma sorted_lookup l : Forall f64_count l -> StronglySorted le_f64 l -> forall i j x y, i <= j ->
  l !! i = Some x -> l !! j = Some y -> le_f64 x y.
Proof.
  intros HF. induction 1 as [|a l Hs IH Ha]; intros [|i] [|j] x y Hij Hx Hy; simplify_eq/=; try lia.
  - apply Forall_cons in HF as [HF _]. by apply count_le_refl.
  - rewrite Forall_forall in Ha. apply Ha. by eapply list_elem_of_lookup_2.
  - apply Forall_cons in HF as [_ HF]. by eapply (IH HF i j); eauto with lia.
Qed.

(** ** Latency *)

(** The percentiles in ascending order. *)
Definition percentiles (s : LatencySummary) : list f64 :=
  [min_micros s; p1_micros s; p5_micros s; p25_micros s; p50_micros s; p75_micros s; p90_micros s; p95_micros s;
   p99_micros s; p999_micros s; p9999_micros s; max_micros s].

(** The indices that the percentiles are read from. *)
Definition percentile_indices (len : nat) : list nat :=
  [0; len / 100; scaled_index 5 100 len; scaled_index 25 100 len; scaled_index 50 100 len; scaled_index 75 100 len;
   scaled_index 90 100 len; scaled_index 95 100 len; scaled_index 99 100 len; Nat.min (scaled_index 999 1000 len) (len - 1); Nat.min (scaled_index 9999 10000 len) (len - 1); len - 1].

(** The product does not wrap for fewer than 2^64 / 9999 samples; if it does, the index
    is still in range. *)
Lemma scaled_index_lt num den len : (0 <= num < den)%Z -> 0 < len -> scaled_index num den len < len.
Proof.
  intros Hn Hl. unfold scaled_index, u64, wrapu. apply Nat2Z.inj_lt.
  pose proof (Z.mod_pos_bound (Z.of_nat len * num) (2 ^ 64) ltac:(lia)).
  rewrite Z2Nat.id by (apply Z.div_pos; lia). apply Z.div_lt_upper_bound; [lia|].
  eapply Z.le_lt_trans; [apply Z.mod_le; lia|]. rewrite (Z.mul_comm den). apply Z.mul_lt_mono_pos_l; lia.
Qed.

Definition few_samples (len : nat) : Prop := (Z.of_nat len * 9999 <= u64_max)%Z.

Lemma scaled_index_small num den len : few_samples len -> (0 <= num <= 9999)%Z ->
  scaled_index num den len = Z.to_nat (Z.of_nat len * num / den).
Proof.
  unfold few_samples, u64_max. intros Hf Hn. unfold scaled_index, u64. rewrite wrapu_small; [done|].
  assert (Z.of_nat len * num <= Z.of_nat len * 9999)%Z by (apply Z.mul_le_mono_nonneg_l; lia). lia.
Qed.

Ltac forall_lia := repeat (apply Forall_cons_2; [lia|]); apply Forall_nil_2.

Lemma percentile_indices_range len : 100 <= len -> Forall (fun i => i < len) (percentile_indices len).
Proof.
  intros Hl. unfold percentile_indices.
  repeat (apply Forall_cons_2; [first [apply scaled_index_lt; lia|apply Nat.div_lt; lia|lia]|]). apply Forall_nil_2.
Qed.

Lemma percentile_indices_sorted len : 100 <= len -> few_samples len -> StronglySorted le (percentile_indices len).
Proof.
  intros Hl Hf. unfold percentile_indices. rewrite !(scaled_index_small _ _ len Hf) by lia. clear Hf.
  repeat (apply SSorted_cons; [|forall_lia]). apply SSorted_nil.
Qed.

Lemma latency_summary_lookup l : 100 <= length l ->
  exists s, latency_summary l = Some s /\ samples_count s = length l /\
    Forall2 (fun i x => l !! i = Some x) (percentile_indices (length l)) (percentiles s).
Proof.
  intros Hl. pose proof (percentile_indices_range _ Hl) as HF. unfold latency_summary. cbv zeta.
  set (len := length l) in *. unfold percentile_indices in *. rewrite !Forall_cons in HF.
  assert (forall i, i < len -> exists x, l !! i = Some x) as Hin by (intros i Hi; by apply lookup_lt_is_Some_2).
  destruct HF as (H0 & H1 & H2 & H3 & H4 & H5 & H6 & H7 & H8 & H9 & H10 & H11 & _).
  destruct (Hin _ H0) as [x0 E0], (Hin _ H1) as [x1 E1], (Hin _ H2) as [x2 E2], (Hin _ H3) as [x3 E3],
    (Hin _ H4) as [x4 E4], (Hin _ H5) as [x5 E5], (Hin _ H6) as [x6 E6], (Hin _ H7) as [x7 E7], (Hin _ H8) as [x8 E8],
    (Hin _ H9) as [x9 E9], (Hin _ H10) as [x10 E10], (Hin _ H11) as [x11 E11].
  rewrite E0, E1, E2, E3, E4, E5, E6, E7, E8, E9, E10. eexists. split; [reflexivity|]. split; [done|].
  unfold percentiles. simpl. repeat (constructor; [done|]). constructor; [|constructor].
  rewrite last_lookup. fold len. replace (pred len) with (len - 1) by lia. by rewrite E11.
Qed.

(** Lookups at ascending indices of a sorted list ascend. *)
Lemma lookups_sorted l idx xs : Forall f64_count l -> StronglySorted le_f64 l -> StronglySorted le idx ->
  Forall2 (fun i x => l !! i = Some x) idx xs -> StronglySorted le_f64 xs.
Proof.
  intros HF Hs Hi H2. induction H2 as [|i x idx xs Hx H2 IH]; [constructor|].
  apply StronglySorted_inv in Hi as [Hi Hle]. constructor; [by apply IH|]. clear IH Hi.
  induction H2 as [|j y idx xs Hy H2 IH]; [constructor|]. apply Forall_cons in Hle as [Hij Hle].
  constructor; [by eapply (sorted_lookup l HF Hs i j)|by apply IH].
Qed.

Lemma line_at_some corpus i : corpus <> [] -> exists raw, line_at corpus i = Some raw /\ raw ∈ corpus.
Proof.
  intros Hne. unfold line_at. assert (i mod length corpus < length corpus) as Hi.
  { apply Nat.mod_upper_bound. by destruct corpus. }
  apply lookup_lt_is_Some_2 in Hi as [raw Hr]. exists raw. split; [done|]. by eapply list_elem_of_lookup_2.
Qed.

Section Calls.
Context {P : Type}.
Variable call : P -> string -> option P.
Variable corpus : list string.
Variable inv : P -> Prop.
Hypothesis call_ok : forall p raw, inv p -> raw ∈ corpus -> exists p', call p raw = Some p' /\ inv p'.

Lemma sample_from_ok nanos n : corpus <> [] -> (forall i, (0 <= nanos i)%Z) -> forall i p, inv p ->
  exists l p', sample_from call corpus nanos n i p = Some (l, p') /\ length l = n /\ Forall f64_count l /\ inv p'.
Proof.
  intros Hne Hn. induction n as [|n IH]; intros i p I; simpl; [by exists [], p|].
  destruct (line_at_some corpus i Hne) as (raw & -> & Hr). destruct (call_ok p raw I Hr) as (p1 & -> & I1).
  destruct (IH (S i) p1 I1) as (l & p2 & -> & Hl & HF & I2). eexists _, _. split; [reflexivity|].
  split_and!; [simpl; lia| |done]. constructor; [|done]. by apply div_count; [apply of_Z_count|].
Qed.

Lemma sample_latency_ok nanos target p : corpus <> [] -> capacity_ok (Nat.max target 100) = true -> (forall i, (0 <= nanos i)%Z) -> inv p ->
  exists s p', sample_latency_distribution call corpus nanos target p = Some (s, p') /\
    samples_count s = Nat.max target 100 /\ (few_samples (Nat.max target 100) -> StronglySorted le_f64 (percentiles s)) /\ inv p'.
Proof.
  intros Hne Hc Hn I. unfold sample_latency_distribution. cbv zeta. rewrite Hc.
  destruct (sample_from_ok nanos (Nat.max target 100) Hne Hn 0 p I) as (l & p' & -> & Hl & HF & I').
  assert (length (sort_f64 l) = Nat.max target 100) as Hlen by (by rewrite sort_f64_perm).
  destruct (latency_summary_lookup (sort_f64 l) ltac:(lia)) as (s & -> & Hcount & H2). exists s, p'.
  split_and!; [done|lia| |done]. intros Hf.
  eapply lookups_sorted; [| |apply (percentile_indices_sorted (length (sort_f64 l))); [lia|by rewrite Hlen]|exact H2].
  - by rewrite sort_f64_perm.
  - by apply sort_f64_sorted.
Qed.

(** Sampling never indexes out of range and its percentiles are in order:
    on a corpus that is not empty, with calls that do not panic and fewer than
    2^64 / 9999 samples, the latency summary exists, counts at least a hundred samples, and
    min <= p1 <= p5 <= ... <= p99.99 <= max. *)
Theorem latency_percentiles_ordered nanos target p : corpus <> [] -> few_samples (Nat.max target 100) -> (forall i, (0 <= nanos i)%Z) -> inv p ->
  exists s p', sample_latency_distribution call corpus nanos target p = Some (s, p') /\
    samples_count s = Nat.max target 100 /\ StronglySorted le_f64 (percentiles s) /\ inv p'.
Proof.
  intros Hne Hf Hn I. destruct (sample_latency_ok nanos target p Hne) as (s & p' & E & Hs & Hp & I'); [|done|done|exists s, p'; auto].
  unfold capacity_ok. unfold few_samples, u64_max in Hf. apply Z.leb_le. lia.
Qed.

(** An empty corpus panics at the first sample. *)
Lemma empty_corpus_panics nanos target p : corpus = [] -> sample_latency_distribution call corpus nanos target p = None.
Proof.
  intros Hc. unfold sample_latency_distribution. assert (exists n, Nat.max target 100 = S n) as [n ->].
  { exists (Nat.max target 100 - 1). lia. }
  cbv zeta. destruct (capacity_ok _); [|done]. simpl. unfold line_at. by rewrite Hc.
Qed.

End Calls.

(** ** Workers *)

Section Workers.
Context {P : Type}.
Variable call : P -> string -> option P.
Variable corpus : list string.
Variable inv : P -> Prop.
Hypothesis call_ok : forall p raw, inv p -> raw ∈ corpus -> exists p', call p raw = Some p' /\ inv p'.
Hypothesis corpus_ne : corpus <> [].
Variable threads : nat.

(** The lines that a schedule processes, in order: worker [i] goes round the
    corpus from line [i]; [pos i] is its next index. *)
Fixpoint trace (pos : nat -> nat) (schedule : list nat) : list string :=
  match schedule with
  | [] => []
  | i :: schedule' =>
      if (i <? threads)%nat
      then default "" (line_at corpus (pos i)) :: trace (<[i := S (pos i)]> pos) schedule'
      else trace pos schedule'
  end.

Definition bytes_of (ls : list string) : Z := Z.of_nat (sum_list (String.length <$> ls)).

Lemma bytes_of_cons raw ls : bytes_of (raw :: ls) = (Z.of_nat (String.length raw) + bytes_of ls)%Z.
Proof. unfold bytes_of. rewrite fmap_cons. cbn [sum_list sum_list_with id]. unfold sum_list. simpl. lia. Qed.

(** What the workers have not yet added to the shared counters. *)
Definition pending (f : Worker -> Z) (ws : list (option Worker)) : Z :=
  foldr (fun w acc => match w with Some w => f w + acc | None => acc end)%Z 0%Z ws.

Definition uncounted (w : Worker) : Z := (w_local_count w mod 1024)%Z.

Lemma pending_insert f ws i w w' : ws !! i = Some (Some w) ->
  pending f (<[i := Some w']> ws) = (pending f ws - f w + f w')%Z.
Proof.
  revert i. induction ws as [|o ws IH]; intros [|i] Hi; simplify_eq/=; [lia|]. rewrite (IH i Hi). destruct o; lia.
Qed.

Record bench_inv (pos : nat -> nat) (n m : Z) (b : Bench) : Prop := {
  bi_workers : forall i, i < threads -> exists w, bn_workers b !! i = Some (Some w) /\ w_idx w = pos i;
  bi_length : length (bn_workers b) = threads;
  bi_count : u64 (bn_count b + pending uncounted (bn_workers b)) = u64 n;
  bi_bytes : u64 (bn_bytes b + pending w_local_bytes (bn_workers b)) = u64 m;
  bi_state : inv (bn_state b)
}.

Lemma uncounted_step c : ((c + 1) mod 1024 = (if (c + 1) mod 1024 =? 0 then c mod 1024 + 1 - 1024 else c mod 1024 + 1))%Z.
Proof. destruct (_ =? 0)%Z eqn:E; [apply Z.eqb_eq in E|apply Z.eqb_neq in E]; lia. Qed.

Lemma wrapu_shift w x n d y : wrapu w x = wrapu w n -> y = (x + d)%Z -> wrapu w y = wrapu w (n + d).
Proof. intros E ->. by rewrite <- wrapu_add, E, wrapu_add. Qed.

Lemma bench_turn_ok pos n m b i raw : i < threads -> line_at corpus (pos i) = Some raw -> bench_inv pos n m b ->
  exists p1, call (bn_state b) raw = Some p1 /\ bn_state (bench_turn call corpus b i) = p1 /\
    bench_inv (<[i := S (pos i)]> pos) (n + 1) (m + Z.of_nat (String.length raw)) (bench_turn call corpus b i).
Proof.
  intros Hi Hraw [Hw Hl Hc Hb Hs]. destruct (Hw i Hi) as (w & Ew & Ep). rewrite <- Ep in Hraw.
  destruct (call_ok (bn_state b) raw Hs) as (p1 & Ec & I1).
  { unfold line_at in Hraw. by eapply list_elem_of_lookup_2. }
  exists p1. unfold bench_turn. rewrite Ew, Hraw, Ec. split; [done|].
  pose proof (uncounted_step (w_local_count w)) as Hu.
  assert (forall w', w_idx w' = S (w_idx w) -> forall j, j < threads -> exists v,
    <[i := Some w']> (bn_workers b) !! j = Some (Some v) /\ w_idx v = <[i := S (pos i)]> pos j) as Hidx.
  { intros w' Ew' j Hj. destruct (decide (i = j)) as [->|Hn].
    - exists w'. rewrite list_lookup_insert_eq by lia. split; [done|]. rewrite fn_lookup_insert. congruence.
    - rewrite list_lookup_insert_ne, fn_lookup_insert_ne by done. by apply Hw. }
  destruct (_ =? 0)%Z; simpl; (split; [done|]); split; simpl; try (by apply Hidx); try done;
    rewrite ?length_insert; try done; erewrite pending_insert by done; unfold u64, uncounted in *; simpl;
    rewrite ?wrapu_add; eapply wrapu_shift; eauto; lia.
Qed.

Lemma bench_schedule_ok schedule : forall pos n m b, bench_inv pos n m b ->
  let b' := foldl (bench_turn call corpus) b schedule in
  let ls := trace pos schedule in
  (exists pos', bench_inv pos' (n + Z.of_nat (length ls)) (m + bytes_of ls) b') /\
  warm_up call ls (bn_state b) = Some (bn_state b').
Proof.
  induction schedule as [|i schedule IH]; intros pos n m b I; cbn [foldl trace].
  - split; [|done]. exists pos. unfold bytes_of. simpl. by rewrite !Z.add_0_r.
  - destruct (Nat.ltb_spec i threads) as [Hi|Hi].
    + destruct (line_at_some corpus (pos i) corpus_ne) as (raw & Hraw & _). rewrite Hraw. cbn [from_option id warm_up].
      destruct (bench_turn_ok pos n m b i raw Hi Hraw I) as (p1 & -> & <- & I1).
      destruct (IH _ _ _ _ I1) as [[pos' I2] ->]. split; [|done]. exists pos'.
      set (ls := trace _ schedule) in *.
      replace (n + Z.of_nat (length (raw :: ls)))%Z with (n + 1 + Z.of_nat (length ls))%Z by (simpl; lia).
      replace (m + bytes_of (raw :: ls))%Z with (m + Z.of_nat (String.length raw) + bytes_of ls)%Z by (rewrite bytes_of_cons; lia).
      done.
    + assert (bench_turn call corpus b i = b) as ->.
      { unfold bench_turn. rewrite lookup_ge_None_2; [done|]. rewrite (bi_length _ _ _ _ I). lia. }
      by apply IH.
Qed.

Lemma worker_stop_all ws : forall b : Bench (P := P),
  let b' := foldl worker_stop b ws in
  u64 (bn_count b') = u64 (bn_count b + pending uncounted ws) /\
  u64 (bn_bytes b') = u64 (bn_bytes b + pending w_local_bytes ws) /\ bn_state b' = bn_state b /\
  (ws <> [] -> Forall is_Some ws -> bn_count b' = u64 (bn_count b') /\ bn_bytes b' = u64 (bn_bytes b')).
Proof.
  induction ws as [|o ws IH]; intros b; cbn [foldl pending foldr]; [by rewrite !Z.add_0_r|].
  destruct (IH (worker_stop b o)) as (E1 & E2 & E3 & E4). cbv zeta.
  destruct o as [w|]; cbn [worker_stop bn_count bn_bytes bn_state] in *.
  - split_and!; [rewrite E1|rewrite E2|done|].
    + wrap_simpl. f_equal. unfold uncounted, pending. lia.
    + wrap_simpl. f_equal. unfold pending. lia.
    + intros _ [_ HF]%Forall_cons. destruct ws as [|o' ws']; [|by apply E4].
      simpl. unfold u64. split; symmetry; apply wrapu_small, wrapu_range; lia.
  - split_and!; try done. intros _ [[? [=]] _]%Forall_cons.
Qed.

Lemma bench_start_inv p : inv p -> bench_inv id 0 0 (bench_start threads p).
Proof.
  intros I. unfold bench_start.
  assert (forall f k n, (forall j, f (mkWorker j 0 0) = 0%Z) ->
    pending f ((fun j => Some (mkWorker j 0 0)) <$> seq k n) = 0%Z) as Hz.
  { intros f k n Hf. revert k. induction n as [|n IH]; intros k; [done|].
    cbn [seq]. rewrite fmap_cons. cbn [pending foldr]. rewrite Hf. apply IH. }
  split; simpl; rewrite ?Hz by done; try done.
  - intros i Hi. exists (mkWorker i 0 0). rewrite list_lookup_fmap, lookup_seq_lt by done. done.
  - by rewrite length_fmap, length_seq.
Qed.

Lemma run_workers_ok schedule p : inv p -> 0 < threads ->
  let b := run_workers call corpus threads schedule p in
  let ls := trace id schedule in
  bn_count b = u64 (Z.of_nat (length ls)) /\ bn_bytes b = u64 (bytes_of ls) /\
  warm_up call ls p = Some (bn_state b) /\ inv (bn_state b).
Proof.
  intros I Ht b ls. subst b ls. unfold run_workers.
  destruct (bench_schedule_ok schedule _ _ _ _ (bench_start_inv p I)) as [[pos' I'] Hw].
  set (b1 := foldl (bench_turn call corpus) _ schedule) in *.
  destruct (worker_stop_all (bn_workers b1) b1) as (E1 & E2 & E3 & E4). destruct I' as [Hws Hl Hc Hb Hs].
  assert (Forall is_Some (bn_workers b1)) as HF.
  { apply Forall_lookup_2. intros i o Ho. destruct (Hws i) as (w & Ew & _); [rewrite <- Hl; by eapply lookup_lt_Some|].
    rewrite Ew in Ho. simplify_eq. by eexists. }
  destruct E4 as [E4 E5]; [|done|].
  { intros Hn. rewrite Hn in Hl. simpl in Hl. lia. }
  cbv zeta. rewrite E4, E5, E1, E2, E3, Hc, Hb, !Z.add_0_l. done.
Qed.

(** The shared counters are exact in every schedule of the worker threads:
    with at least one thread and calls that do not panic, the totals are the
    number of lines processed and of their bytes (modulo 2^64), although the
    workers publish them in pieces of 1024 and a rest; and the engine has
    processed exactly those lines, each worker going round the corpus from its
    own line. *)
Theorem worker_totals_exact schedule p : inv p -> 0 < threads ->
  let b := run_workers call corpus threads schedule p in
  let ls := trace id schedule in
  bn_count b = u64 (Z.of_nat (length ls)) /\ bn_bytes b = u64 (bytes_of ls) /\
  warm_up call ls p = Some (bn_state b).
Proof. intros I Ht. by destruct (run_workers_ok schedule p I Ht) as (E1 & E2 & E3 & _). Qed.

End Workers.

(** ** The audit of an engine that parses every line *)

Section CleanAudit.
Context `{Sha256} `{HexLib} `{UnicodeLib} `{RegexEngine} `{UuidLib}.
Context {P C : Type}.
Variable parse_fn : P -> string -> option NetworkActivity * P.
Variable cluster_fn : C -> string -> option ((Z * string) * C).
Variable gt_overrides : GtOverrides.
Variable inv : P -> Prop.

(** The engine parses the line and keeps its digest; the line has a ground
    truth and a cluster. *)
Definition line_ok (raw : string) : Prop :=
  (forall p, inv p -> exists e p', parse_fn p raw = (Some e, p') /\ inv p' /\
     md_raw_hash (na_metadata e) = compute_sha256 raw) /\
  (exists g, ground_truth gt_overrides raw = Some g) /\ (forall c, exists r c', cluster_fn c raw = Some (r, c')).

Lemma grade_sidecar_lines raw e a : gt_ok (au_rob a) -> same_lines (au_rob a) (au_rob (grade_sidecar gt_overrides raw e a)).
Proof.
  intros Hg. unfold grade_sidecar. destruct (gt_overrides !! raw) as [sc|]; [|done].
  by destruct (grade_gt_fields_ok (sg_fields sc) e (au_rob a) Hg) as (_ & Hs & _).
Qed.

Lemma audit_line_clean n s idx raw p c a : line_ok raw -> inv p -> books n n s a ->
  exists a' p' c', audit_line parse_fn cluster_fn gt_overrides idx raw p c a = Some (a', p', c') /\ inv p' /\
    no_panic (au_rob a') = no_panic (au_rob a) + 1 /\ lossless_ok (au_rob a') = lossless_ok (au_rob a) + 1.
Proof.
  intros (Hp & [[[v t] act] Hg] & Hc) I B. destruct (Hp p I) as (e & p1 & Ep & I1 & Hh). destruct (Hc c) as ([cid tmpl] & c1 & Ec).
  unfold audit_line. rewrite Hg, Ec, Ep. eexists _, _, _. split; [reflexivity|]. split; [done|].
  pose proof (audit_event_books _ _ _ idx raw cid v act e _ (audit_cluster_books _ _ _ idx raw cid tmpl t a B)) as B'.
  destruct (grade_sidecar_lines raw (Some e) _ (bk_gt _ _ _ _ B')) as (_ & _ & -> & ->).
  destruct (audit_event_rob idx raw cid v act e (audit_cluster idx raw cid tmpl t a)) as ([known ->] & _).
  unfold audit_cluster. rewrite rc_rob, Hh, String.eqb_refl. simpl. lia.
Qed.

Lemma audit_loop_clean corpus : forall n s idx p c a, Forall line_ok corpus -> inv p -> books n n s a ->
  exists a' p' c', audit_loop parse_fn cluster_fn gt_overrides idx corpus p c a = Some (a', p', c') /\ inv p' /\
    no_panic (au_rob a') = no_panic (au_rob a) + length corpus /\
    lossless_ok (au_rob a') = lossless_ok (au_rob a) + length corpus.
Proof.
  induction corpus as [|raw corpus IH]; intros n s idx p c a HF I B; cbn [audit_loop].
  - eexists _, _, _. split; [reflexivity|]. simpl. split_and!; [done|lia..].
  - apply Forall_cons in HF as [Hr HF].
    destruct (audit_line_clean n s idx raw p c a Hr I B) as (a1 & p1 & c1 & E & I1 & E1 & E2). rewrite E.
    apply audit_line_books with (n := n) (s := s) in E; [|done].
    destruct (IH _ _ (S idx) p1 c1 a1 HF I1 E) as (a' & p' & c' & -> & I' & E3 & E4).
    eexists _, _, _. split; [reflexivity|]. simpl. split_and!; [done|lia..].
Qed.

Lemma verify_action_total clocks : exists b, verify_action_preservation clocks = Some b.
Proof.
  unfold verify_action_preservation.
  destruct (drain_total (miner_new drain_default) clocks.1.1 clocks.1.2
    "FW_ACTION: traffic ALLOW proto=TCP src=10.0.0.1 dst=10.0.0.2") as (r & m & ->).
  destruct (drain_total m clocks.2.1 clocks.2.2
    "FW_ACTION: traffic DENY proto=TCP src=10.0.0.1 dst=10.0.0.2") as (r' & m' & ->). eauto.
Qed.

Lemma audit_clean iter clocks corpus p c : Forall line_ok corpus -> inv p ->
  exists s rob fs p' c',
    audit_accuracy parse_fn cluster_fn gt_overrides iter clocks corpus p c = Some (s, rob, fs, p', c') /\ inv p' /\
    lines_total rob = length corpus /\ no_panic rob = length corpus /\ lossless_ok rob = length corpus.
Proof.
  intros HF I. unfold audit_accuracy.
  destruct (audit_loop_clean corpus 0 0 0 p c audit_new HF I books_new) as (a & p' & c' & E & I' & E1 & E2). rewrite E.
  apply audit_loop_books with (n := 0) (s := 0) in E; [|apply books_new].
  destruct (verify_action_total clocks) as [b ->]. eexists _, _, _, _, _. split; [reflexivity|].
  destruct E. simpl in *. split_and!; try done; lia.
Qed.

End CleanAudit.

(** ** The phases of a pass *)

(** One call of an engine, which is [None] when it panics. *)
Definition call_of {P A} (process : P -> string -> option A * P) (p : P) (raw : string) : option P :=
  match process p raw with (Some _, p') => Some p' | (None, _) => None end.

Section Phases.
Context `{Sha256} `{HexLib} `{UnicodeLib} `{RegexEngine} `{UuidLib}.
Context {P C : Type}.
Variable process : P -> string -> option NetworkActivity * P.
Variable cluster : C -> string -> option ((Z * string) * C).
Variable gt : GtOverrides.
Variable inv : P -> Prop.

Lemma call_of_ok corpus p raw : Forall (line_ok process cluster gt inv) corpus -> inv p -> raw ∈ corpus ->
  exists p', call_of process p raw = Some p' /\ inv p'.
Proof.
  intros HF I Hin. rewrite Forall_forall in HF. destruct (HF _ Hin) as [Hp _]. unfold call_of.
  destruct (Hp p I) as (e & p' & -> & I' & _). eauto.
Qed.

Lemma warm_up_ok corpus : Forall (line_ok process cluster gt inv) corpus -> forall ls p, ls ⊆ corpus -> inv p ->
  exists p', warm_up (call_of process) ls p = Some p' /\ inv p'.
Proof.
  intros HF. induction ls as [|raw ls IH]; intros p Hs I; simpl; [eauto|].
  destruct (call_of_ok corpus p raw HF I) as (p1 & -> & I1); [set_solver|]. apply IH; [set_solver|done].
Qed.

(** Warm-up, load, sampling and audit run through, one after the other. *)
Lemma pass_phases be corpus threads samples p c :
  corpus <> [] -> 0 < threads -> capacity_ok (Nat.max samples 100) = true -> (forall i, (0 <= be_nanos be i)%Z) ->
  Forall (line_ok process cluster gt inv) corpus -> inv p ->
  exists p0 lat p1 s rob fs p2 c2,
    warm_up (call_of process) (take 1000 corpus) p = Some p0 /\
    let b := run_workers (call_of process) corpus threads (be_schedule be) p0 in
    sample_latency_distribution (call_of process) corpus (be_nanos be) samples (bn_state b) = Some (lat, p1) /\
    audit_accuracy process cluster gt (be_iter be) (be_clocks be) corpus p1 c = Some (s, rob, fs, p2, c2) /\
    (lines_total rob = length corpus /\ no_panic rob = length corpus /\ lossless_ok rob = length corpus) /\
    samples_count lat = Nat.max samples 100 /\
    bn_count b = u64 (Z.of_nat (length (trace corpus threads id (be_schedule be)))).
Proof.
  intros Hne Ht Hcap Hn HF I. pose proof (fun p raw (J : inv p) => call_of_ok corpus p raw HF J) as Hcall.
  destruct (warm_up_ok corpus HF (take 1000 corpus) p (subseteq_take _ _) I) as (p0 & E0 & I0).
  destruct (run_workers_ok (call_of process) corpus inv Hcall Hne threads (be_schedule be) p0 I0 Ht) as (E1 & _ & _ & I1).
  destruct (sample_latency_ok (call_of process) corpus inv Hcall (be_nanos be) samples _ Hne Hcap Hn I1) as (lat & p1 & E2 & Hs & _ & I2).
  destruct (audit_clean process cluster gt inv (be_iter be) (be_clocks be) corpus p1 c HF I2) as (s & rob & fs & p2 & c2 & E3 & _ & R).
  exists p0, lat, p1, s, rob, fs, p2, c2. by split_and!.
Qed.

End Phases.

(** ** The tiered pass *)

Section Tiered.
Context `{Sha256} `{HexLib} `{UnicodeLib} `{ChronoLib} `{RegexLib} `{JsonLib} `{AhoCorasick} `{RegexEngine} `{UnicodeText}
  `{LibM} `{UuidLib} `{DefaultHasher}.

Lemma triage_turns_inv turns : forall p, pipe_inv p -> pipe_inv (foldl triage_turn p turns).
Proof.
  induction turns as [|t turns IH]; intros p I; simpl; [done|]. apply IH. unfold triage_turn.
  destruct (channel p) as [|task rest] eqn:E; [unfold worker_step; by rewrite E|].
  destruct (worker_step_ok t.1 t.2 p I) as (p' & -> & I'); [by rewrite E|done].
Qed.

Definition tiered_inv (s : nat * TieredPipeline) : Prop := pipe_inv s.2.

Lemma tiered_process_ok te s raw : all_bytes is_ascii raw = true -> tiered_inv s ->
  exists e s', tiered_process te s raw = (Some e, s') /\ tiered_inv s' /\ event_ok raw e.
Proof.
  intros Hr I. destruct s as [n p]. unfold tiered_process.
  destruct (process_ok (te_pipe te n) _ raw Hr (triage_turns_inv (te_turns te n) p I)) as (a & p1 & -> & He & I1). eauto 10.
Qed.

Lemma tiered_call_ok te corpus s raw : Forall (fun l => all_bytes is_ascii l = true) corpus -> tiered_inv s -> raw ∈ corpus ->
  exists s', tiered_call te s raw = Some s' /\ tiered_inv s'.
Proof.
  intros HF I Hin. rewrite Forall_forall in HF. unfold tiered_call.
  destruct (tiered_process_ok te s raw (HF _ Hin) I) as (e & s' & -> & I' & _). eauto.
Qed.

(** What a pass leaves behind on a corpus that an engine parses. *)
Definition pass_clean (corpus : list string) (threads samples : nat) (be : BenchEnv) (r : BenchmarkTierResult) : Prop :=
  lines_total (bt_robustness r) = length corpus /\ no_panic (bt_robustness r) = length corpus /\
  lossless_ok (bt_robustness r) = length corpus /\ samples_count (bt_latency r) = Nat.max samples 100 /\
  total_processed (bt_throughput r) = u64 (Z.of_nat (length (trace corpus threads id (be_schedule be)))).

Definition corpus_ok (gt : GtOverrides) (corpus : list string) : Prop :=
  Forall (fun raw => all_bytes is_ascii raw = true /\ is_Some (ground_truth gt raw)) corpus.

(** The evaluation of the pipeline runs through on every corpus of ASCII lines
    that is not empty and has a ground truth for each line: no phase panics,
    whatever the schedule of the workers and the turns of the triage thread; no
    parse panics, every line keeps its digest, and the throughput counts exactly
    the lines that the workers processed. *)
Lemma tiered_pass_clean te mclocks be corpus threads samples gt :
  corpus <> [] -> 0 < threads -> capacity_ok (Nat.max samples 100) = true -> (forall i, (0 <= be_nanos be i)%Z) -> corpus_ok gt corpus ->
  exists r, benchmark_tiered_isolated te mclocks be corpus threads samples gt = Some r /\ pass_clean corpus threads samples be r.
Proof.
  intros Hne Ht Hcap Hn HC. unfold benchmark_tiered_isolated.
  destruct (with_capacity 16 512) as [cache0|] eqn:Ec; [|done].
  assert (tiered_inv (0, with_ring_buffer_capacity cache0 (Z.to_nat 10000))) as I0.
  { apply pipeline_new_inv. by eapply with_capacity_inv. }
  assert (Forall (line_ok (tiered_process te) (miner_cluster mclocks) gt tiered_inv) corpus) as HL.
  { eapply Forall_impl; [exact HC|]. intros raw [Ha Hg]. split_and!; [|done|].
    - intros s Is. destruct (tiered_process_ok te s raw Ha Is) as (e & s' & -> & Is' & _ & Hc).
      eexists _, _. split_and!; [done|done|]. by apply Hc.
    - intros [n m]. unfold miner_cluster. destruct (drain_total m (mclocks n).1 (mclocks n).2 raw) as (r & m' & ->). eauto. }
  destruct (pass_phases _ _ _ _ be corpus threads samples _ (0, miner_new drain_default) Hne Ht Hcap Hn HL I0)
    as (s0 & lat & s1 & s & rob & fs & s2 & c2 & E1 & E2 & E3 & R & Hs & Htr).
  change (warm_up (tiered_call te) (take 1000 corpus) (0, with_ring_buffer_capacity cache0 (Z.to_nat 10000)) = Some s0) in E1.
  cbn [mbind option_bind]. rewrite E1. cbn [mbind option_bind]. unfold call_of in E2, Htr. fold (tiered_call te) in E2, Htr.
  rewrite E2, E3. eexists. split; [reflexivity|]. by destruct R as (R1 & R2 & R3).
Qed.

(** The baseline as well. *)
Lemma baseline_pass_clean envs be corpus threads samples gt :
  corpus <> [] -> 0 < threads -> capacity_ok (Nat.max samples 100) = true -> (forall i, (0 <= be_nanos be i)%Z) -> corpus_ok gt corpus ->
  exists r, benchmark_baseline_isolated envs be corpus threads samples gt = Some r /\ pass_clean corpus threads samples be r.
Proof.
  intros Hne Ht Hcap Hn HC. unfold benchmark_baseline_isolated.
  assert (Forall (line_ok (baseline_parse envs) baseline_cluster gt (fun _ => True)) corpus) as HL.
  { eapply Forall_impl; [exact HC|]. intros raw [Ha Hg]. split_and!; [|done|by eexists _, _].
    intros n _. unfold baseline_parse. destruct (parse_lossless_ascii (envs n) raw Ha) as [a Ea]. rewrite Ea.
    eexists _, _. split_and!; [done|done|]. by apply parse_lossless_ok in Ea as [_ Hc]; apply Hc. }
  destruct (pass_phases _ _ _ _ be corpus threads samples 0 tt Hne Ht Hcap Hn HL Logic.I)
    as (s0 & lat & s1 & s & rob & fs & s2 & c2 & E1 & E2 & E3 & R & Hs & Htr).
  change (warm_up (baseline_call envs) (take 1000 corpus) 0 = Some s0) in E1. rewrite E1. cbn [mbind option_bind].
  unfold call_of in E2, Htr. fold (baseline_call envs) in E2, Htr.
  rewrite E2, E3. eexists. split; [reflexivity|]. by destruct R as (R1 & R2 & R3).
Qed.

End Tiered.
