(* ===== verification/Duel.v ===== *)
(** * The duel ([crates/ulpf-ai/src/duel.rs])

    The miner without anchors against the miner and the pipeline as shipped, on
    the same lines: the fixtures that a round reads, the scores of an engine,
    and the capability pass over the pipeline.  Files, clocks and the draws of
    the pipeline are arguments; an error is its text. *)

From S2P Require Export Benchmark.

Record EngineDuelScore := mkDuelScore {
  ds_clusters : nat;
  ds_grouping_accuracy_pct : f64;
  ds_parsing_accuracy_pct : option f64;
  ds_template_f1_pct : option f64;
  ds_action_violations : option nat
}.

Record DuelRound := mkDuelRound {
  dr_name : string;
  dr_lines : nat;
  dr_gt_classes : nat;
  dr_vanilla : EngineDuelScore;
  dr_tiered : EngineDuelScore;
  dr_tiered_panics : nat;
  dr_tiered_lossless_ok : nat;
  dr_note : option string
}.

Record DuelReport := mkDuelReport {
  rounds : list DuelRound;
  tiered_lines : nat;
  tiered_lossless_ok : nat;
  tiered_panics : nat
}.

(** [f64::abs] *)
Definition f64_abs : f64 -> f64 := SpecFloat.SFabs.

(** One round of the loop of [ga_wins]. *)
Definition ga_win (wins : nat * nat) (r : DuelRound) : nat * nat :=
  let d := f64_sub (ds_grouping_accuracy_pct (dr_tiered r)) (ds_grouping_accuracy_pct (dr_vanilla r)) in
  if f64_lt (f64_abs d) (f64_lit 1 1000000000) then wins
  else if f64_lt f64_zero d then (S wins.1, wins.2) else (wins.1, S wins.2).

Definition ga_wins (rep : DuelReport) : nat * nat := foldl ga_win (0, 0) (rounds rep).

Definition opt_pct (v : option f64) : string := match v with Some v => fmt_fixed 2 v +:+ "%" | None => "n/a" end.
Definition opt_count (v : option nat) : string := match v with Some v => pretty v | None => "n/a" end.

(** ** Fixtures *)

Record RoundInput := mkRound {
  ri_name : string;
  ri_lines : list string;
  ri_gt_class : list string;
  ri_gt_template : option (list string);
  ri_gt_disp : list (option string);
  ri_note : option string
}.

(** The file system: the content of a file, [is_file] and [exists]. *)
Record Files := mkFiles { fs_read : string -> Result string string; fs_is_file : string -> bool; fs_exists : string -> bool }.

(** [with_context(|| format!("reading {}", path))] *)
Definition read_text (fs : Files) (path : string) : Result string string :=
  match fs_read fs path with Ok text => Ok text | Err _ => Err ("reading " +:+ path) end.

Definition read_trimmed_lines (fs : Files) (path : string) : Result string (list string) :=
  match read_text fs path with
  | Err e => Err e
  | Ok text => Ok (List.filter not_empty (trim <$> lines text))
  end.

(** The loop over the lines of a sidecar round. *)
Fixpoint sidecar_records (log_path gt_path : string) (gt : GtOverrides) (i : nat) (ls : list string)
  : Result string (list SidecarGroundTruth) :=
  match ls with
  | [] => Ok []
  | raw :: ls' =>
      match gt !! raw with
      | None => Err (log_path +:+ ": line " +:+ pretty (i + 1)%nat +:+ " has no entry in sidecar " +:+ gt_path)
      | Some rec => match sidecar_records log_path gt_path gt (S i) ls' with Err e => Err e | Ok l => Ok (rec :: l) end
      end
  end.

Definition sidecar_round `{SidecarJson} (fs : Files) (name log_path gt_path : string) (full_templates : bool)
    (note : option string) : Result string RoundInput :=
  match read_trimmed_lines fs log_path with
  | Err e => Err e
  | Ok ls =>
      match load_sidecar_gt (fs_read fs) gt_path with
      | Err e => Err e
      | Ok gt =>
          match sidecar_records log_path gt_path gt 0 ls with
          | Err e => Err e
          | Ok recs =>
              let tags := sg_template_tag <$> recs in
              Ok (mkRound name ls tags (if full_templates then Some tags else None) (sg_disposition <$> recs) note)
          end
      end
  end.

Definition trim_end_matches (p : string -> bool) (s : string) : string := str_concat (drop_while_end p (chars s)).

(** The loop of [csv_last_field]: where the last field starts. *)
Fixpoint last_field_start (in_quotes : bool) (i start : nat) (s : string) : nat :=
  match s with
  | "" => start
  | String ch s' =>
      if Ascii.eqb ch dquote then last_field_start (negb in_quotes) (S i) start s'
      else if Ascii.eqb ch "," && negb in_quotes then last_field_start in_quotes (S i) (S i) s'
      else last_field_start in_quotes (S i) start s'
  end.

Definition ends_with_quote (s : string) : bool :=
  match strip_suffix_char dquote s with Some _ => true | None => false end.

Definition csv_last_field (line : string) : string :=
  let line := trim_end_matches (String.eqb (String carriage_return "")) line in
  let field := str_drop (last_field_start false 0 0 line) line in
  if (2 <=? String.length field)%nat && starts_with dquote_str field && ends_with_quote field
  then replace (dquote_str +:+ dquote_str) dquote_str (str_slice 1 (String.length field - 1) field)
  else field.

(** [format!("{:?}", s)] *)
Class DebugText := { debug_str : string -> string }.

Definition read_event_templates `{DebugText} (fs : Files) (path : string) : Result string (list string) :=
  match read_text fs path with
  | Err e => Err e
  | Ok text =>
      match lines text with
      | [] => Err (path +:+ ": empty CSV")
      | header :: rows =>
          let last := csv_last_field header in
          if String.eqb last "EventTemplate" then Ok (csv_last_field <$> rows)
          else Err (path +:+ ": last CSV column is " +:+ debug_str last +:+ ", expected EventTemplate")
      end
  end.

Definition loghub_round `{DebugText} (fs : Files) (name log_path csv_path : string) : Result string RoundInput :=
  match read_text fs log_path with
  | Err e => Err e
  | Ok log_text =>
      let ls := lines log_text in
      match read_event_templates fs csv_path with
      | Err e => Err e
      | Ok templates =>
          if (length ls =? length templates)%nat
          then Ok (mkRound name ls templates (Some templates) (replicate (length ls) None)
                     (Some "LogPAI EventTemplate is content-only: PA/FTA use token-suffix match"))
          else Err (log_path +:+ ": " +:+ pretty (length ls) +:+ " log lines vs " +:+ pretty (length templates)
                    +:+ " CSV templates — index alignment broken")
      end
  end.

(** ** Scores *)

Definition grouping_accuracy (gt_class : list string) (clusters : list nat) : f64 :=
  if is_nil_list gt_class then f64_zero
  else
    let map := foldl (fun g p => count_tag g (Z.of_nat p.2) p.1) ∅ (zip gt_class clusters) in
    f64_mul (f64_div (f64_of_Z (Z.of_nat (majority_total map))) (f64_of_Z (Z.of_nat (length gt_class)))) (f64_of_Z 100).

Definition canon_token (tok : string) : string :=
  let t := trim_end_matches (one_of [","; ";"; ":"]) (trim tok) in
  if contains wildcard t || has_byte is_ascii_digit t then wildcard else t.

Definition template_match (mined gt : string) : bool :=
  let gt_toks := canon_token <$> split_whitespace gt in
  if is_nil_list gt_toks then false
  else
    let mined_toks := canon_token <$> split_whitespace mined in
    if (length mined_toks <? length gt_toks)%nat then false
    else bool_decide (drop (length mined_toks - length gt_toks) mined_toks = gt_toks).

Definition parsing_accuracy (templates gt : list string) : f64 :=
  if is_nil_list gt then f64_zero
  else pct (length (List.filter (fun p => template_match p.1 p.2) (zip templates gt))) (length gt).

(** [a as f64 / b as f64] *)
Definition ratio_of (a b : nat) : f64 := f64_div (f64_of_Z (Z.of_nat a)) (f64_of_Z (Z.of_nat b)).

Definition template_f1 (templates gt : list string) : f64 :=
  let mined_set : gset string := list_to_set templates in
  let gt_set : gset string := list_to_set gt in
  if decide (mined_set = ∅) then f64_zero
  else if decide (gt_set = ∅) then f64_zero
  else
    let mined_hit := size (filter (fun m => existsb (fun g => template_match m g) (elements gt_set) = true) mined_set) in
    let gt_hit := size (filter (fun g => existsb (fun m => template_match m g) (elements mined_set) = true) gt_set) in
    let precision := ratio_of mined_hit (size mined_set) in
    let recall := ratio_of gt_hit (size gt_set) in
    if f64_eq (f64_add precision recall) f64_zero then f64_zero
    else f64_mul (f64_of_Z 100)
           (f64_div (f64_mul (f64_mul (f64_of_Z 2) precision) recall) (f64_add precision recall)).

Definition disposition_side (disp : string) : option bool :=
  if one_of ["allowed"; "allow"; "accept"; "accepted"; "pass"; "permit"; "permitted"] disp then Some true
  else if one_of ["blocked"; "block"; "deny"; "denied"; "drop"; "dropped"; "reject"; "rejected"] disp then Some false
  else None.

(** The side of a line's disposition, if it has one. *)
Definition side_of (d : option string) : option bool :=
  match d with Some d => disposition_side (to_ascii_lowercase d) | None => None end.

(** The body of the loop of [action_violations]. *)
Definition see_side (state : gmap nat (bool * bool)) (p : nat * option string) : gmap nat (bool * bool) :=
  match side_of p.2 with
  | None => state
  | Some side =>
      let seen := default (false, false) (state !! p.1) in
      <[p.1 := if side then (true, seen.2) else (seen.1, true)]> state
  end.

Definition action_violations (clusters : list nat) (disp : list (option string)) : nat :=
  size (filter (fun kv => kv.2.1 && kv.2.2 = true) (foldl see_side ∅ (zip clusters disp))).

Definition distinct_nat (l : list nat) : nat := size (list_to_set l : gset nat).
Definition distinct_str (l : list string) : nat := size (list_to_set l : gset string).

Definition score_run (clusters : list nat) (templates : list string) (spec : RoundInput)
    (gt_template : option (list string)) (violations_on : bool) : EngineDuelScore :=
  mkDuelScore (distinct_nat clusters) (grouping_accuracy (ri_gt_class spec) clusters)
    ((fun gt => parsing_accuracy templates gt) <$> gt_template) ((fun gt => template_f1 templates gt) <$> gt_template)
    (if violations_on then Some (action_violations clusters (ri_gt_disp spec)) else None).

(** ** The run *)

Definition vanilla_cfg : DrainConfig :=
  mkDrainConfig (depth drain_default) (similarity_threshold drain_default) (max_children drain_default)
    (max_clusters drain_default) (rare_count_threshold drain_default) (surge_multiplier drain_default)
    (window_size drain_default) (unique_anchor_tokens drain_default) false.

Section Run.
Context `{Sha256} `{HexLib} `{UnicodeLib} `{ChronoLib} `{RegexLib} `{JsonLib} `{AhoCorasick} `{RegexEngine} `{UnicodeText}
  `{LibM} `{SidecarJson} `{DebugText}.

Fixpoint mine_lines (clocks : nat -> Z * Z) (n : nat) (m : DrainMiner) (ls : list string)
  : option (list nat * list string) :=
  match ls with
  | [] => Some ([], [])
  | raw :: ls' =>
      match add_log m (clocks n).1 (clocks n).2 raw with
      | None => None
      | Some (res, m1) =>
          match mine_lines clocks (S n) m1 ls' with
          | None => None
          | Some (cs, ts) => Some (cr_cluster_id res :: cs, cr_template res :: ts)
          end
      end
  end.

Definition run_miner (clocks : nat -> Z * Z) (ls : list string) (cfg : DrainConfig) : option (list nat * list string) :=
  mine_lines clocks 0 (miner_new cfg) ls.

(** The numbers of lossless lines and of panics, and the pipeline afterwards. *)
Fixpoint pipeline_capability (te : TieredEnv) (s : nat * TieredPipeline) (ls : list string)
  : (nat * nat) * (nat * TieredPipeline) :=
  match ls with
  | [] => ((0, 0), s)
  | raw :: ls' =>
      let '(outcome, s1) := tiered_process te s raw in
      let '((ok, panics), s2) := pipeline_capability te s1 ls' in
      match outcome with
      | Some activity =>
          ((ok + Nat.b2n (String.eqb (md_raw_hash (na_metadata activity)) (compute_sha256 raw)), panics), s2)
      | None => ((ok, panics + 1), s2)
      end
  end.

(** One round; [vclocks] and [tclocks] are the clocks of its two miners. *)
Definition duel_round (vclocks tclocks : nat -> Z * Z) (te : TieredEnv) (s : nat * TieredPipeline) (spec : RoundInput)
  : option (DuelRound * (nat * TieredPipeline)) :=
  match run_miner vclocks (ri_lines spec) vanilla_cfg with
  | None => None
  | Some (v_clusters, v_templates) =>
      match run_miner tclocks (ri_lines spec) drain_default with
      | None => None
      | Some (t_clusters, t_templates) =>
          let '((ok, panics), s1) := pipeline_capability te s (ri_lines spec) in
          let gt_template := ri_gt_template spec in
          let violations_on := existsb (fun d => match d with Some _ => true | None => false end) (ri_gt_disp spec) in
          Some (mkDuelRound (ri_name spec) (length (ri_lines spec)) (distinct_str (ri_gt_class spec))
                  (score_run v_clusters v_templates spec gt_template violations_on)
                  (score_run t_clusters t_templates spec gt_template violations_on) panics ok (ri_note spec), s1)
      end
  end.

Fixpoint duel_rounds (clocks : nat -> (nat -> Z * Z) * (nat -> Z * Z)) (te : TieredEnv) (i : nat)
    (s : nat * TieredPipeline) (specs : list RoundInput) : option (list DuelRound) :=
  match specs with
  | [] => Some []
  | spec :: specs' =>
      match duel_round (clocks i).1 (clocks i).2 te s spec with
      | None => None
      | Some (r, s1) => rs <-! duel_rounds clocks te (S i) s1 specs'; Some (r :: rs)
      end
  end.

Definition join (dir name : string) : string := dir +:+ "/" +:+ name.

(** A LogHub round, if its two files are there. *)
Definition loghub_input (fs : Files) (duel_dir name stem : string) : Result string (list RoundInput) :=
  let log := join duel_dir (stem +:+ ".log") in
  let csv := join duel_dir (stem +:+ ".log_structured.csv") in
  if fs_is_file fs log && fs_is_file fs csv
  then match loghub_round fs name log csv with Ok r => Ok [r] | Err e => Err e end
  else Ok [].

(** The inputs of the rounds, [Ok None] without the probe. *)
Definition duel_inputs (fs : Files) (data_dir : string) : Result string (option (list RoundInput)) :=
  let duel_dir := join data_dir "duel" in
  let probe_log := join duel_dir "security_probe.log" in
  let probe_gt := join duel_dir "security_probe.gt.jsonl" in
  if negb (fs_is_file fs probe_log) || negb (fs_is_file fs probe_gt) then Ok None
  else
    let adv_dir := join data_dir "adversarial" in
    let adv_log := join adv_dir "adversarial.log" in
    let adv_gt := join adv_dir "gt.jsonl" in
    match sidecar_round fs "R1 probe" probe_log probe_gt true None with
    | Err e => Err e
    | Ok r1 =>
        match (if fs_is_file fs adv_log && fs_is_file fs adv_gt
               then match sidecar_round fs "R2 fuzzed" adv_log adv_gt false
                            (Some "sidecar GT is tag-level: PA/FTA not graded") with
                    | Ok r => Ok [r]
                    | Err e => Err e
                    end
               else Ok []) with
        | Err e => Err e
        | Ok r2 =>
            match loghub_input fs duel_dir "R3 BGL" "BGL_2k" with
            | Err e => Err e
            | Ok r3 =>
                match loghub_input fs duel_dir "R3 TBird" "Thunderbird_2k" with
                | Err e => Err e
                | Ok r4 => Ok (Some ([r1] ++ r2 ++ r3 ++ r4))
                end
            end
        end
    end.

Definition sum_of (f : DuelRound -> nat) (rs : list DuelRound) : nat := sum_list (f <$> rs).

Definition run_duel (clocks : nat -> (nat -> Z * Z) * (nat -> Z * Z)) (te : TieredEnv) (fs : Files) (data_dir : string)
  : option (Result string (option DuelReport)) :=
  match duel_inputs fs data_dir with
  | Err e => Some (Err e)
  | Ok None => Some (Ok None)
  | Ok (Some inputs) =>
      cache0 <-! with_capacity 16 512;
      rs <-! duel_rounds clocks te 0 (0, with_ring_buffer_capacity cache0 (Z.to_nat 10000)) inputs;
      Some (Ok (Some (mkDuelReport rs (sum_of dr_lines rs) (sum_of dr_tiered_lossless_ok rs) (sum_of dr_tiered_panics rs))))
  end.

End Run.
