(* ===== verification/DuelFacts.v ===== *)
(** * The duel measures what the evaluator measures

    Its grouping accuracy is that of the evaluator, its violations are the
    clusters that mix verdicts, and its capability row holds on ASCII lines. *)

From Stdlib Require Import Sorting.Sorted.
From S2P Require Export Duel BenchmarkFacts.

(** ** Grouping accuracy *)

Lemma duel_grouping tags : forall (cs : list nat) g,
  foldl (fun g p => count_tag g (Z.of_nat p.2) p.1) g (zip tags cs)
  = foldl (fun g p => count_tag g p.1 p.2) g (zip (Z.of_nat <$> cs) tags).
Proof. induction tags as [|t tags IH]; intros [|c cs] g; simpl; by try apply IH. Qed.

Section Equivalence.
Context `{Sha256} `{HexLib} `{UnicodeLib} `{ChronoLib} `{RegexLib} `{JsonLib} `{AhoCorasick} `{RegexEngine} `{UnicodeText}
  `{LibM} `{UuidLib} `{SidecarJson}.
Context {P : Type}.
Variable parse_fn : P -> string -> option NetworkActivity * P.
Variable gt : GtOverrides.
Variable clocks : nat -> Z * Z.

(** The tag that the audit takes for a line. *)
Definition tagged (raw tag : string) : Prop := exists v act, ground_truth gt raw = Some (v, tag, act).

Lemma records_event idx raw cid v act e a : au_records (audit_event idx raw cid v act e a) = au_records a.
Proof. by destruct (audit_event_rob idx raw cid v act e a) as (_ & _ & _ & _ & El & _). Qed.

Lemma records_grade raw e a : au_records (grade_sidecar gt raw e a) = au_records a.
Proof. unfold grade_sidecar. by destruct (gt !! raw). Qed.

Lemma audit_loop_records corpus : forall idx p n m a a' p' c',
  audit_loop parse_fn (miner_cluster clocks) gt idx corpus p (n, m) a = Some (a', p', c') ->
  exists cs ts tags, mine_lines clocks n m corpus = Some (cs, ts) /\ Forall2 tagged corpus tags /\
    pair_of <$> au_records a' = (pair_of <$> au_records a) ++ zip (Z.of_nat <$> cs) tags.
Proof.
  induction corpus as [|raw corpus IH]; intros idx p n m a a' p' c'; cbn [audit_loop mine_lines].
  { intros [= <- <- <-]. exists [], [], []. split_and!; try done. by rewrite app_nil_r. }
  unfold audit_line. destruct (ground_truth gt raw) as [[[v t] act]|] eqn:Eg; [|done].
  unfold miner_cluster at 1. destruct (add_log m _ _ raw) as [[res m1]|]; [|done].
  set (a1 := audit_cluster idx raw _ _ t a).
  assert (au_records a1 = au_records a ++ [(idx, raw, Z.of_nat (cr_cluster_id res), t)]) as E1
    by (unfold a1, audit_cluster; by rewrite rc_records).
  destruct (parse_fn p raw) as [[e|] p1]; intros EL; destruct (IH _ _ _ _ _ _ _ _ EL) as (cs & ts & tags & -> & HF & ->);
    exists (cr_cluster_id res :: cs), (cr_template res :: ts), (t :: tags);
    (split; [done|split; [constructor; [by eexists _, _|done]|]]).
  - rewrite records_grade, records_event, E1, fmap_app, <- app_assoc. done.
  - unfold add_failure. cbn [au_records]. rewrite records_grade, E1, fmap_app, <- app_assoc. done.
Qed.

Lemma tagged_fun ls tags tags' : Forall2 tagged ls tags -> Forall2 tagged ls tags' -> tags = tags'.
Proof.
  intros HF. revert tags'. induction HF as [|raw t ls tags (v & act & E) HF IH]; intros tags' HF';
    apply Forall2_cons_inv_l in HF' as (t' & tags'' & (v' & act' & E') & HF' & ->) || apply Forall2_nil_inv_l in HF' as ->; [done|].
  rewrite E in E'. simplify_eq. f_equal. by apply IH.
Qed.

Lemma grouping_accuracy_audit iter aclocks corpus gt_class cs ts p summary rob fs p' c' : corpus <> [] ->
  Forall2 tagged corpus gt_class -> run_miner clocks corpus drain_default = Some (cs, ts) ->
  audit_accuracy parse_fn (miner_cluster clocks) gt iter aclocks corpus p (0, miner_new drain_default)
    = Some (summary, rob, fs, p', c') ->
  grouping_accuracy gt_class cs = grouping_accuracy_ga_pct summary.
Proof.
  intros Hne HF Em. unfold audit_accuracy.
  destruct (audit_loop _ _ _ 0 corpus p _ audit_new) as [[[a p1] c1]|] eqn:E; [|done].
  destruct (verify_action_preservation aclocks); [|done]. intros [= <- <- <- <- <-].
  destruct (audit_loop_records corpus _ _ _ _ _ _ _ _ E) as (cs' & ts' & tags & Em' & HF' & Er).
  unfold run_miner in Em. rewrite Em in Em'. simplify_eq. rewrite (tagged_fun _ _ _ HF HF'). simpl in Er.
  apply (audit_loop_books _ _ _ corpus 0 0) in E as B; [|apply books_new]. simpl.
  rewrite (bk_clusters _ _ _ _ B), Er. unfold grouping_accuracy, grouping_of.
  rewrite duel_grouping. destruct tags as [|t tags]; [apply Forall2_nil_inv_r in HF'; done|].
  cbn [is_nil_list]. unfold pct. apply Forall2_length in HF'. by rewrite HF'.
Qed.

Lemma sidecar_records_tagged log_path gt_path ls : forall i recs,
  sidecar_records log_path gt_path gt i ls = Ok recs -> Forall2 tagged ls (sg_template_tag <$> recs).
Proof.
  induction ls as [|raw ls IH]; intros i recs; cbn [sidecar_records]; [intros [= <-]; constructor|].
  destruct (gt !! raw) as [rec|] eqn:E; [|done]. destruct (sidecar_records _ _ _ _ ls) eqn:Er; [|done].
  intros [= <-]. rewrite fmap_cons. constructor; [|by eapply IH]. unfold tagged, ground_truth. rewrite E. by eexists _, _.
Qed.

End Equivalence.

Section Duel.
Context `{Sha256} `{HexLib} `{UnicodeLib} `{ChronoLib} `{RegexLib} `{JsonLib} `{AhoCorasick} `{RegexEngine} `{UnicodeText}
  `{LibM} `{UuidLib} `{SidecarJson} `{DebugText}.

(** C31: the duel's grouping accuracy is the evaluator's: for a sidecar round,
    the accuracy that the duel computes from the miner's cluster ids is, bit
    for bit, the one that the audit of the same lines reports for an engine of
    any kind that clusters with the same miner. *)
Theorem duel_grouping_is_evaluator {P} (parse_fn : P -> string -> option NetworkActivity * P) fs name log_path gt_path full note
    spec gt clocks cs ts iter aclocks p summary rob failures p' c' :
  sidecar_round fs name log_path gt_path full note = Ok spec -> load_sidecar_gt (fs_read fs) gt_path = Ok gt ->
  ri_lines spec <> [] -> run_miner clocks (ri_lines spec) drain_default = Some (cs, ts) ->
  audit_accuracy parse_fn (miner_cluster clocks) gt iter aclocks (ri_lines spec) p (0, miner_new drain_default)
    = Some (summary, rob, failures, p', c') ->
  grouping_accuracy (ri_gt_class spec) cs = grouping_accuracy_ga_pct summary.
Proof.
  unfold sidecar_round. destruct (read_trimmed_lines fs log_path) as [ls|]; [|done]. intros Hr Hg. rewrite Hg in Hr.
  destruct (sidecar_records log_path gt_path gt 0 ls) as [recs|] eqn:E; [|done]. injection Hr as <-. simpl.
  intros Hne Em Ea. eapply grouping_accuracy_audit; [done|by eapply sidecar_records_tagged|done|done].
Qed.

(** ** Capability *)

Lemma pipeline_capability_ok te ls : Forall (fun l => all_bytes is_ascii l = true) ls -> forall s, tiered_inv s ->
  exists s', pipeline_capability te s ls = ((length ls, 0), s') /\ tiered_inv s'.
Proof.
  induction 1 as [|raw ls Hr HF IH]; intros s I; simpl; [eauto|].
  destruct (tiered_process_ok te s raw Hr I) as (e & s1 & -> & I1 & _ & Hc). destruct (IH s1 I1) as (s2 & -> & I2).
  assert (md_raw_hash (na_metadata e) = compute_sha256 raw) as -> by apply Hc. rewrite String.eqb_refl.
  exists s2. simpl. by rewrite Nat.add_1_r.
Qed.

Lemma mine_lines_total clocks ls : forall n m, exists cs ts, mine_lines clocks n m ls = Some (cs, ts).
Proof.
  induction ls as [|raw ls IH]; intros n m; simpl; [eauto|].
  destruct (drain_total m (clocks n).1 (clocks n).2 raw) as (r & m1 & ->). destruct (IH (S n) m1) as (cs & ts & ->). eauto.
Qed.

Definition ascii_round (spec : RoundInput) : Prop := Forall (fun l => all_bytes is_ascii l = true) (ri_lines spec).

Lemma duel_rounds_ok clocks te specs : Forall ascii_round specs -> forall i s, tiered_inv s ->
  exists rs, duel_rounds clocks te i s specs = Some rs /\
    Forall2 (fun spec r => dr_lines r = length (ri_lines spec) /\ dr_tiered_lossless_ok r = dr_lines r /\ dr_tiered_panics r = 0)
      specs rs.
Proof.
  induction 1 as [|spec specs Hs HF IH]; intros i s I; simpl; [eauto|]. unfold duel_round, run_miner.
  destruct (mine_lines_total (clocks i).1 (ri_lines spec) 0 (miner_new vanilla_cfg)) as (vc & vt & ->).
  destruct (mine_lines_total (clocks i).2 (ri_lines spec) 0 (miner_new drain_default)) as (tc & tt & ->).
  destruct (pipeline_capability_ok te _ Hs s I) as (s1 & -> & I1). destruct (IH (S i) s1 I1) as (rs & -> & HR2).
  eexists. split; [reflexivity|]. by constructor.
Qed.

(** The capability row of the duel holds whenever its fixtures are ASCII:
    the run ends with a report in which no line made the pipeline panic and all
    lines kept their digest. *)
Theorem duel_capability_holds clocks te fs data_dir inputs :
  duel_inputs fs data_dir = Ok (Some inputs) -> Forall ascii_round inputs ->
  exists rep, run_duel clocks te fs data_dir = Some (Ok (Some rep)) /\
    tiered_panics rep = 0 /\ tiered_lossless_ok rep = tiered_lines rep /\
    tiered_lines rep = sum_list (length <$> (ri_lines <$> inputs)).
Proof.
  intros Ei HF. unfold run_duel. rewrite Ei. destruct (with_capacity 16 512) as [cache0|] eqn:Ec; [|done].
  assert (tiered_inv (0, with_ring_buffer_capacity cache0 (Z.to_nat 10000))) as I0.
  { apply pipeline_new_inv. by eapply with_capacity_inv. }
  destruct (duel_rounds_ok clocks te inputs HF 0 _ I0) as (rs & -> & HR2). eexists. split; [reflexivity|]. simpl.
  unfold sum_of. clear Ei HF. induction HR2 as [|spec r inputs rs (E1 & E2 & E3) HR2 IH]; [done|].
  rewrite !fmap_cons. unfold sum_list in *. cbn [sum_list_with]. destruct IH as (-> & -> & ->).
  simpl. lia.
Qed.

End Duel.

(** ** Violations *)

(** Whether a cluster has a line with a disposition of a side. *)
Definition sees (l : list (nat * option string)) (c : nat) (side : bool) : bool :=
  existsb (fun p => (p.1 =? c)%nat && bool_decide (side_of p.2 = Some side)) l.

Lemma see_side_spec l c : foldl see_side ∅ l !! c =
  if sees l c true || sees l c false then Some (sees l c true, sees l c false) else None.
Proof.
  induction l as [|[c' d] l IH] using rev_ind; [done|]. rewrite foldl_app. cbn [foldl]. unfold see_side at 1. cbn [fst snd].
  unfold sees in *. rewrite !existsb_app. cbn [existsb fst snd]. rewrite !orb_false_r.
  destruct (side_of d) as [side|].
  - destruct (decide (c' = c)) as [->|Hn].
    + rewrite lookup_insert_eq, IH, Nat.eqb_refl. cbn [andb].
      destruct (existsb _ l), (existsb _ l), side; reflexivity.
    + rewrite lookup_insert_ne by done. rewrite IH. apply Nat.eqb_neq in Hn. rewrite Hn. cbn [andb]. by rewrite !orb_false_r.
  - rewrite IH, !bool_decide_eq_false_2, !andb_false_r, !orb_false_r by done. done.
Qed.

(** The duel's violation count is exact: it is the number of clusters that
    hold both a line with an allow-side and one with a deny-side disposition. *)
Theorem violations_count_mixed clusters disp : length clusters = length disp ->
  action_violations clusters disp =
    size (filter (fun c => sees (zip clusters disp) c true && sees (zip clusters disp) c false = true)
            (list_to_set clusters : gset nat)).
Proof.
  intros Hl. unfold action_violations. rewrite <- size_dom. f_equal. apply set_eq. intros c.
  rewrite elem_of_dom, elem_of_filter, elem_of_list_to_set. unfold is_Some.
  setoid_rewrite map_lookup_filter_Some. setoid_rewrite see_side_spec. split.
  - intros ([a d] & Hs & Ha). simpl in Ha. destruct (sees _ c true) eqn:E1, (sees _ c false) eqn:E2; simplify_eq/=; try done.
    split; [done|]. unfold sees in E1. apply existsb_exists in E1 as ([c' d'] & Hin%list_elem_of_In & Hb).
    bool_hyps. simpl in *. subst c'. by apply elem_of_zip_l in Hin.
  - intros [Hm _]. apply andb_true_iff in Hm as [-> ->]. by exists (true, true).
Qed.

(** ** Witnesses *)

Module EvaluatorDemo.
Import Demo TokenDemo ParserDemo OnboarderDemo PipelineDemo.

#[export] Instance demo_uuid : UuidLib := {| uuid_parses s := negb (is_empty s) |}.
#[export] Instance demo_hasher : DefaultHasher := {| default_hash s := poly 7 s |}.

(** A sidecar record per line: the line itself. *)
#[export] Instance demo_sidecar : SidecarJson := {|
  sidecar_from_str line :=
    Ok (mkSidecar line "Fortinet" (if contains "deny" line then "fw_deny" else "fw_allow")
          (JObject [("src_ip", JString "10.0.0.1"); ("dst_port", JInt 443); ("protocol", JNull)])
          (if contains "deny" line then Some "Blocked" else Some "Allowed") None "easy" "demo")
|}.
#[export] Instance demo_debug : DebugText := {| debug_str s := in_quotes s |}.

Definition corpus3 : list string :=
  ["devname=f srcip=10.0.0.1 proto=6 action=accept"; "devname=f srcip=10.0.0.2 proto=6 action=deny"; "plain text"].

Definition nl : string := String newline "".

Definition corpus_text : string := str_join nl corpus3 +:+ nl.

Definition demo_files : Files :=
  mkFiles (fun path => if contains "security_probe" path then Ok corpus_text else Err "missing")
    (fun path => contains "security_probe" path) (fun path => contains "security_probe" path).

Definition demo_gt : GtOverrides := default ∅ (result_ok (load_sidecar_gt (fs_read demo_files) "security_probe.gt.jsonl")).

Definition te0 : TieredEnv := mkTieredEnv (fun _ => penv) (fun n => if (n mod 2 =? 0)%nat then [(action_token_priors, 1%Z)] else []).

Definition mc0 (n : nat) : Z * Z := (Z.of_nat n, 1%Z).

Definition pipe0 : nat * TieredPipeline := (0, with_ring_buffer_capacity cache16 4).

Definition demo_audit := audit_accuracy (tiered_process te0) (miner_cluster mc0) demo_gt map_to_list ((1, 2), (3, 4))%Z corpus3
  pipe0 (0, miner_new drain_default).

Definition demo_summary : AccuracyAuditSummary * RobustnessSummary * list AuditFailure * (nat * TieredPipeline) * (nat * DrainMiner) :=
  default (summarise 0 false audit_new, rob_default, [], pipe0, (0, miner_new drain_default)) demo_audit.

Lemma demo_audit_ok : demo_audit = Some (demo_summary.1.1.1.1, demo_summary.1.1.1.2, demo_summary.1.1.2, demo_summary.1.2, demo_summary.2).
Proof. vm_compute. reflexivity. Qed.

(** All lines keep their digest; of six expectations one is met. *)
Example demo_counts : let '(s, rob, fs, _, _) := demo_summary in
  (lines_total rob, lossless_ok rob, gt_fields_total rob, gt_fields_correct rob, gt_fields_null rob, unique_clusters s,
   failures_of "grouping" fs) = (3, 3, 6, 1, 9, 3, 0).
Proof. vm_compute. reflexivity. Qed.

Lemma audit_books_witness : exists ga, grouping_accuracy_ga_pct demo_summary.1.1.1.1 = pct ga 3 /\
  ga + failures_of "grouping" demo_summary.1.1.2 = 3.
Proof.
  destruct (audit_books (tiered_process te0) (miner_cluster mc0) demo_gt map_to_list ((1, 2), (3, 4))%Z corpus3 pipe0
    (0, miner_new drain_default) _ _ _ _ _ (fun m => Permutation_refl _) demo_audit_ok) as (correct & ga & Hg & Hs & _).
  exists ga. split; [exact Hg|exact Hs].
Defined.

Lemma truncated_asa_aborts_audit_witness :
  audit_accuracy (tiered_process te0) (miner_cluster mc0) demo_gt map_to_list ((1, 2), (3, 4))%Z ["<134> %ASA-6-3020"] pipe0
    (0, miner_new drain_default) = None.
Proof.
  apply (truncated_asa_aborts_audit (tiered_process te0) (miner_cluster mc0) demo_gt map_to_list ((1, 2), (3, 4))%Z
    ["<134> %ASA-6-3020"] "<134> %ASA-6-3020" 6); [by left|vm_compute; reflexivity..|simpl; lia].
Defined.

Lemma latency_percentiles_ordered_witness : exists s p',
  sample_latency_distribution (tiered_call te0) corpus3 (fun i => Z.of_nat (7 * i mod 5)) 10 pipe0 = Some (s, p') /\
  samples_count s = 100 /\ StronglySorted le_f64 (percentiles s) /\ tiered_inv p'.
Proof.
  apply (latency_percentiles_ordered (tiered_call te0) corpus3 tiered_inv
    (fun p raw I Hin => tiered_call_ok te0 corpus3 p raw ltac:(repeat constructor) I Hin)
    (fun i => Z.of_nat (7 * i mod 5)) 10 pipe0); [discriminate|vm_compute; discriminate|intros; lia|].
  apply pipeline_new_inv. exact (with_capacity_inv 16 512 cache16 cache16_ok).
Defined.

(** Two workers, the second of which takes two turns. *)
Lemma worker_totals_exact_witness :
  let b := run_workers (tiered_call te0) corpus3 2 [0; 1; 7; 1] pipe0 in
  bn_count b = 3%Z /\ bn_bytes b = 100%Z.
Proof.
  destruct (worker_totals_exact (tiered_call te0) corpus3 tiered_inv
    (fun p raw I Hin => tiered_call_ok te0 corpus3 p raw ltac:(repeat constructor) I Hin) ltac:(discriminate) 2 [0; 1; 7; 1] pipe0)
    as (E1 & E2 & _).
  - apply pipeline_new_inv. exact (with_capacity_inv 16 512 cache16 cache16_ok).
  - lia.
  - split; [etrans; [exact E1|]|etrans; [exact E2|]]; vm_compute; reflexivity.
Defined.

Definition be0 : BenchEnv := mkBenchEnv [0; 1; 0] (f64_of_Z 1) (fun i => Z.of_nat i) ((1, 2), (3, 4))%Z map_to_list.

Definition probe_round : RoundInput :=
  default (mkRound "" [] [] None [] None)
    (result_ok (sidecar_round demo_files "R1 probe" "duel/security_probe.log" "security_probe.gt.jsonl" true None)).

Lemma probe_round_ok :
  sidecar_round demo_files "R1 probe" "duel/security_probe.log" "security_probe.gt.jsonl" true None = Ok probe_round.
Proof. apply result_default. vm_compute. reflexivity. Qed.

Lemma demo_gt_ok : load_sidecar_gt (fs_read demo_files) "security_probe.gt.jsonl" = Ok demo_gt.
Proof. apply result_default. vm_compute. reflexivity. Qed.

Definition demo_mined : list nat * list string := default ([], []) (run_miner mc0 corpus3 drain_default).

Lemma demo_mined_ok : run_miner mc0 corpus3 drain_default = Some (demo_mined.1, demo_mined.2).
Proof. vm_compute. reflexivity. Qed.

Lemma duel_grouping_is_evaluator_witness :
  grouping_accuracy (ri_gt_class probe_round) demo_mined.1 = grouping_accuracy_ga_pct demo_summary.1.1.1.1.
Proof.
  eapply (duel_grouping_is_evaluator (tiered_process te0) demo_files "R1 probe" "duel/security_probe.log"
    "security_probe.gt.jsonl" true None probe_round demo_gt mc0);
    [exact probe_round_ok|exact demo_gt_ok|vm_compute; discriminate|exact demo_mined_ok|exact demo_audit_ok].
Defined.

Definition demo_inputs : list RoundInput := default [] (default None (result_ok (duel_inputs demo_files "data"))).

Lemma duel_capability_holds_witness :
  exists rep, run_duel (fun _ => (mc0, mc0)) te0 demo_files "data" = Some (Ok (Some rep)) /\ tiered_panics rep = 0 /\
    tiered_lossless_ok rep = tiered_lines rep /\ tiered_lines rep = 3.
Proof.
  apply (duel_capability_holds (fun _ => (mc0, mc0)) te0 demo_files "data" demo_inputs); [vm_compute; reflexivity|].
  vm_compute. repeat constructor.
Defined.

Lemma violations_count_mixed_witness :
  action_violations [1; 1; 2] [Some "Allow"; Some "DENY"; Some "pass"]%string = 1.
Proof.
  rewrite (violations_count_mixed [1; 1; 2] [Some "Allow"; Some "DENY"; Some "pass"]%string eq_refl).
  vm_compute. reflexivity.
Defined.

End EvaluatorDemo.
