(* ===== verification/Ingest.v ===== *)
(** * Live ingest ([crates/ulpf-cli/src/main.rs], [run_ingest])

    Producer tasks that cut datagrams and connections into lines and push them,
    the bounded queue, and the consumer that parses, mines and batches every
    line, with the shutdown: close the queue, drain it, flush the tail.  An
    [IngestAction] is what one task does between two points where another can
    act; a run is any sequence of actions. *)

From S2P Require Export Queue Batcher Parser Drain.

Record IngestArgs := mkIngestArgs {
  ia_udp : string;
  ia_tcp : string;
  ia_parquet_dir : string;
  ia_ledger : string;
  ia_batch_size : nat;
  ia_batch_timeout : Z;
  ia_reuse_port : bool;
  ia_queue_capacity : nat;
  ia_drop_on_full : bool
}.

(** The defaults of the flags. *)
Definition ingest_defaults : IngestArgs :=
  mkIngestArgs "0.0.0.0:5140" "0.0.0.0:5140" "data/parquet" "data/ledger.jsonl" (Z.to_nat 1000) 2000 true
    (Z.to_nat 50000) false.

Definition validate_ingest_args (args : IngestArgs) : Result string unit :=
  if (ia_queue_capacity args =? 0)%nat
  then Err "--queue-capacity must be greater than 0 (got 0): zero capacity with block-on-full parks producers forever"
  else Ok tt.

Definition ingest_policy (args : IngestArgs) : BackpressurePolicy := if ia_drop_on_full args then Drop else Block.

Definition ingest_batcher_config (args : IngestArgs) : BatcherConfig :=
  mkConfig (ia_batch_size args) (ia_batch_timeout args) (ia_parquet_dir args) (ia_ledger args) Snappy.

(** ** Producers *)

(** The lines of a datagram: none unless it is UTF-8, then the trimmed lines
    that are not empty. *)
Definition udp_lines (data : string) : list string :=
  if utf8_valid data then List.filter not_empty (trim <$> lines data) else [].

(** A task: the lines it has still to push, and whether it has ended. *)
Record ProducerTask := mkProducer { pt_backlog : list string; pt_ended : bool }.

(** ** The consumer *)

(** [serde_json::to_string(&event)], if it succeeds *)
Class EventJson := { event_to_string : NetworkActivity -> option string }.

(** What the processing of a line draws from outside: the parser's draws, the
    clock and the latency of the miner, the clocks of the batcher, and what a
    flush draws. *)
Record ProcEnv `{ParquetLib} := mkProcEnv {
  pr_parse : ParseEnv;
  pr_miner_ms : Z;
  pr_miner_latency : Z;
  pr_t0 : Z;
  pr_t1 : Z;
  pr_flush : FlushEnv
}.

(** The state of the closure [process], with the disk it writes. *)
Record Engine `{ParquetLib} := mkEngine {
  en_parsed : Z;
  en_blocks : Z;
  en_anomalies : Z;
  en_miner : DrainMiner;
  en_batcher : BatchAccumulator;
  en_disk : Disk
}.

(** Where the main task is. *)
Inductive Phase := Running | Closing | Draining | Finished | Failed (e : string) | Crashed.

(** [ig_batch] are the lines popped and not yet processed; [ig_logs] records the
    logs that were handed to the batcher. *)
Record Ingest `{ParquetLib} := mkIngest {
  ig_queue : System;
  ig_tasks : gmap nat ProducerTask;
  ig_total_ingested : Z;
  ig_phase : Phase;
  ig_batch : list string;
  ig_engine : Engine;
  ig_logs : list IncomingLog
}.

Section Ingest.
Context `{Sha256} `{HexLib} `{UnicodeLib} `{ChronoLib} `{RegexLib} `{JsonLib} `{AhoCorasick} `{RegexEngine}
  `{ArrowLib} `{PQ : ParquetLib} `{LedgerJson} `{EventJson}.

(** The log that [process] hands to the batcher. *)
Definition incoming_of (event : NetworkActivity) (raw_log : string) : IncomingLog :=
  let ocsf_json := default "{}" (event_to_string event) in
  with_ocsf (with_event_id (with_timestamp (incoming_new (pr_vendor_name (md_product (na_metadata event))) raw_log)
    (na_time event)) (md_event_id (na_metadata event))) ocsf_json.

(** The closure [process]; [None] is a panic. *)
Definition process_log (env : ProcEnv) (raw_log : string) (e : Engine)
  : option (Result string unit * Engine * IncomingLog) :=
  event <-! parse_lossless (pr_parse env) raw_log;
  let parsed := u64 (en_parsed e + 1) in
  match add_log (en_miner e) (pr_miner_ms env) (pr_miner_latency env) raw_log with
  | None => None
  | Some (cluster_res, miner) =>
      let anomalies := match cr_anomaly cluster_res with
                       | Some _ => u64 (en_anomalies e + 1)
                       | None => en_anomalies e
                       end in
      let incoming := incoming_of event raw_log in
      match Batcher.push (pr_t0 env) (pr_t1 env) (pr_flush env) incoming (en_batcher e) (en_disk e) with
      | None => None
      | Some (Err msg, b, d) => Some (Err msg, mkEngine _ parsed (en_blocks e) anomalies miner b d, incoming)
      | Some (Ok flushed, b, d) =>
          let blocks := match flushed with Some _ => u64 (en_blocks e + 1) | None => en_blocks e end in
          Some (Ok tt, mkEngine _ parsed blocks anomalies miner b d, incoming)
      end
  end.

(** [from_utf8(&bytes).unwrap_or("")], which is processed if it is not empty *)
Definition is_line (bytes : string) : bool := utf8_valid bytes && not_empty bytes.

(** ** Actions *)

Inductive IngestAction :=
| Datagram (t : nat) (data : string)    (** the UDP task receives a datagram *)
| TcpLine (t : nat) (line : string)     (** a TCP task reads a line *)
| Push (t : nat)                        (** a task counts its next line and calls [push] *)
| Ended (t : nat)                       (** a task whose [push] failed ends *)
| Step (t : nat)                        (** a task makes a step of [push] *)
| Wake (t : nat)                        (** a parked task wakes without a notification *)
| PopBatch                              (** the consumer pops a batch *)
| Process (env : ProcEnv)               (** the consumer processes the next line *)
| Signal                                (** the shutdown signal: [close] stores its flag *)
| Notify                                (** [close] notifies *)
| Finish (env : FlushEnv).              (** the grace period is over: the final flush *)

Definition set_queue (s : Ingest) (q : System) : Ingest :=
  mkIngest _ q (ig_tasks s) (ig_total_ingested s) (ig_phase s) (ig_batch s) (ig_engine s) (ig_logs s).

Definition set_task (s : Ingest) (t : nat) (p : ProducerTask) : Ingest :=
  mkIngest _ (ig_queue s) (<[t := p]> (ig_tasks s)) (ig_total_ingested s) (ig_phase s) (ig_batch s) (ig_engine s)
    (ig_logs s).

Definition set_phase (s : Ingest) (ph : Phase) : Ingest :=
  mkIngest _ (ig_queue s) (ig_tasks s) (ig_total_ingested s) ph (ig_batch s) (ig_engine s) (ig_logs s).

Definition set_engine (s : Ingest) (ph : Phase) (batch : list string) (e : Engine) (logs : list IncomingLog) : Ingest :=
  mkIngest _ (ig_queue s) (ig_tasks s) (ig_total_ingested s) ph batch e logs.

(** A task that waits for input: it has not ended and nothing to push. *)
Definition idle (s : Ingest) (t : nat) : bool :=
  match ig_tasks s !! t with
  | Some p => negb (pt_ended p) && is_nil_list (pt_backlog p)
  | None => true
  end
  && match threads (ig_queue s) !! t with None | Some (Done (Ok _)) => true | _ => false end.

Definition consuming (ph : Phase) : bool := match ph with Running | Draining => true | _ => false end.

(** The processing of the next line of the batch. *)
Definition consume (env : ProcEnv) (raw : string) (rest : list string) (s : Ingest) : Ingest :=
  if is_line raw
  then match process_log env raw (ig_engine s) with
       | None => set_phase s Crashed
       | Some (Ok _, e, log) => set_engine s (ig_phase s) rest e (ig_logs s ++ [log])
       | Some (Err msg, e, log) => set_engine s (Failed msg) rest e (ig_logs s ++ [log])
       end
  else set_engine s (ig_phase s) rest (ig_engine s) (ig_logs s).

(** The final flush. *)
Definition final_flush (env : FlushEnv) (s : Ingest) : Ingest :=
  let e := ig_engine s in
  match flush env (en_batcher e) (en_disk e) with
  | None => set_phase s Crashed
  | Some (Err msg, b, d) =>
      set_engine s (Failed msg) (ig_batch s) (mkEngine _ (en_parsed e) (en_blocks e) (en_anomalies e) (en_miner e) b d) (ig_logs s)
  | Some (Ok flushed, b, d) =>
      let blocks := match flushed with Some _ => u64 (en_blocks e + 1) | None => en_blocks e end in
      set_engine s Finished (ig_batch s) (mkEngine _ (en_parsed e) blocks (en_anomalies e) (en_miner e) b d) (ig_logs s)
  end.

(** A pop of the consumer: the lines popped are those the history gains. *)
Definition pop_lines (n : nat) (s : Ingest) : option (list string * Ingest) :=
  match exec (Pop n) (ig_queue s) with
  | None => None
  | Some q => Some (drop (length (popped (ig_queue s))) (popped q), set_queue s q)
  end.

(** One action, where it is enabled; [n] is the batch size. *)
Definition ingest_exec (n : nat) (a : IngestAction) (s : Ingest) : option Ingest :=
  match a with
  | Datagram t data => if idle s t then Some (set_task s t (mkProducer (udp_lines data) false)) else None
  | TcpLine t line =>
      if idle s t
      then Some (set_task s t (if utf8_valid line then mkProducer (List.filter not_empty [trim line]) false
                               else mkProducer [] true))
      else None
  | Push t =>
      match ig_tasks s !! t, threads (ig_queue s) !! t with
      | Some (mkProducer (line :: rest) false), (None | Some (Done (Ok _))) =>
          q <-! exec (Call t line) (ig_queue s);
          Some (mkIngest _ q (<[t := mkProducer rest false]> (ig_tasks s)) (u64 (ig_total_ingested s + 1)) (ig_phase s)
                  (ig_batch s) (ig_engine s) (ig_logs s))
      | _, _ => None
      end
  | Ended t =>
      match threads (ig_queue s) !! t with
      | Some (Done (Err _)) => Some (set_task s t (mkProducer [] true))
      | _ => None
      end
  | Step t => q <-! exec (Run t) (ig_queue s); Some (set_queue s q)
  | Wake t => q <-! exec (Spurious t) (ig_queue s); Some (set_queue s q)
  | PopBatch =>
      if consuming (ig_phase s) && is_nil_list (ig_batch s)
      then match pop_lines n s with
           | None => None
           | Some (batch, s1) => Some (set_engine s1 (ig_phase s1) batch (ig_engine s1) (ig_logs s1))
           end
      else None
  | Process env =>
      if consuming (ig_phase s)
      then match ig_batch s with [] => None | raw :: rest => Some (consume env raw rest s) end
      else None
  | Signal =>
      match ig_phase s, ig_batch s with
      | Running, [] => q <-! exec CloseStore (ig_queue s); Some (set_phase (set_queue s q) Closing)
      | _, _ => None
      end
  | Notify =>
      match ig_phase s with
      | Closing => q <-! exec CloseNotify (ig_queue s); Some (set_phase (set_queue s q) Draining)
      | _ => None
      end
  | Finish env =>
      match ig_phase s, ig_batch s with
      | Draining, [] =>
          match pop_lines n s with
          | Some ([], s1) => Some (final_flush env s1)
          | _ => None
          end
      | _, _ => None
      end
  end.

(** The start: the queue, the counters and the accumulator. *)
Definition ingest_start (args : IngestArgs) (d : Disk) : Result string Ingest :=
  match validate_ingest_args args with
  | Err e => Err e
  | Ok _ =>
      match batcher_new (ingest_batcher_config args) d with
      | Err e => Err e
      | Ok b =>
          Ok (mkIngest _ (initial (ia_queue_capacity args) (ingest_policy args)) ∅ 0 Running []
                (mkEngine _ 0 0 0 (miner_new drain_default) b d) [])
      end
  end.

Fixpoint ingest_run (n : nat) (acts : list IngestAction) (s : Ingest) : option Ingest :=
  match acts with
  | [] => Some s
  | a :: acts' => s1 <-! ingest_exec n a s; ingest_run n acts' s1
  end.

End Ingest.

(** ** The summary *)

Definition tail_note (qs : QueueStats) : string :=
  if (st_dropped qs =? 0)%Z then "tail batch flushed losslessly."
  else "tail batch flushed; " +:+ uint_to_string (st_dropped qs) +:+ " lines (" +:+ uint_to_string (st_dropped_bytes qs)
       +:+ " bytes) were shed upstream under drop-on-full.".
