(* ===== verification/IngestFacts.v ===== *)
(** * Ingest loses nothing

    In every interleaving of producers and consumer the lines that the queue
    accepted are, in order, those in the blocks on disk, those pending in the
    accumulator, those popped and those still queued; a shutdown that runs
    through leaves all of them on disk, and no line is accepted after it.  The
    lines that the consumer would skip never come: [lines_inv]. *)

From S2P Require Export Ingest QueueFacts BatcherFacts ParserFacts DrainFacts.

Section Engine.
Context `{Sha256} `{HexLib} `{UnicodeLib} `{ChronoLib} `{RegexLib} `{JsonLib} `{AhoCorasick} `{RegexEngine}
  `{ArrowLib} `{PQ : ParquetLib} `{LedgerJson} `{EventJson}.

(** ** The engine *)

(** No logs that can fill a block of [n] have more than 128 vendors, and there are
    fewer logs than block ids. *)
Definition bounded (n : nat) (logs : list IncomingLog) : Prop :=
  few_vendors (Nat.max 1 n) logs /\ (Z.of_nat (length logs) + 1 < u64_max)%Z.

Lemma bounded_app n l l' : bounded n (l ++ l') -> bounded n l.
Proof. intros [Hs Hl]. rewrite length_app in Hl. split; [by eapply few_vendors_app|lia]. Qed.

(** The accumulator and its disk hold [logs]: the flushed batches and the rest. *)
Definition engine_holds (cfg : BatcherConfig) (logs : list IncomingLog) (e : Engine) : Prop :=
  exists hist, represents cfg hist (en_batcher e) (en_disk e) /\ batcher_inv (en_batcher e) /\
    concat hist.*2 ++ buffer (en_batcher e) = logs.

Lemma hist_length (hist : list Flushed) : Forall (fun x => x.2 <> []) hist -> length hist <= length (concat hist.*2).
Proof.
  induction 1 as [|x hist Hx HF IH]; [done|]. rewrite fmap_cons. cbn [concat length]. rewrite length_app.
  destruct x.2; [done|]. simpl. lia.
Qed.

(** One operation of the accumulator. *)
Lemma engine_op cfg logs e op env : engine_holds cfg logs e -> good_env env -> bounded (max_batch_size cfg) (logs ++ pushed_by op) ->
  exists o b d, batch_step op env (en_batcher e) (en_disk e) = Some (Ok o, b, d) /\
    forall n m k miner, engine_holds cfg (logs ++ pushed_by op) (mkEngine _ n m k miner b d).
Proof.
  intros (hist & HR & Hinv & Hc) Henv [Hv Hl].
  pose proof (hist_length hist (rep_nonempty _ _ _ _ HR)) as Hh. rewrite <- Hc, !length_app in Hl.
  assert (length (pushed_by op) = length (BatcherFacts.pushed [(op, env)])) as Hp.
  { unfold BatcherFacts.pushed. simpl. by rewrite app_nil_r. }
  destruct (run_represents cfg [(op, env)] hist (en_batcher e) (en_disk e)) as (rs & b & d & hist' & E & Hok & HR' & Hinv' & Hcat & _);
    [done|done|by constructor| | |].
  - apply (few_vendors_suffix _ (concat hist.*2)). unfold BatcherFacts.pushed. simpl. by rewrite app_nil_r, app_assoc, Hc.
  - destruct op; simpl in *; lia.
  - cbn [batch_run] in E. destruct (batch_step op env _ _) as [[[r b1] d1]|]; [|done]. injection E as <- <- <-.
    apply Forall_cons in Hok as [[o ->] _]. exists o, b1, d1. split; [done|]. intros n m k miner.
    exists (hist ++ hist'). split_and!; [done|done|]. rewrite fmap_app, concat_app, <- app_assoc. cbn [en_batcher].
    rewrite Hcat. unfold BatcherFacts.pushed. simpl. rewrite app_nil_r, app_assoc, Hc. done.
Qed.

Definition good_proc (env : ProcEnv) : Prop := good_env (pr_flush env).

Lemma process_log_raw env raw e r e' log : process_log env raw e = Some (r, e', log) -> il_raw_log log = raw.
Proof.
  unfold process_log. destruct (parse_lossless _ raw); [|done]. destruct (add_log _ _ _ raw) as [[? ?]|]; [|done].
  destruct (Batcher.push _ _ _ _ _ _) as [[[[?|?] ?] ?]|]; [| |done]; by intros [= <- <- <-].
Qed.

Lemma process_log_holds cfg logs env raw e r e' log : engine_holds cfg logs e -> good_proc env ->
  process_log env raw e = Some (r, e', log) -> bounded (max_batch_size cfg) (logs ++ [log]) -> r = Ok tt /\ engine_holds cfg (logs ++ [log]) e'.
Proof.
  intros He Henv. unfold process_log. destruct (parse_lossless _ raw) as [event|]; [|done].
  destruct (add_log _ _ _ raw) as [[cr m]|]; [|done]. intros E Hb.
  assert (log = incoming_of event raw) as ->.
  { destruct (Batcher.push _ _ _ _ _ _) as [[[[?|?] ?] ?]|]; [| |done]; by injection E. }
  destruct (engine_op cfg logs e (OpPush (pr_t0 env) (pr_t1 env) (incoming_of event raw)) (pr_flush env) He Henv Hb)
    as (o & b & d & E' & Hh). cbn [batch_step] in E'. rewrite E' in E. injection E as <- <-. split; [done|apply Hh].
Qed.

(** An ASCII line never makes the engine panic. *)
Lemma process_log_ascii env raw e : all_bytes is_ascii raw = true -> exists r, process_log env raw e = Some r.
Proof.
  intros Ha. unfold process_log. destruct (parse_lossless_ascii (pr_parse env) raw Ha) as [event ->].
  destruct (drain_total (en_miner e) (pr_miner_ms env) (pr_miner_latency env) raw) as (cr & m & ->).
  unfold Batcher.push. destruct (should_flush _ _); [|eauto].
  match goal with |- context [flush ?env ?b ?d] => destruct (flush_total env b d) as ([o|msg] & b' & d' & ->) end; eauto.
Qed.

End Engine.

(** ** The queue seen from the consumer *)

Definition is_pop (a : Action) : bool := match a with Pop _ => true | _ => false end.

Lemma exec_popped a s s' : exec a s = Some s' -> is_pop a = false -> popped s' = popped s.
Proof.
  destruct a; simpl; try done; intros E _.
  - destruct (threads s !! t) as [[]|]; simplify_eq/=; done.
  - destruct (threads s !! t) as [pc|]; [|done]. destruct (push_step _ _ pc) as [[pc' q']|]; [|done].
    by simplify_eq/=.
  - destruct (threads s !! t) as [[]|]; simplify_eq/=; done.
  - by simplify_eq/=.
  - destruct (notifies s); by simplify_eq/=.
Qed.

Lemma pop_effect n s s' : queue_inv s -> exec (Pop n) s = Some s' ->
  mutex s = None /\ popped s' = popped s ++ take n (queue (inner s)) /\ queue (inner s') = drop n (queue (inner s)) /\
  accepted s' = accepted s.
Proof.
  intros I E. simpl in E. destruct (mutex s) eqn:Em; [done|].
  destruct (pop_batch_spec (inner s) n (qi_bytes _ I)) as (q' & notify & Ep & -> & _). rewrite Ep in E. by simplify_eq/=.
Qed.

(** ** After the last pop *)

(** The two points of [push] after which a line is taken. *)
Definition committed (pc : Pc) : bool := match pc with Enqueue _ | DropTest _ => true | _ => false end.

(** The queue is closed and no producer is past its last look at the flag. *)
Definition quiet (s : System) : Prop :=
  closed (inner s) = true /\ forall t pc, threads s !! t = Some pc -> committed pc = false.

Lemma committed_wake pc : committed (wake pc) = committed pc.
Proof. by destruct pc. Qed.

Lemma closed_pop q n : closed (pop_batch q n).1.2 = closed q.
Proof.
  unfold pop_batch. destruct (queue q); [done|]. destruct (pop_front_n _ _ _) as [[[|b batch] bytes] rest]; done.
Qed.

Lemma quiet_threads_insert s t pc' m (q : MemoryQueueInner) : quiet s -> closed q = true -> committed pc' = false ->
  quiet (mkSystem q m (<[t := pc']> (threads s)) (notifies s) (accepted s) (shed s) (popped s) (acked s)).
Proof.
  intros [_ Hq] Hc Hp. split; [done|]. simpl. intros u pc. destruct (decide (t = u)) as [->|];
    [rewrite lookup_insert_eq; by intros [= <-]|rewrite lookup_insert_ne by done; apply Hq].
Qed.

Lemma quiet_step q free pc pc' q' : closed q = true -> committed pc = false -> push_step q free pc = Some (pc', q') ->
  committed pc' = false /\ closed q' = true /\ queue q' = queue q /\ dropped q' = dropped q /\ forall u, pc' <> Done (Ok u).
Proof.
  intros Hc Hp. destruct pc; simpl in *; try done; rewrite ?Hc;
    repeat match goal with |- context [if ?b then _ else _] => destruct b | |- context [match policy q with _ => _ end] => destruct (policy q) end;
    intros; by simplify_eq/=.
Qed.

(** Nothing is accepted in a quiet queue, and it stays quiet. *)
Lemma quiet_exec a s s' : quiet s -> exec a s = Some s' ->
  quiet s' /\ accepted s' = accepted s /\ (is_pop a = false -> queue (inner s') = queue (inner s)).
Proof.
  intros Q E. destruct a; cbn [exec] in E.
  - destruct (threads s !! t) as [[]|]; simplify_eq/=; (split; [|done]); apply quiet_threads_insert; try done; apply Q.
  - destruct (threads s !! t) as [pc|] eqn:Et; [|done]. destruct (push_step _ _ pc) as [[pc' q']|] eqn:Ep; [|done].
    destruct (quiet_step _ _ _ _ _ (proj1 Q) (proj2 Q _ _ Et) Ep) as (Hp & Hc & Hq & Hd & Hr).
    rewrite history_quiet in E by done. simplify_eq/=.
    split; [by apply quiet_threads_insert|done].
  - destruct (threads s !! t) as [[]|]; simplify_eq/=; (split; [|done]); apply quiet_threads_insert; try done; apply Q.
  - destruct (mutex s); [done|]. pose proof (closed_pop (inner s) max_batch_size) as Hc.
    destruct (pop_batch _ _) as [[batch q'] notify]. simplify_eq/=. split; [|done]. destruct Q as [Q1 Q2].
    split; [etrans; [exact Hc|exact Q1]|]. simpl. intros t pc. destruct notify; [|apply Q2]. rewrite lookup_fmap.
    destruct (threads s !! t) as [x|] eqn:Ex; simpl; [|done]. intros [= <-]. rewrite committed_wake. by eapply Q2.
  - simplify_eq/=. by destruct Q.
  - destruct (notifies s); simplify_eq/=. split; [|done]. destruct Q as [Q1 Q2]. split; [done|]. simpl.
    intros t pc. rewrite lookup_fmap. destruct (threads s !! t) as [x|] eqn:Ex; simpl; [|done].
    intros [= <-]. rewrite committed_wake. by eapply Q2.
Qed.

(** A closed queue whose mutex is free is quiet. *)
Lemma quiet_when_free s : queue_inv s -> closed (inner s) = true -> mutex s = None -> quiet s.
Proof.
  intros I Hc Hm. split; [done|]. intros t pc Ht. destruct (committed pc) eqn:E; [|done].
  assert (mutex s = Some t) by (apply (qi_mutex _ I); exists pc; split; [done|]; by destruct pc). congruence.
Qed.

Lemma exec_closed a s s' : exec a s = Some s' -> closed (inner s) = true -> closed (inner s') = true.
Proof.
  intros E Hc. destruct a; simpl in E.
  - destruct (threads s !! t) as [[]|]; by simplify_eq/=.
  - destruct (threads s !! t) as [pc|]; [|done]. destruct (push_step _ _ pc) as [[pc' q']|] eqn:Ep; [|done].
    assert (closed q' = closed (inner s)) as Hq.
    { clear E. destruct pc; simpl in Ep; repeat case_match; by simplify_eq/=. }
    simplify_eq/=. congruence.
  - destruct (threads s !! t) as [[]|]; by simplify_eq/=.
  - destruct (mutex s); [done|]. pose proof (closed_pop (inner s) max_batch_size) as Hcp.
    destruct (pop_batch _ _) as [[batch q'] notify]. simplify_eq/=. congruence.
  - by simplify_eq/=.
  - destruct (notifies s); by simplify_eq/=.
Qed.

(** ** The lines of producers *)

(** What producers push: text that is not empty. *)
Definition proper (raw : string) : Prop := utf8_valid raw = true /\ raw <> "".

Definition returned (pc : Pc) : bool := match pc with Done _ => true | _ => false end.

Definition queue_proper (s : System) : Prop :=
  Forall proper (accepted s) /\ forall t pc, threads s !! t = Some pc -> returned pc = false -> proper (pc_bytes pc).

Lemma not_empty_ne s : not_empty s = true <-> s <> "".
Proof. by destruct s. Qed.

Lemma proper_is_line raw : proper raw -> is_line raw = true.
Proof. intros [Hu Hn]. unfold is_line. by rewrite Hu, (proj2 (not_empty_ne raw) Hn). Qed.

Lemma proper_trimmed ls : Forall (fun l => utf8_valid l = true) ls -> Forall proper (List.filter not_empty (trim <$> ls)).
Proof.
  intros HF. apply Forall_forall. intros x (Hx & Hn)%list_elem_of_In%filter_In. apply list_elem_of_In, list_elem_of_fmap in Hx as (l & -> & Hl).
  rewrite Forall_forall in HF. split; [by apply trim_utf8, HF|by apply not_empty_ne].
Qed.

Lemma udp_lines_proper data : Forall proper (udp_lines data).
Proof. unfold udp_lines. destruct (utf8_valid data) eqn:E; [|constructor]. by apply proper_trimmed, lines_utf8. Qed.

(** A step of [push] appends the caller's line or nothing. *)
Lemma push_step_line q free pc pc' q' : push_step q free pc = Some (pc', q') -> returned pc = false /\
  (queue q' = queue q \/ queue q' = queue q ++ [pc_bytes pc]) /\ (returned pc' = false -> pc_bytes pc' = pc_bytes pc).
Proof. destruct pc; simpl; repeat case_match; intros; simplify_eq/=; split_and!; by auto. Qed.

Lemma proper_insert (ts : gmap nat Pc) t pc' : (forall u pc, ts !! u = Some pc -> returned pc = false -> proper (pc_bytes pc)) ->
  (returned pc' = false -> proper (pc_bytes pc')) ->
  forall u pc, <[t := pc']> ts !! u = Some pc -> returned pc = false -> proper (pc_bytes pc).
Proof.
  intros Ho Hn u pc. destruct (decide (u = t)) as [->|]; [rewrite lookup_insert_eq; by intros [= <-]|].
  rewrite lookup_insert_ne by done. apply Ho.
Qed.

Lemma proper_wake (ts : gmap nat Pc) : (forall u pc, ts !! u = Some pc -> returned pc = false -> proper (pc_bytes pc)) ->
  forall u pc, (wake <$> ts) !! u = Some pc -> returned pc = false -> proper (pc_bytes pc).
Proof.
  intros Ho u pc. rewrite lookup_fmap. destruct (ts !! u) as [x|] eqn:E; simpl; [|done]. intros [= <-] Hr.
  specialize (Ho u x E). by destruct x; apply Ho.
Qed.

Lemma exec_proper a s s' : queue_proper s -> (forall t b, a = Call t b -> proper b) -> exec a s = Some s' -> queue_proper s'.
Proof.
  intros [Ha Ht] Hc E. destruct a as [t b|t|t|n| |]; cbn [exec] in E.
  - specialize (Hc t b eq_refl). destruct (threads s !! t) as [[]|]; simplify_eq/=; (split; [done|]); by apply proper_insert.
  - destruct (threads s !! t) as [pc|] eqn:Et; [|done]. destruct (push_step _ _ pc) as [[pc' q']|] eqn:Ep; [|done].
    destruct (push_step_line _ _ _ _ _ Ep) as (Hr & Hq & Hb). specialize (Ht t pc Et Hr) as Hp. injection E as <-. split; cbn [accepted threads].
    + destruct Hq as [->| ->]; [by rewrite drop_all, app_nil_r|]. rewrite drop_app_length. apply Forall_app. split; [done|]. by constructor.
    + apply proper_insert; [done|]. intros Hr'. by rewrite Hb.
  - destruct (threads s !! t) as [[]|] eqn:Et; simplify_eq/=. split; [done|]. apply proper_insert; [done|]. intros _. by apply (Ht t _ Et).
  - destruct (mutex s); [done|]. destruct (pop_batch _ _) as [[batch q'] []]; injection E as <-; (split; [done|]); [by apply proper_wake|done].
  - by injection E as <-.
  - destruct (notifies s); [done|]. injection E as <-. split; [done|]. by apply proper_wake.
Qed.

(** ** The invariant of a run *)

Section Runs.
Context `{Sha256} `{HexLib} `{UnicodeLib} `{ChronoLib} `{RegexLib} `{JsonLib} `{AhoCorasick} `{RegexEngine}
  `{ArrowLib} `{PQ : ParquetLib} `{LedgerJson} `{EventJson}.
Variable cfg : BatcherConfig.
Variable n : nat.

Definition after_signal (ph : Phase) : bool := match ph with Closing | Draining | Finished => true | _ => false end.

Definition failed (ph : Phase) : bool := match ph with Failed _ => true | _ => false end.

(** The lines popped are those handed on and those of the batch. *)
Definition handed_on (s : Ingest) (done : list string) : Prop :=
  popped (ig_queue s) = done ++ ig_batch s /\ il_raw_log <$> ig_logs s = List.filter is_line done.

Record ingest_inv (s : Ingest) : Prop := {
  ii_queue : queue_inv (ig_queue s);
  ii_done : exists done, handed_on s done;
  ii_engine : bounded (max_batch_size cfg) (ig_logs s) -> engine_holds cfg (ig_logs s) (ig_engine s) /\ failed (ig_phase s) = false;
  ii_closed : after_signal (ig_phase s) = true -> closed (inner (ig_queue s)) = true;
  ii_crash : ig_phase s = Crashed -> exists raw, raw ∈ popped (ig_queue s) /\ all_bytes is_ascii raw = false;
  ii_final : ig_phase s = Finished -> ig_batch s = [] /\ quiet (ig_queue s) /\
    (0 < n -> queue (inner (ig_queue s)) = []) /\ (bounded (max_batch_size cfg) (ig_logs s) -> buffer (en_batcher (ig_engine s)) = [])
}.

(** The environments of a run without disk faults. *)
Definition action_good (a : IngestAction) : Prop :=
  match a with Process env => good_proc env | Finish env => good_env env | _ => True end.

(** A step of the queue that is no pop. *)
Lemma queue_step_inv s a q : ingest_inv s -> exec a (ig_queue s) = Some q -> is_pop a = false -> ingest_inv (set_queue s q).
Proof.
  intros [Iq [done [Hd Hl]] Ie Ic Icr If] E Hp. pose proof (exec_popped _ _ _ E Hp) as Epop. split; simpl; try done.
  - by eapply exec_inv.
  - exists done. split; simpl; [by rewrite Epop|done].
  - intros Ha. eapply exec_closed; eauto.
  - by rewrite Epop.
  - intros Hph. destruct (If Hph) as (Hb & Q & Hq & Hbuf). destruct (quiet_exec _ _ _ Q E) as (Q' & _ & Eq).
    split_and!; [done|done| |done]. intros Hn. rewrite Eq by done. auto.
Qed.

Lemma set_task_inv s t p : ingest_inv s -> ingest_inv (set_task s t p).
Proof. by intros []; split. Qed.

(** A change of the phase that is no end. *)
Lemma set_phase_inv s ph : ingest_inv s -> failed ph = false -> ph <> Crashed -> ph <> Finished ->
  (after_signal ph = true -> closed (inner (ig_queue s)) = true) -> ingest_inv (set_phase s ph).
Proof. intros [Iq Id Ie Ic Icr If] Hf Hcr Hph Hc. split; simpl; try done. intros Hb. split; [by apply Ie|done]. Qed.

(** A panic of the consumer comes from a line that is not ASCII. *)
Lemma crash_inv s env raw : ingest_inv s -> process_log env raw (ig_engine s) = None -> raw ∈ popped (ig_queue s) ->
  ingest_inv (set_phase s Crashed).
Proof.
  intros [Iq Id Ie Ic Icr If] Ep Hin. split; simpl; try done; [intros Hb; split; [by apply Ie|done]|].
  intros _. exists raw. split; [done|]. destruct (all_bytes is_ascii raw) eqn:E; [|done].
  destruct (process_log_ascii env raw (ig_engine s) E) as [r Er]. by rewrite Er in Ep.
Qed.

Lemma pop_lines_effect s batch s1 : queue_inv (ig_queue s) -> pop_lines n s = Some (batch, s1) ->
  exists q, s1 = set_queue s q /\ exec (Pop n) (ig_queue s) = Some q /\ batch = take n (queue (inner (ig_queue s))) /\
    popped q = popped (ig_queue s) ++ batch /\ queue (inner q) = drop n (queue (inner (ig_queue s))) /\
    mutex (ig_queue s) = None.
Proof.
  intros I. unfold pop_lines. destruct (exec (Pop n) (ig_queue s)) as [q|] eqn:E; [|done]. intros [= <- <-].
  destruct (pop_effect _ _ _ I E) as (Hm & Hp & Hq & _). exists q. rewrite Hp, drop_app_length. by split_and!.
Qed.

Lemma pop_batch_inv s batch s1 : ingest_inv s -> consuming (ig_phase s) = true -> ig_batch s = [] ->
  pop_lines n s = Some (batch, s1) -> ingest_inv (set_engine s1 (ig_phase s1) batch (ig_engine s1) (ig_logs s1)).
Proof.
  intros [Iq [done [Hd Hl]] Ie Ic Icr If] Hc Hb E.
  destruct (pop_lines_effect s batch s1 Iq E) as (q & -> & Eq & -> & Hp & _). split; simpl; try done.
  - by eapply pop_inv.
  - exists done. split; simpl; [|done]. rewrite Hp, Hd, Hb. by rewrite app_nil_r.
  - intros Ha. eapply exec_closed; eauto.
  - intros Hph. by rewrite Hph in Hc.
  - intros Hph. by rewrite Hph in Hc.
Qed.

Lemma consume_inv s env raw rest : ingest_inv s -> consuming (ig_phase s) = true -> ig_batch s = raw :: rest -> good_proc env ->
  ingest_inv (consume env raw rest s).
Proof.
  intros I Hc Hb Henv. pose proof I as [Iq [done [Hd Hl]] Ie Ic Icr If].
  assert (raw ∈ popped (ig_queue s)) as Hin by (rewrite Hd, Hb; set_solver).
  assert (forall ph, consuming ph = true -> ph <> Finished /\ ph <> Crashed) as Hnf by (by intros [] ?).
  assert (forall ph e logs, ph <> Finished /\ ph <> Crashed -> (after_signal ph = true -> closed (inner (ig_queue s)) = true) ->
    il_raw_log <$> logs = List.filter is_line (done ++ [raw]) ->
    (bounded (max_batch_size cfg) logs -> engine_holds cfg logs e /\ failed ph = false) -> ingest_inv (set_engine s ph rest e logs)) as Hset.
  { intros ph e logs [Hph Hcr] Hcl Hlogs He. split; simpl; try done. exists (done ++ [raw]). split; simpl; [|done].
    by rewrite Hd, Hb, <- app_assoc. }
  unfold consume. destruct (is_line raw) eqn:El.
  - destruct (process_log env raw (ig_engine s)) as [[[r e'] log]|] eqn:Ep; [|exact (crash_inv s env raw I Ep Hin)].
    assert (il_raw_log <$> (ig_logs s ++ [log]) = List.filter is_line (done ++ [raw])) as Hlogs.
    { rewrite fmap_app, List.filter_app, Hl. simpl. by rewrite El, (process_log_raw _ _ _ _ _ _ Ep). }
    assert (bounded (max_batch_size cfg) (ig_logs s ++ [log]) -> r = Ok tt /\ engine_holds cfg (ig_logs s ++ [log]) e') as Hok.
    { intros Hbd. eapply process_log_holds; eauto. apply Ie. by eapply bounded_app. }
    destruct r as [u|msg]; apply Hset; try done; try (by apply Hnf).
    + intros Hbd. split; [by apply Hok|]. apply Ie. by eapply bounded_app.
    + intros Hbd. by destruct (Hok Hbd).
  - apply Hset; try done; [by apply Hnf|]. rewrite List.filter_app, Hl. simpl. by rewrite El, app_nil_r.
Qed.

Lemma flush_empties env b d o b' d' : flush env b d = Some (Ok o, b', d') -> buffer b' = [].
Proof.
  intros E. destruct (buffer b) as [|l ls] eqn:Eb.
  - unfold flush in E. rewrite Eb in E. by simplify_eq/=.
  - destruct (flush_state env b d (Ok o) b' d') as (_ & Hb & _); [by rewrite Eb|done|done].
Qed.

Lemma final_flush_inv s env s1 : ingest_inv s -> ig_phase s = Draining -> ig_batch s = [] -> good_env env ->
  pop_lines n s = Some ([], s1) -> ingest_inv (final_flush env s1).
Proof.
  intros I Hph Hb Henv E. pose proof I as [Iq [done [Hd Hl]] Ie Ic Icr If].
  destruct (pop_lines_effect s [] s1 Iq E) as (q & -> & Eq & Ht & Hp & Hq & Hm). rewrite app_nil_r in Hp.
  assert (closed (inner (ig_queue s)) = true) as Hcl by (apply Ic; by rewrite Hph).
  destruct (quiet_exec _ _ _ (quiet_when_free _ Iq Hcl Hm) Eq) as (Q & _ & _).
  assert (forall ph e, (after_signal ph = true -> ph = Finished) -> ph <> Crashed ->
    (bounded (max_batch_size cfg) (ig_logs s) -> engine_holds cfg (ig_logs s) e /\ failed ph = false) ->
    (ph = Finished -> bounded (max_batch_size cfg) (ig_logs s) -> buffer (en_batcher e) = []) ->
    ingest_inv (set_engine (set_queue s q) ph (ig_batch s) e (ig_logs s))) as Hset.
  { intros ph e Ha Hcr He Hbuf. split; simpl; try done.
    - by eapply pop_inv.
    - exists done. split; simpl; [by rewrite Hp|done].
    - intros _. by destruct Q.
    - intros Hfin. split_and!; [done|done| |by apply Hbuf]. intros Hn. rewrite Hq.
      destruct (queue (inner (ig_queue s))) as [|x l]; [by rewrite drop_nil|]. destruct n; [lia|done]. }
  unfold final_flush. cbn [ig_engine set_queue].
  destruct (flush env (en_batcher (ig_engine s)) (en_disk (ig_engine s))) as [[[r b] d]|] eqn:Ef.
  - assert (bounded (max_batch_size cfg) (ig_logs s) -> (exists o, r = Ok o) /\ forall x y z m, engine_holds cfg (ig_logs s) (mkEngine _ x y z m b d)) as Hok.
    { intros Hbd. destruct (Ie Hbd) as [He _]. destruct (engine_op cfg (ig_logs s) (ig_engine s) OpFlush env He Henv) as (o & b' & d' & E' & Hh);
        [by rewrite app_nil_r|]. cbn [batch_step] in E'. rewrite Ef in E'. simplify_eq. split; [eauto|]. intros x y z m.
      specialize (Hh x y z m). by rewrite app_nil_r in Hh. }
    destruct r as [o|msg]; apply Hset; try done.
    + intros Hbd. split; [by apply Hok|done].
    + intros _ _. by eapply flush_empties.
    + intros Hbd. by destruct (Hok Hbd) as [[o ?] _].
  - by destruct (flush_total env (en_batcher (ig_engine s)) (en_disk (ig_engine s))) as (r & b & d & E'); rewrite E' in Ef.
Qed.

Lemma ingest_exec_inv a s s' : ingest_inv s -> action_good a -> ingest_exec n a s = Some s' -> ingest_inv s'.
Proof.
  intros I Hg. destruct a; cbn [ingest_exec].
  - destruct (idle s t); [|done]. intros [= <-]. by apply set_task_inv.
  - destruct (idle s t); [|done]. intros [= <-]. by apply set_task_inv.
  - destruct (ig_tasks s !! t) as [[[|line rest] []]|]; try done.
    destruct (threads (ig_queue s) !! t) as [pc|] eqn:Et;
      (destruct (exec (Call t line) (ig_queue s)) as [q|] eqn:E; [|repeat case_match; done]);
      intros E'; assert (ingest_inv (set_queue s q)) as I' by (by eapply queue_step_inv);
      repeat case_match; simplify_eq; by destruct I'; split.
  - destruct (threads (ig_queue s) !! t) as [[]|]; try done. destruct r; [done|]. intros [= <-]. by apply set_task_inv.
  - destruct (exec (Run t) (ig_queue s)) as [q|] eqn:E; [|done]. intros [= <-]. by eapply queue_step_inv.
  - destruct (exec (Spurious t) (ig_queue s)) as [q|] eqn:E; [|done]. intros [= <-]. by eapply queue_step_inv.
  - destruct (consuming (ig_phase s)) eqn:Ec; [|done]. destruct (ig_batch s) as [|] eqn:Eb; [|done]. cbn [andb is_nil_list].
    destruct (pop_lines n s) as [[batch s1]|] eqn:Ep; [|done]. intros [= <-]. by eapply (pop_batch_inv s).
  - destruct (consuming (ig_phase s)) eqn:Ec; [|done]. destruct (ig_batch s) as [|raw rest] eqn:Eb; [done|]. intros [= <-].
    by apply consume_inv.
  - destruct (ig_phase s) eqn:Eph; try done. destruct (ig_batch s); [|done].
    destruct (exec CloseStore (ig_queue s)) as [q|] eqn:E; [|done]. intros [= <-].
    apply set_phase_inv; [by eapply queue_step_inv|done|done|done|]. intros _. simpl in E. by simplify_eq/=.
  - destruct (ig_phase s) eqn:Eph; try done. destruct (exec CloseNotify (ig_queue s)) as [q|] eqn:E; [|done]. intros [= <-].
    apply set_phase_inv; [by eapply queue_step_inv|done|done|done|]. intros _. simpl.
    eapply exec_closed; [done|]. apply (ii_closed _ I). by rewrite Eph.
  - destruct (ig_phase s) eqn:Eph; try done. destruct (ig_batch s) as [|] eqn:Eb; [|done].
    destruct (pop_lines n s) as [[[|] s1]|] eqn:Ep; try done. intros [= <-]. by eapply (final_flush_inv s).
Qed.

Lemma ingest_run_inv acts : forall s s', ingest_inv s -> Forall action_good acts -> ingest_run n acts s = Some s' -> ingest_inv s'.
Proof.
  induction acts as [|a acts IH]; intros s s' I HF; cbn [ingest_run]; [by intros [= <-]|].
  apply Forall_cons in HF as [Ha HF]. destruct (ingest_exec n a s) as [s1|] eqn:E; [|done].
  apply IH; [|done]. by eapply ingest_exec_inv.
Qed.

(** Once finished, the run only lets producers fail: lines accepted, phase and
    engine stay. *)
Lemma finished_exec a s s' : quiet (ig_queue s) -> ig_phase s = Finished -> ingest_exec n a s = Some s' ->
  quiet (ig_queue s') /\ ig_phase s' = Finished /\ accepted (ig_queue s') = accepted (ig_queue s) /\ ig_engine s' = ig_engine s.
Proof.
  intros Q Hph. destruct a; cbn [ingest_exec]; rewrite ?Hph; cbn [consuming andb]; try done.
  - destruct (idle s t); [|done]. by intros [= <-].
  - destruct (idle s t); [|done]. by intros [= <-].
  - destruct (ig_tasks s !! t) as [[[|line rest] []]|]; try done.
    destruct (threads (ig_queue s) !! t) as [pc|] eqn:Et;
      (destruct (exec (Call t line) (ig_queue s)) as [q|] eqn:E; [|repeat case_match; done]);
      destruct (quiet_exec _ _ _ Q E) as (Q' & Ha & _); repeat case_match; intros; by simplify_eq/=.
  - destruct (threads (ig_queue s) !! t) as [[]|]; try done. destruct r; [done|]. by intros [= <-].
  - destruct (exec (Run t) (ig_queue s)) as [q|] eqn:E; [|done]. intros [= <-].
    destruct (quiet_exec _ _ _ Q E) as (Q' & Ha & _). by split_and!.
  - destruct (exec (Spurious t) (ig_queue s)) as [q|] eqn:E; [|done]. intros [= <-].
    destruct (quiet_exec _ _ _ Q E) as (Q' & Ha & _). by split_and!.
Qed.

Lemma finished_run acts : forall s s', quiet (ig_queue s) -> ig_phase s = Finished -> ingest_run n acts s = Some s' ->
  accepted (ig_queue s') = accepted (ig_queue s) /\ ig_engine s' = ig_engine s.
Proof.
  induction acts as [|a acts IH]; intros s s' Q Hph; cbn [ingest_run]; [by intros [= <-]|].
  destruct (ingest_exec n a s) as [s1|] eqn:E; [|done].
  destruct (finished_exec a s s1 Q Hph E) as (Q1 & Hph1 & Ha & He). intros Er.
  destruct (IH _ _ Q1 Hph1 Er) as [-> ->]. done.
Qed.

(** *** Only text is pushed *)

Definition lines_inv (s : Ingest) : Prop :=
  queue_proper (ig_queue s) /\ forall t p, ig_tasks s !! t = Some p -> Forall proper (pt_backlog p).

Lemma set_task_lines s t p : lines_inv s -> Forall proper (pt_backlog p) -> lines_inv (set_task s t p).
Proof.
  intros [Hq Ht] Hp. split; [done|]. simpl. intros u x. destruct (decide (u = t)) as [->|]; [rewrite lookup_insert_eq; by intros [= <-]|].
  rewrite lookup_insert_ne by done. apply Ht.
Qed.

Lemma set_queue_lines s a q : lines_inv s -> exec a (ig_queue s) = Some q -> (forall t b, a <> Call t b) -> lines_inv (set_queue s q).
Proof. intros [Hq Ht] E Hc. split; [|done]. eapply exec_proper; [done| |exact E]. intros t b Ea. by destruct (Hc t b). Qed.

Lemma pop_lines_lines s batch s1 : lines_inv s -> pop_lines n s = Some (batch, s1) -> lines_inv s1.
Proof. intros I. unfold pop_lines. destruct (exec _ _) as [q|] eqn:E; [|done]. intros [= _ <-]. eapply set_queue_lines; [done|exact E|done]. Qed.

Lemma ingest_exec_lines a s s' : lines_inv s -> ingest_exec n a s = Some s' -> lines_inv s'.
Proof.
  intros I. destruct a as [t data|t line|t|t|t|t| |env| | |env]; cbn [ingest_exec].
  - destruct (idle s t); [|done]. intros [= <-]. apply set_task_lines; [done|apply udp_lines_proper].
  - destruct (idle s t); [|done]. intros [= <-]. destruct (utf8_valid line) eqn:Eu; (apply set_task_lines; [done|]); [|constructor].
    apply (proper_trimmed [line]). by constructor.
  - destruct (ig_tasks s !! t) as [[[|line rest] []]|] eqn:Et; try done. intros E.
    pose proof (proj2 I t _ Et) as HF. apply Forall_cons in HF as [Hl HF].
    assert (exists q, exec (Call t line) (ig_queue s) = Some q /\ s' = mkIngest _ q (<[t := mkProducer rest false]> (ig_tasks s))
      (u64 (ig_total_ingested s + 1)) (ig_phase s) (ig_batch s) (ig_engine s) (ig_logs s)) as (q & Eq & ->).
    { destruct (exec (Call t line) (ig_queue s)) as [q|]; [|repeat case_match; done]. exists q. repeat case_match; by simplify_eq/=. }
    destruct (set_task_lines s t (mkProducer rest false) I HF) as [_ Ht]. split; [|exact Ht].
    eapply exec_proper; [apply I| |exact Eq]. by intros ? ? [= <- <-].
  - intros E. repeat case_match; simplify_eq/=. apply set_task_lines; [done|constructor].
  - destruct (exec _ _) as [q|] eqn:E; [|done]. intros [= <-]. eapply set_queue_lines; [done|exact E|done].
  - destruct (exec _ _) as [q|] eqn:E; [|done]. intros [= <-]. eapply set_queue_lines; [done|exact E|done].
  - destruct (_ && _); [|done]. destruct (pop_lines n s) as [[batch s1]|] eqn:E; [|done]. intros [= <-]. exact (pop_lines_lines s batch s1 I E).
  - destruct (consuming _); [|done]. destruct (ig_batch s) as [|raw rest]; [done|]. intros [= <-]. unfold consume. by repeat case_match.
  - destruct (ig_phase s), (ig_batch s); try done. intros E. repeat case_match; simplify_eq/=. exact (set_queue_lines s CloseStore _ I eq_refl ltac:(done)).
  - destruct (ig_phase s); try done. destruct (exec _ _) as [q|] eqn:E; [|done]. intros [= <-]. exact (set_queue_lines s CloseNotify q I E ltac:(done)).
  - destruct (ig_phase s), (ig_batch s); try done. destruct (pop_lines n s) as [[[|] s1]|] eqn:E; try done. intros [= <-].
    apply pop_lines_lines in E; [|done]. unfold final_flush. by repeat case_match.
Qed.

Lemma ingest_run_lines acts : forall s s', lines_inv s -> ingest_run n acts s = Some s' -> lines_inv s'.
Proof.
  induction acts as [|a acts IH]; intros s s' I; cbn [ingest_run]; [by intros [= <-]|].
  destruct (ingest_exec n a s) as [s1|] eqn:E; [|done]. apply IH. by eapply ingest_exec_lines.
Qed.

Lemma filter_all {A} (f : A -> bool) l : Forall (fun x => f x = true) l -> List.filter f l = l.
Proof. induction 1 as [|x l Hx HF IH]; [done|]. simpl. by rewrite Hx, IH. Qed.

(** The consumer hands on every line that it is done with. *)
Lemma all_handed_on s : ingest_inv s -> lines_inv s -> exists done,
  accepted (ig_queue s) = done ++ ig_batch s ++ queue (inner (ig_queue s)) /\ il_raw_log <$> ig_logs s = done.
Proof.
  intros I [[HF _] _]. destruct (ii_done _ I) as (done & Hd & Hl). exists done.
  rewrite (qi_fifo _ (ii_queue _ I)), Hd, <- app_assoc. split; [done|]. rewrite Hl. apply filter_all.
  rewrite (qi_fifo _ (ii_queue _ I)), Hd, <- app_assoc in HF. apply Forall_app in HF as [HF _].
  eapply Forall_impl; [exact HF|apply proper_is_line].
Qed.

End Runs.

(** ** Properties *)

Section Properties.
Context `{Sha256} `{HexLib} `{UnicodeLib} `{ChronoLib} `{RegexLib} `{JsonLib} `{AhoCorasick} `{RegexEngine}
  `{ArrowLib} `{PQ : ParquetLib} `{LedgerJson} `{EventJson}.

Lemma start_inv args s : ingest_start args empty_disk = Ok s -> ingest_inv (ingest_batcher_config args) (ia_batch_size args) s.
Proof.
  unfold ingest_start. destruct (validate_ingest_args args); [|done].
  destruct (new_represents (ingest_batcher_config args)) as (b & -> & HR & Hinv & Hb). intros [= <-].
  split; simpl; try done; [apply initial_inv|by exists []|].
  intros _. split; [|done]. exists []. simpl. by rewrite Hb.
Qed.

Lemma start_lines args s : ingest_start args empty_disk = Ok s -> lines_inv s.
Proof.
  unfold ingest_start. destruct (validate_ingest_args args); [|done]. destruct (batcher_new _ _); [|done]. intros [= <-].
  split; [split; [constructor|]|]; simpl; intros t p; by rewrite lookup_empty.
Qed.

(** The blocks on disk, read through the ledger. *)
Definition archived (args : IngestArgs) (s : Ingest) (bs : list (list StoredLogRecord)) : Prop :=
  Forall2 (fun e rs => entry_records (ingest_batcher_config args) (en_disk (ig_engine s)) e = Some (Ok rs))
    (in_memory_ledger (en_batcher (ig_engine s))) bs.

Lemma stored_raw logs recs : Forall2 stored_as logs recs -> sr_raw_log <$> recs = il_raw_log <$> logs.
Proof. induction 1 as [|l r logs recs Hs HF IH]; [done|]. rewrite !fmap_cons, IH. by rewrite (sa_raw_log _ _ Hs). Qed.

Lemma holds_archived args s : engine_holds (ingest_batcher_config args) (ig_logs s) (ig_engine s) ->
  exists bs, archived args s bs /\
    (sr_raw_log <$> concat bs) ++ (il_raw_log <$> buffer (en_batcher (ig_engine s))) = il_raw_log <$> ig_logs s.
Proof.
  intros (hist & HR & _ & Hc). destruct (represents_blocks _ _ _ _ HR) as (bs & HB & ->). exists (imap block_records hist).
  split; [done|]. rewrite <- Hc, fmap_app. f_equal. apply stored_raw, (concat_stored hist 0).
Qed.

(** Ingest loses, duplicates and reorders nothing, in any interleaving of
    producers and consumer: at every moment of a run without disk faults (and
    with at most 128 vendors among lines that can fill one block), the lines that
    the queue accepted are, in order, those in the block files that the ledger
    names, those pending in the accumulator, those of the batch in work and
    those still queued; with the default policy
    the lines accepted are exactly those whose push returned [Ok]; no flush has
    failed; and the consumer panics only on a line that is not ASCII. *)
Theorem ingest_lossless args acts s0 s : ingest_start args empty_disk = Ok s0 -> Forall action_good acts ->
  ingest_run (ia_batch_size args) acts s0 = Some s -> bounded (ia_batch_size args) (ig_logs s) ->
  exists bs, archived args s bs /\
    accepted (ig_queue s) = (sr_raw_log <$> concat bs) ++ (il_raw_log <$> buffer (en_batcher (ig_engine s)))
      ++ ig_batch s ++ queue (inner (ig_queue s)) /\
    (policy (inner (ig_queue s)) = Block -> acked (ig_queue s) = accepted (ig_queue s)) /\
    (forall e, ig_phase s <> Failed e) /\
    (Forall (fun l => all_bytes is_ascii l = true) (popped (ig_queue s)) -> ig_phase s <> Crashed).
Proof.
  intros E0 HF E Hb. pose proof (ingest_run_inv _ _ acts _ _ (start_inv _ _ E0) HF E) as I.
  pose proof (ingest_run_lines _ _ _ _ (start_lines _ _ E0) E) as Ln. destruct (all_handed_on _ _ _ I Ln) as (done & Hacc & <-).
  destruct I as [Iq _ Ie _ Icr _]. destruct (Ie Hb) as [He Hf]. destruct (holds_archived args s He) as (bs & HB & Hraw). exists bs.
  split_and!; [done|by rewrite Hacc, <- Hraw, <- !app_assoc| | |].
  - intros Hp. by destruct (qi_block _ Iq Hp).
  - intros e Hph. by rewrite Hph in Hf.
  - intros HA Hph. destruct (Icr Hph) as (raw & Hin & Hn). rewrite Forall_forall in HA. by rewrite (HA _ Hin) in Hn.
Qed.

(** C1: a shutdown that runs through is lossless and final: when ingest, started
    on an empty disk, has finished, with a batch size above zero, without disk faults and
    with at most 128 vendors among lines that can fill one block, the block
    files that the ledger names hold exactly the lines that the queue ever
    accepted, each once and in order; nothing is pending or
    queued; and whatever the producers still do, no further line is accepted
    and the archive stays as it is. *)
Theorem shutdown_lossless args acts s0 s : ingest_start args empty_disk = Ok s0 -> Forall action_good acts ->
  ingest_run (ia_batch_size args) acts s0 = Some s -> bounded (ia_batch_size args) (ig_logs s) -> 0 < ia_batch_size args ->
  ig_phase s = Finished ->
  exists bs, archived args s bs /\ sr_raw_log <$> concat bs = accepted (ig_queue s) /\
    queue (inner (ig_queue s)) = [] /\ buffer (en_batcher (ig_engine s)) = [] /\
    forall acts' s', ingest_run (ia_batch_size args) acts' s = Some s' ->
      accepted (ig_queue s') = accepted (ig_queue s) /\ ig_engine s' = ig_engine s.
Proof.
  intros E0 HF E Hb Hn Hph. pose proof (ingest_run_inv _ _ acts _ _ (start_inv _ _ E0) HF E) as I.
  pose proof (ingest_run_lines _ _ _ _ (start_lines _ _ E0) E) as Ln. destruct (all_handed_on _ _ _ I Ln) as (done & Hacc & <-).
  destruct I as [Iq _ Ie _ _ If].
  destruct (If Hph) as (Hbt & Q & Hq & Hbuf). destruct (holds_archived args s (proj1 (Ie Hb))) as (bs & HB & Hraw).
  exists bs. rewrite (Hbuf Hb) in Hraw. simpl in Hraw. rewrite app_nil_r in Hraw.
  split_and!; [done| |by apply Hq|by apply Hbuf|].
  - by rewrite Hacc, Hraw, (Hq Hn), Hbt, !app_nil_r.
  - intros acts' s'. by apply finished_run.
Qed.

(** The consumer never pops when the batch size is zero. *)
Lemma zero_batch_popped acts : forall s s' : Ingest, popped (ig_queue s) = [] /\ ig_batch s = [] /\ ig_logs s = [] -> queue_inv (ig_queue s) ->
  ingest_run 0 acts s = Some s' -> popped (ig_queue s') = [] /\ ig_logs s' = [].
Proof.
  induction acts as [|a acts IH]; intros s s' (Hp & Hb & Hl) I; cbn [ingest_run]; [by intros [= <-]|].
  destruct (ingest_exec 0 a s) as [s1|] eqn:E; [|done].
  assert (forall b q, exec b (ig_queue s) = Some q -> is_pop b = false -> popped q = [] /\ queue_inv q) as Hq.
  { intros b q Eb Hpop. split; [by rewrite (exec_popped _ _ _ Eb Hpop)|by eapply exec_inv]. }
  assert ((popped (ig_queue s1) = [] /\ ig_batch s1 = [] /\ ig_logs s1 = []) /\ queue_inv (ig_queue s1)) as [Hs1 I1]; [|by apply IH].
  destruct a; cbn [ingest_exec] in E.
  - destruct (idle s t); by simplify_eq/=.
  - destruct (idle s t); by simplify_eq/=.
  - destruct (ig_tasks s !! t) as [[[|line rest] []]|]; try done.
    destruct (exec (Call t line) (ig_queue s)) as [q|] eqn:Eq; [|repeat case_match; done].
    destruct (Hq _ _ Eq eq_refl). repeat case_match; by simplify_eq/=.
  - repeat case_match; by simplify_eq/=.
  - destruct (exec (Run t) (ig_queue s)) as [q|] eqn:Eq; [|done]. destruct (Hq _ _ Eq eq_refl). by simplify_eq/=.
  - destruct (exec (Spurious t) (ig_queue s)) as [q|] eqn:Eq; [|done]. destruct (Hq _ _ Eq eq_refl). by simplify_eq/=.
  - destruct (_ && _); [|done]. destruct (pop_lines 0 s) as [[batch s2]|] eqn:Ep; [|done].
    destruct (pop_lines_effect 0 s batch s2 I Ep) as (q & -> & Eq & -> & Hpq & _). simplify_eq/=.
    rewrite Hpq, Hp. split; [by split_and!|by eapply pop_inv].
  - rewrite Hb in E. by repeat case_match.
  - rewrite Hb in E. destruct (ig_phase s); try done. destruct (Hq CloseStore _ eq_refl eq_refl). by simplify_eq/=.
  - destruct (ig_phase s); try done. destruct (exec CloseNotify (ig_queue s)) as [q|] eqn:Eq; [|done].
    destruct (Hq _ _ Eq eq_refl). by simplify_eq/=.
  - rewrite Hb in E. destruct (ig_phase s); try done. destruct (pop_lines 0 s) as [[[|] s2]|] eqn:Ep; try done.
    destruct (pop_lines_effect 0 s [] s2 I Ep) as (q & -> & Eq & _ & Hpq & _).
    assert (queue_inv q) by (by eapply pop_inv). rewrite app_nil_r, Hp in Hpq.
    unfold final_flush in E. repeat case_match; simplify_eq/=; by rewrite Hb.
Qed.

(** The check of the flags lets a run through that cannot make progress:
    with [--batch-size 0] ingest starts, but in no run is a line ever popped or
    handed to the accumulator, although the check exists to reject flags that
    could never make progress. *)
Theorem zero_batch_size_starves args acts s0 s : ia_batch_size args = 0 -> ia_queue_capacity args <> 0 ->
  ingest_start args empty_disk = Ok s0 -> ingest_run (ia_batch_size args) acts s0 = Some s ->
  validate_ingest_args args = Ok tt /\ popped (ig_queue s) = [] /\ ig_logs s = [].
Proof.
  intros Hz Hc E0 E. split.
  - unfold validate_ingest_args. by destruct (Nat.eqb_spec (ia_queue_capacity args) 0).
  - rewrite Hz in E. pose proof (start_inv _ _ E0) as [Iq _ _ _ _ _]. eapply zero_batch_popped; [|exact Iq|exact E].
    unfold ingest_start in E0. destruct (validate_ingest_args args); [|done]. destruct (batcher_new _ _); by simplify_eq/=.
Qed.

End Properties.

(** ** Witnesses *)

Module IngestDemo.
Import Demo TokenDemo ParserDemo RegexDemo ArrowDemo BatcherDemo.

#[export] Instance demo_event_json : EventJson := {| event_to_string a := Some (md_event_id (na_metadata a)) |}.

Definition ingest_args (batch : nat) : IngestArgs :=
  mkIngestArgs "udp" "tcp" "data" "data/ledger.jsonl" batch 2000 true 8 false.

Definition pr0 : ProcEnv := mkProcEnv _ env0 0 1 2 3 BatcherDemo.env.

Definition push_one (t : nat) : list IngestAction := Push t :: replicate 5 (Step t).

(** A datagram of two lines and a line of a connection, interleaved with a
    consumer that pops two lines at a time, and the shutdown. *)
Definition producing : list IngestAction :=
  [Datagram 0 ("devname=f srcip=10.0.0.1 proto=6 action=accept" +:+ String newline " plain text ");
   TcpLine 1 "%ASA-6-302013: Built"] ++ push_one 0 ++ push_one 1 ++ push_one 0.

Definition acts_midway : list IngestAction := producing ++ [PopBatch; Process pr0].

Definition acts_full : list IngestAction :=
  producing ++ [PopBatch; Process pr0; Process pr0; Signal; Notify; PopBatch; Process pr0; Finish BatcherDemo.env].

Lemma good_producing : Forall action_good producing.
Proof. repeat constructor. Qed.

Lemma good_midway : Forall action_good acts_midway.
Proof. apply Forall_app; split; [exact good_producing|]. repeat constructor; simpl; lia. Qed.

Lemma good_full : Forall action_good acts_full.
Proof. apply Forall_app; split; [exact good_producing|]. repeat constructor; simpl; lia. Qed.

Definition started (batch : nat) : Ingest :=
  match ingest_start (ingest_args batch) empty_disk with
  | Ok s => s
  | Err _ => mkIngest _ (initial 0 Drop) ∅ 0 Running [] (mkEngine _ 0 0 0 (miner_new drain_default) b0 empty_disk) []
  end.

Definition reached (batch : nat) (acts : list IngestAction) : Ingest := default (started batch) (ingest_run batch acts (started batch)).

(** What the run leaves: one block of two lines and one of one. *)
Example demo_archive : let s := reached 2 acts_full in
  (ig_phase s, le_leaf_count <$> in_memory_ledger (en_batcher (ig_engine s)), en_parsed (ig_engine s), en_blocks (ig_engine s))
  = (Finished, [2; 1], 3%Z, 2%Z).
Proof. vm_compute. reflexivity. Qed.

Lemma ingest_lossless_witness : let s := reached 2 acts_midway in
  exists bs, archived (ingest_args 2) s bs /\
    accepted (ig_queue s) = (sr_raw_log <$> concat bs) ++ (il_raw_log <$> buffer (en_batcher (ig_engine s)))
      ++ ig_batch s ++ queue (inner (ig_queue s)).
Proof.
  destruct (ingest_lossless (ingest_args 2) acts_midway (started 2) (reached 2 acts_midway)) as (bs & HA & Hd & _).
  - vm_compute. reflexivity.
  - exact good_midway.
  - vm_compute. reflexivity.
  - split; [apply few_vendors_small; vm_compute; lia|vm_compute; reflexivity].
  - exists bs. split; [exact HA|exact Hd].
Defined.

Lemma shutdown_lossless_witness : let s := reached 2 acts_full in
  exists bs, archived (ingest_args 2) s bs /\ sr_raw_log <$> concat bs = accepted (ig_queue s) /\
    length (accepted (ig_queue s)) = 3.
Proof.
  destruct (shutdown_lossless (ingest_args 2) acts_full (started 2) (reached 2 acts_full)) as (bs & HA & Hr & _).
  - vm_compute. reflexivity.
  - exact good_full.
  - vm_compute. reflexivity.
  - split; [apply few_vendors_small; vm_compute; lia|vm_compute; reflexivity].
  - simpl. lia.
  - vm_compute. reflexivity.
  - exists bs. split; [exact HA|]. split; [exact Hr|vm_compute; reflexivity].
Defined.

Lemma zero_batch_size_starves_witness : let s := reached 0 (producing ++ [PopBatch; PopBatch]) in
  validate_ingest_args (ingest_args 0) = Ok tt /\ popped (ig_queue s) = [] /\ length (accepted (ig_queue s)) = 3.
Proof.
  destruct (zero_batch_size_starves (ingest_args 0) (producing ++ [PopBatch; PopBatch]) (started 0)
    (reached 0 (producing ++ [PopBatch; PopBatch]))) as (E1 & E2 & _);
    [reflexivity|discriminate|vm_compute; reflexivity|vm_compute; reflexivity|].
  split; [exact E1|]. split; [exact E2|vm_compute; reflexivity].
Defined.

End IngestDemo.
