(* ===== verification/ParserExport.v ===== *)
(** * Parser definitions as text ([crates/ulpf-ai/src/onboarder.rs])

    The JSON, YAML and Rust forms of a parser definition, and the loading of
    JSON and YAML into the registry.  [serde_json] on the type
    [ParserDefinition] is a parameter; the YAML text is written and read by
    the program's own code. *)

From S2P Require Export Onboarder.

(** ** Numbers as text *)

(** [z.to_string()] and [s.parse::<i64>().ok()] for a signed integer *)
Definition int_to_string (z : Z) : string := if (z <? 0)%Z then "-" +:+ uint_to_string (- z) else uint_to_string z.

Definition i64_max : Z := (2 ^ 63 - 1)%Z.

Definition parse_i64 (s : string) : option Z :=
  match s with
  | String "-" "" => None
  | String "-" s' => Z.opp <$> parse_digits (2 ^ 63) 0 s'
  | _ => parse_uint i64_max s
  end.

(** The double nearest to [n / d], ties to even: a quotient of more than 64 bits
    with a last bit for the remainder, rounded. *)
Definition f64_of_ratio (n d : Z) : f64 :=
  if (n =? 0)%Z then f64_zero
  else
    let k := (Z.log2 d - Z.log2 n + 66)%Z in
    let '(num, den) := if (0 <=? k)%Z then ((n * 2 ^ k)%Z, d) else (n, (d * 2 ^ (- k))%Z) in
    let sticky := if (num mod den =? 0)%Z then 0%Z else 1%Z in
    SpecFloat.binary_normalize 53 1024 (2 * (num / den) + sticky) (- k - 1) false.

Fixpoint span_digits (s : string) : string * string :=
  match s with
  | String a s' => if is_ascii_digit a then let '(ds, rest) := span_digits s' in (String a ds, rest) else ("", s)
  | "" => ("", "")
  end.

Fixpoint digits_value (acc : Z) (s : string) : Z :=
  match s with "" => acc | String a s' => digits_value (acc * 10 + (byte_val a - 48)) s' end.

(** A decimal number: digits with an optional point, and an optional exponent. *)
Definition parse_decimal (s : string) : option f64 :=
  let '(int, r1) := span_digits s in
  let '(frac, r2) := match r1 with String "." r => span_digits r | _ => ("", r1) end in
  if is_empty (int +:+ frac) then None
  else
    let exponent := match r2 with
                    | "" => Some 0%Z
                    | String "e" r | String "E" r =>
                        let '(neg, r') := match r with String "-" t => (true, t) | String "+" t => (false, t) | _ => (false, r) end in
                        let '(ds, rest) := span_digits r' in
                        if is_empty ds || negb (is_empty rest) then None
                        else Some (if neg then - digits_value 0 ds else digits_value 0 ds)%Z
                    | _ => None
                    end in
    e <-! exponent;
    let e10 := (e - Z.of_nat (String.length frac))%Z in
    let m := digits_value 0 (int +:+ frac) in
    Some (if (0 <=? e10)%Z then f64_of_ratio (m * 10 ^ e10) 1 else f64_of_ratio m (10 ^ (- e10))).

(** [s.parse::<f64>().ok()] *)
Definition parse_f64 (s : string) : option f64 :=
  let '(neg, body) := match s with String "-" t => (true, t) | String "+" t => (false, t) | _ => (false, s) end in
  let lower := to_ascii_lowercase body in
  let magnitude := if one_of ["inf"; "infinity"] lower then Some (SpecFloat.S754_infinity false)
                   else if String.eqb lower "nan" then Some SpecFloat.S754_nan
                   else parse_decimal body in
  (fun x => if neg then SpecFloat.SFopp x else x) <$> magnitude.

(** ** JSON *)

(** [serde_json::to_string_pretty] and [from_str] on a definition.  A struct is
    read from an object or an array. *)
Class DefinitionJson := {
  def_to_json : ParserDefinition -> Result string string;
  def_from_json : string -> Result string ParserDefinition;
  def_json_opens : forall s d, def_from_json s = Ok d ->
    exists a rest, trim_start s = String a rest /\ (a = "{"%char \/ a = "["%char)
}.

Definition to_json `{DefinitionJson} (d : ParserDefinition) : Result string string :=
  match def_to_json d with Ok s => Ok s | Err _ => Err "Failed to serialize parser to JSON" end.

Definition from_json `{DefinitionJson} (s : string) : Result string ParserDefinition :=
  match def_from_json s with Ok d => Ok d | Err _ => Err "Failed to deserialize parser from JSON" end.

(** ** YAML *)

Definition nl_str : string := String newline "".
Definition backslash_str : string := String backslash "".
Definition quoted (s : string) : string := dquote_str +:+ s +:+ dquote_str.

Definition escape_quotes (s : string) : string := replace dquote_str (backslash_str +:+ dquote_str) s.
Definition escape_backslashes (s : string) : string := replace backslash_str (backslash_str +:+ backslash_str) s.
Definition unescape_backslashes (s : string) : string := replace (backslash_str +:+ backslash_str) backslash_str s.

(** [order] is the order in which the mappings are iterated. *)
Definition yaml_lines (order : gmap string string -> list (string * string)) (d : ParserDefinition) : list string :=
  [ "vendor: " +:+ quoted (pd_vendor d);
    "device_model: " +:+ quoted (pd_device_model d);
    "confidence_score: " +:+ fmt_fixed 2 (pd_confidence_score d);
    "created_at: " +:+ int_to_string (pd_created_at d);
    "regex_pattern: " +:+ quoted (escape_quotes (escape_backslashes (pd_regex_pattern d)));
    "action_mappings:" ]
  ++ ((fun kv => "  " +:+ kv.1 +:+ ": " +:+ quoted kv.2) <$> order (pd_action_mappings d))
  ++ ["sample_logs:"]
  ++ ((fun s => "  - " +:+ quoted (escape_quotes s)) <$> pd_sample_logs d).

Definition to_yaml (order : gmap string string -> list (string * string)) (d : ParserDefinition) : string :=
  str_concat ((fun l => l +:+ nl_str) <$> yaml_lines order d).

(** [s.split_once(c)] for an ASCII separator *)
Fixpoint split_once (c : ascii) (s : string) : option (string * string) :=
  match s with
  | "" => None
  | String a s' => if Ascii.eqb a c then Some ("", s')
                   else (fun p => (String a p.1, p.2)) <$> split_once c s'
  end.

Definition trim_quotes (s : string) : string := trim_matches (String.eqb dquote_str) s.

(** The variables of the loop. *)
Record YamlVars := mkYaml {
  y_vendor : string;
  y_device_model : string;
  y_regex_pattern : string;
  y_confidence_score : f64;
  y_created_at : Z;
  y_action_mappings : gmap string string;
  y_sample_logs : list string;
  y_in_action_mappings : bool;
  y_in_sample_logs : bool
}.

Definition set_sections (v : YamlVars) (mappings samples : bool) : YamlVars :=
  mkYaml (y_vendor v) (y_device_model v) (y_regex_pattern v) (y_confidence_score v) (y_created_at v)
    (y_action_mappings v) (y_sample_logs v) mappings samples.

(** The [match] on a top-level key; [now] is the clock. *)
Definition yaml_key (now : Z) (key val : string) (v : YamlVars) : YamlVars :=
  let set vendor model pattern conf created :=
    mkYaml vendor model pattern conf created (y_action_mappings v) (y_sample_logs v) (y_in_action_mappings v) (y_in_sample_logs v) in
  if String.eqb key "vendor" then set val (y_device_model v) (y_regex_pattern v) (y_confidence_score v) (y_created_at v)
  else if String.eqb key "device_model" then set (y_vendor v) val (y_regex_pattern v) (y_confidence_score v) (y_created_at v)
  else if String.eqb key "confidence_score"
  then set (y_vendor v) (y_device_model v) (y_regex_pattern v) (default (f64_of_Z 1) (parse_f64 val)) (y_created_at v)
  else if String.eqb key "created_at"
  then set (y_vendor v) (y_device_model v) (y_regex_pattern v) (y_confidence_score v) (default now (parse_i64 val))
  else if String.eqb key "regex_pattern"
  then set (y_vendor v) (y_device_model v) (unescape_backslashes val) (y_confidence_score v) (y_created_at v)
  else v.

(** What follows the tests for the two sections. *)
Definition yaml_top (now : Z) (trimmed : string) (v : YamlVars) : YamlVars :=
  match split_once ":" trimmed with
  | Some (k, x) => yaml_key now (trim k) (trim_quotes (trim x)) v
  | None => v
  end.

Definition yaml_samples (now : Z) (line trimmed : string) (v : YamlVars) : YamlVars :=
  if y_in_sample_logs v then
    match strip_prefix "- " trimmed with
    | Some rest =>
        mkYaml (y_vendor v) (y_device_model v) (y_regex_pattern v) (y_confidence_score v) (y_created_at v)
          (y_action_mappings v) (y_sample_logs v ++ [trim_quotes rest]) (y_in_action_mappings v) (y_in_sample_logs v)
    | None => yaml_top now trimmed (if starts_with "  " line then v else set_sections v (y_in_action_mappings v) false)
    end
  else yaml_top now trimmed v.

(** The body of the loop. *)
Definition yaml_line (now : Z) (line : string) (v : YamlVars) : YamlVars :=
  let trimmed := trim line in
  if is_empty trimmed || starts_with "#" trimmed then v
  else if String.eqb trimmed "action_mappings:" then set_sections v true false
  else if String.eqb trimmed "sample_logs:" then set_sections v false true
  else if y_in_action_mappings v then
    match split_once ":" trimmed with
    | Some (k, x) =>
        mkYaml (y_vendor v) (y_device_model v) (y_regex_pattern v) (y_confidence_score v) (y_created_at v)
          (<[trim k := trim_quotes (trim x)]> (y_action_mappings v)) (y_sample_logs v) (y_in_action_mappings v) (y_in_sample_logs v)
    | None => yaml_samples now line trimmed (if starts_with "  " line then v else set_sections v false (y_in_sample_logs v))
    end
  else yaml_samples now line trimmed v.

(** The loop; [clock] gives [Utc::now()] per line. *)
Fixpoint yaml_loop (clock : nat -> Z) (i : nat) (ls : list string) (v : YamlVars) : YamlVars :=
  match ls with
  | [] => v
  | l :: ls' => yaml_loop clock (S i) ls' (yaml_line (clock i) l v)
  end.

Definition yaml_start (now : Z) : YamlVars := mkYaml "Custom" "Device" "" (f64_of_Z 1) now ∅ [] false false.

Definition from_yaml `{DefinitionJson} (clock : nat -> Z) (s : string) : Result string ParserDefinition :=
  match def_from_json s with
  | Ok d => Ok d
  | Err _ =>
      let v := yaml_loop clock 1 (lines s) (yaml_start (clock 0)) in
      if is_empty (y_regex_pattern v) then Err "Invalid YAML: missing regex_pattern"
      else Ok (mkDef (y_vendor v) (y_device_model v) (y_regex_pattern v) (y_action_mappings v) (y_sample_logs v)
                 (y_confidence_score v) (y_created_at v))
  end.

(** ** Loading into the registry *)

Section Load.
Context `{RegexEngine} `{UnicodeText} `{DefinitionJson}.

Definition load_from_json (r : DynamicParserRegistry) (s : string) : Result string unit * DynamicParserRegistry :=
  match from_json s with
  | Ok d => (Ok tt, (register r d).2)
  | Err e => (Err e, r)
  end.

Definition load_from_yaml (clock : nat -> Z) (r : DynamicParserRegistry) (s : string)
  : Result string unit * DynamicParserRegistry :=
  match from_yaml clock s with
  | Ok d => (Ok tt, (register r d).2)
  | Err e => (Err e, r)
  end.

End Load.

Definition registry_len (r : DynamicParserRegistry) : nat := length (parsers r).
Definition registry_is_empty (r : DynamicParserRegistry) : bool := is_nil_list (parsers r).

(** ** Rust code *)

(** The template, with [`] for the double quote. *)
Definition template_lines : list string :=
  [ "// Auto-generated 1-click OCSF 1.3 Extractor for __VENDOR__ __MODEL__";
    "// Generated by ULPF Air-Gapped AI Onboarder";
    "use ulpf_core::schema::ocsf::{";
    "    activity_id, disposition, ConnectionInfo, Endpoint, Metadata, NetworkActivity, Product,";
    "};";
    "use regex::Regex;";
    "use std::sync::OnceLock;";
    "use sha2::{Digest, Sha256};";
    "use uuid::Uuid;";
    "use chrono::Utc;";
    "";
    "pub struct __VENDOR____MODEL__Extractor {";
    "    regex: OnceLock<Regex>,";
    "}";
    "";
    "impl __VENDOR____MODEL__Extractor {";
    "    pub fn new() -> Self {";
    "        Self { regex: OnceLock::new() }";
    "    }";
    "";
    "    pub fn parse(&self, raw: &str) -> anyhow::Result<NetworkActivity> {";
    "        let re = self.regex.get_or_init(|| {";
    "            Regex::new(r`__PATTERN__`).expect(`Invalid regex for __VENDOR__`)";
    "        });";
    "";
    "        let caps = re.captures(raw).ok_or_else(|| anyhow::anyhow!(`Log match failed`))?;";
    "        let now_ms = Utc::now().timestamp_millis();";
    "        let raw_hash = hex::encode(Sha256::digest(raw.as_bytes()));";
    "        let event_id = Uuid::now_v7().to_string();";
    "";
    "        let src_ip = caps.name(`src_ip`).map(|m| m.as_str().to_string());";
    "        let dst_ip = caps.name(`dst_ip`).map(|m| m.as_str().to_string());";
    "        let src_port = caps.name(`src_port`).and_then(|m| m.as_str().parse::<u16>().ok());";
    "        let dst_port = caps.name(`dst_port`).and_then(|m| m.as_str().parse::<u16>().ok());";
    "";
    "        let src_endpoint = Endpoint::new(src_ip, src_port, None, None);";
    "        let dst_endpoint = Endpoint::new(dst_ip, dst_port, None, None);";
    "";
    "        let proto_str = caps.name(`protocol`).map(|m| m.as_str()).unwrap_or(`TCP`);";
    "        let connection_info = ConnectionInfo::new(Some(6), Some(proto_str.to_string()), None);";
    "";
    "        let product = Product::new(`__VENDOR__`, `__MODEL__`, None);";
    "        let metadata = Metadata::new(product, raw, raw_hash, event_id, now_ms);";
    "";
    "        Ok(NetworkActivity::new(";
    "            activity_id::TRAFFIC_FLOW,";
    "            now_ms,";
    "            disposition::ALLOWED,";
    "            src_endpoint,";
    "            dst_endpoint,";
    "            connection_info,";
    "            None,";
    "            metadata,";
    "        ))";
    "    }";
    "}" ].

Definition rust_template : string :=
  str_map (fun a => if Ascii.eqb a "`" then dquote else a) (str_concat ((fun l => l +:+ nl_str) <$> template_lines)).

Definition sanitize_ident `{UnicodeLib} (s : string) : string := str_concat (List.filter is_alphanumeric (chars s)).

Definition generate_rust_code `{UnicodeLib} (d : ParserDefinition) : string :=
  replace "__PATTERN__" (pd_regex_pattern d)
    (replace "__MODEL__" (sanitize_ident (pd_device_model d))
      (replace "__VENDOR__" (sanitize_ident (pd_vendor d)) rust_template)).
