(* ===== verification/ParserExportFacts.v ===== *)
(** * The YAML form of a parser definition

    What a definition becomes when it is written as YAML and read back. *)

From S2P Require Export ParserExport RustStrFacts.

(** ** Escapes *)

(** Every byte [c] becomes [t]. *)
Fixpoint subst_byte (c : ascii) (t s : string) : string :=
  match s with
  | "" => ""
  | String a s' => if Ascii.eqb a c then t +:+ subst_byte c t s' else String a (subst_byte c t s')
  end.

Lemma prefix_one c a s : String.prefix (String c "") (String a s) = Ascii.eqb c a.
Proof. simpl. destruct (ascii_dec c a) as [->|Hn]; [rewrite Ascii.eqb_refl; by destruct s|]. by apply Ascii.eqb_neq in Hn as ->. Qed.

Lemma replace_byte c t s : replace (String c "") t s = subst_byte c t s.
Proof.
  unfold replace. induction s as [|a s IH]; [done|]. cbn [replace_aux subst_byte]. rewrite prefix_one, (Ascii.eqb_sym c a).
  destruct (Ascii.eqb a c); cbn [String.length Nat.pred]; by rewrite IH.
Qed.

Lemma subst_byte_absent c t s : all_bytes (fun a => negb (Ascii.eqb a c)) s = true -> subst_byte c t s = s.
Proof. induction s as [|a s IH]; simpl; [done|]. intros [Ha%negb_true_iff Hs]%andb_true_iff. by rewrite Ha, IH. Qed.

(** Both escapes at once. *)
Fixpoint escaped (s : string) : string :=
  match s with
  | "" => ""
  | String a s' =>
      if Ascii.eqb a backslash then String backslash (String backslash (escaped s'))
      else if Ascii.eqb a dquote then String backslash (String dquote (escaped s'))
      else String a (escaped s')
  end.

Lemma escape_both s : escape_quotes (escape_backslashes s) = escaped s.
Proof.
  unfold escape_quotes, escape_backslashes, backslash_str, dquote_str. rewrite !replace_byte.
  change (String backslash "" +:+ ?t) with (String backslash t).
  induction s as [|a s IH]; [done|]. cbn [subst_byte escaped]. destruct (Ascii.eqb_spec a backslash) as [->|Hb].
  - cbn [String.append subst_byte]. change (Ascii.eqb backslash dquote) with false. cbn iota. by rewrite IH.
  - cbn [subst_byte]. destruct (Ascii.eqb_spec a dquote) as [->|Hq]; cbn [String.append]; by rewrite IH.
Qed.

Lemma prefix_two c a b s : String.prefix (String c (String c "")) (String a (String b s)) = Ascii.eqb c a && Ascii.eqb c b.
Proof.
  simpl. destruct (ascii_dec c a) as [<-|Ha]; [|by apply Ascii.eqb_neq in Ha as ->]. rewrite Ascii.eqb_refl.
  destruct (ascii_dec c b) as [<-|Hb]; [rewrite Ascii.eqb_refl; by destruct s|]. by apply Ascii.eqb_neq in Hb as ->.
Qed.

Lemma prefix_two_head c a s : Ascii.eqb c a = false -> String.prefix (String c (String c "")) (String a s) = false.
Proof. intros E. simpl. destruct (ascii_dec c a) as [<-|]; [by rewrite Ascii.eqb_refl in E|done]. Qed.

Lemma unescape_escape_backslashes s : unescape_backslashes (escaped s) = escape_quotes s.
Proof.
  unfold escape_quotes, unescape_backslashes, replace, dquote_str, backslash_str.
  change (String backslash "" +:+ ?t) with (String backslash t).
  induction s as [|a s IH]; [done|]. cbn [escaped].
  destruct (Ascii.eqb_spec a backslash) as [->|Hb]; [|destruct (Ascii.eqb_spec a dquote) as [->|Hq]].
  - cbn [replace_aux String.length Nat.pred]. rewrite prefix_two, prefix_one, IH. done.
  - cbn [replace_aux String.length Nat.pred]. rewrite prefix_two, prefix_one, (prefix_two_head _ dquote), IH by done. done.
  - cbn [replace_aux]. apply Ascii.eqb_neq in Hb, Hq. rewrite prefix_two_head, prefix_one by by rewrite Ascii.eqb_sym.
    by rewrite (Ascii.eqb_sym dquote a), Hq, IH.
Qed.

(** ** Texts in quotes *)

(** A text that neither starts nor ends with a quote. *)
Definition quote_inside (s : string) : Prop := starts_with dquote_str s = false /\ strip_suffix_char dquote s = None.

Lemma trim_quotes_quoted s : utf8_valid s = true -> quote_inside s -> trim_quotes (quoted s) = s.
Proof.
  intros Hv [Hf Hl]. unfold trim_quotes, trim_matches, quoted, dquote_str.
  change (String dquote "" +:+ ?t) with (String dquote t). rewrite chars_ascii_cons, chars_app by done.
  cbn [drop_while]. rewrite String.eqb_refl. change (chars (String dquote "")) with [String dquote ""].
  rewrite <- (chars_concat s) at 2. pose proof (chars_concat s) as Hc.
  destruct (chars s) as [|c cs] eqn:E; [done|]. cbn [drop_while app].
  destruct (String.eqb_spec (String dquote "") c) as [<-|Hne].
  { exfalso. rewrite <- Hc, str_concat_cons in Hf. unfold starts_with, dquote_str in Hf. cbn [String.append] in Hf.
    by rewrite prefix_one in Hf. }
  f_equal. unfold drop_while_end. rewrite app_comm_cons, reverse_snoc. cbn [drop_while]. rewrite String.eqb_refl.
  destruct (reverse (c :: cs)) as [|x xs] eqn:Er; [by apply (f_equal length) in Er; rewrite length_reverse in Er|].
  cbn [drop_while]. destruct (String.eqb_spec (String dquote "") x) as [<-|Hx].
  - exfalso. apply (f_equal reverse) in Er. rewrite reverse_involutive, reverse_cons in Er. rewrite Er, str_concat_app in Hc.
    rewrite <- Hc in Hl. simpl in Hl. by rewrite strip_suffix_char_snoc, Ascii.eqb_refl in Hl.
  - by rewrite <- Er, reverse_involutive.
Qed.

(** ** Lines *)

(** A text that starts and ends with ASCII characters that are no white space. *)
Record trimmed_text (x : string) : Prop := {
  tt_utf8 : utf8_valid x = true;
  tt_first : exists a x', x = String a x' /\ is_ascii a = true /\ is_whitespace (String a "") = false;
  tt_last : exists body b, x = body +:+ String b "" /\ is_ascii b = true /\ is_whitespace (String b "") = false
}.

Lemma trim_stable x : trimmed_text x -> trim x = x.
Proof.
  intros [Hv (a & x' & Ha & Ia & Wa) (body & b & Hb & Ib & Wb)]. unfold trim, trim_matches.
  rewrite <- (chars_concat x) at 2. f_equal. rewrite Ha at 1. rewrite chars_ascii_cons by done. cbn [drop_while]. rewrite Wa.
  rewrite <- chars_ascii_cons, <- Ha by done. rewrite Hb in Hv |- *. destruct (chars_last body b Ib Hv) as [cs ->].
  by apply drop_while_end_snoc.
Qed.

Lemma trim_pad s : trim (String " " s) = trim s.
Proof. unfold trim, trim_matches. by rewrite chars_ascii_cons. Qed.

Lemma is_ascii_utf8 a s : is_ascii a = true -> utf8_valid (String a s) = utf8_valid s.
Proof. intros Ha. apply (utf8_valid_app (String a "") s). apply utf8_valid_ascii. simpl. by rewrite Ha. Qed.

Lemma ascii_prefix_utf8 s t : all_bytes is_ascii s = true -> utf8_valid (s +:+ t) = utf8_valid t.
Proof. intros Hs. apply utf8_valid_app. by apply utf8_valid_ascii. Qed.

Lemma quoted_trimmed s : utf8_valid s = true -> trimmed_text (quoted s).
Proof.
  intros Hv. unfold quoted. split.
  - unfold dquote_str. cbn [String.append]. rewrite is_ascii_utf8 by done. by rewrite utf8_valid_app.
  - by exists dquote, (s +:+ dquote_str).
  - exists (dquote_str +:+ s), dquote. by rewrite str_app_assoc.
Qed.

(** A key: ASCII letters, digits and underscores. *)
Definition is_word_byte (a : ascii) : bool := is_ascii_alnum a || Ascii.eqb a "_".
Definition word (k : string) : Prop := k <> "" /\ all_bytes is_word_byte k = true.

Lemma word_byte a : is_word_byte a = true ->
  is_ascii a = true /\ is_whitespace (String a "") = false /\ Ascii.eqb a ":" = false /\ Ascii.eqb a "#" = false /\
  Ascii.eqb a newline = false /\ Ascii.eqb a dquote = false /\ Ascii.eqb a "-" = false.
Proof. destruct a as [[] [] [] [] [] [] [] []]; vm_compute; intuition discriminate. Qed.

Lemma trimmed_after p x : all_bytes is_ascii p = true -> trimmed_text x ->
  (exists a p', p = String a p' /\ is_whitespace (String a "") = false) -> trimmed_text (p +:+ x).
Proof.
  intros Hp [Hv _ (body & b & -> & Ib & Wb)] (a & p' & -> & Wa). split.
  - by rewrite ascii_prefix_utf8.
  - exists a, (p' +:+ body +:+ String b ""). split_and!; [done| |done]. simpl in Hp. by apply andb_true_iff in Hp as [? _].
  - exists (String a p' +:+ body), b. by rewrite str_app_assoc.
Qed.

Lemma word_ascii k : all_bytes is_word_byte k = true -> all_bytes is_ascii k = true.
Proof. apply all_bytes_impl. intros a Ha. by apply word_byte. Qed.

(** A text without white space is trimmed. *)
Lemma plain_trimmed (p : ascii -> bool) k : (forall a, p a = true -> is_ascii a = true /\ is_whitespace (String a "") = false) ->
  k <> "" -> all_bytes p k = true -> trimmed_text k.
Proof.
  intros Hp Hne Hw. assert (forall a s, all_bytes p (String a s) = true -> exists body b, String a s = body +:+ String b "" /\ p b = true) as Hl.
  { intros a s. revert a. induction s as [|c s IH]; intros a [Ha Hs]%andb_true_iff; [by exists "", a|].
    destruct (IH c Hs) as (body & b & -> & Hb). by exists (String a body), b. }
  destruct k as [|a k]; [done|]. split.
  - apply utf8_valid_ascii. eapply all_bytes_impl; [|exact Hw]. intros c Hc. by apply Hp.
  - exists a, k. simpl in Hw. apply andb_true_iff in Hw as [[? ?]%Hp _]. done.
  - destruct (Hl a k Hw) as (body & b & -> & [? ?]%Hp). eauto 10.
Qed.

Lemma word_trimmed k : word k -> trimmed_text k.
Proof. intros [Hne Hw]. apply (plain_trimmed is_word_byte); [|done..]. intros a (?&?&_)%word_byte. done. Qed.

Lemma split_once_word k x : all_bytes (fun a => negb (Ascii.eqb a ":")) k = true ->
  split_once ":" (k +:+ String ":" x) = Some (k, x).
Proof.
  induction k as [|a k IH]; simpl; [done|]. intros [Ha%negb_true_iff Hk]%andb_true_iff. rewrite Ha, IH by done. done.
Qed.

Lemma word_no_colon k : all_bytes is_word_byte k = true -> all_bytes (fun a => negb (Ascii.eqb a ":")) k = true.
Proof. apply all_bytes_impl. intros a Ha. apply word_byte in Ha as (_&_&->&_). done. Qed.

(** ** The loop *)

(** A line [k: x] of a section or of the top level. *)
Definition key_line (k x : string) : string := k +:+ ": " +:+ x.

Lemma key_line_shape k x : word k -> trimmed_text x ->
  trim (key_line k x) = key_line k x /\ is_empty (key_line k x) = false /\ starts_with "#" (key_line k x) = false /\
  split_once ":" (key_line k x) = Some (k, " " +:+ x) /\
  String.eqb (key_line k x) "action_mappings:" = false /\ String.eqb (key_line k x) "sample_logs:" = false.
Proof.
  intros [Hne Hw] Hx. assert (split_once ":" (key_line k x) = Some (k, " " +:+ x)) as Hs
    by (apply (split_once_word k (" " +:+ x)); by apply word_no_colon).
  split_and!; [| | |done| |].
  - apply trim_stable. unfold key_line. rewrite <- str_app_assoc. apply trimmed_after; [|done|].
    + rewrite all_bytes_app, word_ascii by done. done.
    + destruct k as [|a k]; [done|]. exists a, (k +:+ ": "). simpl in Hw. apply andb_true_iff in Hw as [(_&?&_)%word_byte _]. done.
  - by destruct k.
  - destruct k as [|a k]; [done|]. unfold starts_with, key_line. cbn [String.append]. rewrite prefix_one.
    simpl in Hw. apply andb_true_iff in Hw as [(_&_&_&E&_)%word_byte _]. by rewrite Ascii.eqb_sym.
  - destruct (String.eqb_spec (key_line k x) "action_mappings:") as [E|]; [|done]. by rewrite E in Hs.
  - destruct (String.eqb_spec (key_line k x) "sample_logs:") as [E|]; [|done]. by rewrite E in Hs.
Qed.

Lemma trim_value x : trimmed_text x -> trim (" " +:+ x) = x.
Proof. intros Hx. cbn [String.append]. by rewrite trim_pad, trim_stable. Qed.

Lemma top_line now k x v : word k -> trimmed_text x -> y_in_action_mappings v = false -> y_in_sample_logs v = false ->
  yaml_line now (key_line k x) v = yaml_key now k (trim_quotes x) v.
Proof.
  intros Hk Hx Hm Hs. destruct (key_line_shape k x Hk Hx) as (E1 & E2 & E3 & E4 & E5 & E6).
  unfold yaml_line, yaml_samples, yaml_top. rewrite E1, E2, E3, E5, E6, Hm, Hs, E4. cbn [orb].
  rewrite trim_value by done. by rewrite (trim_stable k) by by apply word_trimmed.
Qed.

Lemma mapping_line now k x v : word k -> trimmed_text x -> y_in_action_mappings v = true ->
  yaml_line now ("  " +:+ key_line k x) v =
  mkYaml (y_vendor v) (y_device_model v) (y_regex_pattern v) (y_confidence_score v) (y_created_at v)
    (<[k := trim_quotes x]> (y_action_mappings v)) (y_sample_logs v) true (y_in_sample_logs v).
Proof.
  intros Hk Hx Hm. destruct (key_line_shape k x Hk Hx) as (E1 & E2 & E3 & E4 & E5 & E6).
  unfold yaml_line. cbn [String.append]. rewrite !trim_pad, E1, E2, E3, E5, E6, Hm, E4. cbn [orb].
  rewrite trim_value by done. by rewrite (trim_stable k) by by apply word_trimmed.
Qed.

Lemma sample_line now x v : trimmed_text x -> y_in_action_mappings v = false -> y_in_sample_logs v = true ->
  yaml_line now ("  - " +:+ x) v =
  mkYaml (y_vendor v) (y_device_model v) (y_regex_pattern v) (y_confidence_score v) (y_created_at v)
    (y_action_mappings v) (y_sample_logs v ++ [trim_quotes x]) false true.
Proof.
  intros Hx Hm Hs. assert (trim ("  - " +:+ x) = "- " +:+ x) as E.
  { cbn [String.append]. rewrite !trim_pad. apply (trim_stable ("- " +:+ x)), trimmed_after; [done..|]. by exists "-"%char, " ". }
  unfold yaml_line. rewrite E. cbn [String.append]. cbn [is_empty orb]. unfold starts_with. rewrite prefix_one.
  change (Ascii.eqb "#" "-") with false. cbn iota. cbn [String.eqb]. change (Ascii.eqb "-" "a") with false. change (Ascii.eqb "-" "s") with false.
  cbn iota. rewrite Hm. unfold yaml_samples. rewrite Hs. change (strip_prefix "- " (String "-" (String " " x))) with (strip_prefix "" x).
  destruct x; simpl; by rewrite ?Hm, ?Hs.
Qed.

(** ** What is written *)

Definition no_quote (s : string) : bool := all_bytes (fun a => negb (Ascii.eqb a dquote)) s.

Lemma chars_all p s : all_bytes p s = true -> Forall (fun c => all_bytes p c = true) (chars s).
Proof.
  rewrite <- (chars_concat s) at 1. induction (chars s) as [|c cs IH]; [done|]. rewrite str_concat_cons, all_bytes_app.
  intros [Hc Hs]%andb_true_iff. constructor; [done|by apply IH].
Qed.

Lemma drop_while_none {A} (p : A -> bool) l : Forall (fun x => p x = false) l -> drop_while p l = l.
Proof. by destruct 1 as [|x l Hx _]; simpl; [|rewrite Hx]. Qed.

Lemma trim_quotes_id s : no_quote s = true -> trim_quotes s = s.
Proof.
  intros Hs. assert (Forall (fun c => String.eqb dquote_str c = false) (chars s)) as HF.
  { eapply Forall_impl; [exact (chars_all _ _ Hs)|]. intros c Hc. destruct (String.eqb_spec dquote_str c) as [<-|]; [|done].
    by vm_compute in Hc. }
  unfold trim_quotes, trim_matches, drop_while_end. rewrite (drop_while_none _ _ HF), drop_while_none by by apply Forall_reverse.
  by rewrite reverse_involutive, chars_concat.
Qed.

Lemma subst_byte_app c t s1 s2 : subst_byte c t (s1 +:+ s2) = subst_byte c t s1 +:+ subst_byte c t s2.
Proof. induction s1 as [|a s1 IH]; simpl; [done|]. destruct (Ascii.eqb a c); rewrite IH; [by rewrite str_app_assoc|done]. Qed.

Lemma all_bytes_subst p c t s : all_bytes p t = true -> all_bytes p s = true -> all_bytes p (subst_byte c t s) = true.
Proof.
  intros Ht. induction s as [|a s IH]; simpl; [done|]. intros [Ha Hs]%andb_true_iff.
  destruct (Ascii.eqb a c); [rewrite all_bytes_app, Ht|simpl; rewrite Ha]; by apply IH.
Qed.

Lemma utf8_subst c t s : is_ascii c = true -> all_bytes is_ascii t = true -> utf8_valid s = true ->
  utf8_valid (subst_byte c t s) = true.
Proof.
  intros Hc Ht. revert s. apply (utf8_ind (fun s => utf8_valid (subst_byte c t s) = true)); [done|]. intros ch s Hch _ IH.
  rewrite subst_byte_app. destruct (utf8_char_bytes ch Hch) as [(a & -> & Ha)|Hn].
  - simpl. destruct (Ascii.eqb a c); [rewrite str_app_nil_r; by rewrite ascii_prefix_utf8|by rewrite (ascii_prefix_utf8 (String a ""));[|simpl; rewrite Ha]].
  - rewrite subst_byte_absent; [by rewrite (proj2 (utf8_char_app ch _ Hch))|]. eapply all_bytes_impl; [|exact Hn]. intros a Ha.
    destruct (Ascii.eqb_spec a c) as [->|]; [by rewrite Hc in Ha|done].
Qed.

(** A text that does not end with a quote. *)
Definition ends_plain (s : string) : Prop := s = "" \/ exists body b, s = body +:+ String b "" /\ b <> dquote.

Lemma ends_plain_suffix s : ends_plain s -> strip_suffix_char dquote s = None.
Proof. intros [->|(body & b & -> & Hb%Ascii.eqb_neq)]; [done|]. by rewrite strip_suffix_char_snoc, Hb. Qed.

Lemma ends_plain_subst c t s : c = dquote \/ (exists t' e, t = t' +:+ String e "" /\ e <> dquote) -> ends_plain s -> ends_plain (subst_byte c t s).
Proof.
  intros Hc [->|(body & b & -> & Hb)]; [by left|]. right. rewrite subst_byte_app. simpl. destruct (Ascii.eqb_spec b c) as [->|].
  - destruct Hc as [->|(t' & e & -> & He)]; [done|]. exists (subst_byte c (t' +:+ String e "") body +:+ t'), e.
    by rewrite str_app_nil_r, str_app_assoc.
  - by exists (subst_byte c t body), b.
Qed.

Lemma escape_quotes_starts s : starts_with dquote_str (escape_quotes s) = false.
Proof.
  unfold escape_quotes, dquote_str. rewrite replace_byte. unfold starts_with. destruct s as [|a s]; [done|]. cbn [subst_byte].
  destruct (Ascii.eqb a dquote) eqn:E; cbn [String.append backslash_str]; rewrite prefix_one; [done|by rewrite Ascii.eqb_sym].
Qed.

(** What the escapes keep. *)
Record line_text (s : string) : Prop := {
  lt_utf8 : utf8_valid s = true;
  lt_line : no_newline s = true;
  lt_ends : ends_plain s
}.

Lemma escape_quotes_text s : line_text s -> line_text (escape_quotes s).
Proof.
  intros [Hu Hn He]. unfold escape_quotes, dquote_str. rewrite replace_byte.
  split; [by apply utf8_subst|by apply all_bytes_subst|by apply ends_plain_subst; [left|]].
Qed.

Lemma escape_backslashes_text s : line_text s -> line_text (escape_backslashes s).
Proof.
  intros [Hu Hn He]. unfold escape_backslashes, backslash_str. rewrite replace_byte.
  split; [by apply utf8_subst|by apply all_bytes_subst|].
  apply ends_plain_subst; [right; by exists (String backslash ""), backslash|done].
Qed.

Lemma escaped_inside s : line_text s -> quote_inside (escape_quotes s).
Proof. intros Hs%escape_quotes_text. split; [apply escape_quotes_starts|by apply ends_plain_suffix, Hs]. Qed.

(** *** Numbers *)

Lemma pretty_go_ne x s : s <> "" -> pretty_N_go x s <> "".
Proof.
  revert s; induction (N.lt_wf_0 x) as [x _ IH]; intros s Hs. destruct (decide (x = 0)%N) as [->|Hne]; [by rewrite pretty_N_go_0|].
  rewrite pretty_N_go_step by lia. apply IH; [apply N.div_lt; lia|done].
Qed.

Lemma uint_to_string_ne z : uint_to_string z <> "".
Proof.
  unfold uint_to_string, pretty, pretty_N. case_decide; [done|]. rewrite pretty_N_go_step by lia. by apply pretty_go_ne.
Qed.

Lemma digits_word s : all_bytes is_ascii_digit s = true -> all_bytes is_word_byte s = true.
Proof. apply all_bytes_impl. intros a Ha. unfold is_word_byte, is_ascii_alnum. unfold is_ascii_digit in Ha. by rewrite Ha, ?orb_true_l, ?orb_true_r. Qed.

Lemma uint_word z : word (uint_to_string z).
Proof. split; [apply uint_to_string_ne|apply digits_word, pretty_N_digits]. Qed.

Lemma parse_i64_int z : (- 2 ^ 63 <= z < 2 ^ 63)%Z -> parse_i64 (int_to_string z) = Some z.
Proof.
  intros Hz. unfold int_to_string. destruct (Z.ltb_spec z 0).
  - cbn [String.append parse_i64]. destruct (uint_to_string (- z)) as [|a s] eqn:E; [by apply uint_to_string_ne in E|].
    rewrite <- E. unfold uint_to_string. rewrite parse_pretty by lia. simpl. f_equal. lia.
  - assert (parse_uint i64_max (uint_to_string z) = Some z) as Hp.
    { rewrite parse_uint_digits; [|apply uint_to_string_ne|apply pretty_N_digits]. unfold uint_to_string, i64_max.
      rewrite parse_pretty by lia. f_equal. lia. }
    rewrite <- Hp. pose proof (uint_to_string_ne z). pose proof (pretty_N_digits (Z.to_N z)) as Hd. fold (uint_to_string z) in Hd.
    destruct (uint_to_string z) as [|a s]; [done|]. simpl in Hd. apply andb_true_iff in Hd as [Ha _].
    destruct a as [[] [] [] [] [] [] [] []]; try discriminate Ha; reflexivity.
Qed.

(** The bytes of a printed number. *)
Definition is_num_byte (a : ascii) : bool := is_word_byte a || Ascii.eqb a "-" || Ascii.eqb a ".".

Lemma num_byte a : is_num_byte a = true ->
  is_ascii a = true /\ is_whitespace (String a "") = false /\ Ascii.eqb a newline = false /\ Ascii.eqb a dquote = false.
Proof.
  unfold is_num_byte. intros [[(?&?&_&_&?&?&_)%word_byte|E%Ascii.eqb_eq]%orb_true_iff|E%Ascii.eqb_eq]%orb_true_iff; subst; done.
Qed.

Definition num_text (x : string) : Prop := x <> "" /\ all_bytes is_num_byte x = true.

Lemma num_text_line x : num_text x -> trimmed_text x /\ no_newline x = true /\ no_quote x = true.
Proof.
  intros [Hne Hx]. split_and!.
  - apply (plain_trimmed is_num_byte); [|done..]. intros a (?&?&_)%num_byte. done.
  - eapply all_bytes_impl; [|exact Hx]. intros a (_&_&->&_)%num_byte. done.
  - eapply all_bytes_impl; [|exact Hx]. intros a (_&_&_&->)%num_byte. done.
Qed.

Lemma uint_num z : all_bytes is_num_byte (uint_to_string z) = true.
Proof. eapply all_bytes_impl; [|apply uint_word]. intros a Ha. unfold is_num_byte. by rewrite Ha. Qed.

Lemma int_num z : num_text (int_to_string z).
Proof.
  unfold int_to_string. destruct (z <? 0)%Z; split; [done| |apply uint_to_string_ne|apply uint_num].
  simpl. apply uint_num.
Qed.

Lemma zero_pad_num n s : all_bytes is_num_byte s = true -> all_bytes is_num_byte (zero_pad n s) = true.
Proof. intros Hs. unfold zero_pad. rewrite all_bytes_app, Hs, andb_true_r. by induction (n - String.length s). Qed.

Lemma fmt_fixed_num n x : num_text (fmt_fixed n x).
Proof.
  assert (forall s, all_bytes is_num_byte s = true -> all_bytes is_num_byte (if (n =? 0)%nat then "" else "." +:+ zero_pad n s) = true) as Hp.
  { intros s Hs. destruct (n =? 0)%nat; [done|]. simpl. by apply zero_pad_num. }
  unfold fmt_fixed. destruct x as [s|s| |s m e].
  - split; [by destruct s|]. rewrite all_bytes_app, Hp by done. by destruct s.
  - by destruct s.
  - done.
  - split; [|rewrite !all_bytes_app, Hp, uint_num by apply uint_num; by destruct s].
    destruct s; cbn [String.append]; [done|]. intros E. by destruct (uint_to_string _) eqn:E1 in E; [apply uint_to_string_ne in E1|].
Qed.

(** *** The text *)

Definition full_line (l : string) : Prop := no_newline l = true /\ strip_cr l = l.

Lemma lines_full ls : Forall full_line ls -> lines (str_concat ((fun l => l +:+ nl_str) <$> ls)) = ls.
Proof.
  induction 1 as [|l ls [Hn Hc] HF IH]; [done|]. rewrite fmap_cons, str_concat_cons, str_app_assoc. unfold nl_str at 1.
  cbn [String.append]. by rewrite lines_cons, Hc, IH.
Qed.

Lemma full_after p x : no_newline p = true -> no_newline x = true -> trimmed_text x -> full_line (p +:+ x).
Proof.
  intros Hp Hx [_ _ (body & b & -> & _ & Wb)]. split; [unfold no_newline in *; by rewrite all_bytes_app, Hp|].
  unfold strip_cr. rewrite <- str_app_assoc, strip_suffix_char_snoc. destruct (Ascii.eqb_spec b carriage_return) as [->|]; [|done].
  by vm_compute in Wb.
Qed.

Lemma quoted_full p s : no_newline p = true -> utf8_valid s = true -> no_newline s = true -> full_line (p +:+ quoted s).
Proof.
  intros Hp Hu Hs. apply full_after; [done| |by apply quoted_trimmed]. unfold quoted, no_newline in *. rewrite !all_bytes_app, Hs. done.
Qed.

(** What the text of a definition must be for its lines to be read back: vendor,
    model, pattern, mapped actions and samples are one line each that does not
    end with a quote; the pattern is not empty; keys of mappings are words; and vendor, model
    and mapped actions have no quote, which the writer does not escape there. *)
Record writable (d : ParserDefinition) : Prop := {
  wr_vendor : line_text (pd_vendor d) /\ no_quote (pd_vendor d) = true;
  wr_model : line_text (pd_device_model d) /\ no_quote (pd_device_model d) = true;
  wr_pattern : line_text (pd_regex_pattern d) /\ pd_regex_pattern d <> "";
  wr_created : (- 2 ^ 63 <= pd_created_at d < 2 ^ 63)%Z;
  wr_mappings : map_Forall (fun k x => word k /\ line_text x /\ no_quote x = true) (pd_action_mappings d);
  wr_samples : Forall line_text (pd_sample_logs d)
}.

(** A score after it was written with two decimals. *)
Definition two_decimals (c : f64) : f64 := default (f64_of_Z 1) (parse_f64 (fmt_fixed 2 c)).

(** Hundredths from 0 to 1 survive this. *)
Lemma hundredths_kept k : (0 <= k <= 100)%Z -> two_decimals (f64_lit k 100) = f64_lit k 100.
Proof.
  intros Hk. assert ((fun n => two_decimals (f64_lit (Z.of_nat n) 100)) <$> seq 0 101 = (fun n => f64_lit (Z.of_nat n) 100) <$> seq 0 101) as E
    by (vm_compute; reflexivity).
  apply (f_equal (fun l => l !! Z.to_nat k)) in E. rewrite !list_lookup_fmap, lookup_seq_lt in E by lia.
  cbn [fmap option_fmap option_map] in E. injection E as E. simpl in E. by rewrite Z2Nat.id in E by lia.
Qed.

(** The definition that is read back. *)
Definition yaml_image (d : ParserDefinition) : ParserDefinition :=
  mkDef (pd_vendor d) (pd_device_model d) (escape_quotes (pd_regex_pattern d)) (pd_action_mappings d)
    (escape_quotes <$> pd_sample_logs d) (two_decimals (pd_confidence_score d)) (pd_created_at d).

Lemma no_quote_inside s : no_quote s = true -> quote_inside s.
Proof.
  intros Hs. split.
  - destruct s as [|a s]; [done|]. unfold starts_with, dquote_str. rewrite prefix_one. simpl in Hs.
    apply andb_true_iff in Hs as [Ha%negb_true_iff _]. by rewrite Ascii.eqb_sym.
  - unfold no_quote in Hs. induction s as [|a s IH]; [done|]. simpl in Hs. apply andb_true_iff in Hs as [Ha%negb_true_iff Hs].
    simpl. destruct s; [by rewrite Ha|]. by rewrite IH.
Qed.

Lemma trim_quotes_plain s : utf8_valid s = true -> no_quote s = true -> trim_quotes (quoted s) = s.
Proof. intros Hu Hq. apply trim_quotes_quoted; [done|by apply no_quote_inside]. Qed.

Lemma escape_quotes_id s : no_quote s = true -> escape_quotes s = s.
Proof. intros Hs. unfold escape_quotes, dquote_str. rewrite replace_byte. by apply subst_byte_absent. Qed.

Lemma escape_quotes_fixed s : escape_quotes s = s -> no_quote s = true.
Proof.
  intros E. apply (f_equal String.length) in E. unfold escape_quotes, dquote_str in E. rewrite replace_byte in E.
  remember (backslash_str +:+ String dquote "") as u eqn:Eu. assert (String.length u = 2) as Hu by (by subst u). clear Eu.
  assert (forall t, String.length t <= String.length (subst_byte dquote u t)) as Hle.
  { induction t as [|a t IH]; simpl; [lia|]. destruct (Ascii.eqb a dquote); simpl; rewrite ?str_length_app; lia. }
  induction s as [|a s IH]; [done|]. cbn [subst_byte] in E. unfold no_quote. cbn [all_bytes].
  destruct (Ascii.eqb a dquote); cbn [String.length] in E; [rewrite str_length_app in E; specialize (Hle s); lia|].
  apply IH. lia.
Qed.

Lemma image_same d : no_quote (pd_regex_pattern d) = true -> Forall (fun s => escape_quotes s = s) (pd_sample_logs d) ->
  two_decimals (pd_confidence_score d) = pd_confidence_score d -> yaml_image d = d.
Proof.
  intros Hp Hs Hc. unfold yaml_image. rewrite escape_quotes_id, Hc by done. destruct d as [v m p a ss c t]. simpl in *. f_equal.
  clear Hp Hc. induction Hs as [|s ss Hs HF IH]; [done|]. by rewrite fmap_cons, Hs, IH.
Qed.

Section Roundtrip.
Context (order : gmap string string -> list (string * string)).
Hypothesis order_perm : forall m, order m ≡ₚ map_to_list m.

Lemma order_Forall (P : string -> string -> Prop) m : map_Forall P m -> Forall (fun kv => P kv.1 kv.2) (order m).
Proof. intros HP. rewrite order_perm. apply map_Forall_to_list in HP. eapply Forall_impl; [exact HP|]. by intros []. Qed.

Lemma yaml_lines_full d : writable d -> Forall full_line (yaml_lines order d).
Proof.
  intros [[Lv _] [Lm _] [Lp _] _ Wm Ws]. unfold yaml_lines. rewrite !Forall_app. split_and!.
  - repeat constructor; try (by apply quoted_full; apply Lv || apply Lm || done).
    1-4: apply full_after; [done|apply num_text_line..]; apply fmt_fixed_num || apply int_num.
    1,2: apply quoted_full; [done|apply escape_quotes_text, escape_backslashes_text, Lp..].
  - apply Forall_fmap. eapply Forall_impl; [exact (order_Forall _ _ Wm)|]. intros [k x] ([_ Hk] & Lx & _). cbn [fst snd] in Hk, Lx.
    change (full_line ("  " +:+ k +:+ ": " +:+ quoted x)).
    replace ("  " +:+ k +:+ ": " +:+ quoted x) with (("  " +:+ k +:+ ": ") +:+ quoted x) by by rewrite !str_app_assoc.
    apply quoted_full; [|apply Lx..]. unfold no_newline. rewrite !all_bytes_app.
    assert (all_bytes (fun a => negb (Ascii.eqb a newline)) k = true) as ->; [|done].
    eapply all_bytes_impl; [|exact Hk]. intros a (_&_&_&_&->&_)%word_byte. done.
  - by repeat constructor.
  - apply Forall_fmap. eapply Forall_impl; [exact Ws|]. intros s Hs%escape_quotes_text. simpl.
    apply (quoted_full "  - "); [done|apply Hs..].
Qed.

Lemma yaml_loop_app clock i l1 l2 v : yaml_loop clock i (l1 ++ l2) v = yaml_loop clock (i + length l1) l2 (yaml_loop clock i l1 v).
Proof.
  revert i v; induction l1 as [|l l1 IH]; intros i v; simpl; [by rewrite Nat.add_0_r|]. by rewrite IH, Nat.add_succ_comm.
Qed.

Lemma mappings_loop clock kvs : Forall (fun kv => word kv.1 /\ line_text kv.2 /\ no_quote kv.2 = true) kvs -> forall i v,
  y_in_action_mappings v = true ->
  yaml_loop clock i ((fun kv => "  " +:+ kv.1 +:+ ": " +:+ quoted kv.2) <$> kvs) v =
  mkYaml (y_vendor v) (y_device_model v) (y_regex_pattern v) (y_confidence_score v) (y_created_at v)
    (foldl (fun m kv => <[kv.1 := kv.2]> m) (y_action_mappings v) kvs) (y_sample_logs v) true (y_in_sample_logs v).
Proof.
  induction 1 as [|[k x] kvs (Hk & Lx & Hq) HF IH]; intros i v Hm; [by destruct v; simpl in *; subst|].
  rewrite fmap_cons. cbn [yaml_loop fst snd]. change ("  " +:+ k +:+ ": " +:+ quoted x) with ("  " +:+ key_line k (quoted x)).
  rewrite (mapping_line _ k (quoted x)) by (done || apply quoted_trimmed, Lx). rewrite IH by done.
  cbn [y_vendor y_device_model y_regex_pattern y_confidence_score y_created_at y_action_mappings y_sample_logs y_in_sample_logs foldl fst snd].
  by rewrite trim_quotes_plain by (done || apply Lx).
Qed.

Lemma samples_loop clock ss : Forall line_text ss -> forall i v,
  y_in_action_mappings v = false -> y_in_sample_logs v = true ->
  yaml_loop clock i ((fun s => "  - " +:+ quoted (escape_quotes s)) <$> ss) v =
  mkYaml (y_vendor v) (y_device_model v) (y_regex_pattern v) (y_confidence_score v) (y_created_at v)
    (y_action_mappings v) (y_sample_logs v ++ (escape_quotes <$> ss)) false true.
Proof.
  induction 1 as [|s ss Ls HF IH]; intros i v Hm Hs; [rewrite app_nil_r; by destruct v; simpl in *; subst|].
  rewrite fmap_cons. cbn [yaml_loop]. pose proof (escape_quotes_text s Ls) as Le.
  rewrite sample_line, IH by (done || apply quoted_trimmed, Le).
  rewrite trim_quotes_quoted by (apply Le || by apply escaped_inside). rewrite fmap_cons. cbn [y_sample_logs].
  by rewrite <- app_assoc.
Qed.

Lemma insert_all m : foldl (fun (acc : gmap string string) kv => <[kv.1 := kv.2]> acc) ∅ (order m) = m.
Proof.
  assert (forall l (acc : gmap string string), foldl (fun acc kv => <[kv.1 := kv.2]> acc) acc l = list_to_map (reverse l) ∪ acc) as Hf.
  { induction l as [|[k x] l IH]; intros acc; simpl; [by rewrite (left_id_L ∅ (∪))|].
    rewrite IH, reverse_cons, list_to_map_app. simpl. rewrite <- (assoc_L (∪)). f_equal. by rewrite insert_union_singleton_l, insert_empty. }
  rewrite Hf, (right_id_L ∅ (∪)). rewrite <- (list_to_map_to_list m) at 2. apply list_to_map_proper.
  - rewrite reverse_Permutation, order_perm. apply NoDup_fst_map_to_list.
  - by rewrite reverse_Permutation.
Qed.

(** The top-level keys. *)
Lemma yaml_vendor now x v m p c t am ss im iz :
  yaml_key now "vendor" x (mkYaml v m p c t am ss im iz) = mkYaml x m p c t am ss im iz.
Proof. done. Qed.

Lemma yaml_model now x v m p c t am ss im iz :
  yaml_key now "device_model" x (mkYaml v m p c t am ss im iz) = mkYaml v x p c t am ss im iz.
Proof. done. Qed.

Lemma yaml_confidence now x v m p c t am ss im iz :
  yaml_key now "confidence_score" x (mkYaml v m p c t am ss im iz) = mkYaml v m p (default (f64_of_Z 1) (parse_f64 x)) t am ss im iz.
Proof. done. Qed.

Lemma yaml_created now x v m p c t am ss im iz :
  yaml_key now "created_at" x (mkYaml v m p c t am ss im iz) = mkYaml v m p c (default now (parse_i64 x)) am ss im iz.
Proof. done. Qed.

Lemma yaml_pattern now x v m p c t am ss im iz :
  yaml_key now "regex_pattern" x (mkYaml v m p c t am ss im iz) = mkYaml v m (unescape_backslashes x) c t am ss im iz.
Proof. done. Qed.

Lemma head_loop clock d v : writable d -> y_in_action_mappings v = false -> y_in_sample_logs v = false ->
  yaml_loop clock 1 (take 6 (yaml_lines order d)) v =
  mkYaml (pd_vendor d) (pd_device_model d) (escape_quotes (pd_regex_pattern d)) (two_decimals (pd_confidence_score d)) (pd_created_at d)
    (y_action_mappings v) (y_sample_logs v) true false.
Proof.
  intros [[Lv Qv] [Lm Qm] [Lp _] Wt _ _] Hm Hs.
  pose proof (escape_quotes_text _ (escape_backslashes_text _ Lp)) as Le.
  destruct (num_text_line _ (fmt_fixed_num 2 (pd_confidence_score d))) as (Tc & _ & Qc).
  destruct (num_text_line _ (int_num (pd_created_at d))) as (Tt & _ & Qt).
  unfold yaml_lines. cbn [take app yaml_loop].
  rewrite (top_line _ "vendor" (quoted (pd_vendor d))) by (done || apply quoted_trimmed, Lv).
  rewrite (top_line _ "device_model" (quoted (pd_device_model d))) by (done || apply quoted_trimmed, Lm).
  rewrite (top_line _ "confidence_score" (fmt_fixed 2 (pd_confidence_score d))) by done.
  rewrite (top_line _ "created_at" (int_to_string (pd_created_at d))) by done.
  rewrite (top_line _ "regex_pattern" (quoted (escape_quotes (escape_backslashes (pd_regex_pattern d))))) by (done || apply quoted_trimmed, Le).
  rewrite (trim_quotes_plain (pd_vendor d)), (trim_quotes_plain (pd_device_model d)) by (done || apply Lv || apply Lm).
  rewrite (trim_quotes_id _ Qc), (trim_quotes_id _ Qt), trim_quotes_quoted by (apply Le || by apply escaped_inside, escape_backslashes_text).
  destruct v as [v0 m0 p0 c0 t0 am ss im iz]. cbn [y_in_action_mappings y_in_sample_logs] in Hm, Hs. subst im iz.
  rewrite yaml_vendor, yaml_model, yaml_confidence, yaml_created, yaml_pattern, parse_i64_int by done.
  by rewrite escape_both, unescape_escape_backslashes.
Qed.

Lemma yaml_loop_image clock d now : writable d ->
  yaml_loop clock 1 (yaml_lines order d) (yaml_start now) =
  mkYaml (pd_vendor d) (pd_device_model d) (escape_quotes (pd_regex_pattern d)) (two_decimals (pd_confidence_score d)) (pd_created_at d)
    (pd_action_mappings d) (escape_quotes <$> pd_sample_logs d) false true.
Proof.
  intros W. rewrite <- (take_drop 6 (yaml_lines order d)), yaml_loop_app, head_loop by done.
  change (drop 6 (yaml_lines order d)) with
    (((fun kv => "  " +:+ kv.1 +:+ ": " +:+ quoted kv.2) <$> order (pd_action_mappings d))
     ++ ["sample_logs:"] ++ ((fun s => "  - " +:+ quoted (escape_quotes s)) <$> pd_sample_logs d)).
  rewrite yaml_loop_app, mappings_loop by (done || exact (order_Forall _ _ (wr_mappings _ W))).
  cbn [y_action_mappings yaml_start y_vendor y_device_model y_regex_pattern y_confidence_score y_created_at y_sample_logs y_in_sample_logs].
  rewrite insert_all. cbn [app yaml_loop]. rewrite samples_loop by (done || apply W). done.
Qed.

Context `{DefinitionJson}.

Lemma yaml_not_json d def : def_from_json (to_yaml order d) <> Ok def.
Proof.
  intros (a & rest & E & Ha)%def_json_opens. unfold to_yaml, yaml_lines in E. cbn [app fmap list_fmap] in E.
  rewrite str_concat_cons in E. cbn [String.append] in E. unfold trim_start, trim_start_matches in E.
  rewrite chars_ascii_cons in E by done. cbn [drop_while] in E. change (is_whitespace "v") with false in E. cbn iota in E.
  rewrite str_concat_cons in E. cbn [String.append] in E. injection E as <- _. by destruct Ha.
Qed.

(** C20: what a definition becomes through YAML.  Let each of its texts be a single line that
    does not end with a quote, its pattern not empty, the keys of its mappings words, and
    vendor, model and mapped actions without quotes.  Then the text that [to_yaml]
    writes is read back by [from_yaml], whatever the order of
    the mappings, with vendor, model, mappings and time as they were, the score
    as its two decimals say, and every quote of pattern and samples
    with a backslash before it.  So a definition whose score is a number of
    hundredths, such as the 1.0 of every onboarded parser, comes back unchanged when pattern and
    samples have no quote, and only if the pattern has none, although the
    onboarder's own key-value patterns have one. *)
Theorem yaml_roundtrip clock d : writable d ->
  from_yaml clock (to_yaml order d) = Ok (yaml_image d) /\
  (no_quote (pd_regex_pattern d) = true -> Forall (fun s => no_quote s = true) (pd_sample_logs d) ->
   (exists k, (0 <= k <= 100)%Z /\ pd_confidence_score d = f64_lit k 100) -> yaml_image d = d) /\
  (yaml_image d = d -> no_quote (pd_regex_pattern d) = true).
Proof.
  intros W. split_and!.
  - unfold from_yaml. destruct (def_from_json (to_yaml order d)) as [def|e] eqn:E; [by apply yaml_not_json in E|].
    unfold to_yaml. rewrite lines_full by by apply yaml_lines_full. rewrite yaml_loop_image by done.
    cbn [y_regex_pattern y_vendor y_device_model y_action_mappings y_sample_logs y_confidence_score y_created_at].
    destruct (is_empty (escape_quotes (pd_regex_pattern d))) eqn:Ee; [|done]. exfalso. apply (wr_pattern _ W).
    unfold escape_quotes, dquote_str in Ee. rewrite replace_byte in Ee. destruct (pd_regex_pattern d) as [|a s]; [done|].
    cbn [subst_byte] in Ee. by destruct (Ascii.eqb a dquote).
  - intros Hp Hs (k & Hk & Ek). apply image_same; [done| |rewrite Ek; by apply hundredths_kept].
    eapply Forall_impl; [exact Hs|]. intros s Hq. by apply escape_quotes_id.
  - intros E. apply (f_equal pd_regex_pattern) in E. by apply escape_quotes_fixed.
Qed.

End Roundtrip.

(** ** Witness *)

Module ExportDemo.

(** The pattern that the onboarder makes of a line with an action and a source. *)
Definition kv_pattern : string :=
  "^.*?\b(?:action|act)=" +:+ dquote_str +:+ "?(?P<action>[a-zA-Z0-9_-]+)" +:+ dquote_str +:+ "?.*$".

Definition exported : ParserDefinition :=
  mkDef "Acme" "fw 1" kv_pattern {[ "deny" := BLOCKED; "accept" := ALLOWED ]}
    ["action=deny src=10.0.0.1"; "action=" +:+ quoted "accept" +:+ " src=10.0.0.2"] (f64_of_Z 1) 1700000000000.

#[export] Instance demo_def_json : DefinitionJson.
Proof.
  refine {| def_to_json _ := Ok "{}"; def_from_json s := if String.eqb s "{}" then Ok exported else Err "no object" |}.
  intros s d. destruct (String.eqb_spec s "{}") as [->|]; [|done]. intros _. exists "{"%char, "}". by split; [|left].
Defined.

Lemma exported_writable : writable exported.
Proof.
  split.
  - split; [split; [done..|right; by exists "Acm", "e"%char]|done].
  - split; [split; [done..|right; by exists "fw ", "1"%char]|done].
  - split; [split; [done..|]|done]. right.
    by exists ("^.*?\b(?:action|act)=" +:+ dquote_str +:+ "?(?P<action>[a-zA-Z0-9_-]+)" +:+ dquote_str +:+ "?.*"), "$"%char.
  - done.
  - apply map_Forall_insert_2; [|apply map_Forall_insert_2; [|apply map_Forall_empty]].
    + split; [done|split; [split; [done..|right; by exists "Blocke", "d"%char]|done]].
    + split; [done|split; [split; [done..|right; by exists "Allowe", "d"%char]|done]].
  - constructor; [|constructor; [|constructor]].
    + split; [done..|]. right. by exists "action=deny src=10.0.0.", "1"%char.
    + split; [done..|]. right. by exists ("action=" +:+ quoted "accept" +:+ " src=10.0.0."), "2"%char.
Qed.

Lemma yaml_roundtrip_witness :
  from_yaml (fun _ => 0%Z) (to_yaml map_to_list exported) = Ok (yaml_image exported) /\ yaml_image exported <> exported.
Proof.
  destruct (yaml_roundtrip map_to_list (fun m => Permutation_refl _) (fun _ => 0%Z) exported exported_writable) as (E & _ & Hq).
  split; [exact E|]. intros Ei%Hq. by vm_compute in Ei.
Defined.

(** A third comes back as thirty-three hundredths. *)
Example third : two_decimals (f64_lit 1 3) = f64_lit 33 100 /\ f64_lit 100 100 = f64_of_Z 1.
Proof. split; vm_compute; reflexivity. Qed.

Example scores : (parse_f64 "0.25", parse_f64 "-1e2", parse_f64 "1.", parse_f64 ".", parse_f64 "inf") =
  (Some (f64_lit 1 4), Some (SpecFloat.SFopp (f64_of_Z 100)), Some (f64_of_Z 1), None, Some (SpecFloat.S754_infinity false)).
Proof. vm_compute. reflexivity. Qed.

End ExportDemo.
