(* ===== verification/Cli.v ===== *)
(** * The commands ([crates/ulpf-cli/src/main.rs])

    [verify], [tamper], [inspect], [onboard], and the corpora that [benchmark],
    [evaluate] and [scorecard] read, as functions of the disk, with how the
    process ends.  What the commands print is left out, except for the texts
    that can fail to be printed.  ([ingest] is in [Ingest].) *)

From stdpp Require Import sorting.
From S2P Require Export Tamper ParserExport Duel.

(** ** How a command ends *)

(** A value, [std::process::exit], an error that [main] returns, a panic. *)
Inductive Outcome (A : Type) :=
| Completed (a : A)
| ExitWith (code : Z)
| Bailed (e : string)
| Panicked.
Arguments Completed {A} a.
Arguments ExitWith {A} code.
Arguments Bailed {A} e.
Arguments Panicked {A}.

Definition exit_code {A} (o : Outcome A) : Z :=
  match o with Completed _ => 0 | ExitWith c => c | Bailed _ => 1 | Panicked => 101 end.

(** [&s[..n]], which panics off a character boundary or past the end *)
Definition slice_to (n : nat) (s : string) : option string :=
  if (n <=? String.length s)%nat && is_char_boundary s n then Some (str_take n s) else None.

(** ** Replacement in a regex *)

(** [Captures::expand]: the replacement text with its [$] references filled in;
    a text without [$] stands for itself. *)
Class RegexExpand := {
  re_expand : string -> ReMatch -> string -> string;
  re_expand_plain : forall p m s, all_bytes (fun a => negb (Ascii.eqb a "$")) s = true -> re_expand p m s = s
}.

(** [Regex::replace]: the first match. *)
Definition re_replace `{RegexEngine} `{RegexExpand} (p text rep : string) : string :=
  match re_captures_first p text with
  | Some m => str_take (m_start m) text +:+ re_expand p m rep +:+ str_drop (m_end m) text
  | None => text
  end.

Section Archive.
Context `{Sha256} `{HexLib} `{ArrowLib} `{PQ : ParquetLib} `{LedgerJson}.

(** [Path::exists] *)
Definition path_exists (d : Disk) (path : string) : bool :=
  match blocks d !! path, texts d !! path with None, None => false | _, _ => true end.

(** ** [ulpf verify] *)

Record VerifyArgs := mkVerifyArgs { va_file : string; va_ledger : string }.

(** A completed run carries the report that is printed. *)
Definition run_verify (args : VerifyArgs) (d : Disk) : Outcome TamperReport :=
  if negb (path_exists d (va_file args)) then ExitWith 1
  else if negb (path_exists d (va_ledger args)) then ExitWith 1
  else match verify_block_with_ledger d (va_file args) (va_ledger args) with
       | None => Panicked
       | Some (Err _) => ExitWith 2
       | Some (Ok report) => if is_valid report then Completed report else ExitWith 2
       end.

(** ** [ulpf tamper] *)

Record TamperArgs := mkTamperArgs { ta_file : string; ta_leaf : nat; ta_ip : string }.

Definition IP_REGEX : string := "\b(?:[0-9]{1,3}\.){3}[0-9]{1,3}\b".

Context `{RegexEngine} `{RegexExpand}.

Definition tampered_log (ip original : string) : string :=
  if re_is_match IP_REGEX original then re_replace IP_REGEX original ip
  else original +:+ " [SPOOFED_IP:" +:+ ip +:+ "]".

(** [records[leaf].raw_log = log] *)
Definition set_raw_log (log : string) (r : StoredLogRecord) : StoredLogRecord :=
  mkStored (sr_event_id r) (sr_block_id r) (sr_leaf_index r) (sr_timestamp r) (sr_vendor r) log (sr_raw_hash r) (sr_ocsf_json r).

Definition run_tamper (fx : WriteFaults parquet_file) (args : TamperArgs) (d : Disk) : Outcome string * Disk :=
  if negb (path_exists d (ta_file args)) then (ExitWith 1, d)
  else match read_parquet_file (blocks d) (ta_file args) with
  | None => (Panicked, d)
  | Some (Err e) => (Bailed e, d)
  | Some (Ok records) =>
      match records !! ta_leaf args with
      | None => (ExitWith 1, d)
      | Some r =>
          let log := tampered_log (ta_ip args) (sr_raw_log r) in
          match write_records_to_parquet fx (blocks d) (ta_file args) (<[ta_leaf args := set_raw_log log r]> records) Snappy with
          | (Err e, fs) => (Bailed e, mkDisk _ fs (texts d))
          | (Ok _, fs) =>
              (match slice_to (Nat.min (String.length log) 90) log with Some s => Completed s | None => Panicked end,
               mkDisk _ fs (texts d))
          end
      end
  end.

(** ** [ulpf inspect] *)

Record InspectArgs := mkInspectArgs { na_file : string; na_count : nat }.

Definition inspect_preview (raw_log : string) : option string :=
  if (95 <? String.length raw_log)%nat then (fun s => s +:+ "...") <$> slice_to 95 raw_log else Some raw_log.

(** The previews of the records shown. *)
Fixpoint previews (rs : list StoredLogRecord) : option (list string) :=
  match rs with
  | [] => Some []
  | r :: rs' => p <-! inspect_preview (sr_raw_log r); ps <-! previews rs'; Some (p :: ps)
  end.

Definition run_inspect (args : InspectArgs) (d : Disk) : Outcome (list string) :=
  if negb (path_exists d (na_file args)) then ExitWith 1
  else match read_parquet_file (blocks d) (na_file args) with
       | None => Panicked
       | Some (Err e) => Bailed e
       | Some (Ok records) => match previews (take (na_count args) records) with Some ps => Completed ps | None => Panicked end
       end.

End Archive.

(** ** [ulpf onboard] *)

Record OnboardArgs := mkOnboardArgs { oa_sample : string; oa_vendor : string; oa_model : string; oa_out : string }.

(** [reader.lines().map_while(Result::ok)]: up to the first line that is not
    UTF-8 *)
Fixpoint valid_lines (ls : list string) : list string :=
  match ls with
  | [] => []
  | l :: ls' => if utf8_valid l then l :: valid_lines ls' else []
  end.

(** The trimmed lines that are not empty. *)
Definition trimmed_lines (text : string) : list string := List.filter not_empty (trim <$> valid_lines (lines text)).

Definition sample_lines (text : string) : list string := take 10 (trimmed_lines text).

(** [PathBuf::join] *)
Definition join_path (dir file : string) : string := if starts_with "/" file then file else path_join dir file.

(** The faults of [fs::write] by path, with what is left in the file; and of
    [create_dir_all]. *)
Record TextFaults := mkTextFaults { tf_dir : bool; tf_write : string -> option (option string) }.

Definition no_text_faults : TextFaults := mkTextFaults false (fun _ => None).

Definition write_text (fx : TextFaults) (path content : string) (fs : gmap string string) : Result string unit * gmap string string :=
  match tf_write fx path with
  | None => (Ok tt, <[path := content]> fs)
  | Some None => (Err "write failed", fs)
  | Some (Some partial) => (Err "write failed", <[path := partial]> fs)
  end.

(** What the command draws from outside: the clock of the definition, the order
    of the mappings, the id and the clock of the test event. *)
Record OnboardEnv := mkOnboardEnv {
  oe_created_at : Z;
  oe_order : gmap string string -> list (string * string);
  oe_id : string;
  oe_now : Z
}.

Section Onboarding.
Context `{Sha256} `{HexLib} `{RegexEngine} `{UnicodeText} `{DefinitionJson}.

(** The end: the definition is registered and tried on the first sample. *)
Definition self_test (env : OnboardEnv) (vendor first : string) (def : ParserDefinition) : Result string NetworkActivity :=
  (registry_parse (register registry_new def).2 vendor first (oe_id env) (oe_now env)).1.

Definition run_onboard (env : OnboardEnv) (fx : TextFaults) (args : OnboardArgs) (fs : gmap string string)
  : Outcome NetworkActivity * gmap string string :=
  match fs !! oa_sample args with
  | None => (ExitWith 1, fs)
  | Some text =>
      let samples := sample_lines text in
      if (length samples <? 3)%nat then (ExitWith 1, fs)
      else match generate_parser (oa_vendor args) (oa_model args) samples (oe_created_at env) with
      | None => (Panicked, fs)
      | Some (Err e) => (Bailed e, fs)
      | Some (Ok (def, _)) =>
          if tf_dir fx then (Bailed "create_dir_all failed", fs)
          else
            let json_path := join_path (oa_out args) (to_lowercase (oa_vendor args) +:+ ".json") in
            let yaml_path := join_path (oa_out args) (to_lowercase (oa_vendor args) +:+ ".yaml") in
            match to_json def with
            | Err e => (Bailed e, fs)
            | Ok json =>
                match write_text fx json_path json fs with
                | (Err e, fs1) => (Bailed e, fs1)
                | (Ok _, fs1) =>
                    match write_text fx yaml_path (to_yaml (oe_order env) def) fs1 with
                    | (Err e, fs2) => (Bailed e, fs2)
                    | (Ok _, fs2) =>
                        match self_test env (oa_vendor args) (default "" (head samples)) def with
                        | Ok event => (Completed event, fs2)
                        | Err e => (Bailed e, fs2)
                        end
                    end
                end
            end
      end
  end.

End Onboarding.

(** ** Corpora *)

Inductive CorpusKind := Core | Adversarial | Holdout.

#[global] Instance CorpusKind_eq_dec : EqDecision CorpusKind.
Proof. solve_decision. Defined.

Definition corpus_kind_str (k : CorpusKind) : string :=
  match k with Core => "core" | Adversarial => "adversarial" | Holdout => "holdout" end.

(** [Path::extension] of a file name *)
Definition extension (name : string) : option string :=
  if String.eqb name ".." then None
  else match before_last_dot name with
       | None | Some "" => None
       | Some stem => Some (str_drop (S (String.length stem)) name)
       end.

(** The order of file names: by bytes. *)
Definition name_le (a b : string) : Prop := String.leb a b = true.

#[global] Instance name_le_dec a b : Decision (name_le a b).
Proof. unfold name_le. apply _. Defined.

Definition sort_names (l : list string) : list string := merge_sort name_le l.

(** The closure [push_file]. *)
Definition push_file (fs : Files) (path : string) : Result string (list string) :=
  if fs_exists fs path
  then match fs_read fs path with Ok text => Ok (trimmed_lines text) | Err e => Err e end
  else Ok [].

Fixpoint push_files (fs : Files) (paths : list string) : Result string (list string) :=
  match paths with
  | [] => Ok []
  | p :: ps => match push_file fs p with
               | Err e => Err e
               | Ok ls => rest ← push_files fs ps; Ok (ls ++ rest)
               end
  end.

Definition is_corpus_name (name : string) : bool :=
  match extension name with Some e => one_of ["log"; "json"] e | None => false end.

Section Corpora.
Context `{SidecarJson}.
(** [fs::read_dir]: the names of the entries that could be read *)
Variable read_dir : string -> Result string (list string).

Definition core_paths (fs : Files) (data_dir : string) : Result string (list string) :=
  match read_dir data_dir with
  | Err e => Err ("reading corpus dir " +:+ data_dir)
  | Ok names =>
      Ok ((fun n => join data_dir n) <$>
            sort_names (List.filter (fun n => fs_is_file fs (join data_dir n) && is_corpus_name n) names))
  end.

Definition load_core (fs : Files) (data_dir : string) : Result string (list string * GtOverrides) :=
  match core_paths fs data_dir with
  | Err e => Err e
  | Ok paths =>
      match push_files fs paths with
      | Err e => Err e
      | Ok corpus =>
          let sidecar := join data_dir "gt.jsonl" in
          if fs_exists fs sidecar
          then match load_sidecar_gt (fs_read fs) sidecar with
               | Ok gt => Ok (corpus, gt)
               | Err _ => Err ("loading sidecar GT from " +:+ sidecar)
               end
          else Ok (corpus, ∅)
      end
  end.

Definition load_sidecar_corpus (fs : Files) (dir log_name : string) : Result string (list string * GtOverrides) :=
  match push_file fs (join dir log_name) with
  | Err e => Err e
  | Ok corpus =>
      match load_sidecar_gt (fs_read fs) (join dir "gt.jsonl") with
      | Ok gt => Ok (corpus, gt)
      | Err _ => Err ("loading sidecar GT from " +:+ dir)
      end
  end.

Definition load_corpus (fs : Files) (kind : CorpusKind) (data_dir : string) : Outcome (list string * GtOverrides) :=
  let loaded := match kind with
                | Core => load_core fs data_dir
                | Adversarial => load_sidecar_corpus fs (join data_dir "adversarial") "adversarial.log"
                | Holdout => load_sidecar_corpus fs (join data_dir "holdout") "holdout.log"
                end in
  match loaded with
  | Err e => Bailed e
  | Ok (corpus, gt) => if is_nil_list corpus then ExitWith 1 else Completed (corpus, gt)
  end.

End Corpora.

(** ** [ulpf benchmark] *)

Record BenchmarkArgs := mkBenchmarkArgs { ba_data_dir : string; ba_duration : Z; ba_threads : nat; ba_compare : bool }.

Definition BENCHMARK_FILES : list string := ["cisco_asa.log"; "fortigate.log"; "paloalto.log"; "suricata.json"; "pfsense.log"].

(** The total that is printed; [schedule] is the sequence of the workers' turns,
    [call] the parse of a line by a worker's parser, if it does not panic. *)
Definition benchmark_total (call : string -> bool) (fs : Files) (schedule : list nat) (args : BenchmarkArgs) : Outcome Z :=
  match push_files fs ((fun n => join (ba_data_dir args) n) <$> BENCHMARK_FILES) with
  | Err e => Bailed e
  | Ok corpus =>
      if is_nil_list corpus then ExitWith 1
      else Completed (bn_count (run_workers (fun (_ : unit) raw => if call raw then Some tt else None) corpus (ba_threads args) schedule tt))
  end.

(** ** The audit dump *)

(** [failure_json] is the JSON text of a failure under the name of an engine. *)
Definition audit_dump (failure_json : string -> AuditFailure -> string) (results : list (string * list AuditFailure)) : string * nat :=
  let dump_lines : list string := concat ((fun r : string * list AuditFailure => List.map (failure_json r.1) r.2) <$> results) in
  (str_concat ((fun l => l +:+ nl_str) <$> dump_lines), length dump_lines).
