(* ===== verification/CliFacts.v ===== *)
(** * What the commands guarantee

    [verify] accepts every block that [ingest] wrote and rejects one that
    [tamper] altered; [onboard] ends well exactly when the synthesis does; a
    corpus is never empty. *)

From Stdlib Require Import Sorted.
From stdpp Require Import sorting.
From S2P Require Export Cli IngestFacts TamperFacts OnboarderFacts BenchmarkFacts ParserExportFacts DuelFacts.

Section Archive.
Context `{Sha256} `{HexLib} `{ArrowLib} `{PQ : ParquetLib} `{LedgerJson} `{RegexEngine} `{RegexExpand}.

(** ** A block of a run, altered or not *)

Lemma read_exists d path rs : read_parquet_file (blocks d) path = Some (Ok rs) -> path_exists d path = true.
Proof. unfold read_parquet_file, path_exists. intros E. destruct (blocks d !! path); [by destruct (texts d !! path)|done]. Qed.

(** The verdict of [verify] on a file with records of block [k]. *)
Lemma verify_block cfg hist b d d' path k x r rs : represents cfg hist b d -> hist !! k = Some x ->
  texts d' = texts d -> read_parquet_file (blocks d') path = Some (Ok (r :: rs)) -> sr_block_id r = Z.of_nat k ->
  exists rep, verify_records (r :: rs) (block_entry k x) = Some rep /\
    run_verify (mkVerifyArgs path (ledger_path cfg)) d' = if is_valid rep then Completed rep else ExitWith 2.
Proof.
  intros HR Hx Ht Hr Hid. destruct (verify_records_total (r :: rs) (block_entry k x)) as (rep & Ev & _). exists rep. split; [done|].
  unfold run_verify. cbn [va_file va_ledger]. rewrite (read_exists _ _ _ Hr).
  assert (path_exists d' (ledger_path cfg) = true) as ->.
  { unfold path_exists. rewrite Ht. destruct (represents_ledger _ _ _ _ _ _ HR Hx) as [[t ->] _]. by destruct (blocks d' !! _). }
  cbn [negb]. rewrite (audit_block cfg hist b d d' path k x r rs HR Hx), Ev by (done || by rewrite Ht). done.
Qed.

Lemma verify_accepts cfg hist b d d' k x : represents cfg hist b d -> hist !! k = Some x ->
  texts d' = texts d -> blocks d' !! block_path cfg k = blocks d !! block_path cfg k ->
  exists rep, run_verify (mkVerifyArgs (block_path cfg k) (ledger_path cfg)) d' = Completed rep /\ tp_block_id rep = Z.of_nat k.
Proof.
  intros HR Hx Ht Hb. destruct (represents_head _ _ _ _ _ _ HR Hx) as (r & rs & Er & Hid).
  destruct (verify_block cfg hist b d d' (block_path cfg k) k x r rs HR Hx Ht) as (rep & Ev & ->); [|done|].
  - rewrite <- Er, <- (rep_blocks _ _ _ _ HR _ _ Hx). unfold read_parquet_file, BlockStore in *. by rewrite Hb.
  - destruct (block_verifies k x) as (rep' & Ev' & Hval). rewrite Er, Ev in Ev'. injection Ev' as <-. rewrite Hval.
    exists rep. split; [done|]. clear -Ev. unfold verify_records in Ev. destruct (from_raw_logs _); [|done]. by injection Ev as <-.
Qed.

Lemma block_path_inj cfg i j : (Z.of_nat i <= u64_max)%Z -> (Z.of_nat j <= u64_max)%Z ->
  block_path cfg i = block_path cfg j -> i = j.
Proof. intros Hi Hj E%path_join_inj%block_filename_inj; lia. Qed.

(** ** [tamper] *)

Lemma storable_alter rs i r log : storable rs -> rs !! i = Some r -> storable (<[i := set_raw_log log r]> rs).
Proof.
  intros (Hne & Hh & Hv) Hr. split_and!.
  - intros E. apply (f_equal length) in E. rewrite length_insert in E. by destruct rs.
  - apply Forall_insert; [done|]. rewrite Forall_lookup in Hh. destruct (Hh _ _ Hr) as [h Eh]. by exists h.
  - by rewrite list_fmap_insert, list_insert_id by (by rewrite list_lookup_fmap, Hr).
Qed.

(** Without an I/O fault [tamper] replaces one raw log in one file. *)
Lemma tamper_effect file rs i r ip d : read_parquet_file (blocks d) file = Some (Ok rs) -> storable rs -> rs !! i = Some r ->
  exists d', (run_tamper no_faults (mkTamperArgs file i ip) d).2 = d' /\ texts d' = texts d /\
    read_parquet_file (blocks d') file = Some (Ok (<[i := set_raw_log (tampered_log ip (sr_raw_log r)) r]> rs)) /\
    (forall p, p <> file -> blocks d' !! p = blocks d !! p) /\
    exit_code (run_tamper no_faults (mkTamperArgs file i ip) d).1 ∈ [0; 101]%Z.
Proof.
  intros Hr Hst Hi. unfold run_tamper. cbn [ta_file ta_leaf ta_ip]. rewrite (read_exists _ _ _ Hr), Hr, Hi. cbn [negb].
  destruct (write_read_records (blocks d) file _ Snappy (storable_alter rs i r (tampered_log ip (sr_raw_log r)) Hst Hi)) as (fs' & -> & Hread & Ho).
  eexists; split; [reflexivity|]. cbn [texts blocks fst]. split_and!; [done..|].
  destruct (slice_to _ _); cbn [exit_code]; set_solver.
Qed.

(** The altered block against its entry. *)
Lemma altered_verdict k x i r log : block_records k x !! i = Some r -> sha256 log <> sha256 (sr_raw_log r) ->
  exists rep, verify_records (<[i := set_raw_log log r]> (block_records k x)) (block_entry k x) = Some rep /\ is_valid rep = false.
Proof.
  intros Hr Hs. destruct (verify_records_spec (<[i := set_raw_log log r]> (block_records k x)) (block_entry k x)) as (rep & E & Hv & _).
  exists rep. split; [done|]. apply not_true_iff_false. intros (_ & _ & Hok)%Hv.
  destruct (Hok i (set_raw_log log r)) as [_ Hh]; [apply list_lookup_insert_eq; by apply lookup_lt_Some in Hr|].
  destruct (block_records_ok k x i r Hr) as [_ Hh']. simpl in Hh. rewrite Hh' in Hh. apply hex_encode_inj, bytes32_eq in Hh. by destruct Hs.
Qed.

Lemma set_raw_log_same r : set_raw_log (sr_raw_log r) r = r.
Proof. by destruct r. Qed.

Lemma tamper_verdict cfg hist b d k x i r ip : represents cfg hist b d -> hist !! k = Some x ->
  vendors x.2 <= 128 -> block_records k x !! i = Some r ->
  (Z.of_nat (length hist) <= u64_max)%Z ->
  let file := block_path cfg k in
  let d' := (run_tamper no_faults (mkTamperArgs file i ip) d).2 in
  let log := tampered_log ip (sr_raw_log r) in
  (log = sr_raw_log r -> exit_code (run_verify (mkVerifyArgs file (ledger_path cfg)) d') = 0%Z) /\
  (sha256 log <> sha256 (sr_raw_log r) -> exit_code (run_verify (mkVerifyArgs file (ledger_path cfg)) d') = 2%Z) /\
  (forall j y, j <> k -> hist !! j = Some y -> exit_code (run_verify (mkVerifyArgs (block_path cfg j) (ledger_path cfg)) d') = 0%Z).
Proof.
  intros HR Hx Hv Hr Hlen file d' log. pose proof (rep_nonempty _ _ _ _ HR) as Re. rewrite Forall_lookup in Re. specialize (Re _ _ Hx).
  destruct (tamper_effect file (block_records k x) i r ip d) as (d1 & Ed & Ht & Hread & Ho & _);
    [apply (rep_blocks _ _ _ _ HR _ _ Hx)|by apply stored_storable|done|]. fold d' in Ed. subst d1. fold log in Hread.
  destruct (represents_head _ _ _ _ _ _ HR Hx) as (r0 & rs0 & Er & Hid).
  assert (exists r1 rs1, <[i := set_raw_log log r]> (block_records k x) = r1 :: rs1 /\ sr_block_id r1 = Z.of_nat k) as (r1 & rs1 & E1 & Hid1).
  { rewrite Er. rewrite Er in Hr. destruct i as [|i]; simpl; [|by eexists _, _]. simpl in Hr. injection Hr as <-. by eexists _, _. }
  rewrite E1 in Hread. destruct (verify_block cfg hist b d d' (block_path cfg k) k x r1 rs1 HR Hx Ht Hread Hid1) as (rep & Ev & Hrun).
  split_and!.
  - intros El. unfold file. rewrite Hrun. destruct (block_verifies k x) as (rep' & Ev' & Hval).
    rewrite <- E1, El, set_raw_log_same, list_insert_id, Ev' in Ev by done. injection Ev as <-. by rewrite Hval.
  - intros Hs. unfold file. rewrite Hrun. destruct (altered_verdict k x i r log Hr Hs) as (rep' & Ev' & Hval).
    rewrite E1, Ev in Ev'. injection Ev' as <-. by rewrite Hval.
  - intros j y Hj Hy. destruct (verify_accepts cfg hist b d d' j y HR Hy Ht) as (rep' & -> & _); [|done].
    assert (k < length hist) by (by apply lookup_lt_Some in Hx). apply lookup_lt_Some in Hy.
    apply Ho. intros E. apply Hj, (block_path_inj cfg); [lia..|exact E].
Qed.

End Archive.

(** ** Ingest, tamper, verify *)

Section EndToEnd.
Context `{Sha256} `{HexLib} `{UnicodeLib} `{ChronoLib} `{RegexLib} `{JsonLib} `{AhoCorasick} `{RegexEngine}
  `{ArrowLib} `{PQ : ParquetLib} `{LedgerJson} `{EventJson} `{RegexExpand}.

(** The file that a ledger entry names. *)
Definition entry_file (args : IngestArgs) (e : LedgerEntry) : string := path_join (ia_parquet_dir args) (le_parquet_file e).

Lemma ingest_represents args acts s0 s : ingest_start args empty_disk = Ok s0 -> Forall action_good acts ->
  ingest_run (ia_batch_size args) acts s0 = Some s -> bounded (ia_batch_size args) (ig_logs s) ->
  exists hist, represents (ingest_batcher_config args) hist (en_batcher (ig_engine s)) (en_disk (ig_engine s)) /\
    (forall k x, hist !! k = Some x -> vendors x.2 <= 128) /\
    (Z.of_nat (length hist) <= u64_max)%Z.
Proof.
  intros E0 HF E Hb. destruct (ingest_run_inv _ _ acts _ _ (start_inv _ _ E0) HF E) as [_ _ Ie _ _ _].
  destruct (Ie Hb) as [(hist & HR & _ & Hc) _]. exists hist. destruct Hb as [_ Hl]. split_and!; [done|intros k x; by apply rep_vendors with (1 := HR)|].
  - pose proof (hist_length hist (rep_nonempty _ _ _ _ HR)). rewrite <- Hc, length_app in Hl. lia.
Qed.

(** C2: the archive that ingest leaves is accepted, and what [tamper] alters in
    it is caught: at every moment of a run from an empty disk, without disk faults and
    with at most 128 vendors among lines that can fill one block, [verify] on the
    file of any ledger entry exits with 0 and reports that block; and after
    [tamper] on leaf [i] of one block, [verify] on that block exits with 2
    unless the log it wrote has the same SHA-256 as the old one, exits with 0
    if it wrote the same log, and still exits with 0 on every other block. *)
Theorem tampering_is_detected args acts s0 s : ingest_start args empty_disk = Ok s0 -> Forall action_good acts ->
  ingest_run (ia_batch_size args) acts s0 = Some s -> bounded (ia_batch_size args) (ig_logs s) ->
  let d := en_disk (ig_engine s) in
  let verify e d := exit_code (run_verify (mkVerifyArgs (entry_file args e) (ia_ledger args)) d) in
  let ledger := in_memory_ledger (en_batcher (ig_engine s)) in
  (forall e, e ∈ ledger -> verify e d = 0%Z) /\
  forall k e i ip, ledger !! k = Some e -> i < le_leaf_count e -> exists r rs,
    entry_records (ingest_batcher_config args) d e = Some (Ok rs) /\ rs !! i = Some r /\
    let d' := (run_tamper no_faults (mkTamperArgs (entry_file args e) i ip) d).2 in
    (tampered_log ip (sr_raw_log r) = sr_raw_log r -> verify e d' = 0%Z) /\
    (sha256 (tampered_log ip (sr_raw_log r)) <> sha256 (sr_raw_log r) -> verify e d' = 2%Z) /\
    (forall j e', j <> k -> ledger !! j = Some e' -> verify e' d' = 0%Z).
Proof.
  intros E0 HF E Hb d verify ledger. destruct (ingest_represents args acts s0 s E0 HF E Hb) as (hist & HR & Hv & Hl).
  unfold ledger. rewrite (rep_ledger _ _ _ _ HR). split.
  - intros e (k & x & -> & Hx)%elem_of_lookup_imap_1. unfold verify.
    destruct (verify_accepts _ hist _ d d k x HR Hx eq_refl eq_refl) as (rep & Er & _).
    by exact (f_equal exit_code Er).
  - intros k e i ip (x & Hx & ->)%list_lookup_imap_Some Hi.
    destruct (lookup_lt_is_Some_2 (block_records k x) i) as [r Hr]; [unfold block_records; by rewrite length_imap|].
    exists r, (block_records k x).
    destruct (tamper_verdict _ hist _ d k x i r ip HR Hx (Hv _ _ Hx) Hr Hl) as (T1 & T2 & T3).
    split_and!; [exact (rep_blocks _ _ _ _ HR _ _ Hx)|exact Hr|exact T1|exact T2|].
    intros j e' Hj (y & Hy & ->)%list_lookup_imap_Some. by apply (T3 j y).
Qed.

End EndToEnd.

(** ** [onboard] *)

Lemma drop_while_idem {A} (p : A -> bool) l : drop_while p (drop_while p l) = drop_while p l.
Proof. induction l as [|x l IH]; simpl; [done|]. destruct (p x) eqn:E; [done|]. simpl. by rewrite E. Qed.

Lemma drop_while_end_idem {A} (p : A -> bool) l : drop_while_end p (drop_while_end p l) = drop_while_end p l.
Proof. unfold drop_while_end. by rewrite reverse_involutive, drop_while_idem. Qed.

(** Trimming at the end keeps a front that is trimmed. *)
Lemma drop_while_trimmed {A} (p : A -> bool) l : drop_while p (drop_while_end p (drop_while p l)) = drop_while_end p (drop_while p l).
Proof.
  destruct (drop_while_end p (drop_while p l)) as [|x t] eqn:E; [done|]. simpl.
  destruct (drop_while_end_prefix p (drop_while p l)) as [l2 E2]. rewrite E in E2. simpl in E2.
  pose proof (drop_while_idem p l) as Ei. rewrite E2 in Ei. simpl in Ei. destruct (p x) eqn:Ep; [|done].
  exfalso. pose proof (f_equal length Ei) as El. simpl in El.
  destruct (drop_while_suffix p (t ++ l2)) as [l1 E1]. apply (f_equal length) in E1. rewrite (length_app l1) in E1. lia.
Qed.

Lemma trim_idem s : utf8_valid s = true -> trim (trim s) = trim s.
Proof.
  intros Hv%chars_utf8. unfold trim, trim_matches. rewrite chars_of_concat.
  - by rewrite drop_while_trimmed, drop_while_end_idem.
  - destruct (drop_while_suffix is_whitespace (chars s)) as [l1 E1].
    destruct (drop_while_end_prefix is_whitespace (drop_while is_whitespace (chars s))) as [l2 E2].
    rewrite E1 in Hv. apply Forall_app in Hv as [_ Hv]. rewrite E2 in Hv. by apply Forall_app in Hv as [? _].
Qed.

Lemma valid_lines_utf8 ls : Forall (fun l => utf8_valid l = true) (valid_lines ls).
Proof. induction ls as [|l ls IH]; simpl; [done|]. destruct (utf8_valid l) eqn:E; [|done]. by constructor. Qed.

(** A sample is trimmed. *)
Lemma sample_trimmed text s : s ∈ sample_lines text -> trim s = s.
Proof.
  intros (i & Hi)%list_elem_of_lookup_1. apply lookup_take_Some in Hi as [Hi _]. apply list_elem_of_lookup_2, list_elem_of_In, filter_In in Hi as [Hi _].
  apply list_elem_of_In, list_elem_of_fmap in Hi as (l & -> & Hl). apply trim_idem.
  pose proof (valid_lines_utf8 (lines text)) as HF. rewrite Forall_forall in HF. by apply HF.
Qed.

Section Onboard.
Context `{Sha256} `{HexLib} `{RegexEngine} `{UnicodeText} `{DefinitionJson}.

Lemma starts_with_app p s : starts_with p (p +:+ s) = true.
Proof. unfold starts_with. induction p as [|a p IH]; simpl; [by destruct s|]. destruct (ascii_dec a a); [exact IH|done]. Qed.

(** A fresh registry finds the one definition it has by its vendor. *)
Lemma lone_definition d raw id now : re_compiles (pd_regex_pattern d) = true ->
  (registry_parse (register registry_new d).2 (pd_vendor d) raw id now).1 =
  ok_or (result_ok (parse_with_regex d (pd_regex_pattern d) raw id now)) ("Log did not match dynamic parser '" +:+ registry_key d +:+ "'").
Proof.
  intros Hc. unfold register. rewrite Hc. cbn [parsers tick registry_new bt_get negb length andb snd rg_clock rg_capacity bt_insert Nat.leb].
  change (REGISTRY_CAPACITY <=? 0)%nat with false. cbn [bt_insert]. unfold registry_parse. cbn [parsers bt_get].
  destruct (String.eqb_spec (to_lowercase (pd_vendor d)) (registry_key d)) as [E|_].
  { exfalso. apply (f_equal String.length) in E. unfold registry_key in E. rewrite !str_length_app in E. simpl in E. lia. }
  cbn [List.find fst]. unfold registry_key at 1. rewrite <- str_app_assoc, starts_with_app. cbn [fmap option_fmap option_map fst].
  unfold parse_key. cbn [parsers tick bt_get]. rewrite String.eqb_refl. cbn [rg_regex rg_parser xbind fst].
  done.
Qed.

(** How [onboard] ends: without I/O faults, it completes exactly when the
    synthesis from the first ten trimmed lines succeeds, and then the JSON and
    the YAML of the definition are on disk and the first sample has been parsed
    into a well-formed event that carries it; otherwise the exit code is 1 and
    nothing is written. *)
Theorem onboard_exit env args fs text json : fs !! oa_sample args = Some text ->
  (forall d, to_json d = Ok (json d)) ->
  match generate_parser (oa_vendor args) (oa_model args) (sample_lines text) (oe_created_at env) with
  | Some (Ok (def, _)) => exists event first,
      run_onboard env no_text_faults args fs =
        (Completed event,
         <[join_path (oa_out args) (to_lowercase (oa_vendor args) +:+ ".yaml") := to_yaml (oe_order env) def]>
           (<[join_path (oa_out args) (to_lowercase (oa_vendor args) +:+ ".json") := json def]> fs)) /\
      head (sample_lines text) = Some first /\ activity_wf event /\ carries first event
  | _ => exists o, run_onboard env no_text_faults args fs = (o, fs) /\ exit_code o = 1%Z
  end.
Proof.
  intros Hf Hj. unfold run_onboard. rewrite Hf. destruct (generate_parser _ _ _ _) as [[[def rep]|e]|] eqn:Eg.
  - destruct (generate_sound _ _ _ _ _ _ Eg) as (Hl & _ & Hc & Hd & Hall).
    destruct (Nat.ltb_spec (length (sample_lines text)) 3); [lia|]. rewrite Hj. cbn [tf_dir no_text_faults write_text tf_write].
    destruct (sample_lines text) as [|first rest] eqn:Es; [done|]. cbn [head default].
    destruct (Hall first (oe_id env) (oe_now env)) as (a & _ & _ & Hp & W & C & _); [by left|].
    rewrite (sample_trimmed text) in Hp, C by (rewrite Es; by left).
    assert (pd_vendor def = oa_vendor args) as Hv by by rewrite Hd. unfold self_test. rewrite <- Hv, (lone_definition def) by done.
    unfold definition_parse in Hp. rewrite Hc in Hp. cbn [id]. unfold id. rewrite Hp. by exists a, first.
  - destruct (_ <? 3)%nat; by eexists.
  - exfalso. unfold generate_parser in Eg. destruct (Nat.ltb_spec (length (sample_lines text)) 3); [done|].
    destruct (sample_lines text) as [|first rest]; [simpl in *; lia|]. cbn [head] in Eg.
    destruct (synthesize_regex _ _); cbn [xbind] in Eg; [|done]. destruct (validate_parser _ _); cbn [xbind] in Eg; [|done].
    by destruct (vr_passed _).
Qed.

End Onboard.

(** ** Corpora *)

Lemma Permutation_list_filter {A} (p : A -> bool) l l' : l ≡ₚ l' -> List.filter p l ≡ₚ List.filter p l'.
Proof.
  induction 1 as [|x l l' HP IH|x y l|l l' l'' _ IH1 _ IH2]; simpl; [done| | |by etrans].
  - destruct (p x); [by constructor|done].
  - destruct (p x), (p y); try done. by constructor.
Qed.

Section Corpora.
Context `{SidecarJson}.
Variable read_dir : string -> Result string (list string).

Lemma trimmed_lines_ok text : Forall (fun l => l <> "" /\ trim l = l) (trimmed_lines text).
Proof.
  apply Forall_forall. intros l Hl%list_elem_of_In. apply filter_In in Hl as [Hl Hne].
  apply list_elem_of_In, list_elem_of_fmap in Hl as (x & -> & Hx). split; [by destruct (trim x)|]. apply trim_idem.
  pose proof (valid_lines_utf8 (lines text)) as HF. rewrite Forall_forall in HF. by apply HF.
Qed.

Lemma push_files_ok fs paths ls : push_files fs paths = Ok ls -> Forall (fun l => l <> "" /\ trim l = l) ls.
Proof.
  revert ls; induction paths as [|p ps IH]; intros ls; simpl; [by intros [= <-]|]. unfold push_file.
  destruct (fs_exists fs p); [destruct (fs_read fs p) as [text|]; [|done]|];
    (destruct (push_files fs ps) as [rest|]; [|done]); intros [= <-]; [apply Forall_app; split; [apply trimmed_lines_ok|]|]; by apply IH.
Qed.

Lemma push_file_ok fs p ls : push_file fs p = Ok ls -> Forall (fun l => l <> "" /\ trim l = l) ls.
Proof.
  intros E. apply (push_files_ok fs [p]). simpl. rewrite E. cbn. by rewrite app_nil_r.
Qed.

#[local] Instance name_le_total : Total name_le.
Proof.
  intros a b. unfold name_le. destruct (String.leb_total a b); tauto.
Qed.

#[local] Instance name_le_trans : Transitive name_le.
Proof.
  intros a b c. unfold name_le, String.leb. destruct (String.compare a b) eqn:E1; [|..]; try done; intros _.
  - apply String.compare_eq_iff in E1 as ->. done.
  - destruct (String.compare b c) eqn:E2; [|..]; try done; intros _.
    + apply String.compare_eq_iff in E2 as ->. by rewrite E1.
    + by rewrite (key_lt_trans a b c E1 E2).
Qed.

#[local] Instance name_le_antisymm : AntiSymm (=) name_le.
Proof. intros a b. apply String.leb_antisym. Qed.

(** A corpus that is loaded is fit for the evaluation: it is not empty, and
    every line of it is trimmed and not empty; the core corpus is read from the
    regular [.log] and [.json] files of the directory only, each once and in the
    order of their names, so the order in which the directory lists them does
    not matter. *)
Theorem load_corpus_fit fs kind data_dir corpus gt : load_corpus read_dir fs kind data_dir = Completed (corpus, gt) ->
  corpus <> [] /\ Forall (fun l => l <> "" /\ trim l = l) corpus /\
  (kind = Core -> exists names, read_dir data_dir = Ok names /\
     let chosen := sort_names (List.filter (fun n => fs_is_file fs (Duel.join data_dir n) && is_corpus_name n) names) in
     push_files fs ((fun n => Duel.join data_dir n) <$> chosen) = Ok corpus /\ StronglySorted name_le chosen /\
     forall names', names' ≡ₚ names ->
       sort_names (List.filter (fun n => fs_is_file fs (Duel.join data_dir n) && is_corpus_name n) names') = chosen).
Proof.
  unfold load_corpus. intros E.
  destruct (match kind with Core => _ | Adversarial => _ | Holdout => _ end) as [[c g]|e] eqn:Ek; [|done].
  destruct (is_nil_list c) eqn:Hn; [done|]. injection E as -> ->. split; [by destruct corpus|].
  destruct kind; [|unfold load_sidecar_corpus in Ek..].
  - unfold load_core, core_paths in Ek. destruct (read_dir data_dir) as [names|] eqn:Ed; [|done].
    destruct (push_files fs _) as [ls|] eqn:Ep; [|done].
    assert (ls = corpus) as -> by (repeat case_match; by simplify_eq). split; [by eapply push_files_ok|]. intros _.
    exists names. split; [done|]. cbv zeta. split_and!; [done|apply StronglySorted_merge_sort; apply _|].
    intros names' Hp. apply (StronglySorted_unique name_le); [apply StronglySorted_merge_sort; apply _..|].
    unfold sort_names. rewrite !merge_sort_Permutation. by apply Permutation_list_filter.
  - destruct (push_file fs _) as [ls|] eqn:Ep; [|done]. apply push_file_ok in Ep. by repeat case_match; simplify_eq.
  - destruct (push_file fs _) as [ls|] eqn:Ep; [|done]. apply push_file_ok in Ep. by repeat case_match; simplify_eq.
Qed.

End Corpora.

(** ** [inspect] *)

Section Inspect.
Context `{Sha256} `{HexLib} `{ArrowLib} `{PQ : ParquetLib} `{LedgerJson}.

(** A log whose preview can be cut. *)
Definition cuttable (r : StoredLogRecord) : Prop := String.length (sr_raw_log r) <= 95 \/ is_char_boundary (sr_raw_log r) 95 = true.

Lemma preview_cuttable r : (exists p, inspect_preview (sr_raw_log r) = Some p) <-> cuttable r.
Proof.
  unfold inspect_preview, slice_to, cuttable. destruct (Nat.ltb_spec 95 (String.length (sr_raw_log r))).
  - destruct (Nat.leb_spec 95 (String.length (sr_raw_log r))); [|lia]. cbn [andb].
    destruct (is_char_boundary _ 95); simpl; split; [by right|by eauto|by intros [? ?]|]. intros [?|?]; [lia|done].
  - split; [by left|]. by eauto.
Qed.

Lemma previews_cuttable rs : (exists ps, previews rs = Some ps) <-> Forall cuttable rs.
Proof.
  induction rs as [|r rs IH]; simpl; [split; eauto|]. rewrite Forall_cons, <- preview_cuttable, <- IH.
  destruct (inspect_preview (sr_raw_log r)), (previews rs); naive_solver.
Qed.

(** [inspect] crashes on archives that ingest can write: on a readable block
    it completes exactly when byte 95 of every shown log longer than 95 bytes is
    a character boundary, and panics otherwise. *)
Theorem inspect_panics_inside_char args d rs : read_parquet_file (blocks d) (na_file args) = Some (Ok rs) ->
  (Forall cuttable (take (na_count args) rs) -> exists ps, run_inspect args d = Completed ps) /\
  (~ Forall cuttable (take (na_count args) rs) -> run_inspect args d = Panicked).
Proof.
  intros Hr. unfold run_inspect. rewrite (read_exists _ _ _ Hr), Hr. cbn [negb]. rewrite <- previews_cuttable.
  destruct (previews _) as [ps|]; split; [eauto|intros []; eauto|by intros [? ?]|done].
Qed.

End Inspect.

(** ** Witnesses *)

Module CliDemo.
Import Demo TokenDemo ParserDemo RegexDemo ArrowDemo BatcherDemo IngestDemo.

#[export] Instance demo_expand : RegexExpand := {| re_expand _ _ s := s; re_expand_plain _ _ _ _ := eq_refl |}.

(** The spoofed address is appended to the first line of the first block. *)
Lemma tampering_is_detected_witness : let d := en_disk (ig_engine (reached 2 acts_full)) in
  let verify k d := exit_code (run_verify (mkVerifyArgs (block_path (ingest_batcher_config (ingest_args 2)) k) "data/ledger.jsonl") d) in
  let d' := (run_tamper no_faults (mkTamperArgs (block_path (ingest_batcher_config (ingest_args 2)) 0) 0 "10.99.99.99") d).2 in
  verify 0 d = 0%Z /\ verify 0 d' = 2%Z /\ verify 1 d' = 0%Z.
Proof.
  destruct (tampering_is_detected (ingest_args 2) acts_full (started 2) (reached 2 acts_full)) as [Hok Ht].
  - vm_compute. reflexivity.
  - exact good_full.
  - vm_compute. reflexivity.
  - split; [apply few_vendors_small; vm_compute; lia|vm_compute; reflexivity].
  - destruct (in_memory_ledger (en_batcher (ig_engine (reached 2 acts_full)))) as [|e0 [|e1 es]] eqn:El; [vm_compute in El; discriminate..|].
    assert (le_parquet_file e0 = block_filename 0 /\ le_parquet_file e1 = block_filename 1 /\ le_leaf_count e0 = 2) as (F0 & F1 & Hc).
    { vm_compute in El. injection El as <- <- _. vm_compute. done. }
    destruct (Ht 0 e0 0 "10.99.99.99") as (r & rs & Hrs & Hr & _ & H2 & H3); [reflexivity|lia|].
    unfold entry_file in *. rewrite F0 in *. split; [|split].
    + specialize (Hok e0 ltac:(by left)). rewrite F0 in Hok. exact Hok.
    + apply H2. unfold entry_records in Hrs. rewrite F0 in Hrs. vm_compute in Hrs. injection Hrs as <-. injection Hr as <-. vm_compute. discriminate.
    + specialize (H3 1 e1 ltac:(done) eq_refl). rewrite F1 in H3. exact H3.
Defined.

(** A block with a line of 94 letters and a two-byte character after them. *)
Definition accented : string := str_concat (replicate 94 "a") +:+ String "195" (String "169" "x").

Definition accented_disk : Disk :=
  mkDisk _ (write_records_to_parquet no_faults ∅ "b.parquet" (block_records 0 (BatcherDemo.env, [incoming_new "v" accented])) Snappy).2 ∅.

Lemma inspect_panics_inside_char_witness : utf8_valid accented = true /\
  run_inspect (mkInspectArgs "b.parquet" 1) accented_disk = Panicked.
Proof.
  split; [reflexivity|].
  destruct (inspect_panics_inside_char (mkInspectArgs "b.parquet" 1) accented_disk (block_records 0 (BatcherDemo.env, [incoming_new "v" accented])))
    as [_ Hp]; [vm_compute; reflexivity|]. apply Hp. intros [[Hl|Hb] _]%Forall_cons; [vm_compute in Hl; lia|by vm_compute in Hb].
Defined.

End CliDemo.

Module OnboardDemo.
Import Demo OnboarderDemo ExportDemo EvaluatorDemo.

Definition args0 : OnboardArgs := mkOnboardArgs "s.log" "Acme" "fw" "out".
Definition env0' : OnboardEnv := mkOnboardEnv 5 map_to_list "id" 7.
Definition disk0 : gmap string string := {[ "s.log" := str_join nl_str samples3 +:+ nl_str ]}.

Lemma onboard_exit_witness : exists event first fs',
  run_onboard env0' no_text_faults args0 disk0 = (Completed event, fs') /\ head samples3 = Some first /\ carries first event.
Proof.
  pose proof (onboard_exit env0' args0 disk0 (str_join nl_str samples3 +:+ nl_str) (fun _ => "{}") eq_refl (fun _ => eq_refl)) as Ho.
  destruct (generate_parser _ _ _ _) as [[[def rep]|e]|] eqn:Eg; [|vm_compute in Eg; discriminate..].
  destruct Ho as (event & first & E & Hf & _ & C). eexists event, first, _. split; [exact E|]. split; [|exact C].
  vm_compute in Hf. injection Hf as <-. vm_compute. reflexivity.
Defined.

Definition read_dir0 (dir : string) : Result string (list string) := Ok ["b.log"; "security_probe.log"; "a.json"; "gt.jsonl"].

Definition core_corpus : list string * GtOverrides :=
  match load_corpus read_dir0 demo_files Core "raw" with Completed x => x | _ => ([], ∅) end.

Lemma load_corpus_fit_witness : core_corpus.1 <> [] /\ Forall (fun l => l <> "" /\ trim l = l) core_corpus.1.
Proof.
  destruct (load_corpus_fit read_dir0 demo_files Core "raw" core_corpus.1 core_corpus.2) as (Hne & HF & _).
  - vm_compute. reflexivity.
  - split; [exact Hne|exact HF].
Defined.

End OnboardDemo.
