(* ===== verification/ServeState.v ===== *)
(** * State of the HTTP server ([crates/ulpf-cli/src/serve/state.rs], [mod.rs])

    The state that the routes share, its construction from the disk, the alerts
    and the metrics.  Directory listings, clocks and fresh UUIDs are arguments. *)

From S2P Require Export Cli.

(** ** Arguments and origins ([mod.rs]) *)

Record ServeArgs := mkServeArgs {
  sv_port : Z;
  sv_host : string;
  sv_parquet_dir : string;
  sv_ledger : string;
  sv_parsers_dir : string;
  sv_eval_report : string
}.

Definition serve_defaults : ServeArgs :=
  mkServeArgs 8080 "127.0.0.1" "data/parquet" "data/ledger.jsonl" "data/parsers" "eval_report.json".

(** The CORS predicate on an origin that is visible ASCII. *)
Definition origin_allowed (s : string) : bool :=
  starts_with "http://localhost:" s || starts_with "http://127.0.0.1:" s || String.eqb s "http://localhost"
  || String.eqb s "http://127.0.0.1" || starts_with "https://localhost:" s || starts_with "https://127.0.0.1:" s.

(** ** Data *)

Record AlertItem := mkAlert {
  ai_id : string;
  ai_alert_type : string;
  ai_severity : AlertSeverity;
  ai_timestamp : Z;
  ai_title : string;
  ai_details : string;
  ai_block_id : option Z;
  ai_leaf_index : option Z
}.

Record MetricsResponse := mkMetrics {
  mr_eps : f64;
  mr_latency_p50_micros : f64;
  mr_latency_p99_micros : f64;
  mr_queue_depth : nat;
  mr_queue_capacity : nat;
  mr_dropped_count : Z;
  mr_lru_hit_rate : f64;
  mr_total_ingested : Z;
  mr_total_parsed : Z;
  mr_total_blocks : Z;
  mr_vendor_mix : gmap string f64;
  mr_disposition_breakdown : gmap string Z;
  mr_status : string
}.

Record AppState := mkAppState {
  as_parquet_dir : string;
  as_ledger_path : string;
  as_parsers_dir : string;
  as_eval_report_path : string;
  as_scratch_dir : string;
  as_registry : DynamicParserRegistry;
  as_alerts : list AlertItem;
  as_mock_eps : Z
}.

Definition set_alerts (s : AppState) (alerts : list AlertItem) : AppState :=
  mkAppState (as_parquet_dir s) (as_ledger_path s) (as_parsers_dir s) (as_eval_report_path s) (as_scratch_dir s)
    (as_registry s) alerts (as_mock_eps s).

Definition set_app_registry (s : AppState) (r : DynamicParserRegistry) : AppState :=
  mkAppState (as_parquet_dir s) (as_ledger_path s) (as_parsers_dir s) (as_eval_report_path s) (as_scratch_dir s)
    r (as_alerts s) (as_mock_eps s).

(** [Path::parent] of a path without [.] components *)
Definition parent_dir (path : string) : option string :=
  let t := trim_end_matches (String.eqb "/") path in
  if is_empty t then None
  else Some (match rfind_char (String.eqb "/") t with
             | None => ""
             | Some i => let d := trim_end_matches (String.eqb "/") (str_take i t) in if is_empty d then "/" else d
             end).

(** [x.round()]: ties away from zero *)
Definition f64_round (x : f64) : f64 :=
  match x with
  | SpecFloat.S754_finite s m e =>
      if (0 <=? e)%Z then x
      else let n := ((Zpos m + 2 ^ (- e - 1)) / 2 ^ (- e))%Z in
           SpecFloat.binary_normalize 53 1024 (if s then - n else n)%Z 0 s
  | _ => x
  end.

(** [f64] literals of the source *)
Definition tenth (n : Z) : f64 := f64_lit n 10.

Section State.
Context `{Sha256} `{HexLib} `{ArrowLib} `{PQ : ParquetLib} `{LedgerJson} `{JsonLib} `{RegexEngine} `{UnicodeText} `{DefinitionJson}.
(** [fs::read_dir]: the names in a directory, in the order of the file system *)
Variable read_dir : string -> Result string (list string).

(** [std::fs::read_to_string] *)
Definition read_to_string (d : Disk) (path : string) : option string :=
  match texts d !! path with
  | Some t => if utf8_valid t then Some t else None
  | None => None
  end.

(** ** Construction *)

(** One entry of the parsers directory; the clock is that of [from_yaml]. *)
Definition load_parser (clock : nat -> Z) (d : Disk) (dir name : string) (r : DynamicParserRegistry) : DynamicParserRegistry :=
  match extension name, read_to_string d (path_join dir name) with
  | Some ext, Some content =>
      if String.eqb ext "json" then (load_from_json r content).2
      else if one_of ["yaml"; "yml"] ext then (load_from_yaml clock r content).2
      else r
  | _, _ => r
  end.

Definition scan_parsers (clock : nat -> Z) (d : Disk) (dir : string) : DynamicParserRegistry :=
  match read_dir dir with
  | Ok names => foldl (fun r name => load_parser clock d dir name r) registry_new names
  | Err _ => registry_new
  end.

(** [s.get(..16).unwrap_or(s)] *)
Definition short_hash (s : string) : string := default s (slice_to 16 s).

(** The details of the alarm for block 0. *)
Definition tamper_details (report : TamperReport) : string :=
  match tampered_records report with
  | [] => summary report
  | t :: _ => "Corrupted record at leaf " +:+ uint_to_string (tr_leaf_index t) +:+ ": calculated SHA-256 "
              +:+ short_hash (tr_calculated_raw_hash t) +:+ " does not match stored hash."
  end.

(** [ids] and [clocks] are drawn per alert; [None] is a panic. *)
Definition compute_initial_alerts (ids : nat -> string) (clocks : nat -> Z) (d : Disk) (parquet_dir ledger_path : string)
  : option (list AlertItem) :=
  let block_0 := path_join parquet_dir "block_00000.parquet" in
  let audit := if path_exists d block_0 && path_exists d ledger_path
               then match verify_block_with_ledger d block_0 ledger_path with
                    | None => None
                    | Some (Err _) => Some []
                    | Some (Ok report) =>
                        Some (if is_valid report then []
                              else [mkAlert (ids 0) "tamper_alarm" SevCritical (clocks 0) "Forensic Tamper Alarm in Block #00000"
                                      (tamper_details report) (Some (tp_block_id report))
                                      (tr_leaf_index <$> head (tampered_records report))])
                    end
               else Some [] in
  alarms <-! audit;
  Some (alarms ++
    [ mkAlert (ids 1) "new_template_drift" SevMedium (clocks 1 - 45000) "Parser Drift: Unseen Template Pattern Detected"
        "DrainMiner identified novel log template: 'RT_FLOW: session <action> <src_ip>/<src_port>-><dst_ip>/<dst_port>'" (Some 1%Z) (Some 12%Z);
      mkAlert (ids 2) "rare_cluster_surge" SevLow (clocks 2 - 120000) "Traffic Volume Spike in Rare Cluster #4"
        "Cluster occurrence exceeded surge multiplier threshold (3.0x above rolling baseline)." (Some 1%Z) (Some 88%Z) ]).

Definition app_state_new (yaml_clock : nat -> Z) (ids : nat -> string) (clocks : nat -> Z) (d : Disk) (args : ServeArgs)
  : option AppState :=
  let scratch_dir := path_join (default "data" (parent_dir (sv_parquet_dir args))) "scratch" in
  let registry := scan_parsers yaml_clock d (sv_parsers_dir args) in
  initial_alerts <-! compute_initial_alerts ids clocks d (sv_parquet_dir args) (sv_ledger args);
  Some (mkAppState (sv_parquet_dir args) (sv_ledger args) (sv_parsers_dir args) (sv_eval_report args) scratch_dir registry
          initial_alerts 142500).

Definition seed_initial_alerts (ids : nat -> string) (clocks : nat -> Z) (d : Disk) (s : AppState) : option AppState :=
  alerts <-! compute_initial_alerts ids clocks d (as_parquet_dir s) (as_ledger_path s);
  Some (set_alerts s alerts).

(** ** Metrics *)

Definition bump (k : string) (m : gmap string Z) : gmap string Z := <[k := (default 0 (m !! k) + 1)%Z]> m.

Record Sampled := mkSampled { sm_vendors : gmap string Z; sm_disps : gmap string Z; sm_count : nat }.

Definition sample_limit : nat := Z.to_nat 5000.

(** [val.get("disposition").and_then(as_str)] of a record's event *)
Definition record_disposition (r : StoredLogRecord) : option string :=
  val <-! result_ok (json_from_str (sr_ocsf_json r)); json_get val "disposition" ≫= as_str.

Definition count_record (s : Sampled) (r : StoredLogRecord) : Sampled :=
  mkSampled (bump (sr_vendor r) (sm_vendors s))
    (match record_disposition r with Some disp => bump disp (sm_disps s) | None => sm_disps s end) (S (sm_count s)).

(** The loop over the records of a file, left when enough are sampled. *)
Fixpoint sample_records (rs : list StoredLogRecord) (s : Sampled) : Sampled :=
  match rs with
  | [] => s
  | r :: rs' => let s1 := count_record s r in
                if (sample_limit <=? sm_count s1)%nat then s1 else sample_records rs' s1
  end.

(** The loop over the entries of the archive directory. *)
Fixpoint sample_files (d : Disk) (dir : string) (names : list string) (s : Sampled) : option Sampled :=
  match names with
  | [] => Some s
  | name :: names' =>
      let after :=
        if bool_decide (extension name = Some "parquet")
        then match read_parquet_file (blocks d) (path_join dir name) with
             | None => None
             | Some (Ok records) => Some (sample_records records s)
             | Some (Err _) => Some s
             end
        else Some s in
      s1 <-! after;
      if (sample_limit <=? sm_count s1)%nat then Some s1 else sample_files d dir names' s1
  end.

Definition sum_counts (m : gmap string Z) : Z := map_fold (fun _ c acc => (c + acc)%Z) 0%Z m.

(** The percentages, to one decimal. *)
Definition vendor_mix (counts : gmap string Z) : gmap string f64 :=
  if decide (counts = ∅)
  then list_to_map [("cisco_asa", tenth 325); ("fortigate", tenth 280); ("paloalto", tenth 215); ("pfsense", tenth 120); ("suricata", tenth 60)]
  else let total := f64_of_Z (Z.max (sum_counts counts) 1) in
       (fun c => f64_div (f64_round (f64_mul (f64_mul (f64_div (f64_of_Z c) total) (f64_of_Z 100)) (f64_of_Z 10))) (f64_of_Z 10)) <$> counts.

Definition compute_metrics (d : Disk) (s : AppState) : option MetricsResponse :=
  let ledger := if path_exists d (as_ledger_path s) then result_ok (load_ledger_entries d (as_ledger_path s)) else None in
  let total_blocks := match ledger with Some es => Z.of_nat (length es) | None => 0%Z end in
  let total_ingested := match ledger with
                        | Some es => foldl (fun n e => u64 (n + Z.of_nat (le_leaf_count e))) 0%Z es
                        | None => 0%Z
                        end in
  let empty := mkSampled ∅ (list_to_map [("Allowed", 0%Z); ("Blocked", 0%Z); ("Dropped", 0%Z)]) 0 in
  sampled <-! match read_dir (as_parquet_dir s) with
              | Ok names => sample_files d (as_parquet_dir s) names empty
              | Err _ => Some empty
              end;
  let sampled_records := Z.of_nat (sm_count sampled) in
  let total_parsed := if (0 <? total_ingested)%Z then total_ingested else sampled_records in
  Some (mkMetrics (f64_of_Z (as_mock_eps s)) (f64_lit 128 100) (f64_lit 412 100) 0 (Z.to_nat 50000) 0 (f64_lit 962 1000)
          (Z.max total_ingested sampled_records) total_parsed total_blocks (vendor_mix (sm_vendors sampled))
          (sm_disps sampled) "HEALTHY").

End State.
