(* ===== verification/Serve.v ===== *)
(** * Routes of the HTTP server ([crates/ulpf-cli/src/serve/handlers.rs])

    Each route as a function of the request, the disk and the shared state.  A
    route that writes returns the disk and the state it leaves; [None] is a
    panic.  Tar and gzip framing is left out: the bundle is the list of its
    files. *)

From S2P Require Export ServeState.

(** ** Data *)

Record ErrorResponse := mkHttpError {
  er_error : string;
  er_code : Z;
  er_message : string;
  er_block_id : option Z;
  er_leaf_index : option nat
}.

Record BlockItem := mkBlockItem {
  bi_block_id : Z;
  bi_timestamp : Z;
  bi_leaf_count : nat;
  bi_merkle_root : string;
  bi_parquet_file : string;
  bi_status : string;
  bi_size_bytes : Z;
  bi_file_exists : bool
}.

Record RecordsQuery := mkRecordsQuery {
  rq_offset : option nat;
  rq_limit : option nat;
  rq_vendor : option string;
  rq_disposition : option string;
  rq_ip : option string;
  rq_query : option string
}.

Record StoredRecordItem := mkRecordItem {
  ri_event_id : string;
  ri_block_id : Z;
  ri_leaf_index : Z;
  ri_timestamp : Z;
  ri_vendor : string;
  ri_raw_log : string;
  ri_raw_hash : string;
  ri_ocsf : JValue
}.

Record BlockRecordsResponse := mkRecordsResponse {
  br_block_id : Z;
  br_total_records_in_block : nat;
  br_filtered_records_count : nat;
  br_offset : nat;
  br_limit : nat;
  br_records : list StoredRecordItem
}.

Record AuditStep := mkAuditStep { st_hash : string; st_side : string }.

Record InclusionProofResponse := mkProofResponse {
  ip_block_id : Z;
  ip_leaf_index : nat;
  ip_tree_size : nat;
  ip_leaf_hash : string;
  ip_calculated_merkle_root : string;
  ip_ledger_merkle_root : option string;
  ip_verified : bool;
  ip_audit_path : list AuditStep;
  ip_standard : string
}.

Record ParserItem := mkParserItem {
  pi_vendor : string;
  pi_device_model : string;
  pi_parser_type : string;
  pi_status : string;
  pi_regex_pattern : option string;
  pi_confidence_score : option f64;
  pi_created_at : option Z
}.

Record ParserTestRequest := mkTestRequest {
  pt_raw_log : string;
  pt_vendor : option string;
  pt_regex_pattern : option string;
  pt_action_mappings : option (gmap string string)
}.

Record ParserTestResponse := mkTestResponse {
  ps_matched : bool;
  ps_vendor : string;
  ps_parsed_ocsf : option NetworkActivity;
  ps_raw_hash : string;
  ps_protocol_detected : option string;
  ps_notes : string
}.

Record OnboardRequest := mkOnboardRequest {
  or_vendor : string;
  or_device_model : string;
  or_sample_lines : list string;
  or_confirm : bool
}.

Definition default_device_model : string := "generic".

Record OnboardResponse := mkOnboardResponse {
  op_status : string;
  op_persisted : bool;
  op_parser_definition : ParserDefinition;
  op_validation_report : ValidationReport;
  op_json_path : option string;
  op_yaml_path : option string
}.

Record TamperDrillRequest := mkDrillRequest {
  dq_block_id : Z;
  dq_leaf_index : nat;
  dq_spoofed_ip : string;
  dq_confirm : bool
}.

Definition default_spoofed_ip : string := "10.99.99.99".

Record TamperDrillResponse := mkDrillResponse {
  dr_status : string;
  dr_executed : bool;
  dr_source_evidence_path : string;
  dr_scratch_drill_path : string;
  dr_original_evidence_unmodified : bool;
  dr_tamper_report : option TamperReport
}.

Record SystemResponse := mkSystemResponse {
  sy_uptime_secs : Z;
  sy_storage_dir : string;
  sy_ledger_path : string;
  sy_dynamic_parsers_loaded : nat;
  sy_total_archived_blocks : nat;
  sy_benchmark_summary : option JValue
}.

(** The result of a route that only reads. *)
Definition Reply (A : Type) : Type := option (Result ErrorResponse A).

Definition fail_with {A} (error : string) (code : Z) (message : string) (block : option Z) (leaf : option nat) : Reply A :=
  Some (Err (mkHttpError error code message block leaf)).

(** Bytes of a block file on disk, and its length. *)
Class FileBytes `{ParquetLib} := { file_bytes : parquet_file -> string }.

(** [from_str::<Value>(line)] and [get("block_id").as_u64()] on a line that
    [serde_json] wrote for a ledger entry. *)
Class LedgerValue `{LedgerJson} `{JsonLib} := {
  ledger_value_id : forall e, entry_repr e -> exists v, json_from_str (ledger_to_string e) = Ok v /\
    json_get v "block_id" ≫= as_u64 = Some (le_block_id e)
}.

Section Routes.
Context `{Sha256} `{HexLib} `{ArrowLib} `{PQ : ParquetLib} `{LedgerJson} `{JsonLib} `{RegexEngine} `{UnicodeText} `{DefinitionJson}
  `{RegexExpand} `{!FileBytes}.
Variable read_dir : string -> Result string (list string).

Definition evidence_path (s : AppState) (block_id : Z) : string := path_join (as_parquet_dir s) (block_filename block_id).

(** ** [GET /metrics], [GET /alerts], [GET /blocks] *)

Definition get_metrics (d : Disk) (s : AppState) : option MetricsResponse := compute_metrics read_dir d s.

Definition get_alerts (s : AppState) : list AlertItem := as_alerts s.

Definition file_size (d : Disk) (path : string) : Z :=
  match blocks d !! path, texts d !! path with
  | Some f, _ => Z.of_nat (String.length (file_bytes f))
  | None, Some t => Z.of_nat (String.length t)
  | None, None => 0%Z
  end.

(** The audit status of a block. *)
Definition block_status (d : Disk) (s : AppState) (path : string) : option string :=
  if negb (path_exists d path) then Some "FILE_MISSING"
  else match verify_block_with_ledger d path (as_ledger_path s) with
       | None => None
       | Some (Ok report) => Some (if is_valid report then "PASS" else "FAIL")
       | Some (Err _) => Some "UNAUDITED"
       end.

Definition block_item (d : Disk) (s : AppState) (e : LedgerEntry) : option BlockItem :=
  let p := evidence_path s (le_block_id e) in
  status <-! block_status d s p;
  Some (mkBlockItem (le_block_id e) (le_timestamp e) (le_leaf_count e) (le_merkle_root e) (block_filename (le_block_id e))
          status (file_size d p) (path_exists d p)).

Definition get_blocks (d : Disk) (s : AppState) : option (list BlockItem) :=
  if path_exists d (as_ledger_path s)
  then match load_ledger_entries d (as_ledger_path s) with
       | Ok entries => mapM (block_item d s) entries
       | Err _ => Some []
       end
  else Some [].

(** ** [GET /blocks/:id/records] *)

Definition opt_holds {A} (o : option A) (p : A -> bool) : bool := match o with Some x => p x | None => true end.

Definition record_matches (q : RecordsQuery) (r : StoredLogRecord) : bool :=
  opt_holds (rq_vendor q) (eq_ignore_ascii_case (sr_vendor r))
  && opt_holds (rq_query q) (fun text =>
       let q_lower := to_lowercase text in
       contains q_lower (to_lowercase (sr_raw_log r)) || contains q_lower (to_lowercase (sr_event_id r))
       || contains q_lower (to_lowercase (sr_raw_hash r)))
  && opt_holds (rq_ip q) (fun ip => contains ip (sr_raw_log r))
  && opt_holds (rq_disposition q) (fun disp =>
       match record_disposition r with Some x => eq_ignore_ascii_case x disp | None => false end).

Definition record_item (r : StoredLogRecord) : StoredRecordItem :=
  mkRecordItem (sr_event_id r) (sr_block_id r) (sr_leaf_index r) (sr_timestamp r) (sr_vendor r) (sr_raw_log r) (sr_raw_hash r)
    (match json_from_str (sr_ocsf_json r) with Ok v => v | Err _ => JObject [("raw", JString (sr_raw_log r))] end).

(** [clamp(1, 500)] *)
Definition page_limit (q : RecordsQuery) : nat := Nat.min (Nat.max (default 50 (rq_limit q)) 1) 500.

Definition page_of (q : RecordsQuery) (records : list StoredLogRecord) : list StoredRecordItem :=
  record_item <$> take (page_limit q) (drop (default 0 (rq_offset q)) (List.filter (record_matches q) records)).

Definition get_block_records (d : Disk) (s : AppState) (block_id : Z) (q : RecordsQuery) : Reply BlockRecordsResponse :=
  let path := evidence_path s block_id in
  if negb (path_exists d path)
  then fail_with "Not Found" 404
         ("Parquet block #" +:+ uint_to_string block_id +:+ " does not exist at " +:+ path) (Some block_id) None
  else match read_parquet_file (blocks d) path with
  | None => None
  | Some (Err e) => fail_with "Read Error" 500 ("Failed reading Parquet block #" +:+ uint_to_string block_id +:+ ": " +:+ e) (Some block_id) None
  | Some (Ok records) =>
      Some (Ok (mkRecordsResponse block_id (length records) (length (List.filter (record_matches q) records))
                  (default 0 (rq_offset q)) (page_limit q) (page_of q records)))
  end.

(** ** [GET /prove/:block/:leaf] *)

Definition ledger_root (d : Disk) (s : AppState) (block_id : Z) : option string :=
  if path_exists d (as_ledger_path s)
  then match load_ledger_entries d (as_ledger_path s) with
       | Ok entries => le_merkle_root <$> List.find (fun e => le_block_id e =? block_id)%Z entries
       | Err _ => None
       end
  else None.

Definition side_text (s : Side) : string := match s with Left => "Left" | Right => "Right" end.

Definition get_prove_inclusion (d : Disk) (s : AppState) (block_id : Z) (leaf : nat) (live : option bool)
  : Reply InclusionProofResponse :=
  match live with
  | Some true =>
      let path := evidence_path s block_id in
      if negb (path_exists d path)
      then fail_with "Not Found" 404 ("Parquet file for block #" +:+ uint_to_string block_id +:+ " not found") (Some block_id) (Some leaf)
      else match read_parquet_file (blocks d) path with
      | None => None
      | Some (Err e) => fail_with "Read Error" 500 ("Failed reading block records: " +:+ e) (Some block_id) (Some leaf)
      | Some (Ok records) =>
          match records !! leaf with
          | None =>
              fail_with "Index Out of Bounds" 400
                ("Leaf index " +:+ pretty leaf +:+ " is out of bounds (block #" +:+ uint_to_string block_id +:+ " has "
                 +:+ pretty (length records) +:+ " records)") (Some block_id) (Some leaf)
          | Some r =>
              tree <-! from_raw_logs (sr_raw_log <$> records);
              match inclusion_proof tree leaf with
              | None => None
              | Some (Err _) => fail_with "Proof Generation Error" 500 "Failed generating inclusion proof" (Some block_id) (Some leaf)
              | Some (Ok proof) =>
                  let target_hash := hash_leaf (sr_raw_log r) in
                  let verified := verify_inclusion_proof_by_hash target_hash (leaf_index proof) (tree_size proof) (audit_path proof) (root tree) in
                  Some (Ok (mkProofResponse block_id leaf (length records) (to_hex target_hash) (to_hex (root tree)) (ledger_root d s block_id)
                              verified ((fun p => mkAuditStep (to_hex p.1) (side_text p.2)) <$> audit_path proof)
                              "RFC 6962 Certificate Transparency Standard"))
              end
          end
      end
  | _ => fail_with "Not Implemented" 501
           "Merkle inclusion proof endpoint is stubbed pending completion of #5 ([integrity/M] Ledger fsync + prove/consistency CLI). Pass '?live=true' to execute live RFC 6962 audit path computation."
           (Some block_id) (Some leaf)
  end.

(** ** [GET /parsers], [GET /system] *)

Definition native_vendors : list (string * string) :=
  [("cisco_asa", "ASA 5500-X / Firepower"); ("fortigate", "FortiGate NGFW (v7.0+)"); ("paloalto", "PAN-OS (PA-Series)");
   ("pfsense", "pfSense filterlog (IPv4/IPv6)"); ("suricata", "Suricata EVE-JSON"); ("cef", "Common Event Format (CEF:0)")].

(** The item of a file of the parsers directory. *)
Definition dynamic_item (d : Disk) (dir name : string) : option ParserItem :=
  if bool_decide (extension name = Some "json") then
    content <-! read_to_string d (path_join dir name);
    def <-! result_ok (from_json content);
    Some (mkParserItem (pd_vendor def) (pd_device_model def) "dynamic_onboarded" "active" (Some (pd_regex_pattern def))
            (Some (pd_confidence_score def)) (Some (pd_created_at def)))
  else None.

Definition get_parsers (d : Disk) (s : AppState) : list ParserItem :=
  ((fun p => mkParserItem p.1 p.2 "native_extractor" "active" None (Some (f64_of_Z 1)) None) <$> native_vendors)
  ++ match read_dir (as_parsers_dir s) with
     | Ok names => omap (dynamic_item d (as_parsers_dir s)) names
     | Err _ => []
     end.

Definition get_system (uptime : Z) (d : Disk) (s : AppState) : SystemResponse :=
  let blocks_count := if path_exists d (as_ledger_path s)
                      then match load_ledger_entries d (as_ledger_path s) with Ok es => length es | Err _ => 0 end
                      else 0 in
  let dynamic_count := match read_dir (as_parsers_dir s) with
                       | Ok names => length (List.filter (fun n => bool_decide (extension n = Some "json")) names)
                       | Err _ => 0
                       end in
  let benchmark := content <-! read_to_string d (as_eval_report_path s); result_ok (json_from_str content) in
  mkSystemResponse uptime (as_parquet_dir s) (as_ledger_path s) dynamic_count blocks_count benchmark.

(** ** [POST /parsers/test] *)

Definition detect_protocol (raw : string) : option string :=
  let lower := to_lowercase raw in
  if contains "http3" lower || contains "quic" lower then Some "HTTP/3 (QUIC / UDP)"
  else if contains "http2" lower || contains "h2" lower then Some "HTTP/2 (TCP)"
  else if contains "http" lower then Some "HTTP/1.1 (TCP)" else None.

Context `{UnicodeLib} `{ChronoLib} `{RegexLib} `{AhoCorasick}.

(** [id], [now]: the draws of an event; [env]: those of the universal parser.  A
    handler that panics gives no answer, but what it did remains. *)
Definition post_parsers_test (id : string) (now : Z) (env : ParseEnv) (req : ParserTestRequest) (s : AppState)
  : Reply ParserTestResponse * AppState :=
  let raw := trim (pt_raw_log req) in
  if is_empty raw then (fail_with "Bad Request" 400 "Field 'raw_log' cannot be empty" None None, s)
  else
    let raw_hash := hex_encode (b32 (sha256 raw)) in
    let protocol := detect_protocol raw in
    match pt_regex_pattern req with
    | Some pattern =>
        if negb (re_compiles pattern)
        then (fail_with "Invalid Regex" 400 "Provided regex pattern failed to compile" None None, s)
        else
          let vendor := default "custom_test_device" (pt_vendor req) in
          let def := mkDef vendor "test_model" pattern (default ∅ (pt_action_mappings req)) [raw] (f64_of_Z 1) now in
          let parsed := if re_is_match pattern raw then result_ok (definition_parse def raw id now) else None in
          (Some (Ok (mkTestResponse (re_is_match pattern raw) vendor parsed raw_hash protocol
                       "Ad-hoc regex dry-run completed (read-only, no disk mutations)")), s)
    | None =>
        let vendor := default "universal" (pt_vendor req) in
        let '(r, reg) := registry_parse (as_registry s) vendor raw id now in
        (event <-! match r with Ok event => Some event | Err _ => parse_lossless env raw end;
         Some (Ok (mkTestResponse true vendor (Some event) raw_hash protocol
                     "Parsed through dynamic registry / universal baseline (read-only)")), set_app_registry s reg)
    end.

(** ** [POST /onboard] *)

Definition slug_byte (c : string) : string :=
  if char_is (fun a => is_ascii_alnum a || Ascii.eqb a "_" || Ascii.eqb a "-") c then c else "_".

Definition vendor_slug (vendor : string) : string :=
  let slug := str_concat (slug_byte <$> chars (to_lowercase vendor)) in
  if is_empty (trim_matches (String.eqb "_") slug) then "custom_vendor" else slug.

Definition post_onboard (created_at : Z) (order : gmap string string -> list (string * string)) (fx : TextFaults)
    (req : OnboardRequest) (d : Disk) (s : AppState) : Reply OnboardResponse * Disk * AppState :=
  let clean_samples := List.filter not_empty (trim <$> or_sample_lines req) in
  if (length clean_samples <? 3)%nat
  then (fail_with "Insufficient Samples" 400
          ("Air-gapped parser synthesis requires at least 3 distinct sample lines (received "
           +:+ pretty (length clean_samples) +:+ ")") None None, d, s)
  else match generate_parser (or_vendor req) (or_device_model req) clean_samples created_at with
  | None => (None, d, s)
  | Some (Err e) => (fail_with "Synthesis Failed" 422 ("Failed to synthesize parser specification: " +:+ e) None None, d, s)
  | Some (Ok (def, report)) =>
      if negb (or_confirm req) then (Some (Ok (mkOnboardResponse "preview" false def report None None)), d, s)
      else
        let json_path := path_join (as_parsers_dir s) (vendor_slug (or_vendor req) +:+ ".json") in
        let yaml_path := path_join (as_parsers_dir s) (vendor_slug (or_vendor req) +:+ ".yaml") in
        match to_json def with
        | Err e => (fail_with "Serialization Error" 500 ("Failed serializing parser to JSON: " +:+ e) None None, d, s)
        | Ok json =>
            match write_text fx json_path json (texts d) with
            | (Err e, fs) => (fail_with "Disk Write Error" 500 ("Failed writing parser JSON to disk: " +:+ e) None None,
                              mkDisk _ (blocks d) fs, s)
            | (Ok _, fs) =>
                let fs2 := (write_text fx yaml_path (to_yaml order def) fs).2 in
                (Some (Ok (mkOnboardResponse "hot_loaded" true def report (Some json_path) (Some yaml_path))),
                 mkDisk _ (blocks d) fs2, set_app_registry s (register (as_registry s) def).2)
            end
        end
  end.

(** ** [POST /tamper/drill] *)

Definition drill_path (s : AppState) (block_id : Z) : string :=
  path_join (as_scratch_dir s) ("tamper_drill_block_" +:+ zero_pad 5 (uint_to_string block_id) +:+ ".parquet").

Definition drill_log (ip original : string) : string :=
  if re_is_match IP_REGEX original then re_replace IP_REGEX original ip
  else original +:+ " [TAMPER_DRILL_IP:" +:+ ip +:+ "]".

(** [std::fs::copy], if it succeeds *)
Definition copy_file (src dst : string) (d : Disk) : Disk :=
  match blocks d !! src, texts d !! src with
  | Some f, _ => mkDisk _ (<[dst := f]> (blocks d)) (texts d)
  | None, Some t => mkDisk _ (blocks d) (<[dst := t]> (texts d))
  | None, None => d
  end.

(** The faults of a drill: of the copy, with what it leaves, and of the write. *)
Record DrillFaults := mkDrillFaults { df_copy : option (option parquet_file); df_write : WriteFaults parquet_file }.

Definition drill_alert (id : string) (now : Z) (req : TamperDrillRequest) : AlertItem :=
  mkAlert id "tamper_alarm" SevCritical now ("Tamper Drill Alarm: Block #" +:+ uint_to_string (dq_block_id req))
    ("Adversarial drill detected spoofed IP " +:+ dq_spoofed_ip req +:+ " at leaf " +:+ pretty (dq_leaf_index req)
     +:+ ". Merkle root mismatch on isolated clone.")
    (Some (dq_block_id req)) (Some (wrapu 32 (Z.of_nat (dq_leaf_index req)))).

Definition drill_error {A} (error : string) (code : Z) (message : string) (req : TamperDrillRequest) : Reply A :=
  fail_with error code message (Some (dq_block_id req)) (Some (dq_leaf_index req)).

(** The audit of the altered clone, and the alert. *)
Definition drill_audit (id : string) (now : Z) (req : TamperDrillRequest) (d : Disk) (s : AppState)
  : Reply TamperDrillResponse * Disk * AppState :=
  let copy := drill_path s (dq_block_id req) in
  match verify_block_with_ledger d copy (as_ledger_path s) with
  | None => (None, d, s)
  | Some (Err e) => (drill_error "Audit Failure" 500 ("Verification engine encountered unexpected error: " +:+ e) req, d, s)
  | Some (Ok report) =>
      (Some (Ok (mkDrillResponse "tamper_detected" true (evidence_path s (dq_block_id req)) copy true (Some report))),
       d, set_alerts s (drill_alert id now req :: as_alerts s))
  end.

Definition post_tamper_drill (id : string) (now : Z) (fx : DrillFaults) (req : TamperDrillRequest) (d : Disk) (s : AppState)
  : Reply TamperDrillResponse * Disk * AppState :=
  let original := evidence_path s (dq_block_id req) in
  let copy := drill_path s (dq_block_id req) in
  if negb (path_exists d original)
  then (drill_error "Not Found" 404 ("Target block #" +:+ uint_to_string (dq_block_id req) +:+ " does not exist at " +:+ original) req, d, s)
  else if negb (dq_confirm req)
  then (Some (Ok (mkDrillResponse "preview" false original copy true None)), d, s)
  else match df_copy fx with
  | Some partial =>
      (drill_error "Copy Failed" 500 "Failed cloning evidence block to scratch directory" req,
       match partial with Some f => mkDisk _ (<[copy := f]> (blocks d)) (texts d) | None => d end, s)
  | None =>
      let d1 := copy_file original copy d in
      match read_parquet_file (blocks d1) copy with
      | None => (None, d1, s)
      | Some (Err e) => (drill_error "Read Error" 500 ("Failed reading scratch block clone: " +:+ e) req, d1, s)
      | Some (Ok records) =>
          match records !! dq_leaf_index req with
          | None => (drill_error "Index Out of Bounds" 400
                            ("Leaf index " +:+ pretty (dq_leaf_index req) +:+ " exceeds clone record count " +:+ pretty (length records)) req, d1, s)
          | Some r =>
              let altered := <[dq_leaf_index req := set_raw_log (drill_log (dq_spoofed_ip req) (sr_raw_log r)) r]> records in
              match write_records_to_parquet (df_write fx) (blocks d1) copy altered Snappy with
              | (Err e, fs) => (drill_error "Write Error" 500 ("Failed rewriting tampered scratch block: " +:+ e) req, mkDisk _ fs (texts d1), s)
              | (Ok _, fs) => drill_audit id now req (mkDisk _ fs (texts d1)) s
              end
          end
      end
  end.

(** ** [GET /export/bundle/:id] *)

(** The first line whose entry has the id, or nothing. *)
Fixpoint bundle_ledger_line (block_id : Z) (ls : list string) : string :=
  match ls with
  | [] => ""
  | l :: ls' =>
      if utf8_valid l
      then match json_from_str l with
           | Ok v => if bool_decide (json_get v "block_id" ≫= as_u64 = Some block_id) then l else bundle_ledger_line block_id ls'
           | Err _ => bundle_ledger_line block_id ls'
           end
      else ""
  end.

Record Bundle := mkBundle {
  bd_name : string;
  bd_block_name : string;
  bd_block : string;
  bd_ledger_entry : string;
  bd_sums : string;
  bd_readme : string
}.

Definition bundle_rule : string := "================================================================================".

Definition bundle_readme (block_id : Z) (now block_filename : string) : string :=
  str_concat ((fun l => l +:+ nl_str) <$>
    [ bundle_rule; "ULPF COURTROOM EVIDENCE BUNDLE";
      "Block ID: #" +:+ zero_pad 5 (uint_to_string block_id); "Timestamp: " +:+ now;
      "Standard: RFC 6962 Certificate Transparency Standard / OCSF 1.3"; bundle_rule; "";
      "CONTENTS:";
      "1. " +:+ block_filename +:+ " (Columnar Parquet log archive with lossless raw logs, SHA-256 digests, and OCSF 1.3 records)";
      "2. ledger_entry.json (Immutable append-only Merkle ledger entry)";
      "3. SHA256SUMS (Cryptographic manifest of all bundle artifacts)"; "";
      "VERIFICATION INSTRUCTIONS (Air-Gapped):";
      "To cryptographically audit this evidence block using the official ULPF verifier binary:"; "";
      "ulpf verify --file " +:+ block_filename +:+ " --ledger ledger_entry.json"; "";
      "A green [PASS] indicates 100% cryptographic integrity: zero modified bytes, zero injected records,";
      "and exact Merkle root mathematical alignment." ]).

Definition get_export_bundle (now : string) (d : Disk) (s : AppState) (block_id : Z) : Reply Bundle :=
  let name := block_filename block_id in
  let path := evidence_path s block_id in
  match blocks d !! path, texts d !! path with
  | None, None => fail_with "Not Found" 404 ("Block Parquet file " +:+ name +:+ " does not exist") (Some block_id) None
  | file, text =>
      let bytes := match file with Some f => file_bytes f | None => default "" text end in
      let line := match texts d !! as_ledger_path s with
                  | Some t => bundle_ledger_line block_id (lines t)
                  | None => ""
                  end in
      let sums := hex_encode (b32 (sha256 bytes)) +:+ "  " +:+ name +:+ nl_str
                  +:+ hex_encode (b32 (sha256 line)) +:+ "  ledger_entry.json" +:+ nl_str in
      Some (Ok (mkBundle ("ulpf_evidence_block_" +:+ zero_pad 5 (uint_to_string block_id) +:+ ".tar.gz")
                  name bytes line sums (bundle_readme block_id now name)))
  end.

End Routes.
