(* ===== verification/ServeFacts.v ===== *)
(** * What the routes guarantee

    The pages of a block, the audit of an archive through the routes, the
    isolation of the tamper drill, and what the proof route does not show. *)

From S2P Require Export Serve CliFacts.

Section Routes.
Context `{Sha256} `{HexLib} `{ArrowLib} `{PQ : ParquetLib} `{LedgerJson} `{JsonLib} `{RegexEngine} `{UnicodeText} `{DefinitionJson}
  `{RegexExpand} `{!FileBytes}.

(** ** Pages *)

Definition at_offset (q : RecordsQuery) (k : nat) : RecordsQuery :=
  mkRecordsQuery (Some k) (rq_limit q) (rq_vendor q) (rq_disposition q) (rq_ip q) (rq_query q).

Lemma chunks {A} L n : forall (l : list A) k, 0 < L -> length l <= k + n * L ->
  concat ((fun i => take L (drop (k + i * L) l)) <$> seq 0 n) = drop k l.
Proof.
  induction n as [|n IH]; intros l k HL Hlen; simpl.
  - rewrite drop_ge; [done|lia].
  - rewrite Nat.add_0_r. rewrite <- (take_drop L (drop k l)) at 2. f_equal. rewrite drop_drop.
    rewrite <- fmap_S_seq, <- list_fmap_compose. rewrite <- (IH l (k + L)) by lia. f_equal. apply list_fmap_ext.
    intros i x _. simpl. f_equal. f_equal. lia.
Qed.

Lemma fmap_concat {A B} (f : A -> B) (ls : list (list A)) : f <$> concat ls = concat ((fun l : list A => f <$> l) <$> ls).
Proof. induction ls as [|l ls IH]; [done|]. rewrite fmap_cons. cbn [concat]. by rewrite fmap_app, IH. Qed.

Lemma pages_concat q records n : let L := page_limit q in
  length (List.filter (record_matches q) records) <= n * L ->
  concat ((fun i => page_of (at_offset q (i * L)) records) <$> seq 0 n) = record_item <$> List.filter (record_matches q) records.
Proof.
  intros L Hn. rewrite <- (drop_0 (List.filter (record_matches q) records)), <- (chunks L n _ 0); [|unfold L, page_limit; lia|simpl; lia].
  rewrite fmap_concat, <- list_fmap_compose. f_equal.
Qed.

(** C35: the pages of a block cover it: for every filter and limit, the limit in
    force is between 1 and 500 and no page is longer; the pages at the offsets
    0, L, 2L, ... put together are all the records of the block that match the
    filter, in order and each once; and the count reported is their number. *)
Theorem pages_cover_block d s block_id q records :
  read_parquet_file (blocks d) (evidence_path s block_id) = Some (Ok records) ->
  exists page, (forall k, get_block_records d s block_id (at_offset q k) = Some (Ok (page k))) /\
    let L := page_limit q in
    1 <= L <= 500 /\
    (forall k, br_limit (page k) = L /\ length (br_records (page k)) <= L /\ br_total_records_in_block (page k) = length records /\
       br_filtered_records_count (page k) = length (List.filter (record_matches q) records)) /\
    forall n, length (List.filter (record_matches q) records) <= n * L ->
      concat ((fun i => br_records (page (i * L))) <$> seq 0 n) = record_item <$> List.filter (record_matches q) records.
Proof.
  intros Hr. exists (fun k => mkRecordsResponse block_id (length records) (length (List.filter (record_matches q) records)) k (page_limit q)
    (page_of (at_offset q k) records)). split.
  { intros k. unfold get_block_records. rewrite (read_exists _ _ _ Hr), Hr. done. }
  cbv zeta. assert (1 <= page_limit q <= 500) as HL by (unfold page_limit; lia). split; [done|]. split.
  - intros k. cbn. split_and!; [done| |done..]. unfold page_of. rewrite length_fmap, length_take. change (page_limit (at_offset q k)) with (page_limit q). lia.
  - intros n Hn. cbn [br_records]. by apply pages_concat.
Qed.

(** ** The archive through the routes *)

Lemma mapM_all {A B} (f : A -> option B) (P : A -> B -> Prop) l : (forall a, a ∈ l -> exists b, f a = Some b /\ P a b) ->
  exists bs, mapM f l = Some bs /\ Forall2 P l bs.
Proof.
  induction l as [|a l IH]; intros Hl; [by exists []|]. destruct (Hl a) as (b & Eb & Pb); [by left|].
  destruct IH as (bs & Es & Ps); [intros; apply Hl; by right|]. exists (b :: bs). split; [|by constructor].
  cbn [mapM]. rewrite Eb. cbn. by rewrite Es.
Qed.

Lemma status_pass cfg hist b d s k x : represents cfg hist b d -> hist !! k = Some x ->
  as_parquet_dir s = storage_dir cfg -> as_ledger_path s = ledger_path cfg ->
  path_exists d (evidence_path s (Z.of_nat k)) = true /\ block_status d s (evidence_path s (Z.of_nat k)) = Some "PASS".
Proof.
  intros HR Hx Hd Hl. unfold block_status, evidence_path. rewrite Hd, Hl.
  change (path_join (storage_dir cfg) (block_filename (Z.of_nat k))) with (block_path cfg k).
  rewrite (read_exists _ _ _ (rep_blocks _ _ _ _ HR _ _ Hx)). cbn [negb].
  by destruct (represents_verifies _ _ _ _ _ _ HR Hx) as (rep & -> & -> & _).
Qed.

(** What the list of blocks says about an entry that passes. *)
Definition listed_ok (e : LedgerEntry) (i : BlockItem) : Prop :=
  bi_block_id i = le_block_id e /\ bi_leaf_count i = le_leaf_count e /\ bi_merkle_root i = le_merkle_root e /\
  bi_parquet_file i = le_parquet_file e /\ bi_status i = "PASS" /\ bi_file_exists i = true.

Lemma blocks_listed cfg hist b d s : represents cfg hist b d -> as_parquet_dir s = storage_dir cfg -> as_ledger_path s = ledger_path cfg ->
  exists items, get_blocks d s = Some items /\ Forall2 listed_ok (in_memory_ledger b) items.
Proof.
  intros HR Hd Hl. unfold get_blocks. rewrite (rep_ledger _ _ _ _ HR), Hl. destruct hist as [|y hist].
  - exists []. split; [|constructor]. destruct (path_exists d (ledger_path cfg)); [|done]. unfold load_ledger_entries.
    destruct (texts d !! ledger_path cfg) as [t|] eqn:Et; [|done]. pose proof (rep_text _ _ _ _ HR) as Rt.
    rewrite Et, (rep_ledger _ _ _ _ HR) in Rt. simpl in Rt. by rewrite Rt.
  - destruct (represents_ledger _ _ _ _ 0 y HR eq_refl) as [[t Et] He].
    assert (path_exists d (ledger_path cfg) = true) as -> by (unfold path_exists; rewrite Et; by destruct (blocks d !! _)). rewrite He.
    apply mapM_all. intros e (k & x & -> & Hx)%elem_of_lookup_imap_1.
    destruct (status_pass _ _ _ _ s k x HR Hx Hd Hl) as [Hp Hs]. unfold block_item. cbn [le_block_id block_entry].
    rewrite Hs. eexists; split; [reflexivity|]. by rewrite Hp.
Qed.

(** ** [GET /prove] *)

(** C40: the proof route is about the file, not about the ledger: for every
    readable block and every leaf of it, live mode answers with a proof for the
    tree of the records that are in the file now, marked as verified, even if
    they are not the ones that were anchored; the anchored root is reported
    beside it and never compared. *)
Theorem prove_ignores_ledger d s block_id leaf records r :
  read_parquet_file (blocks d) (evidence_path s block_id) = Some (Ok records) -> records !! leaf = Some r ->
  exists resp, get_prove_inclusion d s block_id leaf (Some true) = Some (Ok resp) /\
    ip_verified resp = true /\ ip_leaf_hash resp = to_hex (hash_leaf (sr_raw_log r)) /\
    ip_calculated_merkle_root resp = to_hex (records_root records) /\ ip_tree_size resp = length records /\
    ip_ledger_merkle_root resp = ledger_root d s block_id.
Proof.
  intros Hr Hl. unfold get_prove_inclusion. rewrite (read_exists _ _ _ Hr), Hr, Hl. cbn [negb].
  destruct (inclusion_complete (sr_raw_log <$> records)) as (t & Et & Ht). rewrite Et. specialize (Ht leaf).
  rewrite list_lookup_fmap, Hl in Ht. destruct Ht as (p & -> & Hi & Hs & Hv & _).
  unfold proof_verify, verify_inclusion_proof in Hv. eexists; split; [reflexivity|]. cbn. split_and!; [done..| |done|done].
  unfold records_root, logs_root. by rewrite Et.
Qed.

(** ** Paths *)

Definition no_slash (s : string) : bool := all_bytes (fun a => negb (Ascii.eqb a "/")) s.

Lemma split_char_app c x f : exists h l, split_char c (x +:+ String c f) = h :: l ++ split_char c f.
Proof.
  induction x as [|a x (h & l & IH)]; cbn [String.append split_char].
  - rewrite Ascii.eqb_refl. by exists "", [].
  - rewrite IH. destruct (Ascii.eqb a c); [by exists "", (h :: l)|by exists (String a h), l].
Qed.

Lemma last_component x f : no_slash f = true -> last (split_char "/" (x +:+ String "/" f)) = Some f.
Proof.
  intros Hf. destruct (split_char_app "/" x f) as (h & l & ->). rewrite (split_char_none _ f Hf), app_comm_cons. apply last_snoc.
Qed.

Lemma join_component dir f : no_slash f = true -> last (split_char "/" (path_join dir f)) = Some f.
Proof.
  intros Hf. unfold path_join. destruct (is_empty dir); [by rewrite split_char_none|].
  destruct (strip_suffix_char "/" dir) as [x|] eqn:E; [|by apply last_component].
  assert (dir = x +:+ String "/" "") as ->.
  { revert x E. induction dir as [|a dir IH]; intros x; [done|]. cbn [strip_suffix_char]. destruct dir as [|b dir].
    - destruct (Ascii.eqb_spec a "/"); [|done]. intros [= <-]. by subst.
    - destruct (strip_suffix_char "/" (String b dir)) as [y|]; [|done]. intros [= <-]. cbn [String.append]. f_equal. by apply IH. }
  rewrite str_app_assoc. by apply last_component.
Qed.

Lemma digits_no_slash s : all_bytes is_ascii_digit s = true -> no_slash s = true.
Proof. apply all_bytes_impl. intros a. unfold is_ascii_digit. destruct (Ascii.eqb_spec a "/") as [->|]; done. Qed.

Lemma drill_not_evidence s i j : drill_path s i <> evidence_path s j.
Proof.
  assert (forall n, no_slash (zero_pad 5 (uint_to_string n) +:+ ".parquet") = true) as Hn.
  { intros n. unfold no_slash. rewrite all_bytes_app. rewrite (digits_no_slash _ (zero_pad_digits 5 n) : all_bytes _ _ = true). done. }
  intros E. apply (f_equal (fun p => last (split_char "/" p))) in E. unfold drill_path, evidence_path, block_filename in E.
  rewrite !join_component in E by exact (Hn _). done.
Qed.

(** ** [POST /tamper/drill] *)

Definition same_but (p : string) (d d' : Disk) : Prop :=
  forall q, q <> p -> blocks d' !! q = blocks d !! q /\ texts d' !! q = texts d !! q.

Lemma write_same_but fx fs path rs c q : q <> path -> (write_records_to_parquet fx fs path rs c).2 !! q = fs !! q.
Proof.
  intros Hq. unfold write_records_to_parquet, write_parquet_file, BlockStore in *. repeat case_match; simpl; try done; by rewrite lookup_insert_ne.
Qed.

Lemma copy_same_but src dst d : same_but dst d (copy_file src dst d).
Proof. intros q Hq. unfold copy_file, BlockStore in *. repeat case_match; simpl; try done; by rewrite lookup_insert_ne. Qed.

(** The state after a drill: one more alert at most. *)
Definition drilled (id : string) (now : Z) (req : TamperDrillRequest) (s s' : AppState) : Prop :=
  s' = s \/ s' = set_alerts s (drill_alert id now req :: as_alerts s).

Lemma drill_audit_state id now req d s r d' s' : drill_audit id now req d s = (r, d', s') -> d' = d /\ drilled id now req s s'.
Proof. unfold drill_audit, drilled. intros E. repeat case_match; simplify_eq/=; tauto. Qed.

(** The drill never touches evidence: whatever the request and whatever I/O
    fails, and also when the handler panics, no block file and no other file
    than the drill's own copy changes, and at most one alert is added; and
    without confirmation nothing changes at all. *)
Lemma drill_spares_evidence id now fx req d s r d' s' : post_tamper_drill id now fx req d s = (r, d', s') ->
  (forall j, blocks d' !! evidence_path s j = blocks d !! evidence_path s j) /\
  same_but (drill_path s (dq_block_id req)) d d' /\ drilled id now req s s' /\ (dq_confirm req = false -> d' = d /\ s' = s).
Proof.
  intros E. assert (same_but (drill_path s (dq_block_id req)) d d' /\ drilled id now req s s' /\
    (dq_confirm req = false -> d' = d /\ s' = s)) as (Hs & Ha & Hc).
  2:{ split_and!; [|done..]. intros j. apply Hs. intros Ej. by apply (drill_not_evidence s (dq_block_id req) j). }
  unfold post_tamper_drill in E. destruct (negb (path_exists _ _)); [simplify_eq; split_and!; by try left|].
  destruct (negb (dq_confirm req)) eqn:Ec; [simplify_eq; split_and!; by try left|].
  assert (forall P : Prop, dq_confirm req = false -> P) as Hno by (intros P E1; by rewrite E1 in Ec).
  set (copy := drill_path s (dq_block_id req)) in *.
  pose proof (copy_same_but (evidence_path s (dq_block_id req)) copy d) as Hcp.
  destruct (df_copy fx) as [[f|]|].
  - simplify_eq. split_and!; [|by left|by apply Hno]. intros q Hq. simpl. unfold BlockStore in *. by rewrite lookup_insert_ne.
  - simplify_eq. split_and!; [done|by left|by apply Hno].
  - destruct (read_parquet_file _ _) as [[records|e]|]; [|simplify_eq; split_and!; [done|by left|by apply Hno]..].
    destruct (records !! dq_leaf_index req) as [rc|]; [|simplify_eq; split_and!; [done|by left|by apply Hno]].
    pose proof (fun rs q => write_same_but (df_write fx) (blocks (copy_file (evidence_path s (dq_block_id req)) copy d)) copy rs Snappy q) as Hw.
    specialize (Hw (<[dq_leaf_index req:=set_raw_log (drill_log (dq_spoofed_ip req) (sr_raw_log rc)) rc]> records)).
    destruct (write_records_to_parquet _ _ _ _ _) as [[|e] fs]; simpl in Hw.
    + destruct (drill_audit_state _ _ _ _ _ _ _ _ E) as [-> Ea]. split_and!; [|done|by apply Hno].
      intros q Hq. simpl. rewrite Hw by done. by apply Hcp.
    + simplify_eq. split_and!; [|by left|by apply Hno]. intros q Hq. simpl. rewrite Hw by done. by apply Hcp.
Qed.

Lemma read_copied d src dst rs : read_parquet_file (blocks d) src = Some (Ok rs) ->
  exists f, blocks d !! src = Some f /\ copy_file src dst d = mkDisk _ (<[dst := f]> (blocks d)) (texts d) /\
    read_parquet_file (blocks (copy_file src dst d)) dst = Some (Ok rs).
Proof.
  intros E. destruct (blocks d !! src) as [f|] eqn:Ef.
  - exists f. unfold copy_file. rewrite Ef. split_and!; [done..|]. cbn [blocks].
    unfold read_parquet_file, BlockStore in *. by rewrite lookup_insert_eq; rewrite Ef in E.
  - unfold read_parquet_file, BlockStore in *. by rewrite Ef in E.
Qed.

Lemma drill_verdict cfg hist b d s k x i r ip id now : represents cfg hist b d -> hist !! k = Some x ->
  as_parquet_dir s = storage_dir cfg -> as_ledger_path s = ledger_path cfg ->
  vendors x.2 <= 128 -> block_records k x !! i = Some r ->
  exists resp rep d' s', post_tamper_drill id now (mkDrillFaults None no_faults) (mkDrillRequest (Z.of_nat k) i ip true) d s = (Some (Ok resp), d', s') /\
    dr_status resp = "tamper_detected" /\ dr_tamper_report resp = Some rep /\
    as_alerts s' = drill_alert id now (mkDrillRequest (Z.of_nat k) i ip true) :: as_alerts s /\
    (drill_log ip (sr_raw_log r) = sr_raw_log r -> is_valid rep = true) /\
    (sha256 (drill_log ip (sr_raw_log r)) <> sha256 (sr_raw_log r) -> is_valid rep = false).
Proof.
  intros HR Hx Hd Hl Hv Hr. pose proof (rep_blocks _ _ _ _ HR _ _ Hx) as Hread.
  pose proof (rep_nonempty _ _ _ _ HR) as Re. rewrite Forall_lookup in Re. specialize (Re _ _ Hx).
  assert (block_path cfg k = evidence_path s (Z.of_nat k)) as Hp by (unfold evidence_path, block_path; by rewrite Hd). rewrite Hp in Hread.
  unfold post_tamper_drill. cbn [dq_block_id dq_leaf_index dq_spoofed_ip dq_confirm df_copy df_write].
  rewrite (read_exists _ _ _ Hread). cbn [negb]. set (copy := drill_path s (Z.of_nat k)).
  destruct (read_copied d (evidence_path s (Z.of_nat k)) copy _ Hread) as (f & _ & Ec & ->). rewrite Hr, Ec. cbn [blocks texts].
  set (log := drill_log ip (sr_raw_log r)).
  destruct (write_read_records (<[copy := f]> (blocks d)) copy (<[i := set_raw_log log r]> (block_records k x)) Snappy) as (fs & -> & Hw & _).
  { apply storable_alter; [by apply stored_storable|done]. }
  destruct (represents_head _ _ _ _ _ _ HR Hx) as (r0 & rs0 & Er & Hid).
  assert (exists r1 rs1, <[i := set_raw_log log r]> (block_records k x) = r1 :: rs1 /\ sr_block_id r1 = Z.of_nat k) as (r1 & rs1 & E1 & Hid1).
  { rewrite Er. rewrite Er in Hr. destruct i as [|i]; simpl; [|by eexists _, _]. simpl in Hr. injection Hr as <-. by eexists _, _. }
  unfold drill_audit. cbn [dq_block_id]. fold copy. rewrite Hl. rewrite E1 in Hw.
  rewrite (audit_block cfg hist b d (mkDisk _ fs (texts d)) copy k x r1 rs1 HR Hx eq_refl Hw Hid1).
  destruct (verify_records_total (r1 :: rs1) (block_entry k x)) as (rep & Ev & _). rewrite Ev. cbn [fmap option_fmap option_map].
  eexists _, rep, _, _. split; [reflexivity|]. split_and!; [done..| |].
  - intros El. destruct (block_verifies k x) as (rep' & Ev' & Hval). rewrite <- E1, El, set_raw_log_same, list_insert_id, Ev' in Ev by done. congruence.
  - intros Hs. destruct (altered_verdict k x i r log Hr Hs) as (rep' & Ev' & Hval). rewrite E1, Ev in Ev'. congruence.
Qed.

(** ** [POST /onboard] *)

Definition slug_ok (a : ascii) : bool := is_ascii_alnum a || Ascii.eqb a "_" || Ascii.eqb a "-".

Lemma slug_safe vendor : vendor_slug vendor <> "" /\ all_bytes slug_ok (vendor_slug vendor) = true.
Proof.
  unfold vendor_slug. set (slug := str_concat _). destruct (is_empty (trim_matches _ slug)) eqn:E; [done|]. split; [by intros Es; rewrite Es in E|].
  clear E. unfold slug. induction (chars (to_lowercase vendor)) as [|c cs IH]; [done|]. rewrite fmap_cons, str_concat_cons, all_bytes_app, IH, andb_true_r.
  unfold slug_byte. destruct (char_is _ c) eqn:Ec; [|done]. unfold char_is in Ec. destruct c as [|a [|]]; try done. cbn [all_bytes]. unfold slug_ok. by rewrite Ec.
Qed.

Lemma write_text_same fx path content fs q : q <> path -> (write_text fx path content fs).2 !! q = fs !! q.
Proof. intros Hq. unfold write_text. repeat case_match; simpl; try done; by rewrite lookup_insert_ne. Qed.

(** Onboarding over HTTP writes only what it says: whatever the request and
    whatever write fails, no block changes, and the only texts that can change
    are two files directly in the parsers directory, whose names are made of
    letters, digits, [_] and [-]; the registry changes only together with a
    [hot_loaded] answer; and without confirmation nothing changes. *)
Lemma onboard_route_confined created order fx req d s r d' s' : post_onboard created order fx req d s = (r, d', s') ->
  let slug := vendor_slug (or_vendor req) in
  blocks d' = blocks d /\
  (forall p, texts d' !! p <> texts d !! p -> p = path_join (as_parsers_dir s) (slug +:+ ".json") \/ p = path_join (as_parsers_dir s) (slug +:+ ".yaml")) /\
  slug <> "" /\ all_bytes slug_ok slug = true /\
  (or_confirm req = false -> d' = d /\ s' = s) /\
  (s' <> s -> exists resp, r = Some (Ok resp) /\ op_status resp = "hot_loaded" /\ s' = set_app_registry s (register (as_registry s) (op_parser_definition resp)).2).
Proof.
  intros E slug. destruct (slug_safe (or_vendor req)) as [Hne Hsl]. unfold post_onboard in E.
  set (jp := path_join (as_parsers_dir s) (vendor_slug (or_vendor req) +:+ ".json")) in *.
  set (yp := path_join (as_parsers_dir s) (vendor_slug (or_vendor req) +:+ ".yaml")) in *.
  destruct (_ <? 3)%nat; [simplify_eq; by split_and!|]. destruct (generate_parser _ _ _ _) as [[[def rep]|e]|]; [|simplify_eq; by split_and!..].
  destruct (negb (or_confirm req)) eqn:Ec; [simplify_eq; by split_and!|].
  assert (forall P : Prop, or_confirm req = false -> P) as Hno by (intros P E1; by rewrite E1 in Ec).
  destruct (to_json def) as [json|e]; [|simplify_eq; by split_and!].
  pose proof (fun q => write_text_same fx jp json (texts d) q) as Hj.
  destruct (write_text fx jp json (texts d)) as [[[]|e] fs]; simpl in Hj; simplify_eq; cbn [blocks texts]; split_and!; try done.
  - intros p Hp. destruct (decide (p = jp)); [by left|]. right. destruct (decide (p = yp)); [done|]. exfalso. apply Hp.
    by rewrite write_text_same, Hj.
  - by apply Hno.
  - intros _. by eexists.
  - intros p Hp. left. destruct (decide (p = jp)); [done|]. exfalso. by apply Hp, Hj.
  - by apply Hno.
Qed.

(** ** [GET /export/bundle] *)

Context `{!LedgerValue}.

(** The line of the block is found among those of the ledger. *)
Lemma bundle_line_found (hist : list Flushed) : forall n k x, Forall entry_repr (imap (fun i => block_entry (n + i)) hist) -> hist !! k = Some x ->
  bundle_ledger_line (Z.of_nat (n + k)) (ledger_to_string <$> imap (fun i => block_entry (n + i)) hist) = ledger_to_string (block_entry (n + k) x).
Proof.
  induction hist as [|y hist IH]; intros n k x HF Hk; [done|]. rewrite imap_cons in HF |- *. apply Forall_cons in HF as [Hy HF].
  rewrite fmap_cons. cbn [bundle_ledger_line]. rewrite (ledger_utf8 _ Hy). destruct (ledger_value_id _ Hy) as (v & -> & Hv). rewrite Hv.
  cbn [le_block_id block_entry]. destruct k as [|k]; simplify_eq/=.
  - by rewrite bool_decide_true.
  - rewrite bool_decide_false by (intros [= E]; lia).
    assert (forall i, n + S i = S n + i) as Hs by lia. specialize (IH (S n) k x). rewrite Hs.
    rewrite (imap_ext _ (fun i => block_entry (S n + i)) hist) in HF |- * by (intros i z _; simpl; f_equal; lia). by apply IH.
Qed.

Lemma ledger_lines es : Forall entry_repr es -> lines (ledger_text es) = ledger_to_string <$> es.
Proof.
  induction 1 as [|e es He HF IH]; [done|]. unfold ledger_text. rewrite fmap_cons, str_concat_cons, str_app_assoc. cbn [String.append].
  rewrite lines_cons by by apply ledger_one_line. destruct (entry_line e He) as (-> & _). fold (ledger_text es). by rewrite IH.
Qed.

(** One entry, without a newline at its end, is a ledger. *)
Lemma single_line_ledger e : entry_repr e -> load_lines 0 (lines (ledger_to_string e)) = Ok [e].
Proof.
  intros He. destruct (entry_line e He) as (_ & Ht & Hn). pose proof (ledger_one_line e He) as Hl.
  unfold lines. rewrite (split_char_none newline _ Hl). cbn [lines_of]. rewrite Hn. cbn [load_lines].
  by rewrite (ledger_utf8 _ He), Ht, Hn, ledger_from_to_string.
Qed.

Lemma bundle_verifies cfg hist b d s k x now : represents cfg hist b d -> hist !! k = Some x ->
  as_parquet_dir s = storage_dir cfg -> as_ledger_path s = ledger_path cfg ->
  exists bundle f rep, get_export_bundle now d s (Z.of_nat k) = Some (Ok bundle) /\
    blocks d !! evidence_path s (Z.of_nat k) = Some f /\ bd_block bundle = file_bytes f /\
    run_verify (mkVerifyArgs (bd_block_name bundle) "ledger_entry.json")
      (mkDisk _ {[ bd_block_name bundle := f ]} {[ "ledger_entry.json" := bd_ledger_entry bundle ]}) = Completed rep /\
    tp_block_id rep = Z.of_nat k.
Proof.
  intros HR Hx Hd Hl. pose proof (rep_blocks _ _ _ _ HR _ _ Hx) as Hread.
  assert (block_path cfg k = evidence_path s (Z.of_nat k)) as Hp by (unfold evidence_path, block_path; by rewrite Hd). rewrite Hp in Hread.
  destruct (read_copied d (evidence_path s (Z.of_nat k)) "" _ Hread) as (f & Ef & _ & _).
  destruct (represents_ledger _ _ _ _ _ _ HR Hx) as [[text Et] _]. pose proof (rep_text _ _ _ _ HR) as Rt. rewrite Et in Rt. simpl in Rt.
  pose proof (rep_repr _ _ _ _ HR) as Rr. rewrite (rep_ledger _ _ _ _ HR) in Rt, Rr.
  unfold get_export_bundle. rewrite Ef, Hl, Et, Rt, ledger_lines by done.
  pose proof (bundle_line_found hist 0 k x Rr Hx) as Hline. simpl in Hline.
  change (imap (fun i => block_entry i) hist) with (imap block_entry hist) in Hline. rewrite Hline.
  assert (entry_repr (block_entry k x)) as He.
  { rewrite Forall_lookup in Rr. apply (Rr k). by rewrite list_lookup_imap, Hx. }
  destruct (represents_head _ _ _ _ _ _ HR Hx) as (r & rs & Er & Hid). destruct (block_verifies k x) as (rep & Ev & Hval).
  eexists _, f, rep. split; [reflexivity|]. cbn [bd_block bd_block_name bd_ledger_entry]. split_and!; [done..| |].
  - set (name := block_filename (Z.of_nat k)). set (disk := mkDisk _ _ _).
    assert (read_parquet_file (blocks disk) name = Some (Ok (block_records k x))) as Hr'.
    { rewrite <- Hread. unfold disk, read_parquet_file, BlockStore in *. cbn [blocks]. by rewrite lookup_singleton_eq, Ef. }
    unfold run_verify. cbn [va_file va_ledger]. rewrite (read_exists _ _ _ Hr').
    assert (path_exists disk "ledger_entry.json" = true) as ->.
    { unfold path_exists, disk. cbn [texts]. rewrite lookup_singleton_eq. by destruct (_ !! _). }
    cbn [negb]. unfold verify_block_with_ledger. rewrite Hr'. cbn [xbind]. unfold load_ledger_entries, disk. cbn [texts].
    rewrite lookup_singleton_eq, single_line_ledger by done. cbn [xbind]. rewrite Er, Hid. cbn [List.find block_entry le_block_id].
    rewrite Z.eqb_refl, <- Er. change (mkEntry _ _ _ _ _) with (block_entry k x). by rewrite Ev, Hval.
  - clear -Ev. unfold verify_records in Ev. destruct (from_raw_logs _); [|done]. by injection Ev as <-.
Qed.

End Routes.

(** ** Ingest, then the server *)

Section Served.
Context `{Sha256} `{HexLib} `{UnicodeLib} `{ChronoLib} `{RegexLib} `{JsonLib} `{AhoCorasick} `{RegexEngine}
  `{ArrowLib} `{PQ : ParquetLib} `{LedgerJson} `{EventJson} `{RegexExpand} `{!FileBytes} `{!LedgerValue} `{UnicodeText}.

(** A server over the directories of an ingest run. *)
Definition serves (args : IngestArgs) (s : AppState) : Prop :=
  as_parquet_dir s = ia_parquet_dir args /\ as_ledger_path s = ia_ledger args.

(** C13: a server over the archive of a run from an empty disk, without disk faults
    and with at most 128 vendors among lines that can fill one block, at any moment of
    the run, lists exactly the entries of the ledger, in order, each with its
    count and root and with status PASS; and the evidence bundle of each of them
    stands alone: the block and the one ledger line in it are enough for
    [verify] to accept the block, as the bundle's instructions say. *)
Theorem archive_served args acts s0 s app now : ingest_start args empty_disk = Ok s0 -> Forall action_good acts ->
  ingest_run (ia_batch_size args) acts s0 = Some s -> bounded (ia_batch_size args) (ig_logs s) -> serves args app ->
  let d := en_disk (ig_engine s) in
  let ledger := in_memory_ledger (en_batcher (ig_engine s)) in
  (exists items, get_blocks d app = Some items /\ Forall2 listed_ok ledger items) /\
  forall e, e ∈ ledger -> exists bundle f rep, get_export_bundle now d app (le_block_id e) = Some (Ok bundle) /\
    blocks d !! evidence_path app (le_block_id e) = Some f /\ bd_block bundle = file_bytes f /\
    run_verify (mkVerifyArgs (bd_block_name bundle) "ledger_entry.json")
      (mkDisk _ {[ bd_block_name bundle := f ]} {[ "ledger_entry.json" := bd_ledger_entry bundle ]}) = Completed rep /\
    tp_block_id rep = le_block_id e.
Proof.
  intros E0 HF E Hb [Hd Hl] d ledger. destruct (ingest_represents args acts s0 s E0 HF E Hb) as (hist & HR & _ & _).
  split; [exact (blocks_listed _ hist _ d app HR Hd Hl)|]. unfold ledger. rewrite (rep_ledger _ _ _ _ HR).
  intros e (k & x & -> & Hx)%elem_of_lookup_imap_1. exact (bundle_verifies _ hist _ d app k x now HR Hx Hd Hl).
Qed.

(** The drill announces a detection whatever its audit says: on the archive
    of a run without disk faults, a confirmed drill on a leaf of a block always
    answers [tamper_detected] and raises the alarm, although its own report
    calls the clone valid when the spoofed log is the original one. *)
Theorem drill_always_claims_detection args acts s0 s app id now k e i ip : ingest_start args empty_disk = Ok s0 ->
  Forall action_good acts -> ingest_run (ia_batch_size args) acts s0 = Some s -> bounded (ia_batch_size args) (ig_logs s) -> serves args app ->
  in_memory_ledger (en_batcher (ig_engine s)) !! k = Some e -> i < le_leaf_count e ->
  exists r rs resp rep d' app', entry_records (ingest_batcher_config args) (en_disk (ig_engine s)) e = Some (Ok rs) /\ rs !! i = Some r /\
    post_tamper_drill id now (mkDrillFaults None no_faults) (mkDrillRequest (le_block_id e) i ip true) (en_disk (ig_engine s)) app = (Some (Ok resp), d', app') /\
    dr_status resp = "tamper_detected" /\ dr_tamper_report resp = Some rep /\
    as_alerts app' = drill_alert id now (mkDrillRequest (le_block_id e) i ip true) :: as_alerts app /\
    (drill_log ip (sr_raw_log r) = sr_raw_log r -> is_valid rep = true) /\
    (sha256 (drill_log ip (sr_raw_log r)) <> sha256 (sr_raw_log r) -> is_valid rep = false).
Proof.
  intros E0 HF E Hb [Hd Hl] He Hi. destruct (ingest_represents args acts s0 s E0 HF E Hb) as (hist & HR & Hv & _).
  rewrite (rep_ledger _ _ _ _ HR) in He. apply list_lookup_imap_Some in He as (x & Hx & ->).
  destruct (lookup_lt_is_Some_2 (block_records k x) i) as [r Hr]; [unfold block_records; by rewrite length_imap|].
  destruct (drill_verdict _ hist _ _ app k x i r ip id now HR Hx Hd Hl (Hv _ _ Hx) Hr) as (resp & rep & d' & app' & Hp & Hrest).
  exists r, (block_records k x), resp, rep, d', app'. split_and!; [exact (rep_blocks _ _ _ _ HR _ _ Hx)|exact Hr|exact Hp|apply Hrest..].
Qed.

End Served.

(** ** Witnesses *)

Module ServeDemo.
Import Demo TokenDemo ParserDemo RegexDemo ArrowDemo BatcherDemo IngestDemo CliDemo ExportDemo.

#[export] Instance demo_lower : UnicodeText := {| to_lowercase := to_ascii_lowercase; debug_strings := str_join ", " |}.

#[export] Instance demo_bytes : FileBytes := {| file_bytes f := "PAR1" +:+ pretty (batch_num_rows f.2) |}.

(** JSON texts are those of ledger entries. *)
#[export] Instance demo_entry_json : JsonLib := {|
  json_from_str s := match ledger_from_str s with
                     | Some e => Ok (JObject [("block_id", JInt (le_block_id e))])
                     | None => Err "no entry"
                     end;
  json_to_string _ := "{}"
|}.

#[export] Instance demo_ledger_value : LedgerValue.
Proof.
  split. intros e He. exists (JObject [("block_id", JInt (le_block_id e))]). split.
  - cbn [json_from_str demo_entry_json]. by rewrite ledger_from_to_string.
  - cbn. destruct He as [[H1 H2] _]. by rewrite (proj2 (Z.leb_le _ _) H1), (proj2 (Z.leb_le _ _) H2).
Defined.

Definition s_end : Ingest := default (started 2) (ingest_run 2 acts_full (started 2)).
Definition archive : Disk := en_disk (ig_engine s_end).
Definition app : AppState := mkAppState "data" "data/ledger.jsonl" "parsers" "eval.json" "scratch" registry_new [] 0.

Definition entry0 : LedgerEntry := default (mkEntry 0 0 0 "" "") (head (in_memory_ledger (en_batcher (ig_engine s_end)))).

Lemma run_end : ingest_run 2 acts_full (started 2) = Some s_end.
Proof. vm_compute. reflexivity. Qed.

Lemma bounded_end : bounded 2 (ig_logs s_end).
Proof. split; [apply few_vendors_small; vm_compute; lia|vm_compute; reflexivity]. Qed.

Lemma entry0_in : in_memory_ledger (en_batcher (ig_engine s_end)) !! 0 = Some entry0 /\ le_block_id entry0 = 0%Z.
Proof. split; vm_compute; reflexivity. Qed.

Lemma archive_served_witness : exists items bundle, get_blocks archive app = Some items /\ length items = 2 /\
  get_export_bundle "now" archive app 0 = Some (Ok bundle) /\ bd_block bundle = "PAR12".
Proof.
  destruct (archive_served (ingest_args 2) acts_full (started 2) s_end app "now") as [(items & Ei & HF) Hb].
  - vm_compute. reflexivity.
  - exact good_full.
  - exact run_end.
  - exact bounded_end.
  - split; reflexivity.
  - destruct (Hb entry0 (list_elem_of_lookup_2 _ _ _ (proj1 entry0_in))) as (bundle & f & rep & Eb & Ef & Eby & _).
    rewrite (proj2 entry0_in) in Eb, Ef. exists items, bundle. split; [exact Ei|]. split; [rewrite <- (Forall2_length _ _ _ HF); vm_compute; reflexivity|]. split; [exact Eb|].
    rewrite Eby. vm_compute in Ef. injection Ef as <-. vm_compute. reflexivity.
Defined.

Lemma drill_always_claims_detection_witness : exists resp d' app',
  post_tamper_drill "id" 5 (mkDrillFaults None no_faults) (mkDrillRequest 0 1 "10.99.99.99" true) archive app = (Some (Ok resp), d', app') /\
  dr_status resp = "tamper_detected".
Proof.
  destruct (drill_always_claims_detection (ingest_args 2) acts_full (started 2) s_end app "id" 5 0 entry0 1 "10.99.99.99")
    as (r & rs & resp & rep & d' & app' & _ & _ & Hp & Hs & _).
  - vm_compute. reflexivity.
  - exact good_full.
  - exact run_end.
  - exact bounded_end.
  - split; reflexivity.
  - exact (proj1 entry0_in).
  - vm_compute. lia.
  - rewrite (proj2 entry0_in) in Hp. exists resp, d', app'. split; [exact Hp|exact Hs].
Defined.

Definition recs_end : list StoredLogRecord :=
  match read_parquet_file (blocks archive) (evidence_path app 0) with Some (Ok rs) => rs | _ => [] end.

Definition no_query (limit : nat) : RecordsQuery := mkRecordsQuery None (Some limit) None None None None.

(** Two pages of one record. *)
Lemma pages_cover_block_witness : exists page, (forall k, get_block_records archive app 0 (at_offset (no_query 1) k) = Some (Ok (page k))) /\
  br_records (page 0) ++ br_records (page 1) = record_item <$> List.filter (record_matches (no_query 1)) recs_end.
Proof.
  destruct (pages_cover_block archive app 0 (no_query 1) recs_end) as (page & Hp & _ & _ & Hc); [vm_compute; reflexivity|].
  exists page. split; [exact Hp|]. specialize (Hc 2). cbv zeta in Hc. specialize (Hc ltac:(vm_compute; lia)).
  cbn [seq fmap list_fmap concat] in Hc. rewrite app_nil_r in Hc. exact Hc.
Defined.

(** The same archive after [tamper]: the proof of the altered log is verified. *)
Definition altered_archive : Disk := (run_tamper no_faults (mkTamperArgs (evidence_path app 0) 0 "10.99.99.99") archive).2.
Definition altered_recs : list StoredLogRecord :=
  match read_parquet_file (blocks altered_archive) (evidence_path app 0) with Some (Ok rs) => rs | _ => [] end.
Definition altered_rec : StoredLogRecord := default (mkStored "" 0 0 0 "" "" "" "") (head altered_recs).

Lemma prove_ignores_ledger_witness : exists resp, get_prove_inclusion altered_archive app 0 0 (Some true) = Some (Ok resp) /\
  ip_verified resp = true /\ Some (ip_calculated_merkle_root resp) <> ip_ledger_merkle_root resp.
Proof.
  destruct (prove_ignores_ledger altered_archive app 0 0 altered_recs altered_rec) as (resp & E & Hv & _ & Hc & _ & Hl);
    [vm_compute; reflexivity|vm_compute; reflexivity|].
  exists resp. split; [exact E|]. split; [exact Hv|]. rewrite Hc, Hl. vm_compute. discriminate.
Defined.

Definition half_file : parquet_file := (SNAPPY, mkBatch [] [] 0).
Definition half_written : WriteFaults parquet_file := mkFaults _ false false (Some half_file).

Example slug_demo : vendor_slug "../../etc/Acme 9" = "______etc_acme_9".
Proof. vm_compute. reflexivity. Qed.

End ServeDemo.
