(* ===== verification/Router.v ===== *)
(** * The server as a whole ([crates/ulpf-cli/src/serve/mod.rs])

    The routes, the CORS policy, the start of [ulpf serve], and the server as a
    system that handles one request after the other.  Matching a URL against the
    routes and taking a request apart belong to axum: a [Request] is what a
    handler receives. *)

From S2P Require Export Serve IpAddr.

(** ** Routes *)

Inductive Method := GET | POST | OPTIONS.

#[global] Instance Method_eq_dec : EqDecision Method.
Proof. solve_decision. Defined.

Inductive ApiEndpoint :=
| EMetrics | EAlerts | EBlocks | EBlockRecords | EProve | EBundle | EParsers | EParsersTest | EOnboard | ESystem | EDrill.

#[global] Instance ApiEndpoint_eq_dec : EqDecision ApiEndpoint.
Proof. solve_decision. Defined.

(** The table of [create_router]. *)
Definition routes : list (string * Method * ApiEndpoint) :=
  [ ("/metrics", GET, EMetrics);
    ("/alerts", GET, EAlerts);
    ("/blocks", GET, EBlocks);
    ("/blocks/{id}/records", GET, EBlockRecords);
    ("/prove/{block}/{leaf}", GET, EProve);
    ("/export/bundle/{id}", GET, EBundle);
    ("/parsers", GET, EParsers);
    ("/parsers/test", POST, EParsersTest);
    ("/onboard", POST, EOnboard);
    ("/system", GET, ESystem);
    ("/tamper/drill", POST, EDrill) ].

Definition route_of (e : ApiEndpoint) : option (string * Method) :=
  match List.find (fun r => bool_decide (r.2 = e)) routes with Some (path, m, _) => Some (path, m) | None => None end.

Definition cors_methods : list Method := [GET; POST; OPTIONS].
Definition cors_headers : list string := ["content-type"; "authorization"; "accept"].

(** ** Requests *)

Inductive Request :=
| RMetrics
| RAlerts
| RBlocks
| RBlockRecords (block_id : Z) (q : RecordsQuery)
| RProve (block_id : Z) (leaf : nat) (live : option bool)
| RBundle (block_id : Z)
| RParsers
| RParsersTest (req : ParserTestRequest)
| ROnboard (req : OnboardRequest)
| RSystem
| RDrill (req : TamperDrillRequest).

Definition endpoint (q : Request) : ApiEndpoint :=
  match q with
  | RMetrics => EMetrics | RAlerts => EAlerts | RBlocks => EBlocks | RBlockRecords _ _ => EBlockRecords | RProve _ _ _ => EProve
  | RBundle _ => EBundle | RParsers => EParsers | RParsersTest _ => EParsersTest | ROnboard _ => EOnboard | RSystem => ESystem
  | RDrill _ => EDrill
  end.

Definition request_method (q : Request) : option Method := snd <$> route_of (endpoint q).

Inductive Response :=
| AMetrics (m : MetricsResponse)
| AAlerts (l : list AlertItem)
| ABlocks (l : list BlockItem)
| ARecords (r : Result ErrorResponse BlockRecordsResponse)
| AProof (r : Result ErrorResponse InclusionProofResponse)
| ABundle (r : Result ErrorResponse Bundle)
| AParsers (l : list ParserItem)
| ATest (r : Result ErrorResponse ParserTestResponse)
| AOnboard (r : Result ErrorResponse OnboardResponse)
| ASystem (r : SystemResponse)
| ADrill (r : Result ErrorResponse TamperDrillResponse).

Section Server.
Context `{Sha256} `{HexLib} `{ArrowLib} `{PQ : ParquetLib} `{LedgerJson} `{JsonLib} `{RegexEngine} `{UnicodeText} `{DefinitionJson}
  `{RegexExpand} `{!FileBytes} `{UnicodeLib} `{ChronoLib} `{RegexLib} `{AhoCorasick}.
Variable read_dir : Disk -> string -> Result string (list string).

(** What a request draws from outside: a UUID, clocks and their text, the time
    since the start, the draws of the universal parser, the order of a hash map,
    and the faults of the disk. *)
Record Draws := mkDraws {
  dw_id : string;
  dw_now : Z;
  dw_text : string;
  dw_uptime : Z;
  dw_parse : ParseEnv;
  dw_order : gmap string string -> list (string * string);
  dw_texts : TextFaults;
  dw_drill : DrillFaults
}.

(** One request; there is no response when the handler panics. *)
Definition handle (w : Draws) (q : Request) (d : Disk) (s : AppState) : option Response * Disk * AppState :=
  match q with
  | RMetrics => (AMetrics <$> get_metrics (read_dir d) d s, d, s)
  | RAlerts => (Some (AAlerts (get_alerts s)), d, s)
  | RBlocks => (ABlocks <$> get_blocks d s, d, s)
  | RBlockRecords b q => (ARecords <$> get_block_records d s b q, d, s)
  | RProve b leaf live => (AProof <$> get_prove_inclusion d s b leaf live, d, s)
  | RBundle b => (ABundle <$> get_export_bundle (dw_text w) d s b, d, s)
  | RParsers => (Some (AParsers (get_parsers (read_dir d) d s)), d, s)
  | RParsersTest req =>
      let '(r, s') := post_parsers_test (dw_id w) (dw_now w) (dw_parse w) req s in (ATest <$> r, d, s')
  | ROnboard req =>
      let '(r, d', s') := post_onboard (dw_now w) (dw_order w) (dw_texts w) req d s in (AOnboard <$> r, d', s')
  | RSystem => (Some (ASystem (get_system (read_dir d) (dw_uptime w) d s)), d, s)
  | RDrill req =>
      let '(r, d', s') := post_tamper_drill (dw_id w) (dw_now w) (dw_drill w) req d s in (ADrill <$> r, d', s')
  end.

(** The requests that a server handles, one after the other. *)
Fixpoint serve_requests (reqs : list (Draws * Request)) (d : Disk) (s : AppState) : list (option Response) * Disk * AppState :=
  match reqs with
  | [] => ([], d, s)
  | (w, q) :: reqs' =>
      let '(r, d1, s1) := handle w q d s in
      let '(rs, d2, s2) := serve_requests reqs' d1 s1 in (r :: rs, d2, s2)
  end.

End Server.

(** ** [SocketAddr::from_str] *)

(** A mark and a number of any length up to the maximum of its type. *)
Definition read_marked (mark : string) (max : Z) (s : string) : option string :=
  rest <-! strip_prefix mark s;
  snd <$> read_number 10 (String.length rest) true max rest.

Definition read_port (s : string) : option string := read_marked ":" 65535 s.

Definition read_scope_id (s : string) : string := default s (read_marked "%" 4294967295 s).

Definition read_socket_v4 (s : string) : option string := rest <-! read_ipv4 s; read_port rest.

Definition read_socket_v6 (s : string) : option string :=
  r1 <-! strip_prefix "[" s;
  r2 <-! read_ipv6 r1;
  r3 <-! strip_prefix "]" (read_scope_id r2);
  read_port r3.

Definition is_socket_addr (s : string) : bool :=
  match read_socket_v4 s with
  | Some rest => is_empty rest
  | None => match read_socket_v6 s with Some rest => is_empty rest | None => false end
  end.

(** ** [ulpf serve] *)

Section Start.
Context `{Sha256} `{HexLib} `{ArrowLib} `{PQ : ParquetLib} `{LedgerJson} `{JsonLib} `{RegexEngine} `{UnicodeText} `{DefinitionJson}
  `{RegexExpand} `{!FileBytes} `{UnicodeLib} `{ChronoLib} `{RegexLib} `{AhoCorasick}.
Variable read_dir : Disk -> string -> Result string (list string).

(** [TcpListener::bind], and how [axum::serve] ends *)
Record NetEnv := mkNetEnv { ne_bind : string -> Result string unit; ne_serve : Result string unit }.

Definition bind_text (args : ServeArgs) : string := sv_host args +:+ ":" +:+ uint_to_string (sv_port args).

(** The requests are those handled until the shutdown. *)
Definition run_serve (net : NetEnv) (yaml_clock : nat -> Z) (ids : nat -> string) (clocks : nat -> Z)
    (reqs : list (Draws * Request)) (args : ServeArgs) (d : Disk) : Outcome (list (option Response) * AppState) * Disk :=
  match app_state_new (read_dir d) yaml_clock ids clocks d args with
  | None => (Panicked, d)
  | Some s =>
      if negb (is_socket_addr (bind_text args)) then (Bailed ("Failed to parse bind address " +:+ bind_text args), d)
      else match ne_bind net (bind_text args) with
      | Err _ => (Bailed "Failed to bind TCP listener", d)
      | Ok _ =>
          let '(rs, d', s') := serve_requests read_dir reqs d s in
          (match ne_serve net with Ok _ => Completed (rs, s') | Err _ => Bailed "Server error during execution" end, d')
      end
  end.

End Start.
