(* ===== verification/RouterFacts.v ===== *)
(** * The server as a whole

    What any sequence of requests can change, and that the archive stays valid
    while it is served. *)

From S2P Require Import BatcherFacts OnboarderFacts IngestFacts CliFacts ParserExportFacts.
From S2P Require Export Router ServeFacts.

(** ** The table of routes *)

(** Every handler has one route, under a method that CORS allows, and no two
    routes share a path. *)
Lemma routes_ok : NoDup (fst ∘ fst <$> routes) /\
  forall e, exists path m, route_of e = Some (path, m) /\ m ∈ cors_methods.
Proof.
  split; [vm_compute; repeat constructor; set_solver|].
  intros []; vm_compute; eexists _, _; (split; [reflexivity|repeat (try (by left); right)]).
Qed.

(** ** One request *)

Section Requests.
Context `{Sha256} `{HexLib} `{ArrowLib} `{PQ : ParquetLib} `{LedgerJson} `{JsonLib} `{RegexEngine} `{UnicodeText} `{DefinitionJson}
  `{RegexExpand} `{!FileBytes} `{UnicodeLib} `{ChronoLib} `{RegexLib} `{AhoCorasick}.
Context (read_dir : Disk -> string -> Result string (list string)).

(** The files that a server writes: copies of blocks in its scratch directory and
    two files per vendor in the parsers directory. *)
Definition drill_file (s : AppState) (p : string) : Prop := exists j, p = drill_path s j.

Definition parser_file (s : AppState) (p : string) : Prop :=
  exists slug ext, p = path_join (as_parsers_dir s) (slug +:+ ext) /\ slug <> "" /\ all_bytes slug_ok slug = true /\ ext ∈ [".json"; ".yaml"].

Definition same_dirs (s s' : AppState) : Prop :=
  as_parquet_dir s' = as_parquet_dir s /\ as_ledger_path s' = as_ledger_path s /\ as_parsers_dir s' = as_parsers_dir s /\
  as_eval_report_path s' = as_eval_report_path s /\ as_scratch_dir s' = as_scratch_dir s.

Record confined (d : Disk) (s : AppState) (d' : Disk) (s' : AppState) : Prop := {
  cf_dirs : same_dirs s s';
  cf_evidence : forall j, blocks d' !! evidence_path s j = blocks d !! evidence_path s j;
  cf_blocks : forall p, ~ drill_file s p -> blocks d' !! p = blocks d !! p;
  cf_texts : forall p, ~ drill_file s p -> ~ parser_file s p -> texts d' !! p = texts d !! p;
  cf_alerts : exists new, as_alerts s' = new ++ as_alerts s;
  cf_registry : 0 < rg_capacity (as_registry s) -> registry_inv (as_registry s) ->
    rg_capacity (as_registry s') = rg_capacity (as_registry s) /\ registry_inv (as_registry s')
}.

Lemma confined_refl d s : confined d s d s.
Proof. split; try done. by exists []. Qed.

Lemma same_dirs_paths s s' : same_dirs s s' -> (forall j, evidence_path s' j = evidence_path s j) /\
  (forall p, drill_file s' p -> drill_file s p) /\ (forall p, parser_file s' p -> parser_file s p).
Proof.
  intros (E1 & _ & E3 & _ & E5). unfold evidence_path, drill_file, drill_path, parser_file. rewrite E1, E3, E5. done.
Qed.

Lemma confined_trans d1 s1 d2 s2 d3 s3 : confined d1 s1 d2 s2 -> confined d2 s2 d3 s3 -> confined d1 s1 d3 s3.
Proof.
  intros [D1 V1 B1 T1 [n1 A1] R1] [D2 V2 B2 T2 [n2 A2] R2]. destruct (same_dirs_paths _ _ D1) as (Pe & Pd & Pp). split.
  - unfold same_dirs in *. naive_solver congruence.
  - intros j. rewrite <- V1, <- (Pe j). apply V2.
  - intros p Hp. rewrite <- B1 by done. apply B2. by intros ?%Pd.
  - intros p Hp Hq. rewrite <- T1 by done. apply T2; [by intros ?%Pd|by intros ?%Pp].
  - exists (n2 ++ n1). by rewrite A2, A1, app_assoc.
  - intros Hc Hi. destruct (R1 Hc Hi) as [E1 I1]. destruct (R2 ltac:(lia) I1) as [E2 I2]. split; [congruence|done].
Qed.

(** Only the registry changes, by an operation of its own. *)
Lemma confined_registry d s op : confined d s d (set_app_registry s (registry_step (as_registry s) op)).
Proof.
  split; try done; [by exists []|]. intros Hc Hi. split; [apply parse_keeps_capacity|by apply registry_step_inv].
Qed.

Lemma test_confined id now env req d s r s' : post_parsers_test id now env req s = (r, s') -> confined d s d s'.
Proof.
  unfold post_parsers_test. destruct (is_empty _); [intros [= <- <-]; apply confined_refl|].
  destruct (pt_regex_pattern req) as [pat|]; [destruct (negb _); intros [= <- <-]; apply confined_refl|].
  set (vendor := default _ _). set (raw := trim _).
  pose proof (confined_registry d s (OParse vendor raw id now)) as Hc. cbn [registry_step] in Hc.
  destruct (registry_parse _ _ _ _ _) as [x reg]. by intros [= <- <-].
Qed.

Lemma onboard_confined created order fx req d s r d' s' : post_onboard created order fx req d s = (r, d', s') -> confined d s d' s'.
Proof.
  intros E. destruct (onboard_route_confined _ _ _ _ _ _ _ _ _ E) as (Hb & Ht & Hne & Hs & _ & Hst). set (slug := vendor_slug _) in *.
  assert (s' = s \/ exists def, s' = set_app_registry s (registry_step (as_registry s) (ORegister def))) as Hst'.
  { clear -E. unfold post_onboard in E. repeat case_match; simplify_eq; eauto. }
  assert (same_dirs s s' /\ as_alerts s' = as_alerts s) as [HD HA] by (destruct Hst' as [->|[def ->]]; done).
  split; try done.
  - intros j. by rewrite Hb.
  - intros p _. by rewrite Hb.
  - intros p _ Hp. destruct (decide (texts d' !! p = texts d !! p)) as [|Hn]; [done|]. destruct Hp.
    destruct (Ht p Hn) as [->| ->]; (eexists slug, _; split_and!; [done..|set_solver]).
  - by exists [].
  - destruct Hst' as [->|[def ->]]; [done|]. apply (confined_registry d s (ORegister def)).
Qed.

Lemma drill_confined id now fx req d s r d' s' : post_tamper_drill id now fx req d s = (r, d', s') -> confined d s d' s'.
Proof.
  intros E. destruct (drill_spares_evidence _ _ _ _ _ _ _ _ _ E) as (He & Hs & Hst & _).
  assert (same_dirs s s' /\ as_registry s' = as_registry s /\ exists new, as_alerts s' = new ++ as_alerts s) as (HD & HR & HA).
  { destruct Hst as [->| ->]; split_and!; try done; [by exists []|by eexists [_]]. }
  split; try done.
  - intros p Hp. apply Hs. intros ->. apply Hp. by eexists.
  - intros p Hp _. apply Hs. intros ->. apply Hp. by eexists.
  - by rewrite HR.
Qed.

Lemma handle_confined w q d s r d' s' : handle read_dir w q d s = (r, d', s') -> confined d s d' s'.
Proof.
  destruct q; cbn [handle]; try (intros [= <- <- <-]; apply confined_refl).
  - destruct (post_parsers_test _ _ _ _ _) as [r1 s1] eqn:E. intros [= <- <- <-]. by eapply test_confined.
  - destruct (post_onboard _ _ _ _ _ _) as [[r1 d1] s1] eqn:E. intros [= <- <- <-]. by eapply onboard_confined.
  - destruct (post_tamper_drill _ _ _ _ _ _) as [[r1 d1] s1] eqn:E. intros [= <- <- <-]. by eapply drill_confined.
Qed.

(** A route of the table that is read with [GET] changes nothing. *)
Lemma get_changes_nothing w q d s r d' s' : request_method q = Some GET -> handle read_dir w q d s = (r, d', s') -> d' = d /\ s' = s.
Proof. intros Hm. destruct q; try (vm_compute in Hm; discriminate Hm); cbn [handle]; by intros [= <- <- <-]. Qed.

(** ** Any sequence of requests *)

Lemma serve_requests_confined reqs : forall d s rs d' s', serve_requests read_dir reqs d s = (rs, d', s') ->
  confined d s d' s' /\ length rs = length reqs.
Proof.
  induction reqs as [|[w q] reqs IH]; intros d s rs d' s'; cbn [serve_requests]; [intros [= <- <- <-]; split; [apply confined_refl|done]|].
  destruct (handle read_dir w q d s) as [[r d1] s1] eqn:E1. destruct (serve_requests read_dir reqs d1 s1) as [[rs1 d2] s2] eqn:E2.
  intros [= <- <- <-]. destruct (IH _ _ _ _ _ E2) as [Hc Hl]. split; [|simpl; lia].
  eapply confined_trans; [by eapply handle_confined|done].
Qed.

Lemma serve_gets reqs : forall d s rs d' s', Forall (fun x => request_method x.2 = Some GET) reqs ->
  serve_requests read_dir reqs d s = (rs, d', s') -> d' = d /\ s' = s.
Proof.
  induction reqs as [|[w q] reqs IH]; intros d s rs d' s' HF; cbn [serve_requests]; [by intros [= <- <- <-]|].
  apply Forall_cons in HF as [Hq HF]. destruct (handle read_dir w q d s) as [[r d1] s1] eqn:E1.
  destruct (get_changes_nothing _ _ _ _ _ _ _ Hq E1) as [-> ->].
  destruct (serve_requests read_dir reqs d s) as [[rs1 d2] s2] eqn:E2. intros [= <- <- <-]. by eapply IH.
Qed.

(** What a run of the command can change. *)
Lemma run_serve_confined net yc ids clk reqs args d o d' s0 :
  app_state_new (read_dir d) yc ids clk d args = Some s0 ->
  run_serve read_dir net yc ids clk reqs args d = (o, d') -> exists s', confined d s0 d' s'.
Proof.
  intros E0. unfold run_serve. rewrite E0. destruct (negb _); [intros [= <- <-]; exists s0; apply confined_refl|].
  destruct (ne_bind net _); [|intros [= <- <-]; exists s0; apply confined_refl].
  destruct (serve_requests read_dir reqs d s0) as [[rs d1] s1] eqn:E. intros [= <- <-]. exists s1.
  by apply serve_requests_confined in E as [Hc _].
Qed.

Lemma run_serve_gets net yc ids clk reqs args d o d' : Forall (fun x => request_method x.2 = Some GET) reqs ->
  run_serve read_dir net yc ids clk reqs args d = (o, d') -> d' = d.
Proof.
  intros HF. unfold run_serve. destruct (app_state_new _ _ _ _ _ _) as [s0|]; [|by intros [= <- <-]].
  destruct (negb _); [by intros [= <- <-]|]. destruct (ne_bind net _); [|by intros [= <- <-]].
  destruct (serve_requests read_dir reqs d s0) as [[rs d1] s1] eqn:E. intros [= <- <-]. by apply serve_gets in E as [-> _].
Qed.

End Requests.

(** ** Ingest, then the server, then [verify] *)

Section Kept.
Context `{Sha256} `{HexLib} `{UnicodeLib} `{ChronoLib} `{RegexLib} `{JsonLib} `{AhoCorasick} `{RegexEngine}
  `{ArrowLib} `{PQ : ParquetLib} `{LedgerJson} `{EventJson} `{RegexExpand} `{!FileBytes} `{!LedgerValue} `{UnicodeText} `{DefinitionJson}.
Context (read_dir : Disk -> string -> Result string (list string)).

(** What an archive represents depends on its blocks and its ledger only. *)
Lemma represents_same cfg hist b d d' : represents cfg hist b d ->
  (forall k, k < length hist -> blocks d' !! block_path cfg k = blocks d !! block_path cfg k) ->
  texts d' !! ledger_path cfg = texts d !! ledger_path cfg -> represents cfg hist b d'.
Proof.
  intros [R1 R2 R3 R4 R5 R6 R7] Hb Ht. split; try done; [by rewrite Ht|].
  intros k x Hx. rewrite <- (R7 k x Hx). unfold read_parquet_file, BlockStore in *. by rewrite Hb by (by eapply lookup_lt_Some).
Qed.

(** C18: serving an archive keeps it valid: over the archive of an ingest run
    from an empty disk, without disk faults and with at most 128 vendors among lines
    that can fill one block, whatever requests a server handles until its shutdown,
    whatever faults they meet and whether handlers panic, afterwards [verify]
    still exits with 0 on the block of every ledger entry and the list of blocks
    still says PASS for each of them; nothing has changed on the disk but copies
    in the scratch directory and parser files with safe names in the parsers
    directory (which must not be where the ledger is); and requests that only
    read have changed nothing at all. *)
Theorem serving_keeps_archive args acts s0 s sv net yc ids clk reqs app o d' :
  ingest_start args empty_disk = Ok s0 -> Forall action_good acts ->
  ingest_run (ia_batch_size args) acts s0 = Some s -> bounded (ia_batch_size args) (ig_logs s) ->
  let d := en_disk (ig_engine s) in
  let ledger := in_memory_ledger (en_batcher (ig_engine s)) in
  sv_parquet_dir sv = ia_parquet_dir args -> sv_ledger sv = ia_ledger args ->
  app_state_new (read_dir d) yc ids clk d sv = Some app ->
  ~ drill_file app (ia_ledger args) -> ~ parser_file app (ia_ledger args) ->
  run_serve read_dir net yc ids clk reqs sv d = (o, d') ->
  (forall e, e ∈ ledger -> exit_code (run_verify (mkVerifyArgs (entry_file args e) (ia_ledger args)) d') = 0%Z) /\
  (exists items, get_blocks d' app = Some items /\ Forall2 listed_ok ledger items) /\
  (forall p, ~ drill_file app p -> ~ parser_file app p -> blocks d' !! p = blocks d !! p /\ texts d' !! p = texts d !! p) /\
  (Forall (fun x => request_method x.2 = Some GET) reqs -> d' = d).
Proof.
  intros E0 HF E Hb d ledger Hd Hl Ha Hnd Hnp Er. destruct (ingest_represents args acts s0 s E0 HF E Hb) as (hist & HR & _ & _).
  destruct (run_serve_confined read_dir net yc ids clk reqs sv d o d' app Ha Er) as [s' [_ Ce Cb Ct _ _]].
  assert (as_parquet_dir app = ia_parquet_dir args /\ as_ledger_path app = ia_ledger args) as [Ad Al].
  { unfold app_state_new in Ha. destruct (compute_initial_alerts _ _ _ _ _) as [al|]; [|done]. injection Ha as <-. by split. }
  assert (represents (ingest_batcher_config args) hist (en_batcher (ig_engine s)) d') as HR'.
  { eapply represents_same; [exact HR| |by apply Ct]. intros k _. specialize (Ce (Z.of_nat k)).
    unfold evidence_path in Ce. rewrite Ad in Ce. exact Ce. }
  split_and!.
  - unfold ledger. rewrite (rep_ledger _ _ _ _ HR). intros e (k & x & -> & Hx)%elem_of_lookup_imap_1.
    destruct (verify_accepts _ hist _ d' d' k x HR' Hx eq_refl eq_refl) as (rep & Ev & _). by exact (f_equal exit_code Ev).
  - exact (blocks_listed _ hist _ d' app HR' Ad Al).
  - intros p Hp Hq. split; [by apply Cb|by apply Ct].
  - intros HG. by eapply run_serve_gets.
Qed.

End Kept.

(** ** Witnesses *)

Module RouterDemo.
Import Demo TokenDemo ParserDemo RegexDemo ArrowDemo BatcherDemo IngestDemo CliDemo ExportDemo ServeDemo.

Definition half_file : parquet_file := (SNAPPY, mkBatch [] [] 0).

(** Draws under which a drill is interrupted while it writes. *)
Definition draws (w : WriteFaults parquet_file) : Draws :=
  mkDraws "id" 5 "now" 7 env0 map_to_list no_text_faults (mkDrillFaults None w).

Definition reqs : list (Draws * Request) :=
  [ (draws no_faults, RBlocks);
    (draws (mkFaults _ false false (Some half_file)), RDrill (mkDrillRequest 0 1 "10.99.99.99" true));
    (draws no_faults, RDrill (mkDrillRequest 1 0 "10.99.99.99" true));
    (draws no_faults, ROnboard (mkOnboardRequest "../../etc/Acme 9" "fw" ["a"; "b"; "c d"] true));
    (draws no_faults, RProve 0 0 (Some true)) ].

Definition no_dirs (d : Disk) (path : string) : Result string (list string) := Err "no directory".
Definition net0 : NetEnv := mkNetEnv (fun _ => Ok tt) (Ok tt).
Definition sv0 : ServeArgs := mkServeArgs 8080 "127.0.0.1" "data" "data/ledger.jsonl" "parsers" "eval.json".

Definition app0 : AppState := default app (app_state_new (no_dirs archive) Z.of_nat (fun _ => "id") Z.of_nat archive sv0).
Definition after : Outcome (list (option Response) * AppState) * Disk :=
  run_serve no_dirs net0 Z.of_nat (fun _ => "id") Z.of_nat reqs sv0 archive.

Lemma ledger_apart : ~ drill_file app0 "data/ledger.jsonl" /\ ~ parser_file app0 "data/ledger.jsonl".
Proof.
  assert (as_scratch_dir app0 = "scratch" /\ as_parsers_dir app0 = "parsers") as [Es Ep] by (vm_compute; done).
  split.
  - intros [j E]. unfold drill_path in E. rewrite Es in E. discriminate E.
  - intros (slug & ext & E & _). rewrite Ep in E. discriminate E.
Qed.

Lemma serving_keeps_archive_witness : exit_code (run_verify (mkVerifyArgs "data/block_00000.parquet" "data/ledger.jsonl") after.2) = 0%Z /\
  texts after.2 !! "data/ledger.jsonl" = texts archive !! "data/ledger.jsonl".
Proof.
  destruct (serving_keeps_archive no_dirs (ingest_args 2) acts_full (started 2) s_end sv0 net0 Z.of_nat (fun _ => "id") Z.of_nat reqs
    app0 after.1 after.2) as (Hv & _ & Hs & _).
  - vm_compute. reflexivity.
  - exact good_full.
  - exact run_end.
  - exact bounded_end.
  - reflexivity.
  - reflexivity.
  - vm_compute. reflexivity.
  - exact (proj1 ledger_apart).
  - exact (proj2 ledger_apart).
  - unfold after. by destruct (run_serve _ _ _ _ _ _ _ _).
  - split; [exact (Hv entry0 (list_elem_of_lookup_2 _ _ _ (proj1 entry0_in)))|].
    apply Hs; [exact (proj1 ledger_apart)|exact (proj2 ledger_apart)].
Defined.

(** Every one of the five requests is answered. *)
Example served : (match after.1 with Completed (rs, s) => length (List.filter (fun r => bool_decide (is_Some r)) rs) | _ => 0 end) = 5.
Proof. vm_compute. reflexivity. Qed.

(** A host name is no bind address, and an IPv6 address needs its brackets. *)
Example bind_texts : is_socket_addr "127.0.0.1:8080" = true /\ is_socket_addr "[::1]:8080" = true /\
  is_socket_addr "localhost:8080" = false /\ is_socket_addr "::1:8080" = false /\ is_socket_addr "127.0.0.1:65536" = false.
Proof. vm_compute. auto. Qed.

End RouterDemo.
