(* ===== verification/Live.v ===== *)
(** * A running ingest and a server over the same directory

    [ulpf ingest] and [ulpf serve] are two processes; they meet in the block files
    and in the ledger.  A state is that of both, with the disk in the engine of
    [Ingest], and a step is a step of a task of ingest or a request that the
    server handles.  A flush writes a block file and then a line of the ledger;
    requests may come between the two writes.  (Producers do not touch the disk:
    their steps commute with those writes.) *)

From S2P Require Export Router Ingest.

Section Live.
Context `{Sha256} `{HexLib} `{UnicodeLib} `{ChronoLib} `{RegexLib} `{JsonLib} `{AhoCorasick} `{RegexEngine}
  `{ArrowLib} `{PQ : ParquetLib} `{LedgerJson} `{EventJson} `{RegexExpand} `{!FileBytes} `{!LedgerValue} `{UnicodeText} `{DefinitionJson}.
Context (read_dir : Disk -> string -> Result string (list string)).

(** ** A flush with requests between its writes *)

(** [flush]; [mid] is what others do to the disk after the block file is written,
    and what came of it. *)
Definition flush_via {A} (mid : Disk -> Disk * A) (env : FlushEnv) (b : BatchAccumulator) (d : Disk)
  : option (FlushResult * option A) :=
  if is_nil (buffer b) then Some (Ok None, b, d, None)
  else
    let logs := buffer b in
    let block_id := current_block_id b in
    let b1 := mkBatcher (config b) [] None (next_id block_id) (in_memory_ledger b) in
    let stored_records := imap (to_stored env block_id) logs in
    tree <-! from_raw_logs (sr_raw_log <$> stored_records);
    let parquet_filename := block_filename block_id in
    let parquet_path := path_join (storage_dir (config b)) parquet_filename in
    Some
      match write_records_to_parquet (env_write env) (blocks d) parquet_path stored_records (compression (config b)) with
      | (Err _, fs) => (Err "Failed writing Parquet block", b1, mkDisk _ fs (texts d), None)
      | (Ok _, fs) =>
          let '(d1, x) := mid (mkDisk _ fs (texts d)) in
          let ledger_entry := mkEntry block_id (env_now_ms env) (length logs) (to_hex (root tree)) parquet_filename in
          match append_ledger_entry b1 (env_ledger env) d1 ledger_entry with
          | (Err e, d2) => (Err e, b1, d2, Some x)
          | (Ok _, d2) =>
              (Ok (Some (mkFlushed block_id (root tree) (length logs) parquet_path tree)),
               mkBatcher (config b1) (buffer b1) (first_item_time b1) (current_block_id b1)
                 (in_memory_ledger b1 ++ [ledger_entry]), d2, Some x)
          end
      end.

(** [push] and the processing of a line, with such a flush. *)
Definition push_via {A} (mid : Disk -> Disk * A) (t0 t1 : Z) (env : FlushEnv) (log : IncomingLog) (b : BatchAccumulator) (d : Disk)
  : option (FlushResult * option A) :=
  let fit := if is_nil (buffer b) then Some t0 else first_item_time b in
  let b1 := mkBatcher (config b) (buffer b ++ [log]) fit (current_block_id b) (in_memory_ledger b) in
  if should_flush b1 t1 then flush_via mid env b1 d else Some (Ok None, b1, d, None).

Definition process_via {A} (mid : Disk -> Disk * A) (env : ProcEnv) (raw_log : string) (e : Engine)
  : option (Result string unit * Engine * IncomingLog * option A) :=
  event <-! parse_lossless (pr_parse env) raw_log;
  let parsed := u64 (en_parsed e + 1) in
  match add_log (en_miner e) (pr_miner_ms env) (pr_miner_latency env) raw_log with
  | None => None
  | Some (cluster_res, miner) =>
      let anomalies := match cr_anomaly cluster_res with Some _ => u64 (en_anomalies e + 1) | None => en_anomalies e end in
      let incoming := incoming_of event raw_log in
      match push_via mid (pr_t0 env) (pr_t1 env) (pr_flush env) incoming (en_batcher e) (en_disk e) with
      | None => None
      | Some (Err msg, b, d, x) => Some (Err msg, mkEngine _ parsed (en_blocks e) anomalies miner b d, incoming, x)
      | Some (Ok flushed, b, d, x) =>
          let blocks := match flushed with Some _ => u64 (en_blocks e + 1) | None => en_blocks e end in
          Some (Ok tt, mkEngine _ parsed blocks anomalies miner b d, incoming, x)
      end
  end.

Definition consume_via {A} (mid : Disk -> Disk * A) (env : ProcEnv) (raw : string) (rest : list string) (s : Ingest) : Ingest * option A :=
  match process_via mid env raw (ig_engine s) with
  | None => (set_phase s Crashed, None)
  | Some (Ok _, e, log, x) => (set_engine s (ig_phase s) rest e (ig_logs s ++ [log]), x)
  | Some (Err msg, e, log, x) => (set_engine s (Failed msg) rest e (ig_logs s ++ [log]), x)
  end.

Definition final_flush_via {A} (mid : Disk -> Disk * A) (env : FlushEnv) (s : Ingest) : Ingest * option A :=
  let e := ig_engine s in
  match flush_via mid env (en_batcher e) (en_disk e) with
  | None => (set_phase s Crashed, None)
  | Some (Err msg, b, d, x) =>
      (set_engine s (Failed msg) (ig_batch s) (mkEngine _ (en_parsed e) (en_blocks e) (en_anomalies e) (en_miner e) b d) (ig_logs s), x)
  | Some (Ok flushed, b, d, x) =>
      let blocks := match flushed with Some _ => u64 (en_blocks e + 1) | None => en_blocks e end in
      (set_engine s Finished (ig_batch s) (mkEngine _ (en_parsed e) blocks (en_anomalies e) (en_miner e) b d) (ig_logs s), x)
  end.

(** ** Both processes *)

(** The ledger as ingest has it in memory. *)
Definition live_ledger (s : Ingest) : list LedgerEntry := in_memory_ledger (en_batcher (ig_engine s)).

(** An answer of the server, with the ledger that ingest had at that moment. *)
Record Answer := mkAnswer {
  an_ledger : list LedgerEntry;
  an_request : Request;
  an_response : option Response
}.

Record Live := mkLive {
  lv_ingest : Ingest;
  lv_app : AppState;
  lv_answers : list Answer
}.

(** A step of ingest, a request, and the two steps that flush with requests between
    the writes. *)
Inductive LiveAction :=
| LIngest (a : IngestAction)
| LRequest (w : Draws) (q : Request)
| LProcess (env : ProcEnv) (reqs : list (Draws * Request))
| LFinish (env : FlushEnv) (reqs : list (Draws * Request)).

(** The disk changes under the engine. *)
Definition set_disk (s : Ingest) (d : Disk) : Ingest :=
  let e := ig_engine s in
  set_engine s (ig_phase s) (ig_batch s)
    (mkEngine _ (en_parsed e) (en_blocks e) (en_anomalies e) (en_miner e) (en_batcher e) d) (ig_logs s).

(** The requests that the server handles on a disk: what becomes of the disk, of the
    server, and the answers. *)
Definition serve_mid (reqs : list (Draws * Request)) (app : AppState) (d : Disk) : Disk * (AppState * list (Request * option Response)) :=
  let '(rs, d', app') := serve_requests read_dir reqs d app in (d', (app', zip reqs.*2 rs)).

(** Answers given while ingest is in state [s]; in the middle of a flush it has the
    ledger of before. *)
Definition answered (s : Ingest) (answers : list (Request * option Response)) : list Answer :=
  (fun x => mkAnswer (live_ledger s) x.1 x.2) <$> answers.

Definition live_next (l : Live) (x : Ingest * option (AppState * list (Request * option Response))) : Live :=
  match x.2 with
  | Some (app, answers) => mkLive x.1 app (lv_answers l ++ answered (lv_ingest l) answers)
  | None => mkLive x.1 (lv_app l) (lv_answers l)
  end.

Definition live_exec (n : nat) (a : LiveAction) (l : Live) : option Live :=
  let s := lv_ingest l in
  match a with
  | LIngest a => s' <-! ingest_exec n a s; Some (mkLive s' (lv_app l) (lv_answers l))
  | LRequest w q =>
      let '(r, d, app) := handle read_dir w q (en_disk (ig_engine s)) (lv_app l) in
      Some (mkLive (set_disk s d) app (lv_answers l ++ answered s [(q, r)]))
  | LProcess env reqs =>
      if consuming (ig_phase s)
      then match ig_batch s with
           | raw :: rest => if is_line raw then Some (live_next l (consume_via (serve_mid reqs (lv_app l)) env raw rest s)) else None
           | [] => None
           end
      else None
  | LFinish env reqs =>
      match ig_phase s, ig_batch s with
      | Draining, [] =>
          match pop_lines n s with
          | Some ([], s1) => Some (live_next l (final_flush_via (serve_mid reqs (lv_app l)) env s1))
          | _ => None
          end
      | _, _ => None
      end
  end.

Fixpoint live_run (n : nat) (acts : list LiveAction) (l : Live) : option Live :=
  match acts with
  | [] => Some l
  | a :: acts' => l1 <-! live_exec n a l; live_run n acts' l1
  end.

End Live.
