(* ===== verification/LiveFacts.v ===== *)
(** * Facts on a running ingest with a server beside it

    The guarantees of ingest survive whatever requests come in between, also
    between the two writes of a flush, and every list of blocks that the server
    gives is the ledger of its moment, all of it valid. *)

From S2P Require Import Live IngestFacts CliFacts ServeFacts RouterFacts.

Section Live.
Context `{Sha256} `{HexLib} `{UnicodeLib} `{ChronoLib} `{RegexLib} `{JsonLib} `{AhoCorasick} `{RegexEngine}
  `{ArrowLib} `{PQ : ParquetLib} `{LedgerJson} `{EventJson} `{RegexExpand} `{!FileBytes} `{!LedgerValue} `{UnicodeText} `{DefinitionJson}.
Context (read_dir : Disk -> string -> Result string (list string)).

(** ** Logs and ledger only grow *)

Definition extends (b b' : BatchAccumulator) : Prop := in_memory_ledger b `prefix_of` in_memory_ledger b' /\ config b' = config b.

Lemma flush_ledger env b d r b' d' : flush env b d = Some (r, b', d') -> extends b b'.
Proof.
  unfold flush. destruct (is_nil (buffer b)); [by intros [= <- <- <-]|]. destruct (from_raw_logs _); [|done].
  destruct (write_records_to_parquet _ _ _ _ _) as [[?|?] ?]; [|by intros [= <- <- <-]].
  destruct (append_ledger_entry _ _ _ _) as [[?|?] ?]; intros [= <- <- <-]; [|done]. split; [by eexists|done].
Qed.

Lemma push_ledger t0 t1 env log b d r b' d' : Batcher.push t0 t1 env log b d = Some (r, b', d') -> extends b b'.
Proof. unfold Batcher.push. destruct (should_flush _ _); [by intros E%flush_ledger|by intros [= <- <- <-]]. Qed.

Lemma process_ledger env raw e r e' log : process_log env raw e = Some (r, e', log) -> extends (en_batcher e) (en_batcher e').
Proof.
  unfold process_log. destruct (parse_lossless _ raw); [|done]. destruct (add_log _ _ _ raw) as [[? ?]|]; [|done].
  destruct (Batcher.push _ _ _ _ _ _) as [[[[?|?] ?] ?]|] eqn:E; [| |done]; apply push_ledger in E; by intros [= <- <- <-].
Qed.

Definition live_config (s : Ingest) : BatcherConfig := config (en_batcher (ig_engine s)).

Definition grows (s s' : Ingest) : Prop :=
  ig_logs s `prefix_of` ig_logs s' /\ live_ledger s `prefix_of` live_ledger s' /\ live_config s' = live_config s.

Lemma grows_refl s : grows s s.
Proof. done. Qed.

Lemma ingest_exec_grows n a s s' : ingest_exec n a s = Some s' -> grows s s'.
Proof.
  destruct a; cbn [ingest_exec]; unfold pop_lines, final_flush, consume; intros E; unfold grows, live_ledger, live_config;
    repeat (case_match; simplify_eq/=); try done;
    (split; [first [done|by eexists]|first [by eapply process_ledger|by eapply flush_ledger]]).
Qed.

(** ** The invariant *)

Context (args : IngestArgs).

(** The ledger at the time of an answer is a prefix of [ledger], and an answer to
    [GET /blocks] lists all of it, each block as valid. *)
Definition answer_ok (ledger : list LedgerEntry) (x : Answer) : Prop :=
  an_ledger x `prefix_of` ledger /\
  (an_request x = RBlocks -> exists items, an_response x = Some (ABlocks items) /\ Forall2 listed_ok (an_ledger x) items).

Lemma answer_ok_grows l l' x : l `prefix_of` l' -> answer_ok l x -> answer_ok l' x.
Proof. intros Hp [Ha Hq]. split; [by etrans|done]. Qed.

(** What a request is answered while the ledger is [ledger]. *)
Definition lists_ledger (ledger : list LedgerEntry) (x : Request * option Response) : Prop :=
  x.1 = RBlocks -> exists items, x.2 = Some (ABlocks items) /\ Forall2 listed_ok ledger items.

Lemma answered_ok s answers : Forall (lists_ledger (live_ledger s)) answers -> Forall (answer_ok (live_ledger s)) (answered s answers).
Proof. intros HF. apply Forall_fmap. eapply Forall_impl; [exact HF|]. intros x Hx. by split. Qed.

Definition apart (app : AppState) : Prop := ~ drill_file app (ia_ledger args) /\ ~ parser_file app (ia_ledger args).

Record live_inv (l : Live) : Prop := {
  li_ingest : ingest_inv (ingest_batcher_config args) (ia_batch_size args) (lv_ingest l);
  li_lines : lines_inv (lv_ingest l);
  li_config : live_config (lv_ingest l) = ingest_batcher_config args;
  li_serves : serves args (lv_app l);
  li_apart : apart (lv_app l);
  li_answers : bounded (ia_batch_size args) (ig_logs (lv_ingest l)) -> Forall (answer_ok (live_ledger (lv_ingest l))) (lv_answers l)
}.

Definition live_good (a : LiveAction) : Prop :=
  match a with LIngest a => action_good a | LRequest _ _ => True | LProcess env _ => good_proc env | LFinish env _ => good_env env end.

Lemma bounded_prefix n l l' : l `prefix_of` l' -> bounded n l' -> bounded n l.
Proof. intros [k ->]. apply bounded_app. Qed.

(** ** Requests *)

(** What requests keep of a disk: the evidence and the ledger. *)
Record keeps (d d' : Disk) : Prop := {
  kp_blocks : forall j, blocks d' !! path_join (ia_parquet_dir args) (block_filename j) = blocks d !! path_join (ia_parquet_dir args) (block_filename j);
  kp_ledger : texts d' !! ia_ledger args = texts d !! ia_ledger args
}.

Lemma keeps_represents hist b d d' : keeps d d' -> represents (ingest_batcher_config args) hist b d ->
  represents (ingest_batcher_config args) hist b d'.
Proof. intros [Kb Kt] HR. eapply represents_same; [exact HR| |exact Kt]. intros k _. apply Kb. Qed.

Lemma request_keeps w q d app r d' app' : serves args app -> apart app -> handle read_dir w q d app = (r, d', app') ->
  keeps d d' /\ serves args app' /\ apart app' /\
  (forall hist b, represents (ingest_batcher_config args) hist b d -> lists_ledger (in_memory_ledger b) (q, r)).
Proof.
  intros [Sd Sl] [Ad Ap] E. destruct (handle_confined read_dir w q d app r d' app' E) as [HD He _ Ht _ _].
  destruct (same_dirs_paths _ _ HD) as (_ & Pd & Pp). split_and!.
  - split; [|by apply Ht]. intros j. specialize (He j). unfold evidence_path in He. by rewrite Sd in He.
  - destruct HD as (D1 & D2 & _). split; congruence.
  - split; [by intros ?%Pd|by intros ?%Pp].
  - intros hist b HR Hq. simpl in Hq. subst q. destruct (blocks_listed _ hist b d app HR Sd Sl) as (items & Ei & HF).
    cbn [handle] in E. rewrite Ei in E. simplify_eq/=. by exists items.
Qed.

Lemma requests_keep reqs : forall d app rs d' app', serves args app -> apart app ->
  serve_requests read_dir reqs d app = (rs, d', app') -> keeps d d' /\ serves args app' /\ apart app' /\
  (forall hist b, represents (ingest_batcher_config args) hist b d -> Forall (lists_ledger (in_memory_ledger b)) (zip reqs.*2 rs)).
Proof.
  induction reqs as [|[w q] reqs IH]; intros d app rs d' app' Hs Ha; cbn [serve_requests]; [intros [= <- <- <-]; split_and!; try done; constructor|].
  destruct (handle read_dir w q d app) as [[r d1] app1] eqn:E1. destruct (serve_requests read_dir reqs d1 app1) as [[rs1 d2] app2] eqn:E2.
  intros [= <- <- <-]. destruct (request_keeps _ _ _ _ _ _ _ Hs Ha E1) as ([K1 K2] & Hs1 & Ha1 & Hok).
  destruct (IH _ _ _ _ _ Hs1 Ha1 E2) as ([K3 K4] & Hs2 & Ha2 & Hok2). split_and!; try done.
  - split; [intros j; by rewrite K3|by rewrite K4].
  - intros hist b HR. cbn. constructor; [by eapply Hok|]. eapply Hok2. by eapply keeps_represents.
Qed.

(** A disk with the same blocks, up to the current one, and ledger serves ingest as
    well. *)
Definition keeps_archive (s : Ingest) (d : Disk) : Prop :=
  (forall k : nat, Z.of_nat k <> current_block_id (en_batcher (ig_engine s)) -> (Z.of_nat k <= u64_max)%Z ->
     (0 <= current_block_id (en_batcher (ig_engine s)) <= u64_max)%Z ->
     blocks d !! block_path (ingest_batcher_config args) k = blocks (en_disk (ig_engine s)) !! block_path (ingest_batcher_config args) k) /\
  texts d !! ia_ledger args = texts (en_disk (ig_engine s)) !! ia_ledger args.

Lemma archive_represents s d hist : keeps_archive s d -> (Z.of_nat (length hist) <= u64_max)%Z ->
  represents (ingest_batcher_config args) hist (en_batcher (ig_engine s)) (en_disk (ig_engine s)) ->
  represents (ingest_batcher_config args) hist (en_batcher (ig_engine s)) d.
Proof.
  intros [Hb Ht] Hl HR. eapply represents_same; [exact HR| |exact Ht]. intros k Hk. pose proof (rep_next _ _ _ _ HR) as Hn.
  apply Hb; rewrite ?Hn; lia.
Qed.

Lemma hist_bounded (hist : list Flushed) (logs buf : list IncomingLog) : Forall (fun x => x.2 <> []) hist ->
  concat hist.*2 ++ buf = logs -> bounded (ia_batch_size args) logs -> (Z.of_nat (length hist) <= u64_max)%Z.
Proof. intros Hne <- [_ Hl]. pose proof (hist_length hist Hne). rewrite length_app in Hl. lia. Qed.

Lemma set_disk_inv s d : ingest_inv (ingest_batcher_config args) (ia_batch_size args) s -> keeps_archive s d ->
  ingest_inv (ingest_batcher_config args) (ia_batch_size args) (set_disk s d).
Proof.
  intros [Iq Id Ie Ic Icr If] HK. split; simpl; try done. intros Hbd. destruct (Ie Hbd) as [(hist & HR & Hinv & Hc) Hf].
  split; [|done]. exists hist. split_and!; [|done|done]. apply archive_represents; [done| |done].
  by eapply hist_bounded; [apply (rep_nonempty _ _ _ _ HR)| |].
Qed.

Lemma keeps_keeps_archive s d : keeps (en_disk (ig_engine s)) d -> keeps_archive s d.
Proof. intros [K1 K2]. split; [intros k _ _ _; apply K1|done]. Qed.

(** Requests on a disk whose archive is that of ingest. *)
Lemma served_inv l reqs d rs d' app' : live_inv l -> keeps_archive (lv_ingest l) d ->
  serve_requests read_dir reqs d (lv_app l) = (rs, d', app') ->
  keeps d d' /\ live_inv (mkLive (set_disk (lv_ingest l) d') app' (lv_answers l ++ answered (lv_ingest l) (zip reqs.*2 rs))).
Proof.
  intros [Ii Iln Icf Is Iap Ia] HK E. destruct (requests_keep _ _ _ _ _ _ Is Iap E) as (Kd & Hs & Ha & Hok).
  split; [done|]. split; cbn [lv_ingest lv_app lv_answers]; [|exact Iln|exact Icf|done|done|].
  - apply set_disk_inv; [done|]. destruct HK as [K1 K2], Kd as [K3 K4]. split; [|by rewrite K4].
    intros k H1' H2' H3'. rewrite <- (K1 k) by done. apply K3.
  - intros Hb. apply Forall_app. split; [by apply Ia|]. destruct (ii_engine _ _ _ Ii Hb) as [(hist & HR & _ & Hc) _].
    change (live_ledger (set_disk (lv_ingest l) d')) with (live_ledger (lv_ingest l)).
    apply answered_ok, (Hok hist (en_batcher (ig_engine (lv_ingest l)))). apply archive_represents; [done| |done]. by eapply hist_bounded; [apply (rep_nonempty _ _ _ _ HR)| |].
Qed.

(** ** A flush with requests between its writes *)

(** Such a flush is a flush, or, if it came to its second write, one on the disk
    that the requests left: writing the block again would change nothing. *)
Definition flushes_late {A B} (mid : Disk -> Disk * A) (path : string) (d : Disk) (run : Disk -> option B) (r : option (B * option A)) : Prop :=
  (exists x, r = Some (x, None) /\ run d = Some x) \/ (r = None /\ run d = None) \/
  exists f x a d2, mid (mkDisk _ (<[path := f]> (blocks d)) (texts d)) = (d2, a) /\ r = Some (x, Some a) /\
    (blocks d2 !! path = Some f -> run d2 = Some x).

Lemma write_records_ok fx fs path records comp fs' : write_records_to_parquet fx fs path records comp = (Ok tt, fs') ->
  exists f, fs' = <[path := f]> fs /\ forall fs2, write_records_to_parquet fx fs2 path records comp = (Ok tt, <[path := f]> fs2).
Proof.
  unfold write_records_to_parquet, write_parquet_file. destruct (records_to_batch records); [|done].
  destruct (fail_create_dir fx), (fail_create_file fx), (fail_write fx); try done. intros [= <-]. eauto.
Qed.

Definition next_path (b : BatchAccumulator) : string := path_join (storage_dir (config b)) (block_filename (current_block_id b)).

Lemma flush_via_late {A} (mid : Disk -> Disk * A) env b d : flushes_late mid (next_path b) d (flush env b) (flush_via mid env b d).
Proof.
  unfold flushes_late, flush_via, flush. destruct (is_nil (buffer b)); [left; by eexists|].
  destruct (from_raw_logs _) as [tree|]; [|by right; left].
  destruct (write_records_to_parquet _ (blocks d) _ _ _) as [[[]|e] fs] eqn:E; [|left; by eexists].
  apply write_records_ok in E as (f & -> & Hw). right. right. unfold next_path.
  destruct (mid _) as [d2 a] eqn:Em. destruct (append_ledger_entry _ _ d2 _) as [[u|e] d3] eqn:Ea.
  all: eexists f, _, a, d2; split; [exact Em|]; split; [reflexivity|]; intros Hf; rewrite Hw;
    pose proof (insert_id _ _ _ Hf) as Hid; unfold BlockStore in *; rewrite Hid;
    assert (mkDisk _ (blocks d2) (texts d2) = d2) as -> by (by destruct d2); by rewrite Ea.
Qed.

Lemma push_via_late {A} (mid : Disk -> Disk * A) t0 t1 env log b d :
  flushes_late mid (next_path b) d (Batcher.push t0 t1 env log b) (push_via mid t0 t1 env log b d).
Proof. unfold push_via, Batcher.push. destruct (should_flush _ _); [|left; by eexists].
  exact (flush_via_late mid env (mkBatcher _ _ _ _ _) d). Qed.

Definition with_disk (e : Engine) (d : Disk) : Engine :=
  mkEngine _ (en_parsed e) (en_blocks e) (en_anomalies e) (en_miner e) (en_batcher e) d.

Lemma process_via_late {A} (mid : Disk -> Disk * A) env raw e :
  flushes_late mid (next_path (en_batcher e)) (en_disk e) (fun d => process_log env raw (with_disk e d)) (process_via mid env raw e).
Proof.
  unfold flushes_late, process_via, process_log, with_disk. cbn [en_parsed en_blocks en_anomalies en_miner en_batcher en_disk].
  destruct (parse_lossless _ raw) as [event|]; [|by right; left].
  destruct (add_log _ _ _ raw) as [[cr m]|]; [|by right; left].
  destruct (push_via_late mid (pr_t0 env) (pr_t1 env) (pr_flush env) (incoming_of event raw) (en_batcher e) (en_disk e))
    as [([[r b] d] & -> & ->)|[[-> ->]|(f & [[r b] d] & a & d2 & Hm & -> & Hr)]].
  - left. destruct r; by eexists.
  - by right; left.
  - right. right. destruct r; eexists f, _, a, d2; (split; [exact Hm|]; split; [reflexivity|]); intros Hf; by rewrite (Hr Hf).
Qed.

(** ** Steps of both processes *)

Lemma ingest_step_inv s app answers a s' : live_inv (mkLive s app answers) -> action_good a ->
  ingest_exec (ia_batch_size args) a s = Some s' -> live_inv (mkLive s' app answers).
Proof.
  intros [Ii Iln Icf Is Iap Ia] Hg E. destruct (ingest_exec_grows _ _ _ _ E) as (Gl & Gg & Gc).
  split; cbn [lv_ingest lv_app lv_answers] in *; [by eapply ingest_exec_inv|by eapply ingest_exec_lines|congruence|done|done|].
  intros Hb. eapply Forall_impl; [apply Ia; by eapply bounded_prefix|]. intros x. by apply answer_ok_grows.
Qed.

(** What a step [a] with requests in its middle amounts to: the step, or the
    requests on a disk that has the block, then the step. *)
Definition settles {A} (mid : Disk -> Disk * A) (a : IngestAction) (s : Ingest) (x : Ingest * option A) : Prop :=
  (ingest_exec (ia_batch_size args) a s = Some x.1 /\ x.2 = None) \/
  exists f y d2, let d := en_disk (ig_engine s) in
    let path := next_path (en_batcher (ig_engine s)) in
    mid (mkDisk _ (<[path := f]> (blocks d)) (texts d)) = (d2, y) /\ x.2 = Some y /\
    (blocks d2 !! path = Some f -> ingest_exec (ia_batch_size args) a (set_disk s d2) = Some x.1).

Lemma engine_disk e : with_disk e (en_disk e) = e.
Proof. by destruct e. Qed.

Lemma consume_via_settles {A} (mid : Disk -> Disk * A) env raw rest s : consuming (ig_phase s) = true -> ig_batch s = raw :: rest ->
  is_line raw = true -> settles mid (Process env) s (consume_via mid env raw rest s).
Proof.
  intros Hc Hb Hl. unfold settles, consume_via. cbn [ingest_exec set_disk set_engine ig_phase ig_batch]. rewrite Hc, Hb. unfold consume. rewrite Hl.
  destruct (process_via_late mid env raw (ig_engine s)) as [([[r e] log] & -> & Hr)|[[-> Hr]|(f & [[r e] log] & y & d2 & Hm & -> & Hr)]].
  - left. rewrite engine_disk in Hr. rewrite Hr. by destruct r.
  - left. rewrite engine_disk in Hr. by rewrite Hr.
  - right. exists f, y, d2. split; [done|]. split; [by destruct r|]. intros Hf. specialize (Hr Hf). unfold with_disk in Hr.
    cbn [set_disk set_engine ig_engine ig_queue ig_tasks ig_total_ingested ig_logs]. rewrite Hr. by destruct r.
Qed.

Lemma final_flush_via_settles {A} (mid : Disk -> Disk * A) env s s1 : ig_phase s = Draining -> ig_batch s = [] ->
  pop_lines (ia_batch_size args) s = Some ([], s1) -> settles mid (Finish env) s (final_flush_via mid env s1).
Proof.
  intros Hph Hb. unfold settles, pop_lines, final_flush_via. cbn [ingest_exec set_disk set_engine ig_phase ig_batch ig_queue]. rewrite Hph, Hb.
  unfold pop_lines. cbn [ig_queue]. destruct (exec _ _) as [q|] eqn:Eq; [|done]. intros [= Hd <-]. cbn [ig_queue]. rewrite Hd. unfold final_flush.
  cbn [set_queue ig_engine en_batcher en_disk].
  destruct (flush_via_late mid env (en_batcher (ig_engine s)) (en_disk (ig_engine s)))
    as [([[r b] d] & -> & ->)|[[-> ->]|(f & [[r b] d] & y & d2 & Hm & -> & Hr)]].
  - left. by destruct r.
  - by left.
  - right. exists f, y, d2. split; [done|]. split; [by destruct r|]. intros Hf.
    specialize (Hr Hf). cbn [set_disk set_engine set_queue ig_engine ig_queue en_batcher en_disk]. rewrite Eq, Hd. cbn [set_disk set_engine set_queue ig_engine en_batcher en_disk]. rewrite Hr. by destruct r.
Qed.

Lemma next_path_args s : live_config s = ingest_batcher_config args ->
  next_path (en_batcher (ig_engine s)) = path_join (ia_parquet_dir args) (block_filename (current_block_id (en_batcher (ig_engine s)))).
Proof. unfold next_path, live_config. by intros ->. Qed.

Lemma settles_inv l a reqs x : live_inv l -> action_good a -> settles (serve_mid read_dir reqs (lv_app l)) a (lv_ingest l) x ->
  live_inv (live_next l x).
Proof.
  intros I Hg [[E Hx]|(f & y & d2 & Hm & Hx & Hr)]; unfold live_next; rewrite Hx; [destruct l; by eapply ingest_step_inv|].
  revert Hm. unfold serve_mid. destruct (serve_requests _ _ _ _) as [[rs d'] app'] eqn:Es. intros [= -> <-].
  apply (served_inv l) in Es as [Kd I2]; [|done|].
  - eapply ingest_step_inv; [exact I2|done|]. apply Hr. rewrite next_path_args by apply I.
    rewrite (kp_blocks _ _ Kd). cbn [blocks]. rewrite next_path_args by apply I. unfold BlockStore. apply lookup_insert_eq.
  - split; [|done]. intros k Hk Hk1 Hcur. cbn [blocks]. unfold BlockStore. apply lookup_insert_ne. rewrite next_path_args by apply I.
    intros E%path_join_inj%block_filename_inj; lia.
Qed.

Lemma live_exec_inv a l l' : live_inv l -> live_good a -> live_exec read_dir (ia_batch_size args) a l = Some l' -> live_inv l'.
Proof.
  intros I Hg. destruct a as [a|w q|env reqs|env reqs]; cbn [live_exec].
  - destruct (ingest_exec _ _ _) as [s'|] eqn:E; [|done]. intros [= <-]. destruct l. by eapply ingest_step_inv.
  - destruct (handle read_dir w q _ _) as [[r d] app] eqn:E. intros [= <-].
    apply (served_inv l [(w, q)] (en_disk (ig_engine (lv_ingest l))) [r] d app); [done|by apply keeps_keeps_archive|].
    cbn [serve_requests]. by rewrite E.
  - destruct (consuming _) eqn:Hc; [|done]. destruct (ig_batch _) as [|raw rest] eqn:Hb; [done|]. destruct (is_line raw) eqn:Hl; [|done].
    intros [= <-]. eapply settles_inv; [done| |by apply consume_via_settles]. exact Hg.
  - destruct (ig_phase _) eqn:Hph; try done. destruct (ig_batch _) eqn:Hb; [|done]. destruct (pop_lines _ _) as [[[|? ?] s1]|] eqn:Hp; try done.
    intros [= <-]. eapply settles_inv; [done| |by eapply final_flush_via_settles]. exact Hg.
Qed.

Lemma start_config s : ingest_start args empty_disk = Ok s -> live_config s = ingest_batcher_config args.
Proof.
  unfold ingest_start. destruct (validate_ingest_args args); [|done].
  unfold batcher_new. by destruct (match texts _ !! _ with Some _ => _ | None => _ end); [intros [= <-]|].
Qed.

Lemma live_run_inv acts : forall l l', live_inv l -> Forall live_good acts -> live_run read_dir (ia_batch_size args) acts l = Some l' ->
  live_inv l'.
Proof.
  induction acts as [|a acts IH]; intros l l' I HF; cbn [live_run]; [by intros [= <-]|].
  apply Forall_cons in HF as [Ha HF]. destruct (live_exec read_dir _ a l) as [l1|] eqn:E; [|done]. apply IH; [|done].
  by eapply live_exec_inv.
Qed.

(** C8: ingest and a server over the same directory do not disturb each other.  Ingest
    starts on an empty disk, has no disk faults of its own, and no lines that can
    fill one block have more than 128 vendors; the ledger is not in a place where
    the server keeps its drill copies and parser files.  Then in
    every interleaving of the steps of ingest with
    requests of any kind, also between the two writes of a flush, under any faults
    of the server's and whether or not handlers panic,
    ingest has lost, duplicated and reordered nothing: the lines accepted are those
    in the blocks, pending, in work and queued, in order, and under the default
    policy those whose push returned [Ok]; no flush has failed, and the consumer
    panics only on a line that is not ASCII; [verify] exits with 0 on the
    block of every ledger entry; and every list of blocks that the server has given
    on the way named every entry of the ledger that ingest had at that moment, in order,
    with all blocks valid, and that ledger is a prefix of what it is now. *)
Theorem live_archive_valid s0 app acts l : ingest_start args empty_disk = Ok s0 -> serves args app -> apart app ->
  Forall live_good acts -> live_run read_dir (ia_batch_size args) acts (mkLive s0 app []) = Some l ->
  bounded (ia_batch_size args) (ig_logs (lv_ingest l)) ->
  let s := lv_ingest l in
  (exists bs, archived args s bs /\
     accepted (ig_queue s) = (sr_raw_log <$> concat bs) ++ (il_raw_log <$> buffer (en_batcher (ig_engine s)))
       ++ ig_batch s ++ queue (inner (ig_queue s))) /\
  (policy (inner (ig_queue s)) = Block -> acked (ig_queue s) = accepted (ig_queue s)) /\
  (forall e, ig_phase s <> Ingest.Failed e) /\
  (Forall (fun l => all_bytes is_ascii l = true) (popped (ig_queue s)) -> ig_phase s <> Crashed) /\
  (forall e, e ∈ live_ledger s -> exit_code (run_verify (mkVerifyArgs (entry_file args e) (ia_ledger args)) (en_disk (ig_engine s))) = 0%Z) /\
  Forall (fun x => an_ledger x `prefix_of` live_ledger s /\
    (an_request x = RBlocks -> exists items, an_response x = Some (ABlocks items) /\ Forall2 listed_ok (an_ledger x) items)) (lv_answers l).
Proof.
  intros E0 Hs Ha HF E Hb. cbv zeta. destruct l as [s app' answers]. cbn [lv_ingest lv_answers] in *.
  assert (live_inv (mkLive s0 app [])) as I0 by (split; [by apply start_inv|by eapply start_lines|by eapply start_config|done|done|constructor]).
  destruct (live_run_inv acts _ _ I0 HF E) as [I Ln _ _ _ Ian]. cbn [lv_ingest lv_answers] in *.
  destruct (all_handed_on _ _ _ I Ln) as (done & Hacc & <-). destruct I as [Iq _ Ie _ Icr _]. destruct (Ie Hb) as [He Hf].
  destruct (holds_archived args s He) as (bs & HB & Hraw). destruct He as (hist & HR & _ & _). split_and!.
  - exists bs. split; [done|by rewrite Hacc, <- Hraw, <- !app_assoc].
  - intros Hp. by destruct (qi_block _ Iq Hp).
  - intros e Hph. by rewrite Hph in Hf.
  - intros HA Hph. destruct (Icr Hph) as (raw & Hin & Hn). rewrite Forall_forall in HA. by rewrite (HA _ Hin) in Hn.
  - unfold live_ledger. rewrite (rep_ledger _ _ _ _ HR). intros e (k & x & -> & Hx)%elem_of_lookup_imap_1.
    destruct (verify_accepts _ hist _ _ (en_disk (ig_engine s)) k x HR Hx eq_refl eq_refl) as (rep & Ev & _). by exact (f_equal exit_code Ev).
  - by apply Ian.
Qed.

End Live.

(** ** Witness *)

Module LiveDemo.
Import Demo TokenDemo ParserDemo RegexDemo ArrowDemo BatcherDemo IngestDemo CliDemo ExportDemo ServeDemo RouterDemo.

(** Lists, drills and an onboarding before, between and after the two blocks, and
    lists between the writes of each. *)
Definition live_acts : list LiveAction :=
  [LRequest (draws no_faults) RBlocks] ++ (LIngest <$> producing ++ [PopBatch; Process pr0])
  ++ [LProcess pr0 [(draws no_faults, RBlocks)]] ++ (uncurry LRequest <$> reqs) ++ (LIngest <$> [Signal; Notify; PopBatch; Process pr0])
  ++ [LRequest (draws no_faults) RBlocks; LFinish BatcherDemo.env [(draws no_faults, RBlocks)]; LRequest (draws no_faults) RBlocks].

Definition live_end : Live :=
  default (mkLive (started 2) app0 []) (live_run no_dirs 2 live_acts (mkLive (started 2) app0 [])).

Lemma live_acts_good : Forall live_good live_acts.
Proof. repeat constructor; simpl; lia. Qed.

Lemma live_archive_valid_witness :
  length (live_ledger (lv_ingest live_end)) = 2 /\ length (lv_answers live_end) = 10 /\
  length ∘ an_ledger <$> lv_answers live_end = [0; 0; 1; 1; 1; 1; 1; 1; 1; 2] /\
  Forall (answer_ok (live_ledger (lv_ingest live_end))) (lv_answers live_end).
Proof.
  destruct (live_archive_valid no_dirs (ingest_args 2) (started 2) app0 live_acts live_end) as (_ & _ & _ & _ & _ & HA).
  - vm_compute. reflexivity.
  - split; vm_compute; reflexivity.
  - exact ledger_apart.
  - exact live_acts_good.
  - vm_compute. reflexivity.
  - split; [apply few_vendors_small; vm_compute; lia|vm_compute; reflexivity].
  - split; [vm_compute; reflexivity|]. split; [vm_compute; reflexivity|]. split; [vm_compute; reflexivity|exact HA].
Defined.

End LiveDemo.
