(* ===== verification/Scorecard.v ===== *)
(** * The scorecard ([crates/ulpf-cli/src/scorecard.rs])

    The text box of [ulpf scorecard]: its lines, columns, numbers, gates and
    verdict.  A width counts characters. *)

From S2P Require Export ServeState.

(** ** Formatting *)

Definition box_width : nat := 100.
Definition label_width : nat := 36.
Definition value_width : nat := 21.
Definition delta_width : nat := 13.

Fixpoint repeat_str (n : nat) (s : string) : string := match n with O => "" | S n' => s +:+ repeat_str n' s end.

(** [s.chars().count()] *)
Definition char_count (s : string) : nat := length (chars s).

(** [{:<w$}], [{:>w$}] and [{:^w$}] *)
Definition pad_right (w : nat) (s : string) : string := s +:+ repeat_str (w - char_count s) " ".

Definition pad_left (w : nat) (s : string) : string := repeat_str (w - char_count s) " " +:+ s.

Definition center (w : nat) (s : string) : string :=
  let gap := w - char_count s in
  repeat_str (gap / 2) " " +:+ s +:+ repeat_str (gap - gap / 2) " ".

(** [{:+.n}]: with its sign *)
Definition fmt_signed (n : nat) (x : f64) : string :=
  match x with
  | SpecFloat.S754_nan => fmt_fixed n x
  | SpecFloat.S754_zero s | SpecFloat.S754_infinity s | SpecFloat.S754_finite s _ _ => (if s then "" else "+") +:+ fmt_fixed n x
  end.

(** [x.max(0.0)], which is 0 when [x] is not a number *)
Definition max_zero (x : f64) : f64 := if f64_lt f64_zero x then x else f64_zero.

Definition micro_sign : string := String "194" (String "181" "").

Definition rule (ch : string) : string := repeat_str box_width ch +:+ nl_str.
Definition title (text : string) : string := center box_width text +:+ nl_str.
Definition config_line (label value : string) : string := "  " +:+ pad_right 21 label +:+ ": " +:+ value +:+ nl_str.

Definition row (label b t d : string) : string :=
  pad_right label_width label +:+ " | " +:+ pad_right value_width b +:+ " | " +:+ pad_right value_width t +:+ " | "
  +:+ pad_right delta_width d +:+ nl_str.

Definition section_named (name c2 c3 c4 : string) : string := row name c2 c3 c4.
Definition section (name : string) : string := section_named name "BASELINE" "3-TIER PIPELINE" "VS BASE".

(** The loop of [commas] over the digits that are left. *)
Fixpoint commas_from (first : bool) (s : string) : string :=
  match s with
  | "" => ""
  | String c s' =>
      (if negb first && (String.length s mod 3 =? 0)%nat then "," else "") +:+ String c (commas_from false s')
  end.

Definition commas (n : Z) : string := commas_from true (uint_to_string n).
Definition commas_f (v : f64) : string := commas (f64_to_u64 (max_zero (f64_round v))).
Definition percent (v : f64) : string := fmt_fixed 2 v +:+ "%".
Definition us (v : f64) : string := fmt_fixed 2 v +:+ " " +:+ micro_sign +:+ "s".

Definition delta_pct (base new : f64) : string :=
  if f64_eq base f64_zero then "-"
  else fmt_signed 1 (f64_mul (f64_div (f64_sub new base) base) (f64_of_Z 100)) +:+ "%".

Definition ratio (base new : f64) : string :=
  if f64_eq base f64_zero then "-" else fmt_fixed 2 (f64_div new base) +:+ "x".

Definition pt_delta (base new : f64) : string :=
  if f64_lt (f64_abs (f64_sub new base)) (f64_lit 5 1000) then "=" else fmt_signed 1 (f64_sub new base) +:+ " pt".

Definition compression_delta (tiered baseline : Z) : string :=
  if (tiered =? baseline)%Z then "="
  else if (tiered <? baseline)%Z then fmt_fixed 1 (f64_div (f64_of_Z baseline) (f64_of_Z tiered)) +:+ "x fewer"
  else fmt_fixed 1 (f64_div (f64_of_Z tiered) (f64_of_Z baseline)) +:+ "x more".

Definition count_delta (vanilla tiered : nat) : string :=
  if (vanilla =? tiered)%nat then "="
  else if (tiered <? vanilla)%nat then pretty (vanilla - tiered) +:+ " fewer" else pretty (tiered - vanilla) +:+ " more".

(** ** Gates *)

Record GateRow := mkGate { g_label : string; g_measured : string; g_threshold : string; g_status : string }.

Definition pass_fail (b : bool) : string := if b then "PASS" else "FAIL".

(** [x >= 99.999] *)
Definition is_full (x : f64) : bool := f64_le (f64_lit 99999 1000) x.

Definition build_gates (report : EvaluationReport) (t : BenchmarkTierResult) : list GateRow :=
  let a := bt_accuracy t in
  [ mkGate "Action inviolability (ALLOW/DENY)" (percent (action_inviolability_pct a)) "must be 100%"
      (pass_fail (is_full (action_inviolability_pct a)));
    mkGate "Grouping accuracy (GA)" (percent (grouping_accuracy_ga_pct a)) "> 90%"
      (pass_fail (f64_lt (f64_of_Z 90) (grouping_accuracy_ga_pct a))) ]
  ++ match bt_tier_diagnostics t with
     | Some d => [mkGate "Tier-1 LRU hit ratio" (percent (f64_mul (tier1_lru_hit_rate d) (f64_of_Z 100))) "> 90%"
                    (pass_fail (f64_lt (f64_lit 90 100) (tier1_lru_hit_rate d)))]
     | None => []
     end
  ++ [ mkGate "Lossless SHA-256 (every line)" (percent (lossless_sha256_match_pct a)) "must be 100%"
         (pass_fail (is_full (lossless_sha256_match_pct a))) ]
  ++ (if (0 <? lines_total (bt_robustness t))%nat
      then [mkGate "No parse panics"
              (commas (Z.of_nat (no_panic (bt_robustness t))) +:+ " / " +:+ commas (Z.of_nat (lines_total (bt_robustness t))))
              "0 panics" (pass_fail (no_panic (bt_robustness t) =? lines_total (bt_robustness t))%nat)]
      else [])
  ++ [ mkGate "Median latency p50 (core gate)" (us (p50_micros (bt_latency t))) ("< 5.00 " +:+ micro_sign +:+ "s (core gate)")
         (if f64_lt (p50_micros (bt_latency t)) (f64_of_Z 5) then "PASS"
          else if String.eqb (er_corpus_kind report) "core" then "FAIL" else "TRACKED") ].

Definition count_status (st : string) (gs : list GateRow) : nat := length (List.filter (fun g => String.eqb (g_status g) st) gs).

Definition gate_tally (gs : list GateRow) : string :=
  "  Gates: " +:+ pretty (count_status "PASS" gs) +:+ "/" +:+ pretty (length gs) +:+ " PASS"
  +:+ (if (0 <? count_status "FAIL" gs)%nat then " (" +:+ pretty (count_status "FAIL" gs) +:+ " FAIL)" else "")
  +:+ (if (0 <? count_status "TRACKED" gs)%nat then " (" +:+ pretty (count_status "TRACKED" gs) +:+ " TRACKED - README 14)" else "").

(** ** The duel *)

Definition duel_round_rows (r : DuelRound) : list string :=
  let v := dr_vanilla r in
  let t := dr_tiered r in
  [ row (dr_name r +:+ " clusters") (commas (Z.of_nat (ds_clusters v))) (commas (Z.of_nat (ds_clusters t)))
      ("GT " +:+ commas (Z.of_nat (dr_gt_classes r)));
    row (dr_name r +:+ " grouping accuracy (GA)") (percent (ds_grouping_accuracy_pct v)) (percent (ds_grouping_accuracy_pct t))
      (pt_delta (ds_grouping_accuracy_pct v) (ds_grouping_accuracy_pct t)) ]
  ++ match ds_parsing_accuracy_pct v, ds_parsing_accuracy_pct t with
     | Some vp, Some tp =>
         [row (dr_name r +:+ " parsing accuracy (PA)") (percent vp) (percent tp) (pt_delta vp tp)]
         ++ match ds_template_f1_pct v, ds_template_f1_pct t with
            | Some vf, Some tf => [row (dr_name r +:+ " template F1 (FTA)") (percent vf) (percent tf) (pt_delta vf tf)]
            | _, _ => []
            end
     | _, _ => ["  " +:+ dr_name r +:+ ": PA/FTA n/a (sidecar GT is tag-level, not full templates)" +:+ nl_str]
     end
  ++ match ds_action_violations v, ds_action_violations t with
     | Some x, Some y => [row (dr_name r +:+ " mixed-action clusters") (pretty x) (pretty y) (count_delta x y)]
     | _, _ => ["  " +:+ dr_name r +:+ ": mixed-action n/a (corpus has no disposition ground truth)" +:+ nl_str]
     end
  ++ (let held := (dr_tiered_lossless_ok r =? dr_lines r)%nat && (dr_tiered_panics r =? 0)%nat in
      let capability := if (dr_tiered_panics r =? 0)%nat
                        then pretty (dr_tiered_lossless_ok r) +:+ "/" +:+ pretty (dr_lines r) +:+ " ok"
                        else pretty (dr_tiered_lossless_ok r) +:+ "/" +:+ pretty (dr_lines r) +:+ " ok, "
                             +:+ pretty (dr_tiered_panics r) +:+ " pan" in
      [row (dr_name r +:+ " 3-tier capability") "n/a (no storage)" capability (if held then "held" else "BREACH")]).

Definition duel_section (duel : option DuelReport) : string :=
  section_named "DUEL - VANILLA DRAIN vs 3-TIER" "VANILLA DRAIN" "3-TIER PIPELINE" "DELTA"
  +:+ match duel with
      | None => "  (duel skipped - no usable duel fixtures under <data-dir>/duel/)" +:+ nl_str
      | Some d =>
          let '(tw, vw) := ga_wins d in
          str_concat (concat (duel_round_rows <$> rounds d))
          +:+ row ("GA rounds won (of " +:+ pretty (length (rounds d)) +:+ ")") (pretty vw) (pretty tw)
                ("3-tier " +:+ pretty tw +:+ "-" +:+ pretty vw)
      end.

Definition duel_verdict (d : DuelReport) : string :=
  let '(tw, vw) := ga_wins d in
  let n := length (rounds d) in
  "  Duel: 3-tier " +:+ pretty tw +:+ "/" +:+ pretty n +:+ " GA rounds won (vanilla " +:+ pretty vw +:+ "/" +:+ pretty n
  +:+ ", " +:+ pretty (n - (tw + vw)) +:+ " ties)" +:+ nl_str.

(** ** The box *)

(** [str::to_uppercase] *)
Class UpperText := { to_uppercase : string -> string }.

Section Render.
Context `{UpperText}.

Definition run_section (report : EvaluationReport) : list string :=
  [ config_line "Execution Mode" (to_uppercase (er_mode report) +:+ " (baseline vs 3-tier)");
    config_line "CPU Threads" (pretty (er_threads report));
    config_line "Duration" (uint_to_string (er_duration_secs report) +:+ " seconds per engine");
    config_line "Corpus" (er_corpus_kind report +:+ ", " +:+ commas (Z.of_nat (er_corpus_size report)) +:+ " lines ("
      +:+ fmt_fixed 2 (f64_div (f64_of_Z (Z.of_nat (er_corpus_total_bytes report))) (f64_of_Z 1024)) +:+ " KB in RAM)");
    config_line "Generated" (er_timestamp report); rule "-" ].

Definition throughput_section (b t : HardwareThroughputSummary) : list string :=
  [ section "THROUGHPUT & BANDWIDTH";
    row "Events per second" (commas_f (events_per_sec b)) (commas_f (events_per_sec t)) (ratio (events_per_sec b) (events_per_sec t));
    row "Bandwidth (MB/s)" (fmt_fixed 2 (megabytes_per_sec b)) (fmt_fixed 2 (megabytes_per_sec t))
      (ratio (megabytes_per_sec b) (megabytes_per_sec t));
    row "Total events processed" (commas (total_processed b)) (commas (total_processed t))
      (ratio (f64_of_Z (total_processed b)) (f64_of_Z (total_processed t)));
    row "Per-core throughput EPS" (commas_f (per_core_eps b)) (commas_f (per_core_eps t)) (ratio (per_core_eps b) (per_core_eps t));
    rule "-" ].

Definition latency_labels : list (string * (LatencySummary -> f64)) :=
  [ ("Minimum latency (p0)", min_micros); ("1st percentile (p1)", p1_micros); ("Median latency (p50)", p50_micros);
    ("90th percentile (p90)", p90_micros); ("99th percentile (p99)", p99_micros); ("99.9th percentile (p99.9)", p999_micros);
    ("Worst case (max)", max_micros); ("Latency jitter (StdDev)", std_dev_micros) ].

Definition latency_section (b t : LatencySummary) : list string :=
  [section ("LATENCY DISTRIBUTION (" +:+ micro_sign +:+ "s)")]
  ++ ((fun l => row l.1 (us (l.2 b)) (us (l.2 t)) (delta_pct (l.2 b) (l.2 t))) <$> latency_labels) ++ [rule "-"].

Definition accuracy_labels : list (string * (AccuracyAuditSummary -> f64)) :=
  [ ("Vendor classification (VCA)", vendor_classification_accuracy_pct); ("Grouping accuracy (GA)", grouping_accuracy_ga_pct);
    ("Template accuracy (TA)", template_accuracy_ta_pct); ("Mean field accuracy", mean_field_accuracy_pct);
    ("  - source IP", src_ip_accuracy_pct); ("  - destination IP", dst_ip_accuracy_pct); ("  - source port", src_port_accuracy_pct);
    ("  - destination port", dst_port_accuracy_pct); ("  - protocol", protocol_accuracy_pct);
    ("Disposition resolution accuracy", disposition_accuracy_pct); ("UUIDv7 event IDs", valid_uuid_v7_pct) ].

Definition accuracy_section (b t : AccuracyAuditSummary) : list string :=
  [section "ACCURACY AUDIT (GROUND-TRUTH GRADED)"]
  ++ ((fun l => row l.1 (percent (l.2 b)) (percent (l.2 t)) (pt_delta (l.2 b) (l.2 t))) <$> accuracy_labels)
  ++ [ row "Action inviolability (ALLOW/DENY)" "n/a" (percent (action_inviolability_pct t))
         (if is_full (action_inviolability_pct t) then "100% held" else "BREACH");
       row "Unique templates (compression)" (commas (Z.of_nat (unique_clusters b))) (commas (Z.of_nat (unique_clusters t)))
         (compression_delta (Z.of_nat (unique_clusters t)) (Z.of_nat (unique_clusters b)));
       rule "-" ].

Definition telemetry_section (d : option TierDiagnosticsSummary) : list string :=
  [section "MULTI-TIER TELEMETRY"]
  ++ match d with
     | Some d =>
         [ row "Tier-1 LRU hit ratio" "n/a (no cache)" (percent (f64_mul (tier1_lru_hit_rate d) (f64_of_Z 100))) "-";
           row "Tier-2 Drain clusters" "0" (commas (Z.of_nat (tier2_clusters_count d))) "-";
           row "Tier-2 anchor tokens enforced" "n/a" (if tier2_unique_anchor_enforced d then "enforced" else "VIOLATED") "-";
           row "Tier-3 Laya dispatches" "0" (commas (td_laya_dispatches d)) "-";
           row "AI deduplication ratio" "n/a" (percent (tier3_ai_deduplication_pct d)) "-" ]
     | None => [row "Tier telemetry" "n/a" "not reported" "-"]
     end
  ++ [rule "-"].

Definition gate_section (gs : list GateRow) : list string :=
  [section_named "GATE CHECKS" "MEASURED" "THRESHOLD" "STATUS"]
  ++ ((fun g => row (g_label g) (g_measured g) (g_threshold g) (g_status g)) <$> gs) ++ [rule "="].

Definition verdict_section (report : EvaluationReport) (duel : option DuelReport) (report_path : string) (b t : BenchmarkTierResult)
    (gs : list GateRow) : list string :=
  let a := bt_accuracy t in
  let be := events_per_sec (bt_throughput b) in
  let te := events_per_sec (bt_throughput t) in
  [ "VERDICT" +:+ nl_str;
    "  VCA " +:+ percent (vendor_classification_accuracy_pct a) +:+ ", GA " +:+ percent (grouping_accuracy_ga_pct a) +:+ ", TA "
      +:+ percent (template_accuracy_ta_pct a) +:+ ", mean field accuracy " +:+ percent (mean_field_accuracy_pct a) +:+ nl_str;
    "  Latency: median " +:+ us (p50_micros (bt_latency t)) +:+ " (" +:+ delta_pct (p50_micros (bt_latency b)) (p50_micros (bt_latency t))
      +:+ "), p99 " +:+ us (p99_micros (bt_latency t)) +:+ " (" +:+ delta_pct (p99_micros (bt_latency b)) (p99_micros (bt_latency t))
      +:+ ") vs baseline" +:+ nl_str;
    "  Throughput: " +:+ commas_f te +:+ " EPS (" +:+ ratio be te +:+ " vs baseline)" +:+ nl_str;
    gate_tally gs +:+ nl_str ]
  ++ match duel with Some d => [duel_verdict d] | None => [] end
  ++ [ "  Report: " +:+ report_path +:+ nl_str;
       "  Re-run: ./target/release/ulpf scorecard --corpus " +:+ er_corpus_kind report +:+ nl_str; rule "=" ].

Definition render (report : EvaluationReport) (duel : option DuelReport) (report_path : string) : string :=
  match er_baseline report, er_tiered_pipeline report with
  | Some b, Some t =>
      let gs := build_gates report t in
      str_concat ([rule "="; title "ULPF SCORECARD - BASELINE vs 3-TIER PIPELINE"; rule "="]
        ++ run_section report
        ++ throughput_section (bt_throughput b) (bt_throughput t)
        ++ latency_section (bt_latency b) (bt_latency t)
        ++ accuracy_section (bt_accuracy b) (bt_accuracy t)
        ++ telemetry_section (bt_tier_diagnostics t)
        ++ [duel_section duel; rule "-"]
        ++ gate_section gs
        ++ verdict_section report duel report_path b t gs)
  | _, _ =>
      str_concat [rule "="; title "ULPF SCORECARD - EVALUATION INCOMPLETE"; "  Both engines were not measured. Run:" +:+ nl_str;
                  "  ./target/release/ulpf evaluate --engine all" +:+ nl_str; rule "="]
  end.

End Render.
