(* ===== verification/ScorecardFacts.v ===== *)
(** * The scorecard's numbers and columns *)

From S2P Require Export Scorecard ParserExportFacts.
From Stdlib Require Import ZifyNat.
Ltac Zify.zify_post_hook ::= Z.to_euclidean_division_equations.

(** ** Thousands *)

Lemma commas_groups s : all_bytes is_ascii_digit s = true -> exists g gs,
  split_char "," (commas_from false s) = g :: gs /\ String.length g = String.length s mod 3 /\
  Forall (fun x => String.length x = 3) gs /\ str_concat (g :: gs) = s.
Proof.
  induction s as [|c s IH]; intros Hs; [by exists "", []|]. apply andb_true_iff in Hs as [Hc Hs].
  destruct (IH Hs) as (g & gs & E & Hg & HF & Hcat). cbn [commas_from negb andb].
  assert (Ascii.eqb c "," = false) as Hn by (destruct (Ascii.eqb_spec c ","); [by subst|done]).
  destruct (Nat.eqb_spec (String.length (String c s) mod 3) 0) as [Hm|Hm]; cbn [String.length] in Hm; cbn [String.append split_char].
  - change (Ascii.eqb "," ",") with true. cbn iota. rewrite Hn, E. exists "", (String c g :: gs). cbn [String.length]. split_and!; [done|done| |].
    + constructor; [cbn [String.length]; lia|done].
    + rewrite !str_concat_cons in *. cbn [String.append]. by f_equal.
  - rewrite Hn, E. exists (String c g), gs. cbn [String.length]. split_and!; [done|lia|done|].
    rewrite !str_concat_cons in *. cbn [String.append]. by f_equal.
Qed.

(** [commas] groups by thousands: cut at its commas, the text of a number is
    one group of one to three digits followed by groups of exactly three, and
    the groups put together are the decimal digits of the number. *)
Theorem commas_grouping n : exists g gs, split_char "," (commas n) = g :: gs /\ 1 <= String.length g <= 3 /\
  Forall (fun x => String.length x = 3) gs /\ str_concat (g :: gs) = uint_to_string n.
Proof.
  unfold commas. pose proof (uint_to_string_ne n) as Hne. pose proof (pretty_N_digits (Z.to_N n)) as Hd. fold (uint_to_string n) in Hd.
  destruct (uint_to_string n) as [|c s]; [done|]. apply andb_true_iff in Hd as [Hc Hs].
  destruct (commas_groups s Hs) as (g & gs & E & Hg & HF & Hcat). cbn [commas_from negb andb String.append split_char].
  destruct (Ascii.eqb_spec c ",") as [->|_]; [done|]. rewrite E. exists (String c g), gs. cbn [String.length]. split_and!; [done|lia|lia|done|].
  rewrite !str_concat_cons in *. cbn [String.append]. by f_equal.
Qed.

(** ** Columns *)

Lemma char_count_app s t : utf8_valid s = true -> char_count (s +:+ t) = char_count s + char_count t.
Proof. intros Hs. unfold char_count. by rewrite chars_app, length_app. Qed.

Lemma repeat_spaces n : char_count (repeat_str n " ") = n /\ utf8_valid (repeat_str n " ") = true.
Proof. induction n as [|n [IH Hv]]; [done|]. simpl. split; [|done]. unfold char_count in *. rewrite chars_ascii_cons by done. simpl. by rewrite IH. Qed.

Lemma pad_right_count w s : utf8_valid s = true -> char_count (pad_right w s) = Nat.max w (char_count s) /\ utf8_valid (pad_right w s) = true.
Proof.
  intros Hs. unfold pad_right. destruct (repeat_spaces (w - char_count s)) as [Hc Hv].
  rewrite char_count_app, Hc, utf8_valid_app by done. split; [lia|done].
Qed.

(** A row lines up: it ends with a newline and has 100 columns, counted in
    characters, exactly when its four cells fit their columns of 36, 21, 21 and
    13; a cell that does not fit shifts what follows and is never cut. *)
Theorem row_aligned label b t d : utf8_valid label = true -> utf8_valid b = true -> utf8_valid t = true -> utf8_valid d = true ->
  char_count (row label b t d) = Nat.max 36 (char_count label) + Nat.max 21 (char_count b) + Nat.max 21 (char_count t) + Nat.max 13 (char_count d) + 10 /\
  (char_count (row label b t d) = S box_width <->
     char_count label <= label_width /\ char_count b <= value_width /\ char_count t <= value_width /\ char_count d <= delta_width).
Proof.
  intros Hl Hb Ht Hd. assert (char_count (row label b t d) =
    Nat.max 36 (char_count label) + Nat.max 21 (char_count b) + Nat.max 21 (char_count t) + Nat.max 13 (char_count d) + 10) as E.
  - unfold row. destruct (pad_right_count label_width label Hl) as [El Vl], (pad_right_count value_width b Hb) as [Eb Vb],
      (pad_right_count value_width t Ht) as [Et Vt], (pad_right_count delta_width d Hd) as [Ed Vd].
    rewrite !char_count_app, El, Eb, Et, Ed by done. change (char_count " | ") with 3. change (char_count nl_str) with 1.
    unfold label_width, value_width, delta_width. lia.
  - rewrite E. unfold box_width, label_width, value_width, delta_width. split; [done|]. lia.
Qed.

(** ** Gates *)

Lemma status_cases report t g : g ∈ build_gates report t -> g_status g = "PASS" \/ g_status g = "FAIL" \/ (g_status g = "TRACKED" /\ er_corpus_kind report <> "core").
Proof.
  assert (forall b, pass_fail b = "PASS" \/ pass_fail b = "FAIL") as Hp by (intros []; by auto).
  unfold build_gates. rewrite !elem_of_app, !elem_of_cons, !elem_of_nil. intros Hg.
  assert (forall l m th b, g = mkGate l m th (pass_fail b) -> g_status g = "PASS" \/ g_status g = "FAIL" \/ (g_status g = "TRACKED" /\ er_corpus_kind report <> "core")) as Hb.
  { intros l m th b ->. cbn [g_status]. destruct (Hp b); tauto. }
  destruct Hg as [[E|[E|[]]]|[Hg|[[E|[]]|[Hg|[E|[]]]]]]; try (by eapply Hb).
  - destruct (bt_tier_diagnostics t); [|by apply elem_of_nil in Hg]. apply list_elem_of_singleton in Hg. by eapply Hb.
  - destruct (_ <? _)%nat; [|by apply elem_of_nil in Hg]. apply list_elem_of_singleton in Hg. by eapply Hb.
  - subst g. cbn [g_status]. destruct (f64_lt _ _); [by left|]. destruct (String.eqb_spec (er_corpus_kind report) "core"); [by right; left|by right; right].
Qed.

Lemma count_status_cons st g gs : count_status st (g :: gs) = (if String.eqb (g_status g) st then 1 else 0) + count_status st gs.
Proof. unfold count_status. simpl. by destruct (String.eqb (g_status g) st). Qed.

(** The tally of the gates accounts for every gate: each one is counted as
    passed, failed or tracked and none twice; tracked is never used on the core
    corpus; and the scorecard says that all gates passed exactly when no gate
    failed and none was tracked. *)
Theorem gates_accounted report t : let gs := build_gates report t in
  count_status "PASS" gs + count_status "FAIL" gs + count_status "TRACKED" gs = length gs /\ 4 <= length gs <= 6 /\
  (er_corpus_kind report = "core" -> count_status "TRACKED" gs = 0) /\
  (count_status "PASS" gs = length gs <-> count_status "FAIL" gs = 0 /\ count_status "TRACKED" gs = 0).
Proof.
  intros gs. pose proof (status_cases report t) as Hc. fold gs in Hc.
  assert (4 <= length gs <= 6) as Hl by (unfold gs, build_gates; destruct (bt_tier_diagnostics t), (_ <? _)%nat; simpl; lia).
  clearbody gs. assert (count_status "PASS" gs + count_status "FAIL" gs + count_status "TRACKED" gs = length gs /\
    (er_corpus_kind report = "core" -> count_status "TRACKED" gs = 0)) as [Ht Hk]; [|split_and!; [done|lia|lia|done|lia]].
  clear Hl. induction gs as [|g gs IH]; [done|]. destruct IH as [IH1 IH2]; [intros g' Hg'; apply Hc; by right|].
  rewrite !count_status_cons. cbn [length]. destruct (Hc g) as [->|[->|[-> Hn]]]; [by left|..]; cbn [String.eqb Ascii.eqb Bool.eqb].
  - split; [simpl; lia|exact IH2].
  - split; [simpl; lia|exact IH2].
  - split; [simpl; lia|]. intros E. by destruct Hn.
Qed.

Module ScorecardDemo.

Example commas_demo : (commas 0, commas 999, commas 1000, commas 1234567) = ("0", "999", "1,000", "1,234,567").
Proof. vm_compute. reflexivity. Qed.

Lemma row_aligned_witness : char_count (row "Median latency (p50)" (us (f64_lit 302 100)) (us (f64_lit 128 100)) "-57.6%") = S box_width.
Proof.
  apply (row_aligned "Median latency (p50)" (us (f64_lit 302 100)) (us (f64_lit 128 100)) "-57.6%"); [vm_compute; reflexivity..|].
  vm_compute. lia.
Defined.

End ScorecardDemo.
