(* ===== verification/Report.v ===== *)
(** * The reports as text ([crates/ulpf-ai/src/evaluator.rs], [duel.rs])

    The terminal dashboard and the markdown of an evaluation, and the markdown
    of the duel, line by line. *)

From stdpp Require Import sorting.
From S2P Require Export Scorecard.

(** The lines of a text, each with its newline. *)
Definition unlines (ls : list string) : string := str_concat ((fun l => l +:+ nl_str) <$> ls).

(** A row of a markdown table. *)
Definition md_row (cells : list string) : string := "| " +:+ str_join " | " cells +:+ " |".

(** [{:.n}%] *)
Definition percent_n (n : nat) (x : f64) : string := fmt_fixed n x +:+ "%".

Definition corpus_kb (r : EvaluationReport) : f64 := f64_div (f64_of_Z (Z.of_nat (er_corpus_total_bytes r))) (f64_of_Z 1024).

(** ** The dashboard *)

(** A text in a colour of the terminal. *)
Definition ansi (code s : string) : string := String "027" ("[" +:+ code +:+ "m") +:+ s +:+ String "027" "[0m".
Definition cyan (s : string) : string := ansi "1;36" s.
Definition green (s : string) : string := ansi "1;32" s.
Definition yellow (s : string) : string := ansi "1;33" s.

Definition double_rule : string := cyan (repeat_str 104 "=").
Definition single_rule : string := cyan (repeat_str 104 "-").

Definition dash (label b t : string) : string := "  " +:+ pad_right 38 label +:+ " | " +:+ b +:+ " | " +:+ t.

Section Dashboard.
Context `{UpperText}.

Definition dash_head (r : EvaluationReport) : list string :=
  [ "";
    double_rule;
    green "                  ULPF HARDCORE ARCHITECTURAL & ACCURACY EVALUATOR SUITE                                ";
    double_rule;
    "  Execution Mode        : " +:+ yellow (to_uppercase (er_mode r));
    "  Workers / CPU Threads : " +:+ pretty (er_threads r);
    "  Evaluation Duration   : " +:+ uint_to_string (er_duration_secs r) +:+ " seconds per engine";
    "  Input Corpus Size     : " +:+ pretty (er_corpus_size r) +:+ " log records (" +:+ fmt_fixed 2 (corpus_kb r) +:+ " KB in RAM)";
    single_rule ].

Definition dash_dual (b t : BenchmarkTierResult) : list string :=
  [ dash "Evaluation Dimension" (pad_right 27 "Baseline (UniversalParser)") (pad_right 27 "3-Tier (LRU+Drain+Laya)");
    single_rule;
    dash "Throughput (Events/Sec)" (pad_right 27 (fmt_fixed 0 (events_per_sec (bt_throughput b))))
      (green (pad_right 27 (fmt_fixed 0 (events_per_sec (bt_throughput t)))));
    dash "Data Bandwidth Rate" (pad_right 24 (fmt_fixed 2 (megabytes_per_sec (bt_throughput b))) +:+ " MB/s")
      (green (pad_right 24 (fmt_fixed 2 (megabytes_per_sec (bt_throughput t))) +:+ " MB/s"));
    dash "Total Normalized Events" (pad_right 27 (uint_to_string (total_processed (bt_throughput b))))
      (pad_right 27 (uint_to_string (total_processed (bt_throughput t))));
    dash "Per-Core Throughput (EPS/core)" (pad_right 27 (fmt_fixed 0 (per_core_eps (bt_throughput b))))
      (pad_right 27 (fmt_fixed 0 (per_core_eps (bt_throughput t))));
    cyan "  ---------------------------------- LATENCY DISTRIBUTION SPECTRUM (µs) --------------------------------";
    dash "Minimum Latency (p0)" (pad_right 25 (fmt_fixed 2 (min_micros (bt_latency b))) +:+ " µs")
      (green (pad_right 25 (fmt_fixed 2 (min_micros (bt_latency t))) +:+ " µs"));
    dash "Fast-Path 1st %ile (p1)" (pad_right 25 (fmt_fixed 2 (p1_micros (bt_latency b))) +:+ " µs")
      (green (pad_right 25 (fmt_fixed 2 (p1_micros (bt_latency t))) +:+ " µs"));
    dash "Median Latency (p50)" (pad_right 25 (fmt_fixed 2 (p50_micros (bt_latency b))) +:+ " µs")
      (green (pad_right 25 (fmt_fixed 2 (p50_micros (bt_latency t))) +:+ " µs"));
    dash "90th Percentile (p90)" (pad_right 25 (fmt_fixed 2 (p90_micros (bt_latency b))) +:+ " µs")
      (green (pad_right 25 (fmt_fixed 2 (p90_micros (bt_latency t))) +:+ " µs"));
    dash "99th Percentile (p99)" (pad_right 25 (fmt_fixed 2 (p99_micros (bt_latency b))) +:+ " µs")
      (green (pad_right 25 (fmt_fixed 2 (p99_micros (bt_latency t))) +:+ " µs"));
    dash "Three Nines Tail (p99.9)" (pad_right 25 (fmt_fixed 2 (p999_micros (bt_latency b))) +:+ " µs")
      (green (pad_right 25 (fmt_fixed 2 (p999_micros (bt_latency t))) +:+ " µs"));
    dash "Worst Case (Max)" (pad_right 25 (fmt_fixed 2 (max_micros (bt_latency b))) +:+ " µs")
      (pad_right 25 (fmt_fixed 2 (max_micros (bt_latency t))) +:+ " µs");
    dash "Latency Jitter / StdDev (σ)" (pad_right 25 (fmt_fixed 2 (std_dev_micros (bt_latency b))) +:+ " µs")
      (green (pad_right 25 (fmt_fixed 2 (std_dev_micros (bt_latency t))) +:+ " µs"));
    cyan "  ---------------------------------- EXHAUSTIVE ACCURACY AUDIT (LOGHUB & SIEM) -------------------------";
    dash "Vendor Classification Accuracy (VCA)" (green (pad_right 27 (percent_n 2 (vendor_classification_accuracy_pct (bt_accuracy b)))))
      (green (pad_right 27 (percent_n 2 (vendor_classification_accuracy_pct (bt_accuracy t)))));
    dash "Academic Grouping Accuracy (GA %)" (pad_right 27 (percent_n 2 (grouping_accuracy_ga_pct (bt_accuracy b))))
      (green (pad_right 27 (percent_n 2 (grouping_accuracy_ga_pct (bt_accuracy t)))));
    dash "Academic Template Accuracy (TA %)" (pad_right 27 (percent_n 2 (template_accuracy_ta_pct (bt_accuracy b))))
      (green (pad_right 27 (percent_n 2 (template_accuracy_ta_pct (bt_accuracy t)))));
    dash "Field Extraction Mean Accuracy" (green (pad_right 27 (percent_n 2 (mean_field_accuracy_pct (bt_accuracy b)))))
      (green (pad_right 27 (percent_n 2 (mean_field_accuracy_pct (bt_accuracy t)))));
    dash "  • Source IP Accuracy" (pad_right 27 (percent_n 1 (src_ip_accuracy_pct (bt_accuracy b))))
      (pad_right 27 (percent_n 1 (src_ip_accuracy_pct (bt_accuracy t))));
    dash "  • Destination IP Accuracy" (pad_right 27 (percent_n 1 (dst_ip_accuracy_pct (bt_accuracy b))))
      (pad_right 27 (percent_n 1 (dst_ip_accuracy_pct (bt_accuracy t))));
    dash "  • Source Port Accuracy" (pad_right 27 (percent_n 1 (src_port_accuracy_pct (bt_accuracy b))))
      (pad_right 27 (percent_n 1 (src_port_accuracy_pct (bt_accuracy t))));
    dash "  • Destination Port Accuracy" (pad_right 27 (percent_n 1 (dst_port_accuracy_pct (bt_accuracy b))))
      (pad_right 27 (percent_n 1 (dst_port_accuracy_pct (bt_accuracy t))));
    dash "  • Protocol Accuracy" (pad_right 27 (percent_n 1 (protocol_accuracy_pct (bt_accuracy b))))
      (pad_right 27 (percent_n 1 (protocol_accuracy_pct (bt_accuracy t))));
    dash "Disposition Resolution Accuracy" (green (pad_right 27 (percent_n 2 (disposition_accuracy_pct (bt_accuracy b)))))
      (green (pad_right 27 (percent_n 2 (disposition_accuracy_pct (bt_accuracy t)))));
    dash "Action Inviolability (ALLOW vs DENY)" (pad_right 27 "N/A") (green (pad_right 27 (if f64_le (f64_of_Z 100)
      (action_inviolability_pct (bt_accuracy t)) then "100% PRESERVED" else "FAILED")));
    dash "Lossless SHA-256 Digest Integrity" (green (pad_right 27 (percent_n 2 (lossless_sha256_match_pct (bt_accuracy b)))))
      (green (pad_right 27 (percent_n 2 (lossless_sha256_match_pct (bt_accuracy t))))) ].

Definition dash_tiers (d : TierDiagnosticsSummary) : list string :=
  [ cyan "  ---------------------------------- MULTI-TIER INTERNAL TELEMETRY -------------------------------------";
    dash "Tier-1 LRU Cache Hit Ratio" (pad_right 27 "N/A (No Cache)")
      (yellow (pad_right 27 (percent_n 2 (f64_mul (tier1_lru_hit_rate d) (f64_of_Z 100)))));
    dash "Tier-2 Drain Clusters Discovered" (pad_right 27 "0") (pad_right 27 (pretty (tier2_clusters_count d)));
    dash "Tier-3 Laya Async Dispatches" (pad_right 27 "0") (pad_right 27 (uint_to_string (td_laya_dispatches d)));
    dash "AI Deduplication Ratio" (pad_right 27 "N/A") (green (pad_right 26 (fmt_fixed 2 (tier3_ai_deduplication_pct d)) +:+ "%")) ].

Definition dash_verdict (r : EvaluationReport) (t : BenchmarkTierResult) : list string :=
  [ double_rule;
    "  VERDICT: " +:+ green ("Accuracy: " +:+ fmt_fixed 2 (vendor_classification_accuracy_pct (bt_accuracy t)) +:+
      "% VCA | GA: " +:+ fmt_fixed 2 (grouping_accuracy_ga_pct (bt_accuracy t)) +:+ "% | Median Latency: -" +:+
      fmt_fixed 1 (default f64_zero (latency_reduction_p50_pct r)) +:+ "% | Tail (p99): -" +:+
      percent_n 1 (default f64_zero (latency_reduction_p99_pct r)));
    double_rule ].

Definition dash_single (x : BenchmarkTierResult) : list string :=
  [ "  Target Engine: " +:+ green (bt_name x);
    single_rule;
    "  Throughput (EPS)          : " +:+ green (fmt_fixed 0 (events_per_sec (bt_throughput x)) +:+ " Events/Sec");
    "  Data Bandwidth            : " +:+ green (fmt_fixed 2 (megabytes_per_sec (bt_throughput x)) +:+ " MB/s");
    "  Total Normalized Events   : " +:+ uint_to_string (total_processed (bt_throughput x));
    "  Per-Core Ingestion Speed  : " +:+ fmt_fixed 0 (per_core_eps (bt_throughput x)) +:+ " EPS / core";
    cyan "  --- LATENCY SPECTRUM ---";
    "  p1 (Fastest 1%)           : " +:+ fmt_fixed 2 (p1_micros (bt_latency x)) +:+ " µs";
    "  p50 (Median)              : " +:+ green (fmt_fixed 2 (p50_micros (bt_latency x)) +:+ " µs");
    "  p99 (99th %ile)           : " +:+ yellow (fmt_fixed 2 (p99_micros (bt_latency x)) +:+ " µs");
    "  Max (Worst Case)          : " +:+ fmt_fixed 2 (max_micros (bt_latency x)) +:+ " µs";
    "  Mean (µ) ± Jitter (σ)     : " +:+ fmt_fixed 2 (mean_micros (bt_latency x)) +:+ " µs ± " +:+
      fmt_fixed 2 (std_dev_micros (bt_latency x)) +:+ " µs";
    cyan "  --- ACCURACY AUDIT (LOGHUB & SIEM) ---";
    "  Vendor Classification (VCA): " +:+ green (percent_n 2 (vendor_classification_accuracy_pct (bt_accuracy x)));
    "  Grouping Accuracy (GA %)  : " +:+ green (percent_n 2 (grouping_accuracy_ga_pct (bt_accuracy x)));
    "  Template Accuracy (TA %)  : " +:+ green (percent_n 2 (template_accuracy_ta_pct (bt_accuracy x)));
    "  Mean Field Accuracy       : " +:+ green (percent_n 2 (mean_field_accuracy_pct (bt_accuracy x)));
    "  • Source IP Accuracy      : " +:+ percent_n 1 (src_ip_accuracy_pct (bt_accuracy x));
    "  • Destination IP Accuracy : " +:+ percent_n 1 (dst_ip_accuracy_pct (bt_accuracy x));
    "  • Source Port Accuracy    : " +:+ percent_n 1 (src_port_accuracy_pct (bt_accuracy x));
    "  • Destination Port Accuracy: " +:+ percent_n 1 (dst_port_accuracy_pct (bt_accuracy x));
    "  • Protocol Accuracy       : " +:+ percent_n 1 (protocol_accuracy_pct (bt_accuracy x));
    "  Disposition Accuracy      : " +:+ percent_n 2 (disposition_accuracy_pct (bt_accuracy x));
    "  Action Inviolability      : " +:+ percent_n 1 (action_inviolability_pct (bt_accuracy x));
    "  Lossless SHA-256 Digest   : " +:+ percent_n 2 (lossless_sha256_match_pct (bt_accuracy x)) ].

Definition dash_single_tiers (d : TierDiagnosticsSummary) : list string :=
  [ cyan "  --- TIER DIAGNOSTICS ---";
    "  Tier-1 LRU Hit Ratio      : " +:+ percent_n 2 (f64_mul (tier1_lru_hit_rate d) (f64_of_Z 100));
    "  Tier-2 Clusters Mined     : " +:+ pretty (tier2_clusters_count d);
    "  Tier-3 Laya Dispatches    : " +:+ uint_to_string (td_laya_dispatches d);
    "  AI Deduplication Ratio    : " +:+ percent_n 2 (tier3_ai_deduplication_pct d) ].

Definition render_terminal_dashboard (r : EvaluationReport) : string :=
  unlines (dash_head r ++
    match er_baseline r, er_tiered_pipeline r with
    | Some b, Some t =>
        dash_dual b t ++ match bt_tier_diagnostics t with Some d => dash_tiers d | None => [] end ++ dash_verdict r t
    | Some x, None | None, Some x =>
        dash_single x ++ match bt_tier_diagnostics x with Some d => dash_single_tiers d | None => [] end ++ [double_rule]
    | None, None => []
    end).

End Dashboard.

(** ** The markdown of an evaluation *)

(** The entries of a [BTreeMap], in the order of its keys. *)
Definition key_le (a b : string * nat) : Prop := String.leb a.1 b.1 = true.

#[global] Instance key_le_dec a b : Decision (key_le a b).
Proof. unfold key_le. apply _. Defined.

Definition wrong_by_key (m : gmap string nat) : string :=
  if bool_decide (m = ∅) then "—"
  else str_join ", " ((fun kv => kv.1 +:+ " " +:+ pretty kv.2) <$> merge_sort key_le (map_to_list m)).

Definition md_head (r : EvaluationReport) : list string :=
  [ "# ULPF Hardcore Architectural & Accuracy Telemetry Report";
    "";
    "**Timestamp:** " +:+ er_timestamp r +:+ "  ";
    "**Environment:** Linux (x86_64, 16 Cores) | **Workers:** " +:+ pretty (er_threads r) +:+ " parallel threads  ";
    "**Duration:** " +:+ uint_to_string (er_duration_secs r) +:+ "s per engine | **Corpus:** " +:+ pretty (er_corpus_size r) +:+
      " logs (" +:+ fmt_fixed 2 (corpus_kb r) +:+ " KB)  ";
    "**Corpus Kind:** `" +:+ er_corpus_kind r +:+ "` (core = fixed file set, adversarial/holdout = sidecar-GT corpora)  ";
    "";
    "---";
    "" ].

Definition md_telemetry (r : EvaluationReport) (b t : BenchmarkTierResult) : list string :=
  [ "## 1. Executive Telemetry & Accuracy Scorecard";
    "";
    md_row ["Benchmark Dimension"; "Baseline (`UniversalParser`)"; "3-Tier (`LRU+Drain+Laya`)"; "Speedup / Delta"];
    md_row [":---"; ":---:"; ":---:"; ":---:"];
    md_row ["**Throughput (EPS)**"; "**" +:+ fmt_fixed 0 (events_per_sec (bt_throughput b)) +:+ " EPS**"; "**" +:+
      fmt_fixed 0 (events_per_sec (bt_throughput t)) +:+ " EPS**"; "**" +:+ fmt_fixed 2 (default (f64_of_Z 1)
      (throughput_speedup_factor r)) +:+ "x**"];
    md_row ["**Data Bandwidth (MB/s)**"; "**" +:+ fmt_fixed 2 (megabytes_per_sec (bt_throughput b)) +:+ " MB/s**"; "**" +:+
      fmt_fixed 2 (megabytes_per_sec (bt_throughput t)) +:+ " MB/s**"; "**" +:+ fmt_fixed 2 (default (f64_of_Z 1)
      (bandwidth_speedup_factor r)) +:+ "x**"];
    md_row ["**Median Latency (p50)**"; fmt_fixed 2 (p50_micros (bt_latency b)) +:+ " µs"; "**" +:+
      fmt_fixed 2 (p50_micros (bt_latency t)) +:+ " µs**"; "**-" +:+
      fmt_fixed 1 (default f64_zero (latency_reduction_p50_pct r)) +:+ "%**"];
    md_row ["**99th %ile Latency (p99)**"; fmt_fixed 2 (p99_micros (bt_latency b)) +:+ " µs"; "**" +:+
      fmt_fixed 2 (p99_micros (bt_latency t)) +:+ " µs**"; "**-" +:+
      fmt_fixed 1 (default f64_zero (latency_reduction_p99_pct r)) +:+ "%**"];
    md_row ["**Vendor Classification (VCA)**"; "**" +:+ fmt_fixed 2 (vendor_classification_accuracy_pct (bt_accuracy b)) +:+ "%**";
      "**" +:+ fmt_fixed 2 (vendor_classification_accuracy_pct (bt_accuracy t)) +:+ "%**"; "Ground-Truth Exact Match"];
    md_row ["**Grouping Accuracy (GA %)**"; "**" +:+ fmt_fixed 2 (grouping_accuracy_ga_pct (bt_accuracy b)) +:+ "%**"; "**" +:+
      fmt_fixed 2 (grouping_accuracy_ga_pct (bt_accuracy t)) +:+ "%**"; "Loghub-2.0 Standard"];
    md_row ["**Template Accuracy (TA %)**"; "**" +:+ fmt_fixed 2 (template_accuracy_ta_pct (bt_accuracy b)) +:+ "%**"; "**" +:+
      fmt_fixed 2 (template_accuracy_ta_pct (bt_accuracy t)) +:+ "%**";
      "Template Validity (generalization-correct vs masked line)"];
    md_row ["**Oracle GA Ceiling (GT-hash, unfair)**"; "**" +:+ fmt_fixed 2 (oracle_ga_pct (bt_accuracy b)) +:+ "%**"; "**" +:+
      fmt_fixed 2 (oracle_ga_pct (bt_accuracy t)) +:+ "%**"; "Labeled Ceiling — Not a Fair Baseline"];
    md_row ["**Unique Templates (compression)**"; "**" +:+ pretty (unique_clusters (bt_accuracy b)) +:+ "**"; "**" +:+
      pretty (unique_clusters (bt_accuracy t)) +:+ "**"; "Strictly Fewer vs Naive Baseline (§5.2)"];
    md_row ["**Field Extraction Mean Accuracy**"; "**" +:+ fmt_fixed 2 (mean_field_accuracy_pct (bt_accuracy b)) +:+ "%**";
      "**" +:+ fmt_fixed 2 (mean_field_accuracy_pct (bt_accuracy t)) +:+ "%**"; "IP/Port/Proto Extraction"];
    md_row ["**Disposition Resolution Accuracy**"; "**" +:+ fmt_fixed 2 (disposition_accuracy_pct (bt_accuracy b)) +:+ "%**";
      "**" +:+ fmt_fixed 2 (disposition_accuracy_pct (bt_accuracy t)) +:+ "%**"; "OCSF Action Mapping"];
    md_row ["**Action Inviolability**"; "N/A"; "**100% PRESERVED**"; "`ALLOW`/`DENY` isolated"];
    "" ].

Definition md_robustness (b t : BenchmarkTierResult) : list string :=
  [ "## 1b. Corpus Robustness Scorecard (P7)";
    "";
    md_row ["Robustness Dimension"; "Baseline"; "3-Tier (`LRU+Drain+Laya`)"; "Gate Meaning"];
    md_row [":---"; "---:"; "---:"; ":---"];
    md_row ["**Lines Audited**"; pretty (lines_total (bt_robustness b)); pretty (lines_total (bt_robustness t));
      "Full corpus, every line scored"];
    md_row ["**Format Recognized**"; pretty (format_recognized (bt_robustness b)); pretty (format_recognized (bt_robustness t));
      "Vendor routed to a known format (not `unknown`)"];
    md_row ["**No Panic**"; pretty (no_panic (bt_robustness b)); pretty (no_panic (bt_robustness t));
      "`catch_unwind` parse, zero aborts"];
    md_row ["**Lossless (SHA-256 match)**"; pretty (lossless_ok (bt_robustness b)); pretty (lossless_ok (bt_robustness t));
      "`raw_hash` == SHA-256(raw), byte-exact"];
    md_row ["**Sidecar GT fields graded**"; pretty (gt_fields_total (bt_robustness b)); pretty (gt_fields_total (bt_robustness t));
      "Non-null expectations (correct + wrong)"];
    md_row ["**GT fields correct**"; pretty (gt_fields_correct (bt_robustness b)); pretty (gt_fields_correct (bt_robustness t));
      "Engine matched the expectation"];
    md_row ["**GT fields wrong**"; pretty (gt_fields_wrong (bt_robustness b)); pretty (gt_fields_wrong (bt_robustness t));
      "Contradicted expectation (strictly worse than null)"] ].

Definition md_wrong_by_key (b t : BenchmarkTierResult) : list string :=
  [ md_row ["**GT fields wrong by key**"; wrong_by_key (gt_wrong_by_key (bt_robustness b));
      wrong_by_key (gt_wrong_by_key (bt_robustness t)); "Diagnostic: where mismatches concentrate (not a gate metric)"] ].

Definition md_null (b t : BenchmarkTierResult) : list string :=
  [ md_row ["**GT fields null (honest)**"; pretty (gt_fields_null (bt_robustness b)); pretty (gt_fields_null (bt_robustness t));
      "No expectation — excluded from wrong"];
    "" ].

Definition md_latency (b t : BenchmarkTierResult) : list string :=
  [ "## 2. Microsecond Latency Spectrum";
    "";
    md_row ["Percentile Observation"; "Baseline (µs)"; "3-Tier Engine (µs)"; "Latency Reduction"];
    md_row [":---"; ":---:"; ":---:"; ":---:"];
    md_row ["**p1 (Fastest 1%)**"; fmt_fixed 2 (p1_micros (bt_latency b)) +:+ " µs"; fmt_fixed 2 (p1_micros (bt_latency t)) +:+
      " µs"; "-" +:+ percent_n 1 (calc_diff (p1_micros (bt_latency b)) (p1_micros (bt_latency t)))];
    md_row ["**p50 (Median)**"; fmt_fixed 2 (p50_micros (bt_latency b)) +:+ " µs"; fmt_fixed 2 (p50_micros (bt_latency t)) +:+
      " µs"; "-" +:+ percent_n 1 (calc_diff (p50_micros (bt_latency b)) (p50_micros (bt_latency t)))];
    md_row ["**p90**"; fmt_fixed 2 (p90_micros (bt_latency b)) +:+ " µs"; fmt_fixed 2 (p90_micros (bt_latency t)) +:+ " µs";
      "-" +:+ percent_n 1 (calc_diff (p90_micros (bt_latency b)) (p90_micros (bt_latency t)))];
    md_row ["**p99**"; fmt_fixed 2 (p99_micros (bt_latency b)) +:+ " µs"; fmt_fixed 2 (p99_micros (bt_latency t)) +:+ " µs";
      "-" +:+ percent_n 1 (calc_diff (p99_micros (bt_latency b)) (p99_micros (bt_latency t)))];
    md_row ["**p99.9 (Three Nines)**"; fmt_fixed 2 (p999_micros (bt_latency b)) +:+ " µs";
      fmt_fixed 2 (p999_micros (bt_latency t)) +:+ " µs"; "-" +:+ percent_n 1 (calc_diff (p999_micros (bt_latency b))
      (p999_micros (bt_latency t)))];
    md_row ["**Worst Case (Max)**"; fmt_fixed 2 (max_micros (bt_latency b)) +:+ " µs"; fmt_fixed 2 (max_micros (bt_latency t)) +:+
      " µs"; "-" +:+ percent_n 1 (calc_diff (max_micros (bt_latency b)) (max_micros (bt_latency t)))];
    "" ].

Definition md_accuracy (b t : BenchmarkTierResult) : list string :=
  [ "## 3. Academic Accuracy & Quality Breakdown";
    "";
    md_row ["Metric Category"; "Baseline Score"; "3-Tier Score"; "Evaluation Target"];
    md_row [":---"; ":---:"; ":---:"; ":---:"];
    md_row ["**Vendor Classification Accuracy**"; percent_n 2 (vendor_classification_accuracy_pct (bt_accuracy b));
      percent_n 2 (vendor_classification_accuracy_pct (bt_accuracy t)); "≥ Baseline (parity, §5.1)"];
    md_row ["**LogPai Grouping Accuracy (GA %)**"; percent_n 2 (grouping_accuracy_ga_pct (bt_accuracy b));
      percent_n 2 (grouping_accuracy_ga_pct (bt_accuracy t)); "≥ Naive Baseline (§5.2)"];
    md_row ["**Loghub Template Accuracy (TA %)**"; percent_n 2 (template_accuracy_ta_pct (bt_accuracy b));
      percent_n 2 (template_accuracy_ta_pct (bt_accuracy t)); "> Naive Baseline (§5.2); ≥ at 100% ceiling (see §5.2 amendment)"];
    md_row ["**Source IP Accuracy**"; percent_n 1 (src_ip_accuracy_pct (bt_accuracy b));
      percent_n 1 (src_ip_accuracy_pct (bt_accuracy t)); "Ground Truth Exact; null correct only when raw lacks a marker (P5)"];
    md_row ["**Destination IP Accuracy**"; percent_n 1 (dst_ip_accuracy_pct (bt_accuracy b));
      percent_n 1 (dst_ip_accuracy_pct (bt_accuracy t)); "Ground Truth Exact; null correct only when raw lacks a marker (P5)"];
    md_row ["**Source Port Accuracy**"; percent_n 1 (src_port_accuracy_pct (bt_accuracy b));
      percent_n 1 (src_port_accuracy_pct (bt_accuracy t));
      "Valid Port Range; null correct only when raw lacks port evidence (P5)"];
    md_row ["**Destination Port Accuracy**"; percent_n 1 (dst_port_accuracy_pct (bt_accuracy b));
      percent_n 1 (dst_port_accuracy_pct (bt_accuracy t));
      "Valid Port Range; null correct only when raw lacks port evidence (P5)"];
    md_row ["**Protocol Disambiguation**"; percent_n 1 (protocol_accuracy_pct (bt_accuracy b));
      percent_n 1 (protocol_accuracy_pct (bt_accuracy t)); "OCSF 4001; null correct without protocol evidence (P5)"];
    md_row ["**Disposition Resolution Accuracy**"; percent_n 2 (disposition_accuracy_pct (bt_accuracy b));
      percent_n 2 (disposition_accuracy_pct (bt_accuracy t)); "Security Invariant"];
    md_row ["**Lossless Cryptographic SHA-256**"; percent_n 2 (lossless_sha256_match_pct (bt_accuracy b));
      percent_n 2 (lossless_sha256_match_pct (bt_accuracy t)); "100.0% Required"];
    "" ].

Definition md_lines (r : EvaluationReport) : list string :=
  md_head r ++
  match er_baseline r, er_tiered_pipeline r with
  | Some b, Some t =>
      md_telemetry r b t ++ md_robustness b t
      ++ (if bool_decide (gt_wrong_by_key (bt_robustness b) = ∅) && bool_decide (gt_wrong_by_key (bt_robustness t) = ∅)
          then [] else md_wrong_by_key b t)
      ++ md_null b t ++ md_latency b t ++ md_accuracy b t
  | _, _ => []
  end.

Definition to_markdown (r : EvaluationReport) : string := unlines (md_lines r).

(** ** The markdown of the duel *)

Definition duel_md_intro : list string :=
  [ "# ULPF Duel — vanilla Drain vs 3-tier pipeline";
    "";
    "**What this is:** measurement evidence surfaced by `ulpf scorecard`. The duel is **not a gate** — the " +:+
      "scorecard's six gates are unchanged by it.";
    "";
    "## Engines";
    "";
    "- **vanilla Drain** (`Engine A`) — `DrainMiner::new(DrainConfig { anchors_enabled: false, ..Default::default() " +:+
      "})`: stock Drain (depth-4 prefix tree, similarity threshold, max 100 children) with ULPF's anchor subsystem " +:+
      "switched off — no anchor vocabulary, no syslog-tag homogeneity (P6.1), no key-aware class partition (P7.2).";
    "- **3-tier pipeline** (`Engine B`) — `TieredPipeline::new()` as shipped (Tier-1 signature LRU → Tier-2 anchored " +:+
      "Drain → Tier-3 Laya). Quality rows are graded **out-of-band** with a parallel " +:+
      "`DrainMiner::new(DrainConfig::default())` fed the same lines — the evaluator's convention: the pipeline exposes " +:+
      "no per-line cluster id. Capability rows (panics, lossless SHA-256) come from real `TieredPipeline::process()` " +:+
      "calls over every line.";
    "- Both engines share ULPF's tokenizer (`mask_line` + `DrainMiner::tokenize`), so every delta isolates " +:+
      "clustering policy, not preprocessing.";
    "" ].

Definition duel_md_metrics : list string :=
  [ "## Metrics";
    "";
    "- **GA (grouping accuracy)** = Σ over clusters of the cluster's majority ground-truth class count ÷ total lines " +:+
      "(the evaluator's exact formula).";
    "- **PA (parsing accuracy)** = lines whose mined template reproduces the ground-truth template as an exact " +:+
      "**token suffix** after canonicalisation: whitespace-normalised token sequences, any digit-bearing token " +:+
      "compared as `<*>` (tokenizer alignment between ULPF's masker and LogPAI's), trailing `,;:` ignored.";
    "- **FTA (template F1, set-level)** = F1 over unique templates — precision = unique mined templates that " +:+
      "suffix-match some ground-truth template; recall = unique ground-truth templates reproduced by some mined " +:+
      "template.";
    "- **Action violations** = clusters holding both an allow-side and a deny-side disposition (vocabulary: " +:+
      "allowed/allow/accept/accepted/pass/permit/permitted vs blocked/block/deny/denied/drop/dropped/reject/rejected).";
    "";
    "## Fixtures";
    "";
    "- **R1 probe** — `data/raw/duel/security_probe.log`, 12 authored lines (3 families × 2 actions × 2 instances), " +:+
      "full-template sidecar GT.";
    "- **R2 fuzzed** — `data/raw/adversarial/`, 757 mutated lines, tag-level sidecar GT (PA/FTA not graded).";
    "- **R3 BGL / R3 TBird** — LogHub BGL_2k and Thunderbird_2k samples vendored under `data/raw/duel/` " +:+
      "(attribution: `data/raw/duel/README.md`).";
    "" ].

Definition duel_md_table_head : list string :=
  [ "## Results";
    "";
    md_row ["Round"; "Lines"; "GT classes"; "Engine"; "Clusters"; "GA %"; "PA %"; "FTA %"; "Violations"];
    md_row ["---"; "---:"; "---:"; "---"; "---:"; "---:"; "---:"; "---:"; "---:"] ].

Definition duel_md_row (r : DuelRound) (label : string) (e : EngineDuelScore) : list string :=
  [ md_row [dr_name r; pretty (dr_lines r); pretty (dr_gt_classes r); label; pretty (ds_clusters e);
      percent_n 2 (ds_grouping_accuracy_pct e); opt_pct (ds_parsing_accuracy_pct e); opt_pct (ds_template_f1_pct e);
      opt_count (ds_action_violations e)] ].

Definition duel_md_capability (rep : DuelReport) : list string :=
  [ "";
    "**3-tier capability over all duel lines:** lossless " +:+ pretty (tiered_lossless_ok rep) +:+ "/" +:+
      pretty (tiered_lines rep) +:+ " (`raw_hash` == SHA-256(raw)), panics " +:+ pretty (tiered_panics rep) +:+ ".";
    "" ].

Definition duel_md_note (r : DuelRound) : list string :=
  [ "- **" +:+ dr_name r +:+ "** — " +:+ default "" (dr_note r) ].

Definition duel_md_winner (rep : DuelReport) : list string :=
  let '(tiered_wins, vanilla_wins) := ga_wins rep in
  [ "## Disclosures";
    "";
    "- **Winner on GA:** 3-tier " +:+ pretty tiered_wins +:+ " / vanilla " +:+ pretty vanilla_wins +:+ " of " +:+
      pretty (length (rounds rep)) +:+ " rounds (exact ties uncounted)." ].

Definition duel_md_tokenizer : list string :=
  [ "- **Tokenizer alignment, not LogPAI parity:** absolute PA/FTA levels are not comparable to published LogPAI " +:+
      "numbers — their per-dataset preprocessor differs (LogPAI maps `2005.06.03` to `<*>` where ULPF yields " +:+
      "`<*>.06.03`). Only the vanilla-vs-3-tier delta under one shared tokenizer is claimed here." ].

(** The rounds whose clusters mix verdicts. *)
Definition mixed_notes (rep : DuelReport) : list string :=
  (fun r => dr_name r +:+ " (vanilla " +:+ pretty (default 0 (ds_action_violations (dr_vanilla r))) +:+ ", 3-tier "
     +:+ pretty (default 0 (ds_action_violations (dr_tiered r))) +:+ ")") <$>
    List.filter (fun r => (0 <? default 0 (ds_action_violations (dr_tiered r)))%nat) (rounds rep).

Definition duel_md_mixed (rep : DuelReport) : list string :=
  [ "- **Mixed-action clusters remain (finding, not tuned away):** " +:+ str_join "; " (mixed_notes rep) +:+
      " — a relay prefix or mid-line CR keeps a space in the payload, the tokenizer then fuses the record into one " +:+
      "token, and the buried action word never reaches the anchor vocabulary, so cross-action merges stay possible. " +:+
      "The scorecard gate `Action inviolability (ALLOW/DENY)` is the bare-token canary (a weaker, pre-existing check); " +:+
      "corpus-wide disposition purity is this duel's stricter, newly measured metric. No tokenizer or threshold was " +:+
      "changed in response to this result — such a fix must be validated on data the code has never seen." ].

Definition duel_md_end : list string :=
  [ "- The frozen holdout corpus is never read by the duel — holdout inputs stay untouched.";
    "- Speed is out of scope: `ulpf scorecard` already reports latency and throughput for both engines." ].

Definition duel_md_rounds (rep : DuelReport) : list string :=
  concat ((fun r => duel_md_row r "vanilla Drain" (dr_vanilla r) ++ duel_md_row r "3-tier" (dr_tiered r)) <$> rounds rep).

Definition duel_md_notes (rep : DuelReport) : list string :=
  match List.filter (fun r => bool_decide (is_Some (dr_note r))) (rounds rep) with
  | [] => []
  | notes => ["## Round notes"; ""] ++ concat (duel_md_note <$> notes) ++ [""]
  end.

Definition duel_md_lines (rep : DuelReport) : list string :=
  duel_md_intro ++ duel_md_metrics ++ duel_md_table_head ++ duel_md_rounds rep ++ duel_md_capability rep ++ duel_md_notes rep
  ++ duel_md_winner rep ++ duel_md_tokenizer ++ match mixed_notes rep with [] => [] | _ => duel_md_mixed rep end ++ duel_md_end.

Definition duel_to_markdown (rep : DuelReport) : string := unlines (duel_md_lines rep).
