(* ===== verification/Evaluate.v ===== *)
(** * [ulpf evaluate], [ulpf scorecard] and [ulpf benchmark --compare]
    ([crates/ulpf-cli/src/main.rs])

    The commands that measure the engines: what they print, the files that they
    write and how they end. *)

From S2P Require Export Report.

(** ** A command *)

(** What was given to [println!], in order, and the files that were written. *)
Record World := mkWorld { w_out : list string; w_files : gmap string string }.

Definition Cmd (A : Type) : Type := World -> Outcome A * World.

#[global] Instance cmd_ret : MRet Cmd := fun A a w => (Completed a, w).

#[global] Instance cmd_bind : MBind Cmd := fun A B f m w =>
  match m w with
  | (Completed a, w') => f a w'
  | (ExitWith c, w') => (ExitWith c, w')
  | (Bailed e, w') => (Bailed e, w')
  | (Panicked, w') => (Panicked, w')
  end.

Definition cmd_lift {A} (o : Outcome A) : Cmd A := fun w => (o, w).

(** A computation that is [None] when it panics. *)
Definition cmd_try {A} (o : option A) : Cmd A := fun w => (match o with Some a => Completed a | None => Panicked end, w).

Definition println (s : string) : Cmd unit := fun w => (Completed tt, mkWorld (w_out w ++ [s]) (w_files w)).

Definition print_all (ls : list string) : Cmd unit := fun w => (Completed tt, mkWorld (w_out w ++ ls) (w_files w)).

(** [fs::write(path, text)?] *)
Definition write_file (fx : TextFaults) (path text : string) : Cmd unit := fun w =>
  match write_text fx path text (w_files w) with
  | (Ok _, fs) => (Completed tt, mkWorld (w_out w) fs)
  | (Err e, fs) => (Bailed e, mkWorld (w_out w) fs)
  end.

(** ** The arguments *)

Record EvaluateArgs := mkEvaluateArgs {
  ev_data_dir : string;
  ev_engine : string;
  ev_corpus : CorpusKind;
  ev_duration : Z;
  ev_threads : nat;
  ev_samples : nat;
  ev_out : string;
  ev_json_out : option string;
  ev_audit_dump : option string
}.

Record ScorecardArgs := mkScorecardArgs {
  sa_data_dir : string;
  sa_corpus : CorpusKind;
  sa_duration : Z;
  sa_threads : nat;
  sa_samples : nat;
  sa_out : string
}.

(** [Path::file_name] and [Path::with_file_name] of a path without [.]
    components *)
Definition file_name (path : string) : option string :=
  let t := trim_end_matches (String.eqb "/") path in
  let n := match rfind_char (String.eqb "/") t with None => t | Some i => str_drop (S i) t end in
  if is_empty n || String.eqb n ".." then None else Some n.

Definition with_file_name (path name : string) : string :=
  match file_name path with
  | Some _ => join_path (default "" (parent_dir path)) name
  | None => join_path path name
  end.

Definition set_corpus_kind (kind : string) (r : EvaluationReport) : EvaluationReport :=
  mkReport (er_timestamp r) (er_mode r) (er_threads r) (er_duration_secs r) (er_corpus_size r) (er_corpus_total_bytes r)
    (er_baseline r) (er_tiered_pipeline r) (throughput_speedup_factor r) (bandwidth_speedup_factor r)
    (latency_reduction_p50_pct r) (latency_reduction_p99_pct r) kind.

Definition banner_rule (ch : string) : string := cyan (repeat_str 68 ch).

Section Commands.
Context `{Sha256} `{HexLib} `{UnicodeLib} `{ChronoLib} `{RegexLib} `{JsonLib} `{AhoCorasick} `{RegexEngine} `{UnicodeText}
  `{LibM} `{UuidLib} `{DefaultHasher} `{SidecarJson} `{DebugText} `{UpperText}.
(** [fs::read_dir]; [serde_json::to_string_pretty] of a report and the JSON text
    of a failure under the name of its engine *)
Variable read_dir : string -> Result string (list string).
Variable report_json : EvaluationReport -> Result string string.
Variable failure_json : string -> AuditFailure -> string.

(** What the passes and the duel draw from outside. *)
Record EvalEnv := mkEvalEnv {
  ee_envs : nat -> ParseEnv;
  ee_te : TieredEnv;
  ee_mclocks : nat -> Z * Z;
  ee_be1 : BenchEnv;
  ee_be2 : BenchEnv;
  ee_now : string;
  ee_duel_clocks : nat -> (nat -> Z * Z) * (nat -> Z * Z);
  ee_duel_te : TieredEnv
}.

Definition evaluate_with (env : EvalEnv) (mode : string) (corpus : list string) (duration : Z) (threads samples : nat)
    (gt : GtOverrides) : option EvaluationReport :=
  evaluate_with_mode (ee_envs env) (ee_te env) (ee_mclocks env) (ee_be1 env) (ee_be2 env) (ee_now env) mode corpus duration
    threads samples gt.

(** [EvaluatorEngine::evaluate]: both passes, ten thousand samples, no sidecar. *)
Definition evaluate (env : EvalEnv) (corpus : list string) (duration : Z) (threads : nat) : option EvaluationReport :=
  evaluate_with env "all" corpus duration threads 10000 ∅.

(** ** [ulpf evaluate] *)

Definition evaluate_banner (args : EvaluateArgs) : list string :=
  [ banner_rule "=";
    green "         ULPF Architectural Evaluator & Comparison Suite            ";
    banner_rule "=";
    "  Dataset Directory  : " +:+ ev_data_dir args;
    "  Target Engine      : " +:+ yellow (to_uppercase (ev_engine args));
    "  Corpus Variant     : " +:+ corpus_kind_str (ev_corpus args);
    "  Evaluation Duration: " +:+ uint_to_string (ev_duration args) +:+ "s per architecture";
    "  Parallel Workers   : " +:+ pretty (ev_threads args) +:+ " CPU threads";
    "  Latency Samples    : " +:+ pretty (ev_samples args) +:+ " observations";
    "  Output Markdown    : " +:+ ev_out args;
    banner_rule "-" ].

(** The passes that ran, with their failures. *)
Definition passes (r : EvaluationReport) : list (string * list AuditFailure) :=
  (fun x => (bt_name x, bt_failures x)) <$> (option_list (er_baseline r) ++ option_list (er_tiered_pipeline r)).

Definition export_json (fx : TextFaults) (r : EvaluationReport) (path : string) : Cmd unit :=
  json_data ← cmd_lift (match report_json r with Ok s => Completed s | Err e => Bailed e end);
  _ ← write_file fx path json_data;
  println ("[+] Exported evaluation metrics JSON to: " +:+ green path).

Definition export_dump (fx : TextFaults) (r : EvaluationReport) (path : string) : Cmd unit :=
  let '(jsonl, failure_count) := audit_dump failure_json (passes r) in
  _ ← write_file fx path jsonl;
  println ("[+] Exported audit mismatch dump (" +:+ pretty failure_count +:+ " failure records) to: " +:+ green path).

Definition run_evaluate (env : EvalEnv) (fs : Files) (fx : TextFaults) (args : EvaluateArgs) : Cmd unit :=
  _ ← print_all (evaluate_banner args);
  '(corpus, gt_overrides) ← cmd_lift (load_corpus read_dir fs (ev_corpus args) (ev_data_dir args));
  _ ← println ("[+] Loaded " +:+ pretty (length corpus) +:+ " diverse raw perimeter log lines into RAM.");
  _ ← println ("[*] Executing '" +:+ ev_engine args +:+ "' evaluation benchmark across " +:+ pretty (ev_threads args) +:+ " cores...");
  report0 ← cmd_try (evaluate_with env (ev_engine args) corpus (ev_duration args) (ev_threads args) (ev_samples args) gt_overrides);
  let report := set_corpus_kind (corpus_kind_str (ev_corpus args)) report0 in
  _ ← println (render_terminal_dashboard report);
  _ ← write_file fx (ev_out args) (to_markdown report);
  _ ← println ("[+] Exported comparative evaluation report to: " +:+ green (ev_out args));
  _ ← match ev_json_out args with Some path => export_json fx report path | None => mret tt end;
  match ev_audit_dump args with Some path => export_dump fx report path | None => mret tt end.

(** ** [ulpf scorecard] *)

(** The duel, whose errors are printed and are not fatal; its panics are. *)
Definition try_duel (env : EvalEnv) (fs : Files) (data_dir : string) : Cmd (option DuelReport) :=
  r ← cmd_try (run_duel (ee_duel_clocks env) (ee_duel_te env) fs data_dir);
  match r with
  | Ok d => mret d
  | Err e => _ ← println ("[!] Duel skipped: " +:+ e); mret None
  end.

Definition duel_out (out : string) : string := with_file_name out "eval_duel_report.md".

Definition run_scorecard (env : EvalEnv) (fs : Files) (fx : TextFaults) (args : ScorecardArgs) : Cmd unit :=
  _ ← println ("[*] ULPF scorecard: corpus '" +:+ corpus_kind_str (sa_corpus args) +:+ "' from " +:+ sa_data_dir args);
  '(corpus, gt_overrides) ← cmd_lift (load_corpus read_dir fs (sa_corpus args) (sa_data_dir args));
  _ ← println ("[+] Loaded " +:+ pretty (length corpus) +:+ " raw log lines (" +:+ pretty (sa_threads args) +:+ " threads, "
               +:+ uint_to_string (sa_duration args) +:+ "s per engine).");
  report0 ← cmd_try (evaluate_with env "all" corpus (sa_duration args) (sa_threads args) (sa_samples args) gt_overrides);
  let report := set_corpus_kind (corpus_kind_str (sa_corpus args)) report0 in
  duel ← try_duel env fs (sa_data_dir args);
  _ ← println (render report duel (sa_out args));
  _ ← write_file fx (sa_out args) (to_markdown report);
  _ ← println ("[+] Markdown report saved to: " +:+ sa_out args);
  match duel with
  | Some d =>
      _ ← write_file fx (duel_out (sa_out args)) (duel_to_markdown d);
      println ("[+] Duel report saved to: " +:+ duel_out (sa_out args))
  | None => mret tt
  end.

(** ** [ulpf benchmark] *)

Definition compare_args (args : BenchmarkArgs) : EvaluateArgs :=
  mkEvaluateArgs (ba_data_dir args) "all" Core (ba_duration args) (ba_threads args) (Z.to_nat 10000) "eval_hardcore_report.md" None None.

(** Without [--compare] a completed run carries its total, and writes no file. *)
Definition run_benchmark (env : EvalEnv) (call : string -> bool) (schedule : list nat) (fs : Files) (fx : TextFaults)
    (args : BenchmarkArgs) : Cmd (option Z) :=
  if ba_compare args then _ ← run_evaluate env fs fx (compare_args args); mret None
  else total ← cmd_lift (benchmark_total call fs schedule args); mret (Some total).

End Commands.
