(* ===== verification/ReportFacts.v ===== *)
(** * The reports and the commands that write them

    The markdown of an evaluation is a sequence of tables of four columns
    whatever was measured, [ulpf evaluate] and [ulpf scorecard] run through, and
    what they write. *)

From stdpp Require Import sorting.
From S2P Require Import BenchmarkFacts ParserExportFacts DuelFacts.
From S2P Require Export Evaluate.

(** ** Cells and rows *)

Definition text_byte (a : ascii) : bool := negb (Ascii.eqb a newline) && negb (Ascii.eqb a carriage_return).
Definition cell_byte (a : ascii) : bool := text_byte a && negb (Ascii.eqb a "|").

(** A text without line ends, and one that also fits in a cell. *)
Definition text (s : string) : Prop := all_bytes text_byte s = true.
Definition cell (s : string) : Prop := all_bytes cell_byte s = true.

Fixpoint pipes (s : string) : nat :=
  match s with "" => 0 | String a s' => (if Ascii.eqb a "|" then 1 else 0) + pipes s' end.

Create HintDb cells.

Lemma cell_app s t : cell s -> cell t -> cell (s +:+ t).
Proof. unfold cell. intros Hs Ht. by rewrite all_bytes_app, Hs. Qed.

Lemma text_app s t : text s -> text t -> text (s +:+ t).
Proof. unfold text. intros Hs Ht. by rewrite all_bytes_app, Hs. Qed.

Lemma cell_text s : cell s -> text s.
Proof. apply all_bytes_impl. intros a [H _]%andb_true_iff. done. Qed.

Lemma num_cell s : all_bytes is_num_byte s = true -> cell s.
Proof.
  apply all_bytes_impl. intros a Ha. destruct a as [[] [] [] [] [] [] [] []]; first [reflexivity|discriminate Ha].
Qed.

Lemma cell_fixed n x : cell (fmt_fixed n x).
Proof. apply num_cell, fmt_fixed_num. Qed.

Lemma cell_pretty (n : nat) : cell (pretty n).
Proof.
  apply num_cell. replace (pretty n) with (uint_to_string (Z.of_nat n)); [apply uint_num|].
  unfold uint_to_string. by rewrite <- nat_N_Z, N2Z.id.
Qed.

Lemma cell_uint z : cell (uint_to_string z).
Proof. apply num_cell, uint_num. Qed.

Lemma cell_percent n x : cell (percent_n n x).
Proof. apply cell_app; [apply cell_fixed|done]. Qed.

Lemma cell_join sep l : cell sep -> Forall cell l -> cell (str_join sep l).
Proof.
  intros Hs. induction 1 as [|x l Hx HF IH]; [done|]. destruct l; [done|].
  cbn [str_join] in *. by repeat apply cell_app.
Qed.

Lemma pipes_app s t : pipes (s +:+ t) = pipes s + pipes t.
Proof. induction s as [|a s IH]; [done|]. cbn [String.append pipes]. rewrite IH. lia. Qed.

Lemma cell_pipes s : cell s -> pipes s = 0.
Proof.
  induction s as [|a s IH]; [done|]. cbn [pipes]. intros [Ha Hs]%andb_true_iff. rewrite IH by done.
  apply andb_true_iff in Ha as [_ Ha]. by destruct (Ascii.eqb a "|").
Qed.

(** What a line of the report must be: a table row of four cells, if a row. *)
Definition table_line (l : string) : Prop := text l /\ (starts_with "|" l = true -> pipes l = 5).

Lemma row_line a b c d : cell a -> cell b -> cell c -> cell d -> table_line (md_row [a; b; c; d]).
Proof.
  intros Ha Hb Hc Hd. unfold md_row, str_join. split.
  - repeat apply text_app; first [reflexivity | by apply cell_text].
  - intros _. rewrite !pipes_app, (cell_pipes a), (cell_pipes b), (cell_pipes c), (cell_pipes d) by done. done.
Qed.

Lemma other_line l : text l -> starts_with "|" l = false -> table_line l.
Proof. intros Ht Hs. split; [done|]. by rewrite Hs. Qed.

#[export] Hint Resolve cell_app text_app cell_fixed cell_pretty cell_uint cell_percent cell_text row_line : cells.
#[export] Hint Extern 1 (cell (String _ _)) => reflexivity : cells.
#[export] Hint Extern 1 (text (String _ _)) => reflexivity : cells.
#[export] Hint Extern 1 (text "") => reflexivity : cells.
#[export] Hint Extern 4 (table_line _) => apply other_line; [|reflexivity] : cells.

Ltac table := repeat first [apply Forall_nil_2 | apply Forall_cons_2]; eauto 12 with cells.

(** ** The markdown of an evaluation *)

(** The texts of a report that come from outside fit in their lines. *)
Record report_fits (r : EvaluationReport) : Prop := {
  rf_timestamp : text (er_timestamp r);
  rf_kind : text (er_corpus_kind r);
  rf_baseline : forall b, er_baseline r = Some b -> map_Forall (fun k _ => cell k) (gt_wrong_by_key (bt_robustness b));
  rf_tiered : forall t, er_tiered_pipeline r = Some t -> map_Forall (fun k _ => cell k) (gt_wrong_by_key (bt_robustness t))
}.

Lemma wrong_by_key_cell m : map_Forall (fun k _ => cell k) m -> cell (wrong_by_key m).
Proof.
  intros Hm. unfold wrong_by_key. case_bool_decide; [done|]. apply cell_join; [done|].
  apply Forall_fmap, Forall_forall. intros [k n] Hin. rewrite merge_sort_Permutation in Hin.
  apply elem_of_map_to_list, Hm in Hin. cbn [fst snd] in *. auto with cells.
Qed.

#[export] Hint Resolve wrong_by_key_cell : cells.

Lemma md_head_lines r : report_fits r -> Forall table_line (md_head r).
Proof. intros []. unfold md_head. table. Qed.

Lemma md_telemetry_lines r b t : Forall table_line (md_telemetry r b t).
Proof. unfold md_telemetry. table. Qed.

Lemma md_robustness_lines b t : Forall table_line (md_robustness b t).
Proof. unfold md_robustness. table. Qed.

Lemma md_latency_lines b t : Forall table_line (md_latency b t).
Proof. unfold md_latency. table. Qed.

Lemma md_accuracy_lines b t : Forall table_line (md_accuracy b t).
Proof. unfold md_accuracy. table. Qed.

Lemma md_lines_ok r : report_fits r -> Forall table_line (md_lines r).
Proof.
  intros Hr. unfold md_lines. apply Forall_app; split; [by apply md_head_lines|].
  destruct (er_baseline r) as [b|] eqn:Eb, (er_tiered_pipeline r) as [t|] eqn:Et; try done.
  pose proof (rf_baseline r Hr b Eb). pose proof (rf_tiered r Hr t Et).
  repeat apply Forall_app_2; [apply md_telemetry_lines|apply md_robustness_lines| | |apply md_latency_lines|apply md_accuracy_lines].
  - destruct (_ && _); [done|]. unfold md_wrong_by_key. table.
  - unfold md_null. table.
Qed.

Lemma strip_suffix_char_some c s : forall body, strip_suffix_char c s = Some body -> s = body +:+ String c "".
Proof.
  induction s as [|a [|b s] IH]; intros body; [done| |].
  - simpl. destruct (Ascii.eqb_spec a c) as [->|]; [|done]. by intros [= <-].
  - cbn [strip_suffix_char]. destruct (strip_suffix_char c (String b s)) as [t|] eqn:E; [|by simpl in *; rewrite E].
    intros E2. assert (body = String a t) as -> by (simpl in *; rewrite E in E2; by injection E2).
    by rewrite (IH t).
Qed.

Lemma text_full l : text l -> full_line l.
Proof.
  intros Hl. split.
  - eapply all_bytes_impl; [|exact Hl]. by intros a [H _]%andb_true_iff.
  - unfold strip_cr. destruct (strip_suffix_char carriage_return l) as [body|] eqn:E; [|done].
    apply strip_suffix_char_some in E as ->. unfold text in Hl. rewrite all_bytes_app in Hl. by apply andb_true_iff in Hl as [_ Hl].
Qed.

(** The lines of the file are the lines of the report. *)
Lemma markdown_lines r : report_fits r -> lines (to_markdown r) = md_lines r.
Proof.
  intros Hr. apply lines_full. eapply Forall_impl; [by apply md_lines_ok|]. intros l [Hl _]. by apply text_full.
Qed.

(** ** Commands *)

Lemma cmd_completed {A B} (m : Cmd A) (f : A -> Cmd B) w b w' : (m ≫= f) w = (Completed b, w') ->
  exists a w1, m w = (Completed a, w1) /\ f a w1 = (Completed b, w').
Proof. unfold mbind, cmd_bind. destruct (m w) as [[a| | |] w1]; try done. eauto. Qed.

Lemma cmd_step {A B} (m : Cmd A) (f : A -> Cmd B) w a w1 : m w = (Completed a, w1) -> (m ≫= f) w = f a w1.
Proof. unfold mbind, cmd_bind. by intros ->. Qed.

Lemma write_completed fx path t w w' : write_file fx path t w = (Completed tt, w') ->
  w_files w' = <[path := t]> (w_files w) /\ w_out w' = w_out w.
Proof. unfold write_file, write_text. by destruct (tf_write fx path) as [[]|]; intros [= <-]. Qed.

Lemma write_no_fault path t w : write_file no_text_faults path t w = (Completed tt, mkWorld (w_out w) (<[path := t]> (w_files w))).
Proof. done. Qed.

Section Evaluation.
Context `{Sha256} `{HexLib} `{UnicodeLib} `{ChronoLib} `{RegexLib} `{JsonLib} `{AhoCorasick} `{RegexEngine} `{UnicodeText}
  `{LibM} `{UuidLib} `{DefaultHasher} `{SidecarJson} `{DebugText} `{UpperText}.
Context (read_dir : string -> Result string (list string)).
Context (report_json : EvaluationReport -> Result string string) (failure_json : string -> AuditFailure -> string).

Definition measures_baseline (mode : string) : bool := String.eqb mode "all" || String.eqb mode "baseline".
Definition measures_tiered (mode : string) : bool := String.eqb mode "all" || String.eqb mode "tiered".

(** What an evaluation that returns has in its report. *)
Lemma evaluate_inv env mode corpus duration threads samples gt r :
  evaluate_with env mode corpus duration threads samples gt = Some r ->
  er_timestamp r = ee_now env /\ er_mode r = mode /\ er_threads r = threads /\ er_duration_secs r = duration /\
  er_corpus_size r = length corpus /\ er_corpus_total_bytes r = sum_list (String.length <$> corpus) /\
  (if measures_baseline mode
   then exists b, er_baseline r = Some b /\ benchmark_baseline_isolated (ee_envs env) (ee_be1 env) corpus threads samples gt = Some b
   else er_baseline r = None) /\
  (if measures_tiered mode
   then exists t, er_tiered_pipeline r = Some t /\
     benchmark_tiered_isolated (ee_te env) (ee_mclocks env) (ee_be2 env) corpus threads samples gt = Some t
   else er_tiered_pipeline r = None).
Proof.
  unfold evaluate_with, evaluate_with_mode, measures_baseline, measures_tiered.
  destruct (_ || String.eqb mode "baseline");
    [destruct (benchmark_baseline_isolated _ _ _ _ _ _) as [b|] eqn:Eb; [|done]|];
    (destruct (_ || String.eqb mode "tiered");
      [destruct (benchmark_tiered_isolated _ _ _ _ _ _ _) as [t|] eqn:Et; [|done]|]);
    intros [= <-]; simpl; split_and!; eauto.
Qed.

Lemma audit_keys {P C} (parse : P -> string -> option NetworkActivity * P) (cluster : C -> string -> option ((Z * string) * C))
    gt iter clocks corpus p c s rob fs p' c' :
  audit_accuracy parse cluster gt iter clocks corpus p c = Some (s, rob, fs, p', c') ->
  map_Forall (fun k _ => cell k) (gt_wrong_by_key rob).
Proof.
  unfold audit_accuracy. destruct (audit_loop _ _ _ 0 corpus p c audit_new) as [[[a p1] c1]|] eqn:E; [|done].
  apply (audit_loop_books _ _ _ corpus 0 0) in E as B; [|apply books_new].
  destruct (verify_action_preservation clocks); [|done]. intros [= <- <- <- <- <-].
  eapply map_Forall_impl; [apply (go_keys _ (bk_gt _ _ _ _ B))|]. unfold GT_KEYS. intros k _ Hk.
  repeat (apply elem_of_cons in Hk as [->|Hk]; [done|]). by apply elem_of_nil in Hk.
Qed.

Lemma baseline_keys envs be corpus threads samples gt b :
  benchmark_baseline_isolated envs be corpus threads samples gt = Some b ->
  map_Forall (fun k _ => cell k) (gt_wrong_by_key (bt_robustness b)).
Proof.
  unfold benchmark_baseline_isolated. destruct (warm_up _ _ _) as [n0|]; [|done]. cbn [mbind option_bind].
  destruct (sample_latency_distribution _ _ _ _ _) as [[lat n1]|]; [|done].
  destruct (audit_accuracy _ _ _ _ _ _ _ _) as [[[[[s rob] fs] p'] c']|] eqn:E; [|done]. intros [= <-]. by eapply audit_keys.
Qed.

Lemma tiered_keys te mclocks be corpus threads samples gt t :
  benchmark_tiered_isolated te mclocks be corpus threads samples gt = Some t ->
  map_Forall (fun k _ => cell k) (gt_wrong_by_key (bt_robustness t)).
Proof.
  unfold benchmark_tiered_isolated. destruct (with_capacity 16 512) as [cache0|]; [|done]. cbn [mbind option_bind].
  destruct (warm_up _ _ _) as [s0|]; [|done]. cbn [mbind option_bind].
  destruct (sample_latency_distribution _ _ _ _ _) as [[lat n1]|]; [|done].
  destruct (audit_accuracy _ _ _ _ _ _ _ _) as [[[[[s rob] fs] p'] c']|] eqn:E; [|done]. intros [= <-]. by eapply audit_keys.
Qed.

(** The reports of evaluations fit in their lines. *)
Lemma evaluation_fits env mode corpus duration threads samples gt kind r : text (ee_now env) ->
  evaluate_with env mode corpus duration threads samples gt = Some r ->
  report_fits (set_corpus_kind (corpus_kind_str kind) r).
Proof.
  intros Hn E. apply evaluate_inv in E as (Et & _ & _ & _ & _ & _ & Eb & Ep). split; cbn [set_corpus_kind er_timestamp er_corpus_kind
    er_baseline er_tiered_pipeline].
  - by rewrite Et.
  - by destruct kind.
  - intros b Hb. rewrite Hb in Eb. destruct (measures_baseline mode); [|done]. destruct Eb as (b' & [= <-] & E). by eapply baseline_keys.
  - intros b Hb. rewrite Hb in Ep. destruct (measures_tiered mode); [|done]. destruct Ep as (b' & [= <-] & E). by eapply tiered_keys.
Qed.

(** The exports change their own file only. *)
Lemma write_frame fx path t w w' p : write_file fx path t w = (Completed tt, w') -> path <> p -> w_files w' !! p = w_files w !! p.
Proof. intros [-> _]%write_completed Hp. by rewrite lookup_insert_ne. Qed.

Lemma export_json_frame fx r path w w' p : export_json report_json fx r path w = (Completed tt, w') -> path <> p ->
  w_files w' !! p = w_files w !! p.
Proof.
  unfold export_json. intros E Hp. apply cmd_completed in E as (json & w1 & E1 & E). injection E1 as _ <-.
  apply cmd_completed in E as ([] & w2 & E2 & E). injection E as <-. simpl. by eapply write_frame.
Qed.

Lemma export_dump_frame fx r path w w' p : export_dump failure_json fx r path w = (Completed tt, w') -> path <> p ->
  w_files w' !! p = w_files w !! p.
Proof.
  unfold export_dump. destruct (audit_dump _ _) as [jsonl n]. intros E Hp.
  apply cmd_completed in E as ([] & w2 & E2 & E). injection E as <-. simpl. by eapply write_frame.
Qed.

(** A completed run has loaded its corpus, evaluated it and written the report,
    which stays unless a later export goes to the same path. *)
Lemma run_evaluate_inv env fs fx args w w' :
  run_evaluate read_dir report_json failure_json env fs fx args w = (Completed tt, w') ->
  ev_json_out args <> Some (ev_out args) -> ev_audit_dump args <> Some (ev_out args) ->
  exists corpus gt r, load_corpus read_dir fs (ev_corpus args) (ev_data_dir args) = Completed (corpus, gt) /\
    evaluate_with env (ev_engine args) corpus (ev_duration args) (ev_threads args) (ev_samples args) gt = Some r /\
    w_files w' !! ev_out args = Some (to_markdown (set_corpus_kind (corpus_kind_str (ev_corpus args)) r)).
Proof.
  unfold run_evaluate. intros E Hj Hd. apply cmd_completed in E as ([] & w1 & _ & E).
  apply cmd_completed in E as ([corpus gt] & w2 & E2 & E). exists corpus, gt.
  apply cmd_completed in E as ([] & w3 & _ & E). apply cmd_completed in E as ([] & w4 & _ & E).
  apply cmd_completed in E as (r & w5 & E5 & E). exists r. injection E2 as -> _. split; [done|].
  unfold cmd_try in E5. destruct (evaluate_with _ _ _ _ _ _ _) as [r'|]; [|done]. injection E5 as -> _. split; [done|].
  apply cmd_completed in E as ([] & w6 & _ & E). apply cmd_completed in E as ([] & w7 & E7 & E).
  apply cmd_completed in E as ([] & w8 & E8 & E). injection E8 as <-. apply cmd_completed in E as ([] & w9 & E9 & E).
  apply write_completed in E7 as [E7 _]. set (md := to_markdown _) in *.
  assert (w_files w9 !! ev_out args = Some md) as F9.
  { destruct (ev_json_out args) as [path|].
    - apply export_json_frame with (p := ev_out args) in E9; [|congruence]. rewrite E9. simpl. by rewrite E7, lookup_insert_eq.
    - injection E9 as <-. simpl. by rewrite E7, lookup_insert_eq. }
  destruct (ev_audit_dump args) as [path|]; [|by injection E as <-].
  apply export_dump_frame with (p := ev_out args) in E; [|congruence]. by rewrite E.
Qed.

Lemma run_evaluate_ok env fs args w corpus gt r :
  load_corpus read_dir fs (ev_corpus args) (ev_data_dir args) = Completed (corpus, gt) ->
  evaluate_with env (ev_engine args) corpus (ev_duration args) (ev_threads args) (ev_samples args) gt = Some r ->
  (forall r, exists json, report_json r = Ok json) ->
  exists w', run_evaluate read_dir report_json failure_json env fs no_text_faults args w = (Completed tt, w') /\
    render_terminal_dashboard (set_corpus_kind (corpus_kind_str (ev_corpus args)) r) ∈ w_out w'.
Proof.
  intros HL HE HJ. unfold run_evaluate. erewrite cmd_step by reflexivity. erewrite cmd_step by (unfold cmd_lift; by rewrite HL).
  cbv beta iota. do 2 erewrite cmd_step by reflexivity. erewrite cmd_step by (unfold cmd_try; by rewrite HE).
  set (report := set_corpus_kind _ r). cbv zeta. do 3 erewrite cmd_step by reflexivity.
  set (w3 := mkWorld _ _). assert (render_terminal_dashboard report ∈ w_out w3) as Hin by (simpl; set_solver).
  assert (exists w4, (match ev_json_out args with Some path => export_json report_json no_text_faults report path | None => mret tt end) w3
    = (Completed tt, w4) /\ render_terminal_dashboard report ∈ w_out w4) as (w4 & E4 & Hin4).
  { destruct (ev_json_out args) as [path|]; [|by exists w3]. destruct (HJ report) as [json Ej]. unfold export_json.
    erewrite cmd_step by (unfold cmd_lift; by rewrite Ej). eexists. split; [reflexivity|]. simpl. by apply elem_of_app; left. }
  rewrite (cmd_step _ _ _ _ _ E4). destruct (ev_audit_dump args) as [path|]; [|by exists w4].
  unfold export_dump. destruct (audit_dump _ _) as [jsonl n]. eexists. split; [reflexivity|]. simpl. by apply elem_of_app; left.
Qed.

(** The passes of an evaluation run through on a corpus of ASCII lines. *)
Lemma evaluate_ok env mode corpus duration threads samples gt :
  corpus <> [] -> corpus_ok gt corpus -> 0 < threads -> capacity_ok (Nat.max samples 100) = true ->
  (forall i, (0 <= be_nanos (ee_be1 env) i)%Z) -> (forall i, (0 <= be_nanos (ee_be2 env) i)%Z) ->
  exists r, evaluate_with env mode corpus duration threads samples gt = Some r.
Proof.
  intros Hne HC Ht Hcap H1' H2'. unfold evaluate_with, evaluate_with_mode.
  destruct (baseline_pass_clean (ee_envs env) (ee_be1 env) corpus threads samples gt Hne Ht Hcap H1' HC) as (b & -> & _).
  destruct (tiered_pass_clean (ee_te env) (ee_mclocks env) (ee_be2 env) corpus threads samples gt Hne Ht Hcap H2' HC) as (t & -> & _).
  destruct (_ || String.eqb mode "baseline"), (_ || String.eqb mode "tiered"); eexists; reflexivity.
Qed.

Lemma load_corpus_ne fs kind dir corpus gt : load_corpus read_dir fs kind dir = Completed (corpus, gt) -> corpus <> [].
Proof.
  unfold load_corpus. destruct (match kind with Core => _ | Adversarial => _ | Holdout => _ end) as [[ls g]|]; [|done].
  destruct ls; [done|]. by intros [= <- <-].
Qed.

(** C24: [ulpf evaluate] runs through: on every corpus that loads and consists of
    ASCII lines with a ground truth, with at least one thread, a number of samples whose
    buffer can be allocated (eight bytes each, at most [isize::MAX] in all), clocks that do not run
    backwards, reports that [serde_json] can write and no write faults, the
    command completes with exit code 0 whatever the engine, the
    schedules and the exports asked for, shows the dashboard of a report, and the
    passes that the engine's name asks for have been measured: none panicked,
    every line was parsed and kept its digest, and the throughput counts exactly
    the lines that the workers processed. *)
Theorem evaluation_runs_through env fs args w corpus gt :
  load_corpus read_dir fs (ev_corpus args) (ev_data_dir args) = Completed (corpus, gt) ->
  corpus_ok gt corpus -> 0 < ev_threads args -> capacity_ok (Nat.max (ev_samples args) 100) = true ->
  (forall i, (0 <= be_nanos (ee_be1 env) i)%Z) -> (forall i, (0 <= be_nanos (ee_be2 env) i)%Z) ->
  (forall r, exists json, report_json r = Ok json) ->
  exists r o w', run_evaluate read_dir report_json failure_json env fs no_text_faults args w = (o, w') /\ exit_code o = 0%Z /\
    render_terminal_dashboard r ∈ w_out w' /\ er_corpus_kind r = corpus_kind_str (ev_corpus args) /\
    er_corpus_size r = length corpus /\
    (if measures_baseline (ev_engine args)
     then exists b, er_baseline r = Some b /\ pass_clean corpus (ev_threads args) (ev_samples args) (ee_be1 env) b
     else er_baseline r = None) /\
    (if measures_tiered (ev_engine args)
     then exists t, er_tiered_pipeline r = Some t /\ pass_clean corpus (ev_threads args) (ev_samples args) (ee_be2 env) t
     else er_tiered_pipeline r = None).
Proof.
  intros HL HC Ht Hcap Hb Hp HJ. pose proof (load_corpus_ne _ _ _ _ _ HL) as Hne.
  destruct (evaluate_ok env (ev_engine args) corpus (ev_duration args) (ev_threads args) (ev_samples args) gt Hne HC Ht Hcap Hb Hp) as [r Hr].
  destruct (run_evaluate_ok env fs args w corpus gt r HL Hr HJ) as (w' & E & Hin).
  exists (set_corpus_kind (corpus_kind_str (ev_corpus args)) r), (Completed tt), w'.
  apply evaluate_inv in Hr as (_ & _ & _ & _ & Hsz & _ & Eb & Et). split_and!; try done; simpl.
  - destruct (measures_baseline _); [|done]. destruct Eb as (b & -> & Eb). exists b. split; [done|].
    destruct (baseline_pass_clean (ee_envs env) (ee_be1 env) corpus (ev_threads args) (ev_samples args) gt Hne Ht Hcap Hb HC) as (b' & E' & Hc).
    congruence.
  - destruct (measures_tiered _); [|done]. destruct Et as (t & -> & Et). exists t. split; [done|].
    destruct (tiered_pass_clean (ee_te env) (ee_mclocks env) (ee_be2 env) corpus (ev_threads args) (ev_samples args) gt Hne Ht Hcap Hp HC)
      as (t' & E' & Hc). congruence.
Qed.

(** C33: the report file of [ulpf evaluate]: whenever the command completes and no
    export goes to the same path, the file splits into exactly the lines of the
    report, however the numbers, the sidecar keys or the corpus look, and every
    table row has the four cells of its header; but only the engine [all] puts
    measurements into the file: under every other name it holds the header and
    nothing else, although a pass may have been measured. *)
Theorem evaluation_report_file env fs fx args w w' :
  run_evaluate read_dir report_json failure_json env fs fx args w = (Completed tt, w') ->
  ev_json_out args <> Some (ev_out args) -> ev_audit_dump args <> Some (ev_out args) -> text (ee_now env) ->
  exists r content, w_files w' !! ev_out args = Some content /\ lines content = md_lines r /\
    (forall l, l ∈ lines content -> starts_with "|" l = true -> pipes l = 5) /\
    er_mode r = ev_engine args /\ er_corpus_kind r = corpus_kind_str (ev_corpus args) /\
    (ev_engine args = "all" -> exists b t, er_baseline r = Some b /\ er_tiered_pipeline r = Some t) /\
    (ev_engine args <> "all" -> lines content = md_head r).
Proof.
  intros E Hj Hd Hn. destruct (run_evaluate_inv _ _ _ _ _ _ E Hj Hd) as (corpus & gt & r & _ & Er & Hf).
  pose proof (evaluation_fits _ _ _ _ _ _ _ (ev_corpus args) _ Hn Er) as Hfit. set (r' := set_corpus_kind _ r) in *.
  exists r', (to_markdown r'). rewrite (markdown_lines r') by done. split_and!; try done.
  - intros l Hl. pose proof (md_lines_ok r' Hfit) as HF. rewrite Forall_forall in HF. by apply HF.
  - by apply evaluate_inv in Er as (_ & Em & _).
  - intros Ha. apply evaluate_inv in Er as (_ & _ & _ & _ & _ & _ & Eb & Et). rewrite Ha in *.
    destruct Eb as (b & Eb & _), Et as (t & Et & _). by exists b, t.
  - intros Ha%String.eqb_neq. apply evaluate_inv in Er as (_ & _ & _ & _ & _ & _ & Eb & Et).
    unfold measures_baseline, measures_tiered in *. rewrite Ha in *. cbn [orb] in *. unfold md_lines. subst r'. cbn [set_corpus_kind er_baseline er_tiered_pipeline].
    destruct (String.eqb_spec (ev_engine args) "baseline") as [Hb|], (String.eqb_spec (ev_engine args) "tiered"); [congruence|..].
    + destruct Eb as (b & -> & _). rewrite Et. by rewrite app_nil_r.
    + rewrite Eb. by rewrite app_nil_r.
    + rewrite Eb. by rewrite app_nil_r.
Qed.

(** C32: [ulpf scorecard] never fails because of what it measures: once the corpus
    is loaded, both passes are measured and the duel has ended in a result, in
    nothing or in an error but no panic, and without write faults, the command completes with exit code 0 and shows the
    box, whatever the gates say.  It writes the report to [--out] and, if the duel
    ran, the duel's report beside it, and no other file; if [--out] is itself
    called [eval_duel_report.md], the report of the evaluation is lost. *)
Theorem scorecard_effect env fs args w corpus gt r duel :
  load_corpus read_dir fs (sa_corpus args) (sa_data_dir args) = Completed (corpus, gt) ->
  evaluate_with env "all" corpus (sa_duration args) (sa_threads args) (sa_samples args) gt = Some r ->
  run_duel (ee_duel_clocks env) (ee_duel_te env) fs (sa_data_dir args) = Some duel ->
  let report := set_corpus_kind (corpus_kind_str (sa_corpus args)) r in
  let d := match duel with Ok d => d | Err _ => None end in
  exists o w', run_scorecard read_dir env fs no_text_faults args w = (o, w') /\ exit_code o = 0%Z /\
    render report d (sa_out args) ∈ w_out w' /\
    w_files w' = match d with
                 | None => <[sa_out args := to_markdown report]> (w_files w)
                 | Some d => <[duel_out (sa_out args) := duel_to_markdown d]> (<[sa_out args := to_markdown report]> (w_files w))
                 end /\
    (forall dr, d = Some dr -> duel_out (sa_out args) = sa_out args -> w_files w' !! sa_out args = Some (duel_to_markdown dr)).
Proof.
  clear report_json failure_json. intros HL HE HD. cbv zeta. unfold run_scorecard. erewrite cmd_step by reflexivity.
  erewrite cmd_step by (unfold cmd_lift; by rewrite HL). cbv beta iota. erewrite cmd_step by reflexivity.
  erewrite cmd_step by (unfold cmd_try; by rewrite HE). cbv zeta. set (report := set_corpus_kind _ r).
  match goal with |- context [(try_duel _ _ _ ≫= _) ?w0] => set (w1 := w0) end.
  assert (exists out, try_duel env fs (sa_data_dir args) w1 = (Completed match duel with Ok d => d | Err _ => None end, mkWorld (w_out w1 ++ out) (w_files w)))
    as [out Ed].
  { unfold try_duel. erewrite cmd_step by (unfold cmd_try; by rewrite HD). destruct duel as [d|e].
    - exists []. by rewrite app_nil_r.
    - eexists. reflexivity. }
  rewrite (cmd_step _ _ _ _ _ Ed). do 3 erewrite cmd_step by reflexivity. exists (Completed tt).
  destruct (match duel with Ok d => d | Err _ => None end) as [d|]; eexists; (split; [reflexivity|]); simpl;
    split_and!; try done; try set_solver.
  intros dr [= <-] ->. by rewrite lookup_insert_eq.
Qed.

End Evaluation.

Module ReportDemo.
Import Demo TokenDemo ParserDemo OnboarderDemo PipelineDemo EvaluatorDemo.

#[export] Instance demo_upper : UpperText := {| to_uppercase s := s |}.

Definition eenv : EvalEnv :=
  mkEvalEnv (fun _ => env0) te0 mc0 be0 be0 "2026-01-01T00:00:00Z" (fun _ => (mc0, mc0)) te0.

Definition no_dir (path : string) : Result string (list string) := Err "no directory".
Definition json0 (r : EvaluationReport) : Result string string := Ok "{}".
Definition failure0 (name : string) (f : AuditFailure) : string := af_metric f.

Definition args0 (engine : string) : EvaluateArgs :=
  mkEvaluateArgs "security_probe" engine Adversarial 3 2 10 "report.md" None (Some "dump.jsonl").

Definition w0 : World := mkWorld [] ∅.

Definition loaded : list string * GtOverrides :=
  match load_corpus no_dir demo_files Adversarial "security_probe" with Completed x => x | _ => ([], ∅) end.

Lemma demo_loads : load_corpus no_dir demo_files Adversarial "security_probe" = Completed (loaded.1, loaded.2).
Proof.
  assert (match load_corpus no_dir demo_files Adversarial "security_probe" with Completed _ => true | _ => false end = true) as E
    by (vm_compute; reflexivity).
  unfold loaded. by destruct (load_corpus _ _ _ _) as [[c g]| | |].
Qed.

Lemma demo_corpus_ok : corpus_ok loaded.2 loaded.1.
Proof.
  assert (forallb (fun raw => all_bytes is_ascii raw && bool_decide (is_Some (ground_truth loaded.2 raw))) loaded.1 = true) as E
    by (vm_compute; reflexivity).
  apply Forall_forall. intros raw Hin. rewrite forallb_forall in E. specialize (E raw (proj1 (list_elem_of_In _ _) Hin)).
  apply andb_true_iff in E as [Ha Hg%bool_decide_eq_true]. done.
Qed.

Lemma evaluation_runs_through_witness : exists r o w',
  run_evaluate no_dir json0 failure0 eenv demo_files no_text_faults (args0 "tiered") w0 = (o, w') /\ exit_code o = 0%Z /\
  er_baseline r = None /\ er_corpus_size r = 3.
Proof.
  destruct (evaluation_runs_through no_dir json0 failure0 eenv demo_files (args0 "tiered") w0 loaded.1 loaded.2 demo_loads demo_corpus_ok)
    as (r & o & w' & E & Ho & _ & _ & Hs & Hb & _); [simpl; lia|reflexivity|intros; simpl; lia..|intros; by eexists|].
  exists r, o, w'. split; [exact E|]. split; [exact Ho|]. split; [exact Hb|exact Hs].
Defined.

Lemma demo_run engine : exists w', run_evaluate no_dir json0 failure0 eenv demo_files no_text_faults (args0 engine) w0 = (Completed tt, w').
Proof.
  destruct (evaluate_ok eenv engine loaded.1 3 2 10 loaded.2) as [r Hr]; [by eapply load_corpus_ne, demo_loads|apply demo_corpus_ok|lia|reflexivity|intros; simpl; lia..|].
  destruct (run_evaluate_ok no_dir json0 failure0 eenv demo_files (args0 engine) w0 loaded.1 loaded.2 r demo_loads Hr) as (w' & E & _);
    [intros; by eexists|]. by exists w'.
Qed.

Lemma evaluation_report_file_witness : exists w' content r,
  run_evaluate no_dir json0 failure0 eenv demo_files no_text_faults (args0 "baseline") w0 = (Completed tt, w') /\
  w_files w' !! "report.md" = Some content /\ lines content = md_head r.
Proof.
  destruct (demo_run "baseline") as [w' E].
  destruct (evaluation_report_file no_dir json0 failure0 eenv demo_files no_text_faults (args0 "baseline") w0 w' E)
    as (r & content & Hf & _ & _ & _ & _ & _ & Hh); [discriminate|discriminate|reflexivity|].
  exists w', content, r. split; [exact E|]. split; [exact Hf|]. apply Hh. discriminate.
Defined.

Definition duel_error : string :=
  match run_duel (ee_duel_clocks eenv) (ee_duel_te eenv) demo_files "security_probe" with Some (Err e) => e | _ => "" end.

(** The duel fails on a file that is not a table, and the scorecard is written. *)
Lemma scorecard_effect_witness : exists r o w',
  run_scorecard no_dir eenv demo_files no_text_faults (mkScorecardArgs "security_probe" Adversarial 3 2 10 "card.md") w0 = (o, w') /\
  exit_code o = 0%Z /\ w_files w' = {["card.md" := to_markdown r]}.
Proof.
  destruct (evaluate_ok eenv "all" loaded.1 3 2 10 loaded.2) as [r Hr]; [by eapply load_corpus_ne, demo_loads|apply demo_corpus_ok|lia|reflexivity|intros; simpl; lia..|].
  destruct (scorecard_effect no_dir eenv demo_files (mkScorecardArgs "security_probe" Adversarial 3 2 10 "card.md") w0 loaded.1 loaded.2 r
    (Err duel_error) demo_loads Hr) as (o & w' & E & Ho & _ & Hf & _);
    [vm_compute; reflexivity|].
  eexists _, o, w'. split; [exact E|]. split; [exact Ho|exact Hf].
Defined.

End ReportDemo.
