(* ===== verification/Console.v ===== *)
(** * What the commands print and how they start ([crates/ulpf-cli/src/main.rs])

    The start of [ulpf ingest] up to its tasks, its live statistics and its last
    line, the results of [ulpf benchmark], and the records of [ulpf inspect]. *)

From S2P Require Export Evaluate Listener Router Ingest.

Definition white (s : string) : string := ansi "1;37" s.

(** ** The start of [ulpf ingest] *)

Definition ingest_banner (args : IngestArgs) : list string :=
  [ banner_rule "=";
    green "   ULPF - Universal Log Pre-processing & Cryptographic Integrity Fabric";
    banner_rule "=";
    "  UDP Listener      : " +:+ ia_udp args;
    "  TCP Listener      : " +:+ ia_tcp args;
    "  Parquet Archive   : " +:+ ia_parquet_dir args;
    "  Merkle Ledger     : " +:+ ia_ledger args;
    "  Batch Trigger     : " +:+ pretty (ia_batch_size args) +:+ " logs OR " +:+ uint_to_string (ia_batch_timeout args) +:+ " ms";
    "  Queue             : capacity " +:+ pretty (ia_queue_capacity args) +:+ " ("
      +:+ (if ia_drop_on_full args then "drop-on-full" else "block-on-full") +:+ ")";
    "  Taxonomy Standard : OCSF 1.3 (Class 4001 NetworkActivity)";
    "  Tamper-Evidence   : RFC 6962 Standard Merkle Tree";
    banner_rule "-" ].

(** The faults of [create_dir_all] by path, and of the calls on the two sockets. *)
Record SetupEnv := mkSetupEnv {
  se_dir : string -> option string;
  se_udp : SockCall -> option string;
  se_tcp : SockCall -> option string
}.

(** The family of an address that parses. *)
Definition addr_family (addr : string) : Family := match read_socket_v4 addr with Some _ => Ipv4 | None => Ipv6 end.

Definition make_dir (env : SetupEnv) (path : string) : Result string unit :=
  match se_dir env path with Some e => Err e | None => Ok tt end.

(** [addr.parse().context(..)?] *)
Definition parse_addr (context addr : string) : Result string unit := if is_socket_addr addr then Ok tt else Err context.

Section Setup.
Context `{Sha256} `{HexLib} `{UnicodeLib} `{ChronoLib} `{RegexLib} `{JsonLib} `{AhoCorasick} `{RegexEngine}
  `{ArrowLib} `{PQ : ParquetLib} `{LedgerJson} `{EventJson}.

(** Everything before the main loop, in the order of the code. *)
Definition ingest_setup (env : SetupEnv) (args : IngestArgs) (d : Disk) : Result string Ingest :=
  _ ← validate_ingest_args args;
  _ ← make_dir env (ia_parquet_dir args);
  _ ← match parent_dir (ia_ledger args) with Some p => make_dir env p | None => Ok tt end;
  _ ← parse_addr "Invalid UDP address" (ia_udp args);
  _ ← create_udp_socket (se_udp env) (addr_family (ia_udp args)) (ia_udp args) (ia_reuse_port args);
  _ ← parse_addr "Invalid TCP address" (ia_tcp args);
  _ ← create_tcp_listener (se_tcp env) (addr_family (ia_tcp args)) (ia_tcp args) (ia_reuse_port args) 1024;
  ingest_start args d.

(** ** Live statistics *)

(** The variables of the reporter: the counter at the last tick. *)
Definition live_eps (elapsed : f64) (current last_count : Z) : f64 :=
  let diff := Z.max 0 (current - last_count) in
  if f64_lt f64_zero elapsed then f64_div (f64_of_Z diff) elapsed else f64_zero.

Definition live_line (eps : f64) (current parsed blocks anomalies : Z) (qs : QueueStats) : string :=
  ansi "32" "[ULPF LIVE]" +:+ " Ingest: " +:+ white (pad_left 7 (fmt_fixed 0 eps) +:+ " EPS")
  +:+ " | Total: " +:+ white (pad_left 8 (uint_to_string current))
  +:+ " | Normalized OCSF: " +:+ green (pad_left 8 (uint_to_string parsed))
  +:+ " | Blocks Anchored: " +:+ ansi "1;35" (pad_left 4 (uint_to_string blocks))
  +:+ " | Anomalies: " +:+ yellow (pad_left 3 (uint_to_string anomalies))
  +:+ " | Queue: " +:+ white (pad_left 5 (pretty (st_current_len qs)) +:+ " msgs / " +:+ pad_left 8 (uint_to_string (st_queued_bytes qs)) +:+ " bytes")
  +:+ " | Dropped: " +:+ ansi "1;31" (uint_to_string (st_dropped qs) +:+ " (" +:+ uint_to_string (st_dropped_bytes qs) +:+ " bytes)").

(** One tick of the reporter in a state of the run: its line, and the counter it
    keeps. *)
Definition live_tick (elapsed : f64) (last_count : Z) (s : Ingest) : string * Z :=
  let e := ig_engine s in
  (live_line (live_eps elapsed (ig_total_ingested s) last_count) (ig_total_ingested s) (en_parsed e) (en_blocks e) (en_anomalies e)
     (stats (inner (ig_queue s))), ig_total_ingested s).

(** ** The last line *)

Definition shutdown_line (ingested parsed blocks anomalies : Z) (qs : QueueStats) : string :=
  nl_str +:+ green "[ULPF SHUTDOWN]" +:+ " Ingest: " +:+ uint_to_string ingested +:+ " | Parsed: " +:+ uint_to_string parsed
  +:+ " | Blocks: " +:+ uint_to_string blocks +:+ " | Anomalies: " +:+ uint_to_string anomalies
  +:+ " | Queue: " +:+ pretty (st_current_len qs) +:+ " msgs / " +:+ uint_to_string (st_queued_bytes qs) +:+ " bytes (peak "
  +:+ uint_to_string (st_high_water_bytes qs) +:+ " bytes) | Dropped: " +:+ uint_to_string (st_dropped qs) +:+ " ("
  +:+ uint_to_string (st_dropped_bytes qs) +:+ " bytes) — " +:+ tail_note qs.

(** What a run that has finished prints. *)
Definition summary_of (s : Ingest) : string :=
  let e := ig_engine s in
  shutdown_line (ig_total_ingested s) (en_parsed e) (en_blocks e) (en_anomalies e) (stats (inner (ig_queue s))).

End Setup.

(** ** The results of [ulpf benchmark] *)

Definition benchmark_banner (args : BenchmarkArgs) : list string :=
  [ banner_rule "=";
    green "               ULPF Multi-Core Throughput Benchmark                ";
    banner_rule "=";
    "  Dataset Directory : " +:+ ba_data_dir args;
    "  Benchmark Duration: " +:+ uint_to_string (ba_duration args) +:+ " seconds";
    "  Parallel Workers  : " +:+ pretty (ba_threads args);
    banner_rule "-" ].

Definition benchmark_results (args : BenchmarkArgs) (total : Z) (elapsed : f64) : list string :=
  let eps := f64_div (f64_of_Z total) elapsed in
  [ nl_str +:+ green "========================= BENCHMARK RESULTS =========================";
    "  Total Events Normalized : " +:+ white (uint_to_string total);
    "  Elapsed Duration        : " +:+ white (fmt_fixed 2 elapsed +:+ "s");
    "  Aggregate Throughput    : " +:+ green (pad_left 10 (fmt_fixed 0 eps) +:+ " Events / Second (EPS)");
    "  Per-Core Throughput     : " +:+ yellow (pad_left 10 (fmt_fixed 0 (f64_div eps (f64_of_Z (Z.of_nat (ba_threads args))))) +:+ " EPS / thread");
    "  End-to-End Latency      : " +:+ cyan "< 1.8 microseconds / event";
    green (repeat_str 68 "=") ].

(** ** The records of [ulpf inspect] *)

Section Inspect.
Context `{JsonLib}.

Definition text_field (v : JValue) (key fallback : string) : string := default fallback (json_get v key ≫= as_str).
Definition shown_field (v : JValue) (key : string) : string := json_to_string (default JNull (json_get v key)).

Definition inspect_endpoint (label : string) (ocsf : JValue) (key : string) : list string :=
  match json_get ocsf key with
  | Some e => ["  • " +:+ label +:+ ": " +:+ text_field e "ip" "N/A" +:+ ":" +:+ shown_field e "port"]
  | None => []
  end.

Definition inspect_event (ocsf : JValue) : list string :=
  [ nl_str +:+ white "Normalized OCSF 1.3 Event (NetworkActivity 4001):";
    "  • Activity ID       : " +:+ shown_field ocsf "activity_id" +:+ " (" +:+ text_field ocsf "activity_name" "" +:+ ")";
    "  • Disposition       : " +:+ green (text_field ocsf "disposition" "") ]
  ++ inspect_endpoint "Source Endpoint   " ocsf "src_endpoint" ++ inspect_endpoint "Dest Endpoint     " ocsf "dst_endpoint"
  ++ match json_get ocsf "connection_info" with
     | Some conn => ["  • Protocol          : " +:+ text_field conn "protocol_name" "" +:+ " (num: " +:+ shown_field conn "protocol_num" +:+ ")"]
     | None => []
     end.

(** The lines of the [i]-th record; [None] is a panic in the preview. *)
Definition inspect_record (i : nat) (r : StoredLogRecord) : option (list string) :=
  preview <-! inspect_preview (sr_raw_log r);
  Some ([ nl_str +:+ white ("Forensic Record #" +:+ pretty i +:+ ":");
          "  • Event ID (UUIDv7) : " +:+ green (sr_event_id r);
          "  • Vendor Platform   : " +:+ yellow (sr_vendor r);
          "  • Leaf Index        : " +:+ uint_to_string (sr_leaf_index r);
          "  • Raw Hash (SHA-256): " +:+ ansi "1;34" (sr_raw_hash r);
          "  • Raw Log (Lossless): " +:+ white preview ]
        ++ match json_from_str (sr_ocsf_json r) with Ok ocsf => inspect_event ocsf | Err _ => [] end).

Fixpoint inspect_records (i : nat) (rs : list StoredLogRecord) : option (list string) :=
  match rs with
  | [] => Some []
  | r :: rs' => ls <-! inspect_record i r; rest <-! inspect_records (S i) rs'; Some (ls ++ rest)
  end.

End Inspect.
