(* ===== verification/ConsoleFacts.v ===== *)
(** * What the commands print is true

    The start of ingest fails before it touches the archive; the counters in the
    last line of ingest are those of the archive; what [inspect] shows. *)

From S2P Require Import BatcherFacts CliFacts ServeFacts.
From S2P Require Export Console IngestFacts.

Section Counters.
Context `{Sha256} `{HexLib} `{UnicodeLib} `{ChronoLib} `{RegexLib} `{JsonLib} `{AhoCorasick} `{RegexEngine}
  `{ArrowLib} `{PQ : ParquetLib} `{LedgerJson} `{EventJson}.

(** ** The counters *)

(** A flush that returns a block adds one entry to the ledger, one that does not
    adds none. *)
Lemma flush_counts env b d o b' d' : flush env b d = Some (Ok o, b', d') ->
  length (in_memory_ledger b') = length (in_memory_ledger b) + match o with Some _ => 1 | None => 0 end.
Proof.
  unfold flush. destruct (is_nil (buffer b)); [intros [= <- <- <-]; lia|]. destruct (from_raw_logs _) as [tree|]; [|done]. cbn [mbind option_bind].
  destruct (write_records_to_parquet _ _ _ _ _) as [[u|e] fs]; [|done]. destruct (append_ledger_entry _ _ _ _) as [[u'|e] d2]; [|done].
  intros [= <- <- <-]. simpl. rewrite length_app. done.
Qed.

Lemma push_counts t0 t1 env log b d o b' d' : Batcher.push t0 t1 env log b d = Some (Ok o, b', d') ->
  length (in_memory_ledger b') = length (in_memory_ledger b) + match o with Some _ => 1 | None => 0 end.
Proof.
  unfold Batcher.push. destruct (should_flush _ _); [intros E%flush_counts; exact E|]. intros [= <- <- <-]. simpl. lia.
Qed.

(** The counters of a run: every log handed to the batcher was counted, every
    entry of the ledger was counted, and every call of [push]. *)
Record counted (pushes : nat) (s : Ingest) : Prop := {
  ct_ingested : ig_total_ingested s = u64 (Z.of_nat pushes);
  ct_parsed : failed (ig_phase s) = false -> en_parsed (ig_engine s) = u64 (Z.of_nat (length (ig_logs s)));
  ct_blocks : failed (ig_phase s) = false ->
    en_blocks (ig_engine s) = u64 (Z.of_nat (length (in_memory_ledger (en_batcher (ig_engine s)))))
}.

Lemma u64_succ n : u64 (u64 (Z.of_nat n) + 1) = u64 (Z.of_nat (S n)).
Proof. unfold u64. wrap_simpl. f_equal. lia. Qed.

Definition is_push (a : IngestAction) : bool := match a with Push _ => true | _ => false end.

Definition pushes_of (acts : list IngestAction) : nat := length (List.filter is_push acts).

Lemma process_log_counts env raw e e' log : process_log env raw e = Some (Ok tt, e', log) ->
  en_parsed e' = u64 (en_parsed e + 1) /\
  (en_blocks e = u64 (Z.of_nat (length (in_memory_ledger (en_batcher e)))) ->
   en_blocks e' = u64 (Z.of_nat (length (in_memory_ledger (en_batcher e'))))).
Proof.
  unfold process_log. destruct (parse_lossless _ _) as [ev|]; [|done]. cbn [mbind option_bind].
  destruct (add_log _ _ _ _) as [[cr m]|]; [|done].
  destruct (Batcher.push _ _ _ _ _ _) as [[[[o|msg] b] d]|] eqn:E; [|done..]. intros [= <- <-]. simpl. split; [done|].
  intros Hb. apply push_counts in E. rewrite E. destruct o; rewrite Hb; [|by rewrite Nat.add_0_r].
  by rewrite u64_succ, Nat.add_1_r.
Qed.

Lemma consume_counts p env raw rest s : counted p s -> failed (ig_phase s) = false -> counted p (consume env raw rest s).
Proof.
  intros [C1 C2 C3] Hf. unfold consume. destruct (is_line raw); [|by split].
  destruct (process_log env raw (ig_engine s)) as [[[[[]|msg] e'] log]|] eqn:E; [|split; simpl; auto; done..].
  apply process_log_counts in E as [E1 E2]. split; simpl; [done| |].
  - intros _. rewrite E1, (C2 Hf), u64_succ, length_app. simpl. do 2 f_equal. lia.
  - intros _. by apply E2, C3.
Qed.

Lemma final_flush_counts p env s : counted p s -> failed (ig_phase s) = false -> counted p (final_flush env s).
Proof.
  intros [C1 C2 C3] Hf. unfold final_flush. destruct (flush env _ _) as [[[[o|msg] b] d]|] eqn:E; [|split; simpl; auto; done..].
  apply flush_counts in E. split; simpl; [done|by intros _; apply C2|]. intros _. rewrite E. destruct o; rewrite (C3 Hf).
  - by rewrite u64_succ, Nat.add_1_r.
  - by rewrite Nat.add_0_r.
Qed.

Lemma pop_lines_counts p n s batch s1 : counted p s -> pop_lines n s = Some (batch, s1) -> counted p s1 /\ ig_phase s1 = ig_phase s.
Proof. intros [C1 C2 C3]. unfold pop_lines. destruct (exec _ _); [|done]. intros [= <- <-]. by split. Qed.

Lemma ingest_exec_counts n a p s s' : counted p s -> ingest_exec n a s = Some s' -> counted (p + if is_push a then 1 else 0) s'.
Proof.
  intros C. pose proof C as [C1 C2 C3]. destruct a as [t data|t line|t|t|t|t| |env| | |env]; cbn [ingest_exec is_push]; rewrite ?Nat.add_0_r.
  - destruct (idle s t); [|done]. intros [= <-]. by split.
  - destruct (idle s t); [|done]. intros [= <-]. by split.
  - destruct (ig_tasks s !! t) as [[[|line rest] []]|]; try done. generalize (exec (Call t line) (ig_queue s)). intros q E.
    assert (exists q', s' = Ingest.mkIngest _ q' (<[t:=mkProducer rest false]> (ig_tasks s)) (u64 (ig_total_ingested s + 1)) (ig_phase s)
      (ig_batch s) (ig_engine s) (ig_logs s)) as [q' ->].
    { destruct (threads (ig_queue s) !! t) as [pc|]; [destruct pc as [| | | | | | | | | | |[]]; try done|]; (destruct q as [q'|]; [|done]); injection E as <-; by exists q'. }
    split; simpl; [|done|done]. by rewrite C1, u64_succ, Nat.add_1_r.
  - intros E. repeat case_match; simplify_eq/=. by split.
  - destruct (exec _ _) as [q|]; [|done]. intros [= <-]. by split.
  - destruct (exec _ _) as [q|]; [|done]. intros [= <-]. by split.
  - destruct (_ && _); [|done]. destruct (pop_lines n s) as [[batch s1]|] eqn:E; [|done]. intros [= <-].
    by destruct (pop_lines_counts _ _ _ _ _ C E) as [[] _].
  - destruct (consuming (ig_phase s)) eqn:Ec; [|done]. destruct (ig_batch s) as [|raw rest]; [done|]. intros [= <-].
    apply consume_counts; [done|]. by destruct (ig_phase s).
  - destruct (ig_phase s) eqn:Ep, (ig_batch s); try done. destruct (exec _ _) as [q|]; [|done]. intros [= <-]. simpl in *. by split.
  - destruct (ig_phase s) eqn:Ep; try done. destruct (exec _ _) as [q|]; [|done]. intros [= <-]. simpl in *. by split.
  - destruct (ig_phase s) eqn:Ep, (ig_batch s); try done. destruct (pop_lines n s) as [[[|] s1]|] eqn:E; try done. intros [= <-].
    destruct (pop_lines_counts _ _ _ _ _ C E) as [C' Ep']. apply final_flush_counts; [done|by rewrite Ep', Ep].
Qed.

Lemma ingest_run_counts n acts : forall p s s', counted p s -> ingest_run n acts s = Some s' -> counted (p + pushes_of acts) s'.
Proof.
  induction acts as [|a acts IH]; intros p s s' C; cbn [ingest_run]; [intros [= <-]; by rewrite Nat.add_0_r|].
  destruct (ingest_exec n a s) as [s1|] eqn:E; [|done]. cbn [mbind option_bind]. intros Hr.
  apply (IH (p + if is_push a then 1 else 0)) in Hr; [|by eapply ingest_exec_counts].
  unfold pushes_of in *. cbn [List.filter]. destruct (is_push a); [|by rewrite Nat.add_0_r in Hr].
  cbn [length]. by rewrite <- Nat.add_assoc in Hr.
Qed.

Lemma start_counted args s : ingest_start args empty_disk = Ok s -> counted 0 s.
Proof.
  unfold ingest_start. destruct (validate_ingest_args args); [|done]. destruct (new_represents (ingest_batcher_config args)) as (b & E & HR & _).
  rewrite E. intros [= <-]. split; try done. intros _. simpl. by rewrite (rep_ledger _ _ _ _ HR).
Qed.

(** C29: the last line of ingest tells the truth: after a shutdown that ran
    through, from an empty disk, with a batch size above zero, without disk faults and with at
    most 128 vendors among lines that can fill one block, the numbers it prints
    are, modulo 2^64, how
    often a producer called [push], how many records the block files hold, how
    many blocks the ledger names and how many lines were shed; the queue it
    shows is empty; the blocks hold exactly the lines that the queue accepted, in
    order; and under the default policy it says that nothing was lost, and the lines
    accepted are those whose [push] returned [Ok]. *)
Theorem summary_true args acts s0 s : ingest_start args empty_disk = Ok s0 -> Forall action_good acts ->
  ingest_run (ia_batch_size args) acts s0 = Some s -> bounded (ia_batch_size args) (ig_logs s) -> 0 < ia_batch_size args -> ig_phase s = Finished ->
  exists bs qs, archived args s bs /\ sr_raw_log <$> concat bs = accepted (ig_queue s) /\
    summary_of s = shutdown_line (u64 (Z.of_nat (pushes_of acts))) (u64 (Z.of_nat (length (concat bs)))) (u64 (Z.of_nat (length bs)))
                     (en_anomalies (ig_engine s)) qs /\
    st_current_len qs = 0 /\ st_queued_bytes qs = 0%Z /\
    st_dropped qs = u64 (Z.of_nat (length (shed (ig_queue s)))) /\
    (policy (inner (ig_queue s)) = Block -> tail_note qs = "tail batch flushed losslessly." /\ acked (ig_queue s) = accepted (ig_queue s)).
Proof.
  intros E0 HF E Hb Hn Hph. pose proof (ingest_run_inv _ _ acts _ _ (start_inv _ _ E0) HF E) as I.
  destruct (all_handed_on _ _ _ I (ingest_run_lines _ _ _ _ (start_lines _ _ E0) E)) as (done & Hacc & <-). destruct I as [Iq _ Ie _ _ If].
  destruct (If Hph) as (Hbt & _ & Hq & Hbuf). destruct (holds_archived args s (proj1 (Ie Hb))) as (bs & HB & Hraw).
  rewrite (Hbuf Hb) in Hraw. simpl in Hraw. rewrite app_nil_r in Hraw. specialize (Hq Hn).
  destruct (ingest_run_counts _ _ _ _ _ (start_counted _ _ E0) E) as [C1 C2 C3]. rewrite Hph in C2, C3.
  assert (length (concat bs) = length (ig_logs s)) as Hlen.
  { apply (f_equal length) in Hraw. by rewrite !length_fmap in Hraw. }
  exists bs, (stats (inner (ig_queue s))). unfold summary_of. split_and!; [done| | | | | |].
  - by rewrite Hacc, Hraw, Hq, Hbt, !app_nil_r.
  - by rewrite C1, C2, C3, Hlen, (Forall2_length _ _ _ HB).
  - simpl. by rewrite Hq.
  - simpl. by rewrite (qi_bytes _ Iq), Hq.
  - simpl. apply (qi_dropped _ Iq).
  - intros Hp. destruct (qi_block _ Iq Hp) as [Ha Hs]. split; [|done]. unfold tail_note. simpl. by rewrite (qi_dropped _ Iq), Hs.
Qed.

(** ** The start *)

(** A start that succeeds is a start of the model, with both sockets bound; a
    start that fails has not opened the ledger, and a bad flag or address is
    reported before the socket it belongs to is made. *)
Lemma setup_starts env args d s : ingest_setup env args d = Ok s ->
  ingest_start args d = Ok s /\ is_socket_addr (ia_udp args) = true /\ is_socket_addr (ia_tcp args) = true /\
  (forall c, c ∈ udp_socket_calls (addr_family (ia_udp args)) (ia_udp args) (ia_reuse_port args) -> se_udp env c = None) /\
  (forall c, c ∈ tcp_listener_calls (addr_family (ia_tcp args)) (ia_tcp args) (ia_reuse_port args) 1024 -> se_tcp env c = None).
Proof.
  assert (forall fails calls, run_calls fails calls = Ok tt -> forall c, c ∈ calls -> fails c = None) as Hrun.
  { intros fails calls. induction calls as [|x calls IH]; intros Hr c Hc; [by apply elem_of_nil in Hc|]. simpl in Hr.
    destruct (fails x) eqn:E; [done|]. apply elem_of_cons in Hc as [->|Hc]; [done|]. by apply IH. }
  unfold ingest_setup, create_udp_socket, create_tcp_listener, parse_addr.
  destruct (validate_ingest_args args); [|done]. cbn [mbind]. destruct (make_dir env _); [|done]. cbn [mbind].
  destruct (match parent_dir _ with Some p => _ | None => _ end); [|done]. cbn [mbind].
  destruct (is_socket_addr (ia_udp args)); [|done]. cbn [mbind].
  destruct (run_calls (se_udp env) _) as [[]|] eqn:Eu; [|done]. cbn [mbind].
  destruct (is_socket_addr (ia_tcp args)); [|done]. cbn [mbind].
  destruct (run_calls (se_tcp env) _) as [[]|] eqn:Et; [|done]. cbn [mbind]. intros E. split_and!; try done; by apply Hrun.
Qed.

End Counters.

(** [inspect] shows all records it was asked for unless one of the previews, which
    are cut at a fixed byte, panics. *)
Lemma inspect_previews `{JsonLib} rs : forall i, (exists ls, inspect_records i rs = Some ls) <-> (exists ps, previews rs = Some ps).
Proof.
  induction rs as [|r rs IH]; intros i; cbn [inspect_records previews]; [split; intros _; by eexists|].
  unfold inspect_record. destruct (inspect_preview (sr_raw_log r)) as [p|]; cbn [mbind option_bind]; [|split; by intros [? [=]]].
  specialize (IH (S i)). destruct (inspect_records (S i) rs) as [ls|], (previews rs) as [ps|]; cbn [mbind option_bind].
  - split; intros _; by eexists.
  - destruct IH as [IH _]. destruct IH as [? [=]]; by eexists.
  - destruct IH as [_ IH]. destruct IH as [? [=]]; by eexists.
  - split; by intros [? [=]].
Qed.

(** ** Witnesses *)

Module ConsoleDemo.
Import Demo TokenDemo ParserDemo RegexDemo ArrowDemo BatcherDemo IngestDemo.

Lemma summary_true_witness : let s := reached 2 acts_full in exists bs qs, archived (ingest_args 2) s bs /\
  summary_of s = shutdown_line 3 (u64 (Z.of_nat (length (concat bs)))) (u64 (Z.of_nat (length bs))) (en_anomalies (ig_engine s)) qs /\
  tail_note qs = "tail batch flushed losslessly.".
Proof.
  destruct (summary_true (ingest_args 2) acts_full (started 2) (reached 2 acts_full)) as (bs & qs & HA & _ & Hs & _ & _ & _ & Ht).
  - vm_compute. reflexivity.
  - exact good_full.
  - vm_compute. reflexivity.
  - split; [apply few_vendors_small; vm_compute; lia|vm_compute; reflexivity].
  - simpl. lia.
  - vm_compute. reflexivity.
  - exists bs, qs. split; [exact HA|]. split; [exact Hs|]. apply Ht. vm_compute. reflexivity.
Defined.

(** The line as it is printed. *)
Example demo_summary_line : summary_of (reached 2 acts_full) =
  shutdown_line 3 3 2 (en_anomalies (ig_engine (reached 2 acts_full))) (stats (inner (ig_queue (reached 2 acts_full)))).
Proof. vm_compute. reflexivity. Qed.

Definition setup0 : SetupEnv := mkSetupEnv (fun _ => None) (fun _ => None) (fun c => match c with BindTo _ => Some "address in use" | _ => None end).

Example demo_setup_errors :
  (match ingest_setup setup0 ingest_defaults empty_disk with Err e => e | Ok _ => "" end,
   match ingest_setup setup0 (ingest_args 2) empty_disk with Err e => e | Ok _ => "" end) = ("address in use", "Invalid UDP address").
Proof. vm_compute. reflexivity. Qed.

End ConsoleDemo.
