(* ===== verification/Generator.v ===== *)
(** * The traffic generator ([crates/ulpf-generator/src/lib.rs], [main.rs])

    The data sets, the rate controller, the UDP and TCP workers, the counters and
    the reporter.  A worker is a fold over the iterations of its loop; each
    iteration carries the time that has passed and what the socket answered. *)

From S2P Require Export Cli.

(** ** [lib.rs] *)

Inductive DatasetKind := All | Cisco | Fortigate | PaloAlto | Suricata | PfSense | Kaggle.

#[global] Instance DatasetKind_eq_dec : EqDecision DatasetKind.
Proof. solve_decision. Defined.

Inductive Protocol := Udp | Tcp.

#[global] Instance Protocol_eq_dec : EqDecision Protocol.
Proof. solve_decision. Defined.

(** [Display] *)
Definition dataset_str (k : DatasetKind) : string :=
  match k with
  | All => "all" | Cisco => "cisco" | Fortigate => "fortigate" | PaloAlto => "paloalto"
  | Suricata => "suricata" | PfSense => "pfsense" | Kaggle => "kaggle"
  end.

Definition protocol_str (p : Protocol) : string := match p with Udp => "UDP" | Tcp => "TCP" end.

Section Parsing.
Context `{UnicodeText}.

Definition dataset_from_str (s : string) : Result string DatasetKind :=
  let l := to_lowercase s in
  if one_of ["all"] l then Ok All
  else if one_of ["cisco"; "cisco_asa"; "cisco-asa"] l then Ok Cisco
  else if one_of ["fortigate"; "fgt"] l then Ok Fortigate
  else if one_of ["paloalto"; "palo_alto"; "palo-alto"; "panw"] l then Ok PaloAlto
  else if one_of ["suricata"; "eve"] l then Ok Suricata
  else if one_of ["pfsense"; "pf"] l then Ok PfSense
  else if one_of ["kaggle"; "kaggle_firewall"] l then Ok Kaggle
  else Err ("Unknown dataset kind '" +:+ s +:+ "'. Supported: all, cisco, fortigate, paloalto, suricata, pfsense, kaggle").

Definition protocol_from_str (s : string) : Result string Protocol :=
  let l := to_lowercase s in
  if String.eqb l "udp" then Ok Udp
  else if String.eqb l "tcp" then Ok Tcp
  else Err ("Invalid protocol '" +:+ s +:+ "'. Must be 'udp' or 'tcp'").

End Parsing.

(** [parts.get(i).unwrap_or(&d)] *)
Definition part (parts : list string) (i : nat) (d : string) : string := default d (parts !! i).

(** [now] is the text of [Utc::now()]. *)
Definition kaggle_row_to_syslog (now row : string) (timestamp : option string) : option string :=
  let parts := trim <$> split_char "," row in
  if (length parts <? 10)%nat then None
  else if eq_ignore_ascii_case (part parts 0 "") "source port" then None
  else
    let ts := default now timestamp in
    Some ("<134>" +:+ ts +:+ " firewall-kaggle-01 %KAGGLE-FW-1-TRAFFIC: action=" +:+ dquote_str +:+ part parts 4 "unknown" +:+ dquote_str
          +:+ " src_port=" +:+ part parts 0 "0" +:+ " dst_port=" +:+ part parts 1 "0"
          +:+ " nat_src_port=" +:+ part parts 2 "0" +:+ " nat_dst_port=" +:+ part parts 3 "0"
          +:+ " bytes=" +:+ part parts 5 "0" +:+ " sent_bytes=" +:+ part parts 6 "0" +:+ " rcvd_bytes=" +:+ part parts 7 "0"
          +:+ " packets=" +:+ part parts 8 "0" +:+ " elapsed_sec=" +:+ part parts 9 "0"
          +:+ " pkts_sent=" +:+ part parts 10 "0" +:+ " pkts_rcvd=" +:+ part parts 11 "0").

(** [Path::exists] and [Path::is_dir] are [exists_] and [is_dir]. *)
Definition locate_data_dir (exists_ is_dir : string -> bool) (custom : option string) : Result string string :=
  let candidates := ["data/raw"; "../data/raw"; "../../data/raw"] in
  let search := match list_find (fun c => exists_ c && is_dir c) candidates with
                | Some (_, c) => Ok c
                | None => Err "Could not find data/raw directory. Please specify --data-dir"
                end in
  match custom with
  | Some path => if exists_ path then Ok path else search
  | None => search
  end.

(** The file, or the error of [open]; a line that is not UTF-8 ends the reading. *)
Definition read_lines (fs : Files) (path : string) : Result string (list string) :=
  match fs_read fs path with
  | Err _ => Err ("Failed to open file " +:+ path)
  | Ok text =>
      if forallb utf8_valid (lines text) then Ok (List.filter not_empty (trim <$> lines text))
      else Err "stream did not contain valid UTF-8"
  end.

Section Loading.
(** The clock's text at the [n]-th row of the CSV file. *)
Context (clock : nat -> string) (fs : Files) (data_dir : string).

(** [load_cisco], [load_fortigate], [load_paloalto], [load_suricata] and
    [load_pfsense], which differ in the file they read *)
Definition load_file (name : string) (logs : list string) : Result string (list string) :=
  match read_lines fs (join data_dir name) with Err e => Err e | Ok ls => Ok (logs ++ ls) end.

Fixpoint convert_rows (i : nat) (rows : list string) : list string :=
  match rows with
  | [] => []
  | row :: rows' =>
      match kaggle_row_to_syslog (clock i) row None with
      | Some syslog => syslog :: convert_rows (S i) rows'
      | None => convert_rows (S i) rows'
      end
  end.

Definition load_kaggle (logs : list string) : Result string (list string) :=
  match read_lines fs (join data_dir "kaggle_firewall.csv") with Err e => Err e | Ok rows => Ok (logs ++ convert_rows 0 rows) end.

Definition load_dataset (kind : DatasetKind) : Result string (list string) :=
  let loaded :=
    match kind with
    | Cisco => load_file "cisco_asa.log" []
    | Fortigate => load_file "fortigate.log" []
    | PaloAlto => load_file "paloalto.log" []
    | Suricata => load_file "suricata.json" []
    | PfSense => load_file "pfsense.log" []
    | Kaggle => load_kaggle []
    | All =>
        logs ← load_file "cisco_asa.log" [];
        logs ← load_file "fortigate.log" logs;
        logs ← load_file "paloalto.log" logs;
        logs ← load_file "suricata.json" logs;
        logs ← load_file "pfsense.log" logs;
        load_kaggle logs
    end in
  match loaded with
  | Err e => Err e
  | Ok logs => if is_nil_list logs then Err ("No logs loaded for dataset kind '" +:+ dataset_str kind +:+ "'") else Ok logs
  end.

End Loading.

(** ** [main.rs]: the arguments *)

Record GenArgs := mkGenArgs {
  ga_target : string;
  ga_proto : string;
  ga_rate : Z;
  ga_duration : Z;
  ga_dataset : string;
  ga_workers : option nat;
  ga_data_dir : option string;
  ga_batch_size : nat
}.

Definition gen_defaults : GenArgs := mkGenArgs "127.0.0.1:5140" "udp" 50000 10 "all" None None 64.

(** [cli.workers.unwrap_or_else(..)]; [cpus] is [available_parallelism] *)
Definition num_workers (cpus : option nat) (args : GenArgs) : nat :=
  match ga_workers args with Some n => n | None => Nat.max (default 4 cpus) 2 end.

(** The rate of one worker; the division by a number of workers that is 0
    panics. *)
Definition worker_rate (rate : Z) (workers : nat) : option Z :=
  if (0 <? rate)%Z
  then match workers with O => None | _ => Some (Z.max (rate / Z.of_nat workers) 1) end
  else Some 0%Z.

(** The bytes of a line on the wire. *)
Definition encode_log (proto : Protocol) (line : string) : string :=
  match proto with Tcp => line +:+ String newline "" | Udp => line end.

(** What the workers are started with. *)
Record GenPlan := mkGenPlan { gp_proto : Protocol; gp_logs : list string; gp_workers : nat; gp_rate : Z; gp_batch : nat }.

(** [main] up to the workers.  [addr_ok]: the target parses as a socket address. *)
Definition gen_plan `{UnicodeText} (addr_ok : string -> bool) (exists_ is_dir : string -> bool) (clock : nat -> string)
    (cpus : option nat) (fs : Files) (args : GenArgs) : Outcome GenPlan :=
  match protocol_from_str (ga_proto args) with
  | Err e => Bailed e
  | Ok proto =>
  match dataset_from_str (ga_dataset args) with
  | Err e => Bailed e
  | Ok kind =>
  if negb (addr_ok (ga_target args)) then Bailed ("Invalid target socket address '" +:+ ga_target args +:+ "'")
  else match locate_data_dir exists_ is_dir (ga_data_dir args) with
  | Err e => Bailed e
  | Ok dir =>
  match load_dataset clock fs dir kind with
  | Err e => Bailed e
  | Ok logs_str =>
  match worker_rate (ga_rate args) (num_workers cpus args) with
  | None => Panicked
  | Some rate => Completed (mkGenPlan proto (encode_log proto <$> logs_str) (num_workers cpus args) rate (ga_batch_size args))
  end end end end end.

(** ** The workers *)

(** [Stats]: the atomic counters, which wrap *)
Record Stats := mkGenStats { packets_sent : Z; bytes_sent : Z; errors : Z }.

Definition stats_new : Stats := mkGenStats 0 0 0.

(** A worker's own variables, the counters, and what it gave the socket that the
    socket took, in order: the datagrams, or the buffers written. *)
Record GenWorker := mkGenWorker { log_idx : nat; sent_count : Z; g_stats : Stats; wire : list string }.

Section Workers.
Context (logs : list string) (target_rate : Z) (batch_size : nat).

Definition worker_new (worker_id : nat) (st : Stats) : GenWorker := mkGenWorker ((worker_id * 17) mod length logs) 0 st [].

(** [(worker_start.elapsed().as_secs_f64() * target_rate as f64) as u64] *)
Definition expected_sent (elapsed : f64) : Z := f64_to_u64 (f64_mul elapsed (f64_of_Z target_rate)).

(** The rate controller: [None] to sleep and go round again. *)
Definition to_send (elapsed : f64) (sent : Z) : option nat :=
  if (0 <? target_rate)%Z then
    let expected := expected_sent elapsed in
    if (u64 (expected + Z.of_nat batch_size) <? sent)%Z then None
    else Some (Nat.min batch_size (Nat.max (Z.to_nat (Z.max 0 (expected - sent))) 1))
  else Some batch_size.

(** One [socket.send]: [Some n], the bytes sent; [None], an error.  [None] of the
    step: an index out of range. *)
Definition udp_send (answer : option Z) (acc : nat * Z * Z * Stats * list string) : option (nat * Z * Z * Stats * list string) :=
  let '(idx, batch_bytes, batch_pkts, st, out) := acc in
  match logs !! idx with
  | None => None
  | Some log_bytes =>
      let idx' := (idx + 1) mod length logs in
      match answer with
      | Some n => Some (idx', u64 (batch_bytes + n), u64 (batch_pkts + 1), st, out ++ [log_bytes])
      | None => Some (idx', batch_bytes, batch_pkts, mkGenStats (packets_sent st) (bytes_sent st) (u64 (errors st + 1)), out)
      end
  end.

(** The [for _ in 0..to_send] loop: [answer i] is what the [i]-th send returned. *)
Fixpoint udp_batch (n i : nat) (answer : nat -> option Z) (acc : nat * Z * Z * Stats * list string)
    : option (nat * Z * Z * Stats * list string) :=
  match n with
  | O => Some acc
  | S n' => match udp_send (answer i) acc with Some acc' => udp_batch n' (S i) answer acc' | None => None end
  end.

(** One round of the loop of [run_udp_worker]. *)
Definition udp_iteration (elapsed : f64) (answer : nat -> option Z) (w : GenWorker) : option GenWorker :=
  match to_send elapsed (sent_count w) with
  | None => Some w
  | Some n =>
      match udp_batch n 0 answer (log_idx w, 0%Z, 0%Z, g_stats w, wire w) with
      | None => None
      | Some (idx, batch_bytes, batch_pkts, st, out) =>
          Some (mkGenWorker idx (u64 (sent_count w + batch_pkts))
                  (mkGenStats (u64 (packets_sent st + batch_pkts)) (u64 (bytes_sent st + batch_bytes)) (errors st)) out)
      end
  end.

(** The buffer: the next [n] lines, from [idx] round and round. *)
Fixpoint fill_buf (n idx : nat) (buf : string) : option (nat * string) :=
  match n with
  | O => Some (idx, buf)
  | S n' => match logs !! idx with
            | None => None
            | Some log_bytes => fill_buf n' ((idx + 1) mod length logs) (buf +:+ log_bytes)
            end
  end.

(** One round of the loop of [run_tcp_worker]; [ok] says whether [write_all]
    succeeded.  A failed write is followed by a new connection, and the lines of
    its buffer are not sent again. *)
Definition tcp_iteration (elapsed : f64) (ok : bool) (w : GenWorker) : option GenWorker :=
  match to_send elapsed (sent_count w) with
  | None => Some w
  | Some n =>
      match fill_buf n (log_idx w) "" with
      | None => None
      | Some (idx, send_buf) =>
          let st := g_stats w in
          if ok
          then Some (mkGenWorker idx (u64 (sent_count w + Z.of_nat n))
                       (mkGenStats (u64 (packets_sent st + Z.of_nat n)) (u64 (bytes_sent st + Z.of_nat (String.length send_buf))) (errors st))
                       (wire w ++ [send_buf]))
          else Some (mkGenWorker idx (sent_count w) (mkGenStats (packets_sent st) (bytes_sent st) (u64 (errors st + 1))) (wire w))
      end
  end.

(** The loops, while [running] is set. *)
Fixpoint udp_worker (rounds : list (f64 * (nat -> option Z))) (w : GenWorker) : option GenWorker :=
  match rounds with
  | [] => Some w
  | (t, answer) :: rounds' => match udp_iteration t answer w with Some w' => udp_worker rounds' w' | None => None end
  end.

Fixpoint tcp_worker (rounds : list (f64 * bool)) (w : GenWorker) : option GenWorker :=
  match rounds with
  | [] => Some w
  | (t, ok) :: rounds' => match tcp_iteration t ok w with Some w' => tcp_worker rounds' w' | None => None end
  end.

(** The tasks, from the opening of the socket: when it fails, one error is
    counted and nothing is sent.  [Vec::with_capacity] panics above [isize::MAX]
    bytes. *)
Definition count_error (st : Stats) : Stats := mkGenStats (packets_sent st) (bytes_sent st) (u64 (errors st + 1)).

Definition run_udp_worker (bound connected : bool) (worker_id : nat) (rounds : list (f64 * (nat -> option Z))) (st : Stats)
    : option (Stats * list string) :=
  if negb bound then Some (count_error st, [])
  else if negb connected then Some (count_error st, [])
  else (fun w => (g_stats w, wire w)) <$> udp_worker rounds (worker_new worker_id st).

Definition run_tcp_worker (connected : bool) (worker_id : nat) (rounds : list (f64 * bool)) (st : Stats) : option (Stats * list string) :=
  if negb connected then Some (count_error st, [])
  else if (2 ^ 63 - 1 <? u64 (Z.of_nat batch_size * 256))%Z then None
  else (fun w => (g_stats w, wire w)) <$> tcp_worker rounds (worker_new worker_id st).

End Workers.

(** ** The reporter *)

(** What a line of the report shows of the counters: the second, the packets and
    bytes of that second, and the totals. *)
Record ReportLine := mkReportLine {
  rl_second : Z; rl_packets : Z; rl_bytes : Z; rl_total : Z; rl_total_bytes : Z; rl_errors : Z
}.

(** [ticks]: the counters at each tick, and whether [running] was still set
    before it; the loop stops by itself after [duration] seconds. *)
Fixpoint reporter (duration second prev_pkts prev_bytes : Z) (ticks : list (bool * Stats)) : list ReportLine :=
  match ticks with
  | [] => []
  | (running, st) :: ticks' =>
      if negb running then []
      else
        let second' := u64 (second + 1) in
        let line := mkReportLine second' (Z.max 0 (packets_sent st - prev_pkts)) (Z.max 0 (bytes_sent st - prev_bytes))
                      (packets_sent st) (bytes_sent st) (errors st) in
        if (0 <? duration)%Z && (duration <=? second')%Z then [line]
        else line :: reporter duration second' (packets_sent st) (bytes_sent st) ticks'
  end.

(** The summary at the end. *)
Definition avg_eps (elapsed : f64) (st : Stats) : Z :=
  if f64_lt f64_zero elapsed then f64_to_u64 (f64_div (f64_of_Z (packets_sent st)) elapsed) else 0%Z.

Definition avg_mb_sec (elapsed : f64) (st : Stats) : f64 :=
  if f64_lt f64_zero elapsed
  then f64_div (f64_div (f64_of_Z (bytes_sent st)) (f64_mul (f64_of_Z 1024) (f64_of_Z 1024))) elapsed else f64_zero.
