(* ===== verification/GeneratorFacts.v ===== *)
(** * What the traffic generator guarantees

    The lines of a data set are fit to be sent; a worker goes round them in
    order and keeps to its rate; what a TCP worker writes is what the TCP
    listener delivers. *)

From S2P Require Export Generator CliFacts SocketFacts.

(** ** Text *)

(** A trimmed text has no white space at its end. *)
Lemma trimmed_end s : utf8_valid s = true -> trim s = s -> drop_while_end is_whitespace (chars s) = chars s.
Proof. intros Hv Ht. destruct (chars_trim s Hv) as [E _]. rewrite Ht in E. rewrite E. apply drop_while_end_idem. Qed.

Lemma drop_while_end_app {A} (p : A -> bool) l1 l2 : l2 <> [] -> drop_while_end p l2 = l2 -> drop_while_end p (l1 ++ l2) = l1 ++ l2.
Proof.
  intros Hne He. destruct l2 as [|x l _] using rev_ind; [done|]. unfold drop_while_end in He. rewrite reverse_snoc in He. simpl in He.
  destruct (p x) eqn:E; [|by rewrite app_assoc; apply drop_while_end_snoc].
  exfalso. destruct (drop_while_suffix p (reverse l)) as [l1' E1]. apply (f_equal length) in He, E1.
  rewrite length_app in E1. rewrite length_app, !length_reverse in *. simpl in He. lia.
Qed.

Lemma trimmed_no_cr s : utf8_valid s = true -> trim s = s -> strip_cr s = s.
Proof.
  intros Hv Ht. unfold strip_cr. destruct (string_snoc s) as [->|(body & a & ->)]; [done|]. rewrite strip_suffix_char_snoc.
  destruct (Ascii.eqb_spec a carriage_return) as [->|]; [|done]. exfalso.
  pose proof (trimmed_end _ Hv Ht) as E. destruct (chars_last body carriage_return eq_refl Hv) as [cs Ec]. rewrite Ec in E.
  unfold drop_while_end in E. rewrite reverse_snoc in E. simpl in E.
  destruct (drop_while_suffix is_whitespace (reverse cs)) as [l1 E1]. apply (f_equal length) in E, E1.
  rewrite length_app in E1. rewrite length_app, !length_reverse in *. simpl in E. lia.
Qed.

Lemma utf8_app2 s t : utf8_valid s = true -> utf8_valid t = true -> utf8_valid (s +:+ t) = true.
Proof. intros Hs Ht. by rewrite utf8_valid_app. Qed.

Lemma no_newline_app s t : no_newline s = true -> no_newline t = true -> no_newline (s +:+ t) = true.
Proof. unfold no_newline. intros Hs Ht. by rewrite all_bytes_app, Hs. Qed.

(** *** Splitting *)

Lemma split_bytes q c s : all_bytes q s = true -> Forall (fun p => all_bytes q p = true) (split_char c s).
Proof.
  induction s as [|a s IH]; simpl; [by repeat constructor|]. intros [Ha Hs]%andb_true_iff. specialize (IH Hs).
  destruct (Ascii.eqb a c); [by constructor|]. destruct (split_char c s) as [|h t]; [by constructor; [simpl; rewrite Ha|]|].
  apply Forall_cons in IH as [Hh Ht]. constructor; [|done]. simpl. by rewrite Ha.
Qed.

Lemma split_no_sep c s : Forall (fun p => all_bytes (fun a => negb (Ascii.eqb a c)) p = true) (split_char c s).
Proof.
  induction s as [|a s IH]; simpl; [by repeat constructor|]. destruct (Ascii.eqb a c) eqn:E; [by constructor|].
  destruct (split_char c s) as [|h t]; [by constructor; [simpl; rewrite E|]|].
  apply Forall_cons in IH as [Hh Ht]. constructor; [|done]. simpl. by rewrite E.
Qed.

Lemma strip_cr_bytes q s : all_bytes q s = true -> all_bytes q (strip_cr s) = true.
Proof.
  unfold strip_cr. destruct (string_snoc s) as [->|(body & a & ->)]; [done|]. rewrite strip_suffix_char_snoc.
  destruct (Ascii.eqb a carriage_return); [|done]. rewrite all_bytes_app. by intros [? _]%andb_true_iff.
Qed.

Lemma lines_no_newline s : Forall (fun l => no_newline l = true) (lines s).
Proof.
  unfold lines. pose proof (split_no_sep newline s) as HF. induction HF as [|x l Hx HF IH]; [done|]. cbn [lines_of].
  destruct l as [|y l]; [by destruct (is_empty x); constructor|]. constructor; [by apply strip_cr_bytes|done].
Qed.

(** ** The data sets *)

(** A line that reaches the other side as it is. *)
Record sendable (l : string) : Prop := {
  sl_utf8 : utf8_valid l = true;
  sl_line : no_newline l = true;
  sl_ne : l <> "";
  sl_trim : trim l = l
}.

Lemma read_lines_sendable fs path ls : read_lines fs path = Ok ls -> Forall sendable ls.
Proof.
  unfold read_lines. destruct (fs_read fs path) as [text|]; [|done]. destruct (forallb utf8_valid (lines text)) eqn:Hv; [|done].
  intros [= <-]. rewrite forallb_forall in Hv. apply Forall_forall. intros l Hl%list_elem_of_In. apply filter_In in Hl as [Hl Hne].
  apply list_elem_of_In, list_elem_of_fmap in Hl as (x & -> & Hx). pose proof (Hv x (proj1 (list_elem_of_In _ _) Hx)) as Hu.
  pose proof (lines_no_newline text) as Hn. rewrite Forall_forall in Hn. split.
  - by apply chars_trim.
  - apply all_bytes_trim. by apply Hn.
  - by destruct (trim x).
  - by apply trim_idem.
Qed.

Section Datasets.
Context (clock : nat -> string) (fs : Files) (data_dir : string).
(** [%b %d %H:%M:%S] gives ASCII text on one line. *)
Hypothesis clock_text : forall n, all_bytes is_ascii (clock n) = true /\ no_newline (clock n) = true.

Record part_ok (p : string) : Prop := { po_utf8 : utf8_valid p = true; po_line : no_newline p = true; po_trim : trim p = p }.

Lemma row_part_ok row i d : utf8_valid row = true -> no_newline row = true -> part_ok d -> part_ok (part (trim <$> split_char "," row) i d).
Proof.
  intros Hu Hn Hd. unfold part. destruct ((trim <$> split_char "," row) !! i) as [p|] eqn:E; [|exact Hd]. simpl.
  rewrite list_lookup_fmap in E. apply fmap_Some in E as (x & Hx & ->).
  pose proof (Forall_lookup_1 _ _ _ _ (split_utf8 "," row eq_refl Hu) Hx) as Hxu.
  pose proof (Forall_lookup_1 _ _ _ _ (split_bytes _ "," row Hn) Hx) as Hxn.
  split; [by apply chars_trim|by apply all_bytes_trim|by apply trim_idem].
Qed.

Lemma zero_part_ok : part_ok "0".
Proof. by split. Qed.

(** A text that ends in [=] and a value. *)
Definition ends_in (s p : string) : Prop := exists body, utf8_valid body = true /\ s = body +:+ "=" +:+ p.

Lemma ends_in_app x s p : utf8_valid x = true -> ends_in s p -> ends_in (x +:+ s) p.
Proof. intros Hx (body & Hb & ->). exists (x +:+ body). split; [by apply utf8_app2|by rewrite str_app_assoc]. Qed.

Lemma trim_ends s p : ends_in s p -> part_ok p -> trim (String "<" s) = String "<" s.
Proof.
  intros (body & Hb & ->) [Pu _ Pt]. unfold trim, trim_matches. rewrite <- (chars_concat (String "<" (body +:+ "=" +:+ p))) at 2.
  rewrite chars_ascii_cons by done. cbn [drop_while]. change (is_whitespace "<") with false. cbn match. f_equal.
  rewrite chars_app by done. cbn [String.append]. rewrite chars_ascii_cons by done.
  destruct (chars p) as [|c cp] eqn:Ep; [by apply (drop_while_end_snoc _ ("<" :: chars body))|].
  change ("<" :: chars body ++ "=" :: c :: cp) with (("<" :: chars body) ++ ["="] ++ c :: cp). rewrite app_assoc. apply drop_while_end_app; [done|]. rewrite <- Ep. by apply trimmed_end.
Qed.

Lemma syslog_sendable i row l : utf8_valid row = true -> no_newline row = true -> kaggle_row_to_syslog (clock i) row None = Some l -> sendable l.
Proof.
  intros Hu Hn. unfold kaggle_row_to_syslog. cbv zeta. destruct (_ <? _)%nat; [done|]. destruct (eq_ignore_ascii_case _ _); [done|].
  cbn [default]. intros <-%(inj Some). destruct (clock_text i) as [Ca Cn]. apply utf8_valid_ascii in Ca.
  pose proof (fun j => row_part_ok row j "0" Hu Hn zero_part_ok) as Hp.
  assert (part_ok (part (trim <$> split_char "," row) 4 "unknown")) as H4 by by apply row_part_ok.
  pose proof (fun j => po_utf8 _ (Hp j)) as Hpu. pose proof (fun j => po_line _ (Hp j)) as Hpn. destruct H4 as [H4u H4n _].
  pose proof (Hp 11) as Hl. set (parts := trim <$> split_char "," row) in *. set (last := part parts 11 "0") in *.
  split; [repeat (apply utf8_app2; [solve [done|apply Hpu]|]); apply Hpu|repeat (apply no_newline_app; [solve [done|apply Hpn]|]); apply Hpn|done|].
  match goal with |- trim ("<134>" +:+ ?r) = _ => apply (trim_ends ("134>" +:+ r) last); [|done] end. 
  repeat first [by exists " pkts_rcvd"|apply ends_in_app; [solve [done|apply Hpu]|]].
Qed.

Lemma convert_sendable rows i : Forall sendable rows -> Forall sendable (convert_rows clock i rows).
Proof.
  intros HF. revert i. induction HF as [|row rows [Hu Hn _ _] HF IH]; intros i; simpl; [done|].
  destruct (kaggle_row_to_syslog _ _ _) eqn:E; [|apply IH]. constructor; [by eapply syslog_sendable|apply IH].
Qed.

Lemma load_file_sendable name logs ls : Forall sendable logs -> load_file fs data_dir name logs = Ok ls -> Forall sendable ls.
Proof.
  unfold load_file. intros Hl. destruct (read_lines _ _) as [x|] eqn:E; [|done]. intros [= <-].
  apply Forall_app. split; [done|]. by eapply read_lines_sendable.
Qed.

Lemma load_kaggle_sendable logs ls : Forall sendable logs -> load_kaggle clock fs data_dir logs = Ok ls -> Forall sendable ls.
Proof.
  unfold load_kaggle. intros Hl. destruct (read_lines _ _) as [x|] eqn:E; [|done]. intros [= <-].
  apply Forall_app. split; [done|]. apply convert_sendable. by eapply read_lines_sendable.
Qed.

Lemma dataset_sendable kind logs : load_dataset clock fs data_dir kind = Ok logs -> logs <> [] /\ Forall sendable logs.
Proof.
  unfold load_dataset. cbv zeta.
  match goal with |- match ?m with _ => _ end = _ -> _ => destruct m as [ls|] eqn:E; [|done] end.
  destruct ls as [|l ls]; [done|]. intros [= <-]. split; [done|].
  pose proof (fun n a b Ha H => load_file_sendable n a b Ha H) as Hf. pose proof (fun a b Ha H => load_kaggle_sendable a b Ha H) as Hk.
  destruct kind; try (by eapply Hf; [|exact E]); [|by eapply Hk; [|exact E]].
  repeat match type of E with mbind _ ?m = _ => let Em := fresh in destruct m as [?|] eqn:Em; [|done]; cbn [mbind result_bind] in E; eapply Hf in Em; [|eassumption || done] end.
  eapply Hk; [|exact E]. done.
Qed.

End Datasets.

(** ** Round and round *)

(** The next [n] lines from index [i]. *)
Definition cycle (logs : list string) (i n : nat) : list string := (fun k => logs !!! ((i + k) mod length logs)) <$> seq 0 n.

Lemma mod_step len i k : len <> 0 -> ((i + 1) mod len + k) mod len = (i + S k) mod len.
Proof. intros Hl. rewrite Nat.Div0.add_mod_idemp_l. f_equal. lia. Qed.

Lemma cycle_S logs i n : i < length logs -> cycle logs i (S n) = logs !!! i :: cycle logs ((i + 1) mod length logs) n.
Proof.
  intros Hi. unfold cycle. rewrite <- cons_seq, fmap_cons, Nat.add_0_r, Nat.mod_small by done. f_equal.
  rewrite <- fmap_S_seq, <- list_fmap_compose. apply list_fmap_ext. intros j k _. simpl. by rewrite mod_step by lia.
Qed.

Lemma cycle_app logs i n m : i < length logs -> cycle logs i (n + m) = cycle logs i n ++ cycle logs ((i + n) mod length logs) m.
Proof.
  intros Hi. unfold cycle. rewrite seq_app, fmap_app. f_equal. rewrite Nat.add_0_l.
  assert (seq n m = (fun k => n + k) <$> seq 0 m) as -> by (rewrite fmap_add_seq; f_equal; lia).
  rewrite <- list_fmap_compose. apply list_fmap_ext. intros j k _. simpl. rewrite Nat.Div0.add_mod_idemp_l. f_equal. f_equal. lia.
Qed.

Lemma cycle_fmap f logs i n : logs <> [] -> cycle (f <$> logs) i n = f <$> cycle logs i n.
Proof.
  intros Hl. unfold cycle. rewrite length_fmap, <- list_fmap_compose. apply list_fmap_ext. intros j k _. simpl.
  apply list_lookup_total_fmap. apply Nat.mod_upper_bound. by destruct logs.
Qed.

Lemma cycle_Forall (P : string -> Prop) logs i n : logs <> [] -> Forall P logs -> Forall P (cycle logs i n).
Proof.
  intros Hl HF. apply Forall_fmap, Forall_forall. intros k _. simpl. eapply Forall_lookup_1; [exact HF|].
  apply list_lookup_lookup_total_lt. apply Nat.mod_upper_bound. by destruct logs.
Qed.

Section Workers.
Context (logs : list string) (rate : Z) (batch : nat).
Hypothesis logs_ne : logs <> [].

Lemma logs_pos : 0 < length logs.
Proof. destruct logs; [done|simpl; lia]. Qed.

Lemma idx_ok i : i mod length logs < length logs.
Proof. apply Nat.mod_upper_bound. pose proof logs_pos. lia. Qed.

Lemma fill_buf_cycle n : forall i buf, i < length logs ->
  fill_buf logs n i buf = Some ((i + n) mod length logs, buf +:+ str_concat (cycle logs i n)).
Proof.
  induction n as [|n IH]; intros i buf Hi; cbn [fill_buf].
  { rewrite Nat.add_0_r, Nat.mod_small by done. cbn. by rewrite str_app_nil_r. }
  rewrite (list_lookup_lookup_total_lt logs i Hi), IH by apply idx_ok. rewrite (mod_step _ i n), (cycle_S logs i n Hi) by lia.
  by rewrite str_concat_cons, str_app_assoc.
Qed.

(** *** The TCP worker, while its writes succeed *)

Lemma tcp_worker_cycle rounds : forall w, log_idx w < length logs -> Forall (fun r => r.2 = true) rounds ->
  exists w' n, tcp_worker logs rate batch rounds w = Some w' /\ u64 (sent_count w') = u64 (sent_count w + Z.of_nat n) /\
    u64 (packets_sent (g_stats w')) = u64 (packets_sent (g_stats w) + Z.of_nat n) /\
    str_concat (wire w') = str_concat (wire w) +:+ str_concat (cycle logs (log_idx w) n).
Proof.
  induction rounds as [|[t ok] rounds IH]; intros w Hw HF; cbn [tcp_worker].
  { exists w, 0. rewrite !Z.add_0_r. cbn. by rewrite str_app_nil_r. }
  apply Forall_cons in HF as [Hok HF]. simpl in Hok. subst ok. unfold tcp_iteration.
  destruct (to_send rate batch t (sent_count w)) as [n|]; [|by apply IH].
  rewrite fill_buf_cycle by done. cbn [String.append].
  match goal with |- context [tcp_worker _ _ _ _ ?w1] => destruct (IH w1) as (w' & m & E & E1 & E2 & E3) end; [apply idx_ok|done|].
  exists w', (n + m). simpl in *. rewrite E, E1, E2, E3, cycle_app, !str_concat_app, str_concat_cons by done.
  split_and!; [done|wrap_simpl; f_equal; lia..|by rewrite str_app_nil_r, str_app_assoc].
Qed.

(** Whether or not they do, it goes on. *)
Lemma tcp_worker_total rounds : forall w, log_idx w < length logs -> exists w', tcp_worker logs rate batch rounds w = Some w'.
Proof.
  induction rounds as [|[t ok] rounds IH]; intros w Hw; cbn [tcp_worker]; [eauto|]. unfold tcp_iteration.
  destruct (to_send rate batch t (sent_count w)) as [n|]; [|by apply IH]. rewrite fill_buf_cycle by done.
  destruct ok; apply IH; apply idx_ok.
Qed.

(** *** The rate controller *)

Hypothesis rate_pos : (0 < rate)%Z.

Definition expected (t : f64) : Z := expected_sent rate t.

Lemma expected_nonneg t : (0 <= expected t)%Z.
Proof.
  unfold expected, expected_sent, f64_to_u64. destruct (f64_mul _ _) as [|[]| |[] m e]; try lia.
  apply Z.min_glb; [lia|]. destruct (Z.leb_spec 0 e); [apply Z.mul_nonneg_nonneg; [lia|apply Z.pow_nonneg; lia]|].
  apply Z.div_pos; [lia|]. apply Z.pow_pos_nonneg; lia.
Qed.

(** No sum of the controller wraps at time [t]. *)
Definition no_wrap (t : f64) : Prop := (expected t + Z.of_nat batch + 1 <= u64_max)%Z.

Lemma to_send_spec t sent : no_wrap t -> (0 <= sent)%Z ->
  match to_send rate batch t sent with
  | None => (expected t + Z.of_nat batch < sent)%Z
  | Some n => (sent + Z.of_nat n <= expected t + Z.of_nat batch + 1)%Z /\
      (Z.min (expected t) (sent + Z.of_nat batch) <= sent + Z.of_nat n)%Z
  end.
Proof.
  intros Hn Hs. unfold to_send. rewrite (proj2 (Z.ltb_lt 0 rate)) by done. unfold no_wrap, expected, u64_max in *.
  pose proof (expected_nonneg t) as He. unfold expected in He.
  unfold u64. rewrite wrapu_small by lia. destruct (Z.ltb_spec (expected_sent rate t + Z.of_nat batch) sent); [done|]. lia.
Qed.

(** The number due at the latest of some rounds. *)
Definition latest (ts : list f64) : Z := foldr (fun t => Z.max (expected t)) 0%Z ts.

Lemma latest_nonneg ts : (0 <= latest ts)%Z.
Proof. unfold latest. induction ts; simpl; lia. Qed.

(** *** The UDP worker *)

Definition all_sent (answer : nat -> option Z) : Prop := forall i, answer i <> None.

(** The state of the inner loop: [n] sends after [i]. *)
Lemma udp_batch_spec n : forall k answer i bb bp st out, i < length logs -> (0 <= bp)%Z -> (bp + Z.of_nat n <= u64_max)%Z ->
  exists bb' st' out' m, m <= n /\ udp_batch logs n k answer (i, bb, bp, st, out) =
      Some ((i + n) mod length logs, bb', (bp + Z.of_nat m)%Z, st', out') /\
    length out' = length out + m /\ packets_sent st' = packets_sent st /\
    (all_sent answer -> m = n /\ out' = out ++ cycle logs i n).
Proof.
  induction n as [|n IH]; intros k answer i bb bp st out Hi H0 Hm; cbn [udp_batch].
  { exists bb, st, out, 0. rewrite !Nat.add_0_r, Nat.mod_small, !Z.add_0_r by done. cbn. rewrite app_nil_r. by split_and!. }
  unfold udp_send. rewrite (list_lookup_lookup_total_lt logs i Hi). unfold u64_max in Hm.
  destruct (answer k) as [b|] eqn:Ea.
  - assert (u64 (bp + 1) = (bp + 1)%Z) as -> by (unfold u64; rewrite wrapu_small; lia).
    destruct (IH (S k) answer ((i + 1) mod length logs) (u64 (bb + b)) (bp + 1)%Z st (out ++ [logs !!! i]))
      as (bb' & st' & out' & m & Hle & E & E1 & E2 & E4); [apply idx_ok|unfold u64_max; lia..|].
    exists bb', st', out', (S m). rewrite E, mod_step by lia. rewrite length_app in E1. simpl in E1.
    replace (bp + 1 + Z.of_nat m)%Z with (bp + Z.of_nat (S m))%Z by lia.
    split_and!; [lia|done|lia|done|]. intros Ha. destruct (E4 Ha) as [-> ->].
    by rewrite (cycle_S logs i n Hi), <- app_assoc.
  - destruct (IH (S k) answer ((i + 1) mod length logs) bb bp (mkGenStats (packets_sent st) (bytes_sent st) (u64 (errors st + 1))) out)
      as (bb' & st' & out' & m & Hle & E & E1 & E2 & E4); [apply idx_ok|done|unfold u64_max; lia|].
    exists bb', st', out', m. rewrite E, mod_step by lia. split_and!; [lia|done|done|done|by intros Ha; destruct (Ha k)].
Qed.

(** What the worker has done by the end of its rounds: it has sent [sent_count]
    datagrams, counted each, and kept to the schedule. *)
Record paced (rounds : list (f64 * (nat -> option Z))) (w w' : GenWorker) : Prop := {
  pc_idx : log_idx w' < length logs;
  pc_count : (sent_count w <= sent_count w')%Z;
  pc_upper : (sent_count w' <= Z.max (sent_count w) (latest rounds.*1 + Z.of_nat batch + 1))%Z;
  pc_wire : Z.of_nat (length (wire w')) = (Z.of_nat (length (wire w)) + (sent_count w' - sent_count w))%Z;
  pc_stats : u64 (packets_sent (g_stats w')) = u64 (packets_sent (g_stats w) + (sent_count w' - sent_count w));
  pc_lower : forall e, Forall (fun r => all_sent r.2 /\ (e <= expected r.1)%Z) rounds ->
    (Z.min e (sent_count w + Z.of_nat (length rounds * batch)) <= sent_count w')%Z;
  pc_lines : Forall (fun r => all_sent r.2) rounds ->
    log_idx w' = (log_idx w + Z.to_nat (sent_count w' - sent_count w)) mod length logs /\
    wire w' = wire w ++ cycle logs (log_idx w) (Z.to_nat (sent_count w' - sent_count w))
}.

Lemma paced_nil w : log_idx w < length logs -> paced [] w w.
Proof.
  intros Hi. split; simpl; try lia; try done.
  - by rewrite Z.sub_diag, Z.add_0_r.
  - intros _. rewrite Z.sub_diag, Nat.add_0_r, Nat.mod_small by done. cbn. by rewrite app_nil_r.
Qed.

Lemma udp_round t answer w : no_wrap t -> (0 <= sent_count w)%Z -> log_idx w < length logs ->
  exists w', udp_iteration logs rate batch t answer w = Some w' /\ paced [(t, answer)] w w'.
Proof.
  intros Hn Hs Hi. unfold udp_iteration. pose proof (to_send_spec t (sent_count w) Hn Hs) as Hsp. pose proof (expected_nonneg t).
  destruct (to_send rate batch t (sent_count w)) as [n|].
  - unfold no_wrap, u64_max in Hn.
    destruct (udp_batch_spec n 0 answer (log_idx w) 0 0 (g_stats w) (wire w)) as (bb & st & out & m & Hle & -> & E1 & E2 & E4);
      [done|lia|unfold u64_max; lia|].
    eexists. split; [done|]. rewrite Z.add_0_l. assert (u64 (sent_count w + Z.of_nat m) = (sent_count w + Z.of_nat m)%Z) as ->
      by (unfold u64; rewrite wrapu_small; lia).
    split; simpl; try lia; [rewrite E2; unfold u64, wrapu; rewrite Zmod_mod; f_equal; lia| |].
    + intros e [[Ha He] _]%Forall_cons. destruct (E4 Ha) as [-> _]. simpl in He. lia.
    + intros [Ha _]%Forall_cons. destruct (E4 Ha) as [-> ->]. by replace (Z.to_nat _) with n by lia.
  - exists w. split; [done|]. destruct (paced_nil w Hi). split; simpl; try lia; try done.
    + intros e [[_ He] _]%Forall_cons. simpl in He. lia.
    + intros _. by apply pc_lines0.
Qed.

Lemma paced_cons r rounds w w1 w' : log_idx w < length logs -> paced [r] w w1 -> paced rounds w1 w' -> paced (r :: rounds) w w'.
Proof.
  intros Hi [A1 A2 A3 A4 A5 A6 A7] [B1 B2 B3 B4 B5 B6 B7]. split.
  - done.
  - lia.
  - pose proof (latest_nonneg rounds.*1). clear -A3 B3 H. rewrite fmap_cons. cbn [fmap list_fmap] in A3. unfold latest in *. cbn [foldr] in *. lia.
  - lia.
  - rewrite B5. unfold u64 in *. rewrite <- wrapu_add, A5. wrap_simpl. f_equal. lia.
  - intros e [H1 H2]%Forall_cons. assert (Forall (fun r => all_sent r.2 /\ (e <= expected r.1)%Z) [r]) as A by (constructor; [done|constructor]). specialize (A6 e A). specialize (B6 e H2).
    cbn [length] in *. rewrite Nat.mul_succ_l. rewrite Nat.mul_1_l in A6. generalize dependent (length rounds * batch). clear -A2 B2 A6.
    intros k Hk. lia.
  - intros [H1 H2]%Forall_cons. destruct A7 as [Ei Ew]; [constructor; [done|constructor]|]. destruct (B7 H2) as [Ei' Ew'].
    rewrite Ew', Ew, Ei', Ei, <- app_assoc, <- cycle_app by done. rewrite Nat.Div0.add_mod_idemp_l.
    replace (Z.to_nat (sent_count w' - sent_count w)) with (Z.to_nat (sent_count w1 - sent_count w) + Z.to_nat (sent_count w' - sent_count w1))
      by (clear -A2 B2; lia).
    by rewrite Nat.add_assoc.
Qed.

Lemma udp_worker_paced rounds : Forall (fun r => no_wrap r.1) rounds -> forall w, (0 <= sent_count w)%Z -> log_idx w < length logs ->
  exists w', udp_worker logs rate batch rounds w = Some w' /\ paced rounds w w'.
Proof.
  induction 1 as [|[t answer] rounds Hn HF IH]; intros w Hs Hi; cbn [udp_worker]; [exists w; split; [done|by apply paced_nil]|].
  destruct (udp_round t answer w Hn Hs Hi) as (w1 & -> & P1).
  destruct (IH w1) as (w' & -> & P2); [pose proof (pc_count _ _ _ P1); lia|apply (pc_idx _ _ _ P1)|].
  exists w'. split; [done|]. by eapply paced_cons.
Qed.

End Workers.

(** ** The properties *)

(** C28: the rate controller of a UDP worker with a rate above zero (zero means no
    limit) keeps to its schedule, as long as the number due plus a batch and one is a
    [u64], and the worker never leaves the data set.  Whatever the socket answers, at the end
    of the rounds the number of datagrams sent is at most the number due at the
    latest of them plus a batch and one, and is what the counter has gained and
    what is on the wire; when every send succeeds, the datagrams are the lines
    in order, round and round, and if [e] were due at every round then
    [e] have been sent, or a full batch in every round. *)
Theorem udp_rate_kept logs rate batch worker_id st rounds : logs <> [] -> (0 < rate)%Z ->
  Forall (fun r => (expected_sent rate r.1 + Z.of_nat batch + 1 <= u64_max)%Z) rounds ->
  exists w, udp_worker logs rate batch rounds (worker_new logs worker_id st) = Some w /\
    (sent_count w <= foldr (fun t => Z.max (expected_sent rate t)) 0 rounds.*1 + Z.of_nat batch + 1)%Z /\
    Z.of_nat (length (wire w)) = sent_count w /\ u64 (packets_sent (g_stats w)) = u64 (packets_sent st + sent_count w) /\
    (Forall (fun r => forall i, r.2 i <> None) rounds ->
       wire w = cycle logs ((worker_id * 17) mod length logs) (length (wire w)) /\
       forall e, Forall (fun r => (e <= expected_sent rate r.1)%Z) rounds ->
         (Z.min e (Z.of_nat (length rounds * batch)) <= sent_count w)%Z).
Proof.
  intros Hl Hr HF. destruct (udp_worker_paced logs rate batch Hl Hr rounds HF (worker_new logs worker_id st)) as (w & E & P); [done|by apply idx_ok|].
  exists w. destruct P as [P1 P2 P3 P4 P5 P6 P7]. cbn in P2, P3, P4, P5, P6, P7. split_and!; [done| |lia|by rewrite P5, Z.sub_0_r|].
  - etrans; [exact P3|]. apply Z.max_lub; [|reflexivity]. pose proof (latest_nonneg rate rounds.*1). unfold latest, expected in *. lia.
  - intros Ha. split.
    + destruct (P7 Ha) as [_ Ew]. rewrite Ew at 1. f_equal. lia.
    + intros e He. apply P6. apply Forall_forall. intros r Hin. rewrite Forall_forall in Ha, He. split; [exact (Ha r Hin)|exact (He r Hin)].
Qed.

(** *** From the file to the listener's channel *)

Lemma lines_encoded ls : Forall sendable ls -> lines (str_concat (encode_log Tcp <$> ls)) = ls.
Proof.
  induction 1 as [|l ls [Hu Hn Hne Ht] HF IH]; [done|]. rewrite fmap_cons, str_concat_cons. unfold encode_log at 1.
  rewrite str_app_assoc. cbn [String.append]. by rewrite lines_cons, IH, trimmed_no_cr.
Qed.

Lemma kept_sendable ls : Forall sendable ls -> kept ls = ls.
Proof.
  induction 1 as [|l ls [Hu Hn Hne Ht] HF IH]; [done|]. rewrite kept_cons, Ht, IH. by destruct l.
Qed.

(** C12: what a TCP worker sends is what a TCP listener delivers.  A worker that
    has connected, on any data set that loads and with a batch size whose buffer can be
    allocated (256 bytes a line, at most [isize::MAX] in all), never panics, whether or
    not its writes succeed.  While they do,
    the lines that the listener cuts from the bytes of the connection and passes
    to its channel are lines of the data set in order, round and round, from the
    worker's first index, unchanged, and as many as the counter of packets has gained. *)
Theorem tcp_traffic_arrives clock fs data_dir kind logs_str rate batch worker_id st rounds :
  (forall n, all_bytes is_ascii (clock n) = true /\ no_newline (clock n) = true) ->
  load_dataset clock fs data_dir kind = Ok logs_str -> (u64 (Z.of_nat batch * 256) <= 2 ^ 63 - 1)%Z ->
  exists st' out, run_tcp_worker (encode_log Tcp <$> logs_str) rate batch true worker_id rounds st = Some (st', out) /\
    (Forall (fun r => r.2 = true) rounds -> exists n, u64 (packets_sent st') = u64 (packets_sent st + Z.of_nat n) /\
       forall cfg accepts start close input, (forall k, accepts k = true) -> input.*2 = lines (str_concat out) ->
         concat (sent (tcp_connection cfg accepts start close input)) = cycle logs_str ((worker_id * 17) mod length logs_str) n).
Proof.
  intros Hc Hd Hcap. destruct (dataset_sendable clock fs data_dir Hc kind logs_str Hd) as [Hne HF].
  set (logs := encode_log Tcp <$> logs_str). assert (logs <> []) as Hl by (unfold logs; by destruct logs_str).
  destruct (tcp_worker_total logs rate batch Hl rounds (worker_new logs worker_id st)) as [w E]; [by apply idx_ok|].
  unfold run_tcp_worker. cbn [negb]. rewrite (proj2 (Z.ltb_ge _ _) Hcap), E. eexists _, _. split; [reflexivity|]. intros Hok.
  destruct (tcp_worker_cycle logs rate batch Hl rounds (worker_new logs worker_id st)) as (w' & n & E' & E1 & E2 & E3); [by apply idx_ok|done|].
  rewrite E in E'. injection E' as <-. exists n. split; [done|]. intros cfg accepts start close input Ha Hin.
  destruct (tcp_connection_lossless cfg accepts start close input Ha) as [-> _]. rewrite Hin, E3. cbn [worker_new wire log_idx].
  unfold logs. rewrite cycle_fmap, length_fmap by done. cbn [str_concat foldr String.append].
  assert (Forall sendable (cycle logs_str ((worker_id * 17) mod length logs_str) n)) as HC by by apply cycle_Forall.
  by rewrite lines_encoded, kept_sendable.
Qed.

(** ** The arguments *)

(** The workers together: never more than asked for, unless every worker is
    given the least rate, 1. *)
Lemma total_rate rate workers r : (0 < rate)%Z -> worker_rate rate workers = Some r ->
  (Z.of_nat workers * r <= Z.max rate (Z.of_nat workers))%Z /\ (rate - Z.of_nat workers < Z.of_nat workers * r)%Z.
Proof.
  intros Hr. unfold worker_rate. rewrite (proj2 (Z.ltb_lt 0 rate)) by done. destruct workers as [|k]; [done|]. intros [= <-].
  set (n := Z.of_nat (S k)). assert (0 < n)%Z by lia. clearbody n.
  pose proof (Z.div_mod rate n ltac:(lia)) as Ed. pose proof (Z.mod_pos_bound rate n ltac:(lia)) as Em.
  destruct (Z.max_spec (rate / n) 1) as [[Hq ->]|[Hq ->]]; [|lia]. assert (rate / n = 0)%Z as E0; [|rewrite E0 in Ed; lia].
  apply Z.le_antisymm; [lia|]. apply Z.div_pos; lia.
Qed.

(** No worker at all is a division by zero, once everything else is in order. *)
Lemma no_workers_panics `{UnicodeText} addr_ok exists_ is_dir clock cpus fs args proto kind dir logs :
  protocol_from_str (ga_proto args) = Ok proto -> dataset_from_str (ga_dataset args) = Ok kind -> addr_ok (ga_target args) = true ->
  locate_data_dir exists_ is_dir (ga_data_dir args) = Ok dir -> load_dataset clock fs dir kind = Ok logs ->
  (0 < ga_rate args)%Z -> ga_workers args = Some 0 ->
  gen_plan addr_ok exists_ is_dir clock cpus fs args = Panicked.
Proof.
  intros E1 E2 E3 E4 E5 Hr Hw. unfold gen_plan. rewrite E1, E2, E3. cbn [negb]. rewrite E4, E5. unfold num_workers, worker_rate. rewrite Hw.
  by rewrite (proj2 (Z.ltb_lt 0 _) Hr).
Qed.

(** The names of the data sets are read back. *)
Lemma dataset_str_from_str `{UnicodeText} k : (forall s, all_bytes is_ascii s = true -> to_lowercase s = to_ascii_lowercase s) ->
  dataset_from_str (dataset_str k) = Ok k.
Proof. intros Hl. unfold dataset_from_str. rewrite Hl by by destruct k. by destruct k. Qed.

(** ** The reporter *)

(** Counters that only grow. *)
Fixpoint growing (p b : Z) (ticks : list (bool * Stats)) : Prop :=
  match ticks with
  | [] => True
  | (_, st) :: ticks' => (p <= packets_sent st)%Z /\ (b <= bytes_sent st)%Z /\ growing (packets_sent st) (bytes_sent st) ticks'
  end.

Definition last_total (p : Z) (ls : list ReportLine) : Z := from_option rl_total p (last ls).

(** The packets per second add up to the last total, and a run that nobody
    interrupts reports once for each second of its duration. *)
Lemma reporter_adds_up ticks : forall duration second p b, (0 < duration)%Z -> (0 <= second < duration)%Z -> (duration <= u64_max)%Z ->
  growing p b ticks -> let ls := reporter duration second p b ticks in
  (p + Z.of_nat (sum_list_with Z.to_nat (rl_packets <$> ls)) = last_total p ls)%Z /\
  (Forall (fun t => t.1 = true) ticks -> Z.of_nat (length ls) = Z.min (Z.of_nat (length ticks)) (duration - second)).
Proof.
  induction ticks as [|[run st] ticks IH]; intros duration second p b Hd Hs Hm Hg; simpl; [split; [cbn; lia|lia]|].
  destruct Hg as (Hp & Hb & Hg). destruct run; cbn [negb]; [|split; [cbn; lia|by intros [? _]%Forall_cons]].
  unfold u64_max in Hm. assert (u64 (second + 1) = (second + 1)%Z) as -> by (unfold u64; rewrite wrapu_small; lia).
  rewrite (proj2 (Z.ltb_lt 0 duration)) by done. cbn [andb]. destruct (Z.leb_spec duration (second + 1)).
  { split; [cbn; lia|]. intros _. simpl. lia. }
  destruct (IH duration (second + 1)%Z (packets_sent st) (bytes_sent st)) as [E1 E2]; [done|lia|unfold u64_max; lia|done|]. split.
  - unfold last_total in *. rewrite last_cons. cbn [fmap list_fmap sum_list_with rl_packets].
    destruct (last (reporter _ _ _ _ ticks)); cbn [from_option rl_total] in *; lia.
  - intros [_ HF]%Forall_cons. simpl. rewrite Nat2Z.inj_succ, E2 by done. lia.
Qed.

(** ** Examples *)

Module GeneratorDemo.

Definition pings : list string := ["one"; "two"; "three"].

(** Two rounds of a worker at 4 lines a second with batches of 2: at 0.5 s and
    at 1 s. *)
Definition two_rounds : list (f64 * (nat -> option Z)) := [(f64_lit 1 2, fun _ => Some 3%Z); (f64_of_Z 1, fun _ => Some 3%Z)].

Lemma udp_rate_kept_witness : exists w, udp_worker pings 4 2 two_rounds (worker_new pings 1 stats_new) = Some w /\
  (2 <= sent_count w <= 7)%Z /\ wire w = cycle pings 2 (length (wire w)).
Proof.
  destruct (udp_rate_kept pings 4 2 1 stats_new two_rounds) as (w & E & Hu & _ & _ & Ha).
  - done.
  - lia.
  - repeat constructor; vm_compute; discriminate.
  - exists w. destruct Ha as [Ew Hl]; [repeat constructor; discriminate|]. split_and!; [done| | |exact Ew].
    + apply (Hl 2%Z). repeat constructor; vm_compute; discriminate.
    + etrans; [exact Hu|]. vm_compute. discriminate.
Defined.

Definition raw_files : Files :=
  mkFiles (fun p => if String.eqb p "raw/pfsense.log" then Ok ("  block in " +:+ String newline (String newline ("pass out" +:+ String newline ""))) else Err "no such file")
    (fun _ => true) (fun _ => true).

Lemma tcp_traffic_arrives_witness : exists st' out n,
  run_tcp_worker ["block in" +:+ String newline ""; "pass out" +:+ String newline ""] 0 3 true 1 [(f64_zero, true)] stats_new = Some (st', out) /\
  u64 (packets_sent st') = u64 (Z.of_nat n) /\
  forall input, input.*2 = lines (str_concat out) ->
    concat (sent (tcp_connection ingest_default (fun _ => true) 0 9 input)) = cycle ["block in"; "pass out"] 1 n.
Proof.
  destruct (tcp_traffic_arrives (fun _ => "Jan 01 00:00:00") raw_files "raw" Generator.PfSense ["block in"; "pass out"] 0 3 1 stats_new [(f64_zero, true)])
    as (st' & out & E & Hn).
  - done.
  - by vm_compute.
  - vm_compute. discriminate.
  - destruct Hn as (n & E1 & E2); [by repeat constructor|]. exists st', out, n. split; [exact E|]. split; [exact E1|]. intros input Hi. by apply E2.
Defined.

(** A batch size whose buffer cannot be allocated ends the worker. *)
Example huge_batch_panics : run_tcp_worker pings 0 (2 ^ 3) true 0 [] stats_new <> None /\
  forall logs rate batch id rounds st, (2 ^ 63 - 1 < u64 (Z.of_nat batch * 256))%Z -> run_tcp_worker logs rate batch true id rounds st = None.
Proof. split; [done|]. intros logs rate batch id rounds st Hb. unfold run_tcp_worker. cbn [negb]. by rewrite (proj2 (Z.ltb_lt _ _) Hb). Qed.

(** A row of the CSV file, as in the source's test. *)
Example kaggle_row : kaggle_row_to_syslog "" "57222,53,54587,53,allow,177,94,83,2,30,1,1" (Some "Sep 21 14:00:00") =
  Some ("<134>Sep 21 14:00:00 firewall-kaggle-01 %KAGGLE-FW-1-TRAFFIC: action=" +:+ dquote_str +:+ "allow" +:+ dquote_str +:+
        " src_port=57222 dst_port=53 nat_src_port=54587 nat_dst_port=53 bytes=177 sent_bytes=94 rcvd_bytes=83 packets=2 elapsed_sec=30 pkts_sent=1 pkts_rcvd=1").
Proof. reflexivity. Qed.

End GeneratorDemo.
