(* ===== verification/GeneratorConsole.v ===== *)
(** * What the generator prints ([crates/ulpf-generator/src/main.rs])

    The banner, the line of every second and the summary at the end.  The text of
    the target is the [Display] of its socket address. *)

From S2P Require Export Scorecard Generator.

(** [n as f64 / (1024.0 * 1024.0)] *)
Definition megabytes (n : Z) : f64 := f64_div (f64_of_Z n) (f64_mul (f64_of_Z 1024) (f64_of_Z 1024)).

(** [{:02}] *)
Definition two_digits (n : Z) : string := (if (n <? 10)%Z then "0" else "") +:+ uint_to_string n.

(** The banner before the data set is read. *)
Definition gen_banner (target : string) (proto : Protocol) (kind : DatasetKind) (workers : nat) (args : GenArgs) : list string :=
  let rule := repeat_str 60 "=" in
  [rule; " ULPF High-Speed Syslog Traffic Generator"; rule;
   "  Target:      " +:+ target +:+ " (" +:+ protocol_str proto +:+ ")";
   "  Dataset:     " +:+ dataset_str kind;
   (if (ga_rate args =? 0)%Z then "  Target Rate: UNTHROTTLED (MAX EPS)"
    else "  Target Rate: " +:+ uint_to_string (ga_rate args) +:+ " EPS (" +:+ uint_to_string (ga_rate args)
         +:+ " pkts/sec across " +:+ uint_to_string (Z.of_nat workers) +:+ " workers)");
   (if (ga_duration args =? 0)%Z then "  Duration:    Infinite (Press Ctrl+C to stop)"
    else "  Duration:    " +:+ uint_to_string (ga_duration args) +:+ " seconds");
   "  Workers:     " +:+ uint_to_string (Z.of_nat workers);
   "  Batch Size:  " +:+ uint_to_string (Z.of_nat (ga_batch_size args))].

(** Minutes and seconds of the report's clock. *)
Definition report_clock (second : Z) : string := two_digits (second / 60) +:+ ":" +:+ two_digits (second mod 60).

Definition report_text (l : ReportLine) : string :=
  "[" +:+ report_clock (rl_second l) +:+ "] Rate: " +:+ pad_left 7 (uint_to_string (rl_packets l))
  +:+ " pkts/s (EPS) | Bandwidth: " +:+ pad_left 6 (fmt_fixed 2 (megabytes (rl_bytes l)))
  +:+ " MB/s | Total: " +:+ pad_left 9 (uint_to_string (rl_total l))
  +:+ " pkts (" +:+ pad_left 6 (fmt_fixed 2 (megabytes (rl_total_bytes l)))
  +:+ " MB) | Errors: " +:+ uint_to_string (rl_errors l).

(** The summary; [println!] of a text that starts with a newline gives two lines. *)
Definition gen_summary (target : string) (proto : Protocol) (kind : DatasetKind) (elapsed : f64) (st : Stats) : list string :=
  let rule := repeat_str 60 "=" in
  [""; rule; " ULPF Generator Run Finished"; rule;
   "  Target:            " +:+ target +:+ " (" +:+ protocol_str proto +:+ ")";
   "  Dataset:           " +:+ dataset_str kind;
   "  Elapsed Time:      " +:+ fmt_fixed 2 elapsed +:+ " seconds";
   "  Total Packets:     " +:+ uint_to_string (packets_sent st) +:+ " pkts";
   "  Total Data Sent:   " +:+ fmt_fixed 2 (megabytes (bytes_sent st)) +:+ " MB (" +:+ uint_to_string (bytes_sent st) +:+ " bytes)";
   "  Average Rate:      " +:+ uint_to_string (avg_eps elapsed st) +:+ " pkts/sec (EPS)";
   "  Average Bandwidth: " +:+ fmt_fixed 2 (avg_mb_sec elapsed st) +:+ " MB/sec";
   "  Total Errors:      " +:+ uint_to_string (errors st);
   rule].

(** ** The clock *)

Lemma two_digits_table : NoDup (two_digits <$> seqZ 0 100) /\ Forall (fun n => String.length (two_digits n) = 2%nat) (seqZ 0 100).
Proof. by split; apply (bool_decide_unpack _); vm_compute. Qed.

Lemma two_digits_length n : (0 <= n < 100)%Z -> String.length (two_digits n) = 2%nat.
Proof. intros Hn. apply (proj1 (Forall_forall _ _) (proj2 two_digits_table)), elem_of_seqZ. lia. Qed.

Lemma two_digits_inj n m : (0 <= n < 100)%Z -> (0 <= m < 100)%Z -> two_digits n = two_digits m -> n = m.
Proof.
  intros Hn Hm E. pose proof (proj1 two_digits_table) as HD. rewrite NoDup_alt in HD.
  assert (Z.to_nat n = Z.to_nat m) as En; [|lia]. apply (HD _ _ (two_digits n)); rewrite list_lookup_fmap, lookup_seqZ_lt by lia; simpl.
  - do 2 f_equal. lia.
  - rewrite E. do 2 f_equal. lia.
Qed.

Lemma append_inj_length a a' b b' : String.length a = String.length a' -> a +:+ b = a' +:+ b' -> a = a' /\ b = b'.
Proof. revert a'. induction a as [|c a IH]; intros [|c' a'] Hl E; simpl in *; simplify_eq; [done|]. destruct (IH a'); by subst; auto. Qed.

(** Below a hundred minutes every second of a run has a time stamp of its own. *)
Theorem report_clock_inj s s' : (0 <= s < 6000)%Z -> (0 <= s' < 6000)%Z -> report_clock s = report_clock s' -> s = s'.
Proof.
  intros Hs Hs' E. unfold report_clock in E.
  apply append_inj_length in E as [E1 E2]; [|by rewrite !two_digits_length by (split; [apply Z.div_pos|apply Z.div_lt_upper_bound]; lia)].
  simplify_eq. apply two_digits_inj in E1; [|split; [apply Z.div_pos|apply Z.div_lt_upper_bound]; lia..].
  apply two_digits_inj in E2; [|pose proof (Z.mod_pos_bound s 60); lia|pose proof (Z.mod_pos_bound s' 60); lia].
  rewrite (Z.div_mod s 60), (Z.div_mod s' 60) by lia. congruence.
Qed.

(** The line after a minute and a second. *)
Example report_text_example :
  report_text (mkReportLine 61 50000 10485760 100000 20971520 3)
  = "[01:01] Rate:   50000 pkts/s (EPS) | Bandwidth:  10.00 MB/s | Total:    100000 pkts ( 20.00 MB) | Errors: 3".
Proof. by vm_compute. Qed.
